(** * MoneyMan multiplayer room: a shallow embedding of [src/game-room.js]

    The development models the [GameRoom] Durable Object: the handlers
    [webSocketMessage], [webSocketClose] and [alarm], the physics step
    [_advancePhysics], the round settlement [_endGame], the lobby
    transition [_returnToLobby], the restore after an eviction
    ([_ensureInitialized]) with [_persistState] and the socket
    attachments, and the helpers of [db.js] and of the worker entry.

    Modelling conventions.
    - A JavaScript number that the room computes with (positions, speeds,
      [timeLeft], the spawn accumulator) is an exact rational in lowest
      terms ([Qc]), so that JavaScript's [===] on numbers is Leibniz
      equality; IEEE-754 rounding is not modelled.  Scores, identifiers and
      [Date.now()] timestamps are integers ([Z]).
    - A JavaScript [Map] is an association list in insertion order.
    - Built-ins that the source calls but does not define ([Math.sin],
      [Math.PI], [Math.random], number-to-string conversion) and the absent
      module [hat-catalog.js] are fields of an environment record.
    - Every handler returns the new room together with the list of effects
      it performed (socket sends, broadcasts, alarms, storage writes), in
      program order.  All [Date.now()] reads of one handler run give the
      same value [now].
    - The room ([Room]) is the initialised in-memory object, and the
      handlers on it are the bodies that follow
      [await this._ensureInitialized()]; a connection is known by the
      player id that [fetch] gave it.  The module [GameRoom] adds what
      comes before: an instance that may have been evicted, with its
      storage and its sockets, and handlers that restore it first. *)

From Stdlib Require Import ZArith QArith Qcanon Qround List String Ascii Bool Lia Lqa.
From Stdlib Require Import Sorted Permutation.
Import ListNotations.

Set Implicit Arguments.

(* ================================================================== *)
(** ** JavaScript numbers *)
(* ================================================================== *)

Module Num.

Definition ofZ (z : Z) : Qc := Q2Qc (inject_Z z).
Definition ofQ (q : Q) : Qc := Q2Qc q.

(** [a <= b] and [a < b] as the booleans the source branches on. *)
Definition leb (a b : Qc) : bool := Qle_bool a b.
Definition ltb (a b : Qc) : bool := negb (Qle_bool b a).

(** [Math.min] and [Math.max] on two finite numbers. *)
Definition min (a b : Qc) : Qc := if leb a b then a else b.
Definition max (a b : Qc) : Qc := if leb a b then b else a.

(** [Math.round]: the nearest integer, halves rounded up. *)
Definition round (a : Qc) : Z := Qfloor (a + ofQ (1 # 2))%Qc.

(** [Math.round(a * k) / k], the rounding used in broadcast payloads. *)
Definition roundTo (k : Z) (a : Qc) : Qc :=
  (ofZ (round (a * ofZ k)) / ofZ k)%Qc.

(** The result of [Number(v)]: a finite number, an infinity or NaN. *)
Inductive xnum : Type :=
| NaN
| Fin (q : Qc)
| PosInf
| NegInf.

Definition isNaN (n : xnum) : bool :=
  match n with NaN => true | _ => false end.

(** [Math.max(lo, Math.min(hi, n))] for finite bounds and [n] not NaN. *)
Definition clamp (lo hi : Qc) (n : xnum) : Qc :=
  match n with
  | Fin q => max lo (min hi q)
  | PosInf => max lo hi
  | NegInf => lo
  | NaN => lo
  end.

End Num.

(* ================================================================== *)
(** ** Strings: the name filter *)
(* ================================================================== *)

Module Str.

Local Open Scope char_scope.

Definition inRange (lo hi c : ascii) : bool :=
  (nat_of_ascii lo <=? nat_of_ascii c)%nat
  && (nat_of_ascii c <=? nat_of_ascii hi)%nat.

Definition isLower (c : ascii) : bool := inRange "a" "z" c.
Definition isUpper (c : ascii) : bool := inRange "A" "Z" c.
Definition isDigit (c : ascii) : bool := inRange "0" "9" c.

(** The character class [[a-zA-Z0-9 _-]]. *)
Definition isNameChar (c : ascii) : bool :=
  isLower c || isUpper c || isDigit c
  || Ascii.eqb c " " || Ascii.eqb c "_" || Ascii.eqb c "-".

(** White space of [\s] and of [String.prototype.trim] among the
    8-bit code units: TAB, LF, VT, FF, CR, space and NBSP. *)
Definition isSpace (c : ascii) : bool :=
  let n := nat_of_ascii c in
  ((9 <=? n) && (n <=? 13))%nat || (n =? 32)%nat || (n =? 160)%nat.

(** The character class [[_\-\s]]. *)
Definition isSeparator (c : ascii) : bool :=
  Ascii.eqb c "_" || Ascii.eqb c "-" || isSpace c.

Definition hexLower (c : ascii) : bool := isDigit c || inRange "a" "f" c.
Definition isHex (c : ascii) : bool := hexLower c || inRange "A" "F" c.

Definition lowerChar (c : ascii) : ascii :=
  if isUpper c then ascii_of_nat (nat_of_ascii c + 32) else c.

Local Open Scope string_scope.

Fixpoint filter (f : ascii -> bool) (s : string) : string :=
  match s with
  | "" => ""
  | String c r => if f c then String c (filter f r) else filter f r
  end.

Fixpoint map (f : ascii -> ascii) (s : string) : string :=
  match s with
  | "" => ""
  | String c r => String (f c) (map f r)
  end.

(** [s.toLowerCase()] on ASCII text; the filter only ever receives
    sanitized names, which are ASCII. *)
Definition toLowerCase (s : string) : string := map lowerChar s.

Fixpoint trimStart (s : string) : string :=
  match s with
  | "" => ""
  | String c r => if isSpace c then trimStart r else s
  end.

(** Drops trailing white space: a character is kept when it is not
    white space or when something survives to its right. *)
Fixpoint trimEnd (s : string) : string :=
  match s with
  | "" => ""
  | String c r =>
      match trimEnd r with
      | "" => if isSpace c then "" else String c ""
      | r' => String c r'
      end
  end.

Definition trim (s : string) : string := trimEnd (trimStart s).

(** [s.slice(0, n)]. *)
Fixpoint take (n : nat) (s : string) : string :=
  match n, s with
  | O, _ => ""
  | _, "" => ""
  | S k, String c r => String c (take k r)
  end.

(** [s.includes(w)]. *)
Fixpoint includes (w s : string) : bool :=
  String.prefix w s
  || match s with
     | "" => false
     | String _ r => includes w r
     end.

Definition isEmpty (s : string) : bool :=
  match s with "" => true | _ => false end.

End Str.

Local Open Scope string_scope.

Definition BLOCKED_WORDS : list string :=
  [ "fuck"; "shit"; "ass"; "dick"; "cock"; "cunt"; "bitch"; "damn";
    "piss"; "slut"; "whore"; "fag"; "nig"; "rape"; "porn"; "sex";
    "tit"; "boob"; "penis"; "vagin"; "anus"; "jizz"; "cum"; "wank";
    "twat"; "prick"; "homo"; "retard" ].

(** [isNameClean]: separators are stripped before the substring test. *)
Definition isNameClean (name : string) : bool :=
  let lower := Str.filter (fun c => negb (Str.isSeparator c)) (Str.toLowerCase name) in
  negb (existsb (fun word => Str.includes word lower) BLOCKED_WORDS).

(** [sanitizeName]: keep the allowed characters, trim, keep 8 at most. *)
Definition sanitizeName (name : string) : string :=
  Str.take 8 (Str.trim (Str.filter Str.isNameChar name)).

(** [UUID_RE.test]: 8-4-4-4-12 hexadecimal digits, case-insensitive. *)
Fixpoint hexRun (n : nat) (s : string) : option string :=
  match n with
  | O => Some s
  | S k =>
      match s with
      | String c r => if Str.isHex c then hexRun k r else None
      | "" => None
      end
  end.

Definition dashThen (k : string -> bool) (s : string) : bool :=
  match s with
  | String c r => Ascii.eqb c "-"%char && k r
  | "" => false
  end.

Definition hexGroup (n : nat) (k : string -> bool) (s : string) : bool :=
  match hexRun n s with
  | Some r => k r
  | None => false
  end.

Definition UUID_RE_test (s : string) : bool :=
  hexGroup 8 (dashThen (hexGroup 4 (dashThen (hexGroup 4 (dashThen
    (hexGroup 4 (dashThen (hexGroup 12 Str.isEmpty)))))))) s.


(* ================================================================== *)
(** ** JavaScript [Map] in insertion order *)
(* ================================================================== *)

Module JsMap.
Section Ops.

Variable V : Type.

Definition t := list (string * V).

Fixpoint has (k : string) (m : t) : bool :=
  match m with
  | [] => false
  | (k', _) :: rest => String.eqb k k' || has k rest
  end.

Fixpoint get (k : string) (m : t) : option V :=
  match m with
  | [] => None
  | (k', v) :: rest => if String.eqb k k' then Some v else get k rest
  end.

(** [m.set(k, v)]: an existing key keeps its place, a new one goes last. *)
Fixpoint set (k : string) (v : V) (m : t) : t :=
  match m with
  | [] => [(k, v)]
  | (k', v') :: rest =>
      if String.eqb k k' then (k, v) :: rest else (k', v') :: set k v rest
  end.

Fixpoint delete (k : string) (m : t) : t :=
  match m with
  | [] => []
  | (k', v) :: rest =>
      if String.eqb k k' then rest else (k', v) :: delete k rest
  end.

Definition size (m : t) : nat := List.length m.

Definition keys (m : t) : list string := List.map fst m.

(** Mutates the object stored under [k], leaving the iteration order. *)
Fixpoint update (k : string) (f : V -> V) (m : t) : t :=
  match m with
  | [] => []
  | (k', v) :: rest =>
      if String.eqb k k' then (k', f v) :: rest
      else (k', v) :: update k f rest
  end.

End Ops.
End JsMap.

(* ================================================================== *)
(** ** Constants *)
(* ================================================================== *)

Local Open Scope Qc_scope.

Definition CANVAS_WIDTH : Qc := Num.ofZ 960.
Definition CANVAS_HEIGHT : Qc := Num.ofZ 540.
Definition GROUND_Y : Qc := CANVAS_HEIGHT - Num.ofZ 40.
Definition PLAYER_WIDTH : Qc := Num.ofZ 60.
Definition PLAYER_HEIGHT : Qc := Num.ofZ 70.
Definition COIN_RADIUS : Qc := Num.ofZ 16.

Definition BROADCAST_THROTTLE_MS : Z := 50.
Definition FALLBACK_ALARM_MS : Z := 1000.
Definition MAX_PHYSICS_DT : Qc := Num.ofQ (2 # 10).
Definition GAME_DURATION : Qc := Num.ofZ 60.
Definition COUNTDOWN_SECONDS : Z := 5.
Definition GAME_OVER_DISPLAY_SECONDS : Z := 5.
Definition LOBBY_IDLE_TIMEOUT : Z := 20.
Definition MAX_PLAYERS : nat := 5.

Definition COIN_BASE_SPEED : Qc := Num.ofZ 89.
Definition COIN_SPEED_VARIATION : Qc := Num.ofZ 71.
Definition COIN_SPAWN_INTERVAL : Qc := Num.ofQ (5 # 10).
Definition COIN_CAP : nat := 50.

Definition COLLISION_FORGIVENESS : Qc := Num.ofZ 8.

Definition PLAYER_COLORS : list string :=
  [ "#e74c3c"; "#3498db"; "#2ecc71"; "#f39c12"; "#9b59b6" ].

(** [PLAYER_COLORS[i % PLAYER_COLORS.length]]. *)
Definition colorAt (i : nat) : string :=
  nth (i mod List.length PLAYER_COLORS) PLAYER_COLORS "".

Definition SCORE_PER_COIN : Z := 10.
Definition WINNER_BONUS : Z := 50.
Definition PARTICIPATION_BONUS : Z := 25.

(* ================================================================== *)
(** ** Data model *)
(* ================================================================== *)

Inductive GameState : Type := LOBBY | COUNTDOWN | PLAYING | GAME_OVER.

Definition GameState_eqb (a b : GameState) : bool :=
  match a, b with
  | LOBBY, LOBBY | COUNTDOWN, COUNTDOWN | PLAYING, PLAYING | GAME_OVER, GAME_OVER => true
  | _, _ => false
  end.

(** An entry of [this.players]; its socket is the connection whose id is
    the entry's key. *)
Record Player : Type := mkPlayer {
  p_x : Qc;
  p_score : Z;
  p_color : string;
  p_name : string;
  p_hat : string;
  p_userId : option string;
  p_connected : bool
}.

(** An entry of [this.waitingRoom]. *)
Record Waiter : Type := mkWaiter {
  w_color : string;
  w_name : string;
  w_hat : string;
  w_userId : option string
}.

Record Coin : Type := mkCoin {
  c_id : Z;
  c_x : Qc;
  c_y : Qc;
  c_speed : Qc;
  c_radius : Qc;
  c_rotation : Qc;
  c_rotationSpeed : Qc;
  c_wobbleOffset : Qc;
  c_wobbleAmount : Qc
}.

(** [{ playerId, x, y }], pushed on a catch. *)
Record CollectedEvent : Type := mkCollected {
  ev_playerId : string;
  ev_x : Qc;
  ev_y : Qc
}.

Record Room : Type := mkRoom {
  state : GameState;
  players : JsMap.t Player;
  waitingRoom : JsMap.t Waiter;
  coins : list Coin;
  nextCoinId : Z;
  timeLeft : Qc;
  countdownSeconds : Z;
  coinSpawnAccumulator : Qc;
  nextPlayerId : Z;
  lastPhysicsTime : Z;
  lastBroadcastTime : Z;
  pendingCollected : list CollectedEvent;
  (** how many results of [Math.random()] have been consumed *)
  randomCursor : nat
}.

(** The room as the constructor leaves it. *)
Definition newRoom : Room :=
  {| state := LOBBY; players := []; waitingRoom := []; coins := [];
     nextCoinId := 1; timeLeft := GAME_DURATION;
     countdownSeconds := COUNTDOWN_SECONDS; coinSpawnAccumulator := 0;
     nextPlayerId := 1; lastPhysicsTime := 0; lastBroadcastTime := 0;
     pendingCollected := []; randomCursor := 0 |}.

Definition setState (v : GameState) (r : Room) : Room :=
  mkRoom v (players r) (waitingRoom r) (coins r) (nextCoinId r) (timeLeft r)
    (countdownSeconds r) (coinSpawnAccumulator r) (nextPlayerId r)
    (lastPhysicsTime r) (lastBroadcastTime r) (pendingCollected r) (randomCursor r).

Definition setPlayers (v : JsMap.t Player) (r : Room) : Room :=
  mkRoom (state r) v (waitingRoom r) (coins r) (nextCoinId r) (timeLeft r)
    (countdownSeconds r) (coinSpawnAccumulator r) (nextPlayerId r)
    (lastPhysicsTime r) (lastBroadcastTime r) (pendingCollected r) (randomCursor r).

Definition setWaitingRoom (v : JsMap.t Waiter) (r : Room) : Room :=
  mkRoom (state r) (players r) v (coins r) (nextCoinId r) (timeLeft r)
    (countdownSeconds r) (coinSpawnAccumulator r) (nextPlayerId r)
    (lastPhysicsTime r) (lastBroadcastTime r) (pendingCollected r) (randomCursor r).

Definition setCoins (v : list Coin) (r : Room) : Room :=
  mkRoom (state r) (players r) (waitingRoom r) v (nextCoinId r) (timeLeft r)
    (countdownSeconds r) (coinSpawnAccumulator r) (nextPlayerId r)
    (lastPhysicsTime r) (lastBroadcastTime r) (pendingCollected r) (randomCursor r).

Definition setNextCoinId (v : Z) (r : Room) : Room :=
  mkRoom (state r) (players r) (waitingRoom r) (coins r) v (timeLeft r)
    (countdownSeconds r) (coinSpawnAccumulator r) (nextPlayerId r)
    (lastPhysicsTime r) (lastBroadcastTime r) (pendingCollected r) (randomCursor r).

Definition setTimeLeft (v : Qc) (r : Room) : Room :=
  mkRoom (state r) (players r) (waitingRoom r) (coins r) (nextCoinId r) v
    (countdownSeconds r) (coinSpawnAccumulator r) (nextPlayerId r)
    (lastPhysicsTime r) (lastBroadcastTime r) (pendingCollected r) (randomCursor r).

Definition setCountdownSeconds (v : Z) (r : Room) : Room :=
  mkRoom (state r) (players r) (waitingRoom r) (coins r) (nextCoinId r) (timeLeft r)
    v (coinSpawnAccumulator r) (nextPlayerId r)
    (lastPhysicsTime r) (lastBroadcastTime r) (pendingCollected r) (randomCursor r).

Definition setCoinSpawnAccumulator (v : Qc) (r : Room) : Room :=
  mkRoom (state r) (players r) (waitingRoom r) (coins r) (nextCoinId r) (timeLeft r)
    (countdownSeconds r) v (nextPlayerId r)
    (lastPhysicsTime r) (lastBroadcastTime r) (pendingCollected r) (randomCursor r).

Definition setLastPhysicsTime (v : Z) (r : Room) : Room :=
  mkRoom (state r) (players r) (waitingRoom r) (coins r) (nextCoinId r) (timeLeft r)
    (countdownSeconds r) (coinSpawnAccumulator r) (nextPlayerId r)
    v (lastBroadcastTime r) (pendingCollected r) (randomCursor r).

Definition setLastBroadcastTime (v : Z) (r : Room) : Room :=
  mkRoom (state r) (players r) (waitingRoom r) (coins r) (nextCoinId r) (timeLeft r)
    (countdownSeconds r) (coinSpawnAccumulator r) (nextPlayerId r)
    (lastPhysicsTime r) v (pendingCollected r) (randomCursor r).

Definition setPendingCollected (v : list CollectedEvent) (r : Room) : Room :=
  mkRoom (state r) (players r) (waitingRoom r) (coins r) (nextCoinId r) (timeLeft r)
    (countdownSeconds r) (coinSpawnAccumulator r) (nextPlayerId r)
    (lastPhysicsTime r) (lastBroadcastTime r) v (randomCursor r).

Definition setRandomCursor (v : nat) (r : Room) : Room :=
  mkRoom (state r) (players r) (waitingRoom r) (coins r) (nextCoinId r) (timeLeft r)
    (countdownSeconds r) (coinSpawnAccumulator r) (nextPlayerId r)
    (lastPhysicsTime r) (lastBroadcastTime r) (pendingCollected r) v.

(* ================================================================== *)
(** ** Wire protocol and effects *)
(* ================================================================== *)

(** A value found in a parsed JSON message.  An object or array carries
    the text that [String(v)] gives for it. *)
Inductive jsval : Type :=
| JUndefined
| JNull
| JBool (b : bool)
| JNumber (n : Num.xnum)
| JString (s : string)
| JObject (text : string).

Definition truthy (v : jsval) : bool :=
  match v with
  | JUndefined | JNull => false
  | JBool b => b
  | JNumber Num.NaN => false
  | JNumber (Num.Fin q) => negb (Qc_eq_bool q 0)
  | JNumber _ => true
  | JString s => negb (Str.isEmpty s)
  | JObject _ => true
  end.

(** What [webSocketMessage] makes of a frame.  [InDropped] is a binary
    frame, a frame longer than 512 or one that [JSON.parse] rejects;
    [InMove x] carries [Number(data.x)]; [InOther] is any other type. *)
Inductive Incoming : Type :=
| InDropped
| InJoin (name userId hat : jsval)
| InMove (x : Num.xnum)
| InOther.

Record LobbyEntry : Type := mkLobbyEntry {
  le_playerId : string; le_name : string; le_color : string; le_hat : string
}.

Record StatePlayer : Type := mkStatePlayer {
  sp_playerId : string; sp_x : Z; sp_score : Z;
  sp_color : string; sp_name : string; sp_hat : string
}.

Record StateCoin : Type := mkStateCoin {
  sc_id : Z; sc_x : Qc; sc_y : Qc; sc_rotation : Qc
}.

(** An element of [ranked] in [_endGame], after the award loop. *)
Record Ranked : Type := mkRanked {
  rk_playerId : string; rk_name : string; rk_score : Z; rk_color : string;
  rk_hat : string; rk_userId : option string;
  rk_coinsEarned : Z; rk_isWinner : bool
}.

Record CoinAward : Type := mkCoinAward {
  ca_userId : string; ca_coinsEarned : Z; ca_isWinner : bool; ca_name : string
}.

Inductive ServerMsg : Type :=
| MsgLobby (playerList : list LobbyEntry) (idleTimer : Z)
| MsgCountdown (seconds : Z)
| MsgGameState (statePlayers : list StatePlayer) (stateCoins : list StateCoin)
               (stateTimeLeft : Qc) (collected : option (list CollectedEvent))
| MsgGameOver (ranked : list Ranked)
| MsgWaiting (message : string)
| MsgNameRejected (reason : string).

(** What a handler does to the outside world. *)
Inductive Effect : Type :=
| Send (to : string) (m : ServerMsg)      (* ws.send on the socket of [to] *)
| BroadcastAll (m : ServerMsg)            (* _broadcastAll *)
| SetAlarm (time : Z)                     (* ctx.storage.setAlarm *)
| AwardCoins (batch : list CoinAward)     (* awardCoins(env.DB, ...) *)
| PersistState.                           (* _persistState *)

(** What the source uses and does not define. *)
Record Env : Type := mkEnv {
  Math_sin : Qc -> Qc;
  Math_PI : Qc;
  (** the [n]-th result of [Math.random()] *)
  Math_random : nat -> Qc;
  (** [String(n)] for a number *)
  Number_toString : Num.xnum -> string;
  (** whether [HAT_CATALOG[id]] is truthy *)
  HAT_CATALOG : string -> bool;
  (** whether [this.env.DB] is set *)
  env_DB : bool
}.

(* ================================================================== *)
(** ** The room: physics, transitions, handlers *)
(* ================================================================== *)

Local Open Scope list_scope.

Definition nonEmpty {A : Type} (l : list A) : bool :=
  match l with [] => false | _ => true end.

(** [h || 'cap']. *)
Definition orCap (h : string) : string :=
  if Str.isEmpty h then "cap" else h.

(** [u || null]. *)
Definition orNull (u : option string) : option string :=
  match u with
  | Some s => if Str.isEmpty s then None else Some s
  | None => None
  end.

Definition addScore (n : Z) (p : Player) : Player :=
  mkPlayer (p_x p) (p_score p + n)%Z (p_color p) (p_name p) (p_hat p)
    (p_userId p) (p_connected p).

Definition setX (x : Qc) (p : Player) : Player :=
  mkPlayer x (p_score p) (p_color p) (p_name p) (p_hat p)
    (p_userId p) (p_connected p).

(** The player's start position in the lobby. *)
Definition LOBBY_X : Qc := CANVAS_WIDTH / Num.ofZ 2 - PLAYER_WIDTH / Num.ofZ 2.

(** Result of the coin loop of [_advancePhysics]. *)
Record LoopResult : Type := mkLoop {
  lr_coins : list Coin;
  lr_players : JsMap.t Player;
  lr_collected : list CollectedEvent
}.

Section Room.

Variable E : Env.

(** *** Physics *)

Definition _spawnCoin (r : Room) : Room :=
  if (COIN_CAP <=? List.length (coins r))%nat then r
  else
    let k := randomCursor r in
    let rnd := Math_random E in
    let coin :=
      {| c_id := nextCoinId r;
         c_x := COIN_RADIUS + rnd k * (CANVAS_WIDTH - COIN_RADIUS * Num.ofZ 2);
         c_y := - COIN_RADIUS;
         c_speed := COIN_BASE_SPEED + rnd (k + 1)%nat * COIN_SPEED_VARIATION;
         c_radius := COIN_RADIUS;
         c_rotation := rnd (k + 2)%nat * Math_PI E * Num.ofZ 2;
         c_rotationSpeed := Num.ofZ 3 + rnd (k + 3)%nat * Num.ofZ 4;
         c_wobbleOffset := rnd (k + 4)%nat * Math_PI E * Num.ofZ 2;
         c_wobbleAmount :=
           Num.ofQ (3 # 10) + rnd (k + 5)%nat * Num.ofQ (5 # 10) |} in
    setRandomCursor (k + 6)%nat
      (setNextCoinId (nextCoinId r + 1)%Z
         (setCoins (coins r ++ [coin]) r)).

(** The [while (accumulator >= interval)] loop, at most [fuel] rounds. *)
Fixpoint spawnLoop (fuel : nat) (r : Room) : Room :=
  match fuel with
  | O => r
  | S fuel' =>
      if Num.leb COIN_SPAWN_INTERVAL (coinSpawnAccumulator r)
      then spawnLoop fuel'
             (_spawnCoin
                (setCoinSpawnAccumulator
                   (coinSpawnAccumulator r - COIN_SPAWN_INTERVAL) r))
      else r
  end.

(** Rounds that the loop can take from an accumulator [acc], plus one. *)
Definition spawnFuel (acc : Qc) : nat :=
  S (Z.to_nat (Qfloor (acc / COIN_SPAWN_INTERVAL)%Qc)).

(** Motion of one coin over [dt] seconds. *)
Definition moveCoin (dt : Qc) (c : Coin) : Coin :=
  let y := c_y c + c_speed c * dt in
  let x := c_x c
           + Math_sin E (y * Num.ofQ (2 # 100) + c_wobbleOffset c)
             * c_wobbleAmount c in
  mkCoin (c_id c) x y (c_speed c) (c_radius c)
    (c_rotation c + c_rotationSpeed c * dt)
    (c_rotationSpeed c) (c_wobbleOffset c) (c_wobbleAmount c).

(** [coin.y - COIN_RADIUS > GROUND_Y]. *)
Definition pastGround (c : Coin) : bool :=
  Num.ltb GROUND_Y (c_y c - COIN_RADIUS).

(** The box-to-circle test of one player against one coin. *)
Definition hits (p : Player) (c : Coin) : bool :=
  let playerY := GROUND_Y - PLAYER_HEIGHT in
  let closestX := Num.max (p_x p) (Num.min (c_x c) (p_x p + PLAYER_WIDTH)) in
  let closestY := Num.max playerY (Num.min (c_y c) (playerY + PLAYER_HEIGHT)) in
  let distX := c_x c - closestX in
  let distY := c_y c - closestY in
  let distSq := distX * distX + distY * distY in
  let hitRadius := COIN_RADIUS + COLLISION_FORGIVENESS in
  Num.ltb distSq (hitRadius * hitRadius).

(** The inner [for (const [playerId, player] of this.players)] loop:
    the first player that the coin hits gets the points, then [break]. *)
Fixpoint catchCoin (c : Coin) (ps : JsMap.t Player)
  : option (string * JsMap.t Player) :=
  match ps with
  | [] => None
  | (id, p) :: rest =>
      if hits p c then Some (id, (id, addScore SCORE_PER_COIN p) :: rest)
      else
        match catchCoin c rest with
        | Some (winner, rest') => Some (winner, (id, p) :: rest')
        | None => None
        end
  end.

(** One round of the outer loop, for the coin [c], after the rounds
    that gave [res]: move, drop past the ground, else look for a catch. *)
Definition coinStep (dt : Qc) (c : Coin) (res : LoopResult) : LoopResult :=
  let c' := moveCoin dt c in
  if pastGround c' then res
  else
    match catchCoin c' (lr_players res) with
    | Some (winner, ps') =>
        mkLoop (lr_coins res) ps'
          (lr_collected res ++ [mkCollected winner (c_x c') (c_y c')])
    | None => mkLoop (c' :: lr_coins res) (lr_players res) (lr_collected res)
    end.

(** The outer loop runs from the last index down to 0, so the tail of
    the list is processed before its head. *)
Fixpoint coinLoop (dt : Qc) (cs : list Coin) (ps : JsMap.t Player)
  : LoopResult :=
  match cs with
  | [] => mkLoop [] ps []
  | c :: rest => coinStep dt c (coinLoop dt rest ps)
  end.

Definition _advancePhysics (dt : Qc) (r : Room)
  : Room * list CollectedEvent :=
  let r1 := setTimeLeft (timeLeft r - dt) r in
  let r2 := setCoinSpawnAccumulator (coinSpawnAccumulator r1 + dt) r1 in
  let r3 := spawnLoop (spawnFuel (coinSpawnAccumulator r2)) r2 in
  let res := coinLoop dt (coins r3) (players r3) in
  (setPlayers (lr_players res) (setCoins (lr_coins res) r3), lr_collected res).

(** [Math.min((now - this.lastPhysicsTime) / 1000, MAX_PHYSICS_DT)]. *)
Definition physicsDt (now : Z) (r : Room) : Qc :=
  Num.min (Num.ofZ (now - lastPhysicsTime r) / Num.ofZ 1000) MAX_PHYSICS_DT.

(** *** Broadcasting *)

Definition lobbyEntry (e : string * Player) : LobbyEntry :=
  mkLobbyEntry (fst e) (p_name (snd e)) (p_color (snd e))
    (orCap (p_hat (snd e))).

Definition _broadcastLobbyMsg (r : Room) : list Effect :=
  [BroadcastAll (MsgLobby (List.map lobbyEntry (players r)) LOBBY_IDLE_TIMEOUT)].

Definition statePlayer (e : string * Player) : StatePlayer :=
  let p := snd e in
  mkStatePlayer (fst e) (Num.round (p_x p)) (p_score p) (p_color p)
    (p_name p) (orCap (p_hat p)).

Definition stateCoin (c : Coin) : StateCoin :=
  mkStateCoin (c_id c) (Num.roundTo 10 (c_x c)) (Num.roundTo 10 (c_y c))
    (Num.roundTo 100 (c_rotation c)).

Definition gameStateMsg (collected : list CollectedEvent) (r : Room)
  : ServerMsg :=
  MsgGameState (List.map statePlayer (players r)) (List.map stateCoin (coins r))
    (Num.roundTo 10 (timeLeft r))
    (if nonEmpty collected then Some collected else None).

Definition sendEach {V : Type} (msg : ServerMsg) (m : JsMap.t V) : list Effect :=
  List.map (fun e => Send (fst e) msg) m.

(** Entries whose socket took the message; the others are deleted. *)
Definition survivors {V : Type} (sendOk : string -> bool) (m : JsMap.t V)
  : JsMap.t V :=
  List.filter (fun e => sendOk (fst e)) m.

(** [sendOk id] tells whether [send] on the socket of [id] returns
    instead of throwing. *)
Definition _broadcastGameState (sendOk : string -> bool)
    (collected : list CollectedEvent) (r : Room) : Room * list Effect :=
  let json := gameStateMsg collected r in
  (setWaitingRoom (survivors sendOk (waitingRoom r))
     (setPlayers (survivors sendOk (players r)) r),
   sendEach json (players r) ++ sendEach json (waitingRoom r)).

(** *** Player management *)

Definition WAITING_TEXT : string :=
  "Game in progress — you'll join the next round!".

Definition _addToWaitingRoom (playerId name hat : string)
    (userId : option string) (r : Room) : Room * list Effect :=
  let colorIndex := JsMap.size (waitingRoom r) in
  (setWaitingRoom
     (JsMap.set playerId (mkWaiter (colorAt colorIndex) name hat userId)
        (waitingRoom r)) r,
   [Send playerId (MsgWaiting WAITING_TEXT)]).

Definition _startCountdown (now : Z) (r : Room) : Room * list Effect :=
  (setCountdownSeconds COUNTDOWN_SECONDS (setState COUNTDOWN r),
   [BroadcastAll (MsgCountdown COUNTDOWN_SECONDS); SetAlarm (now + 1000)%Z]).

Definition _addPlayerToLobby (now : Z) (playerId name hat : string)
    (userId : option string) (r : Room) : Room * list Effect :=
  if (MAX_PLAYERS <=? JsMap.size (players r))%nat
  then _addToWaitingRoom playerId name hat userId r
  else
    let colorIndex := JsMap.size (players r) in
    let r1 :=
      setPlayers
        (JsMap.set playerId
           (mkPlayer LOBBY_X 0 (colorAt colorIndex) name hat userId true)
           (players r)) r in
    let e1 := _broadcastLobbyMsg r1 in
    let e2 := if (JsMap.size (players r1) =? 1)%nat
              then [SetAlarm (now + LOBBY_IDLE_TIMEOUT * 1000)%Z] else [] in
    if (MAX_PLAYERS <=? JsMap.size (players r1))%nat
    then let '(r2, e3) := _startCountdown now r1 in (r2, e1 ++ e2 ++ e3)
    else (r1, e1 ++ e2).

(** *** State transitions *)

(** Start positions: player [i] of [n] stands at
    [(CANVAS_WIDTH / (n + 1)) * (i + 1) - PLAYER_WIDTH / 2]. *)
Fixpoint lineUp (n i : nat) (ps : JsMap.t Player) : JsMap.t Player :=
  match ps with
  | [] => []
  | (id, p) :: rest =>
      let x := CANVAS_WIDTH / Num.ofZ (Z.of_nat n + 1)
               * Num.ofZ (Z.of_nat i + 1)
               - PLAYER_WIDTH / Num.ofZ 2 in
      (id, mkPlayer x 0 (p_color p) (p_name p) (p_hat p) (p_userId p)
             (p_connected p))
      :: lineUp n (S i) rest
  end.

Definition _startPlaying (now : Z) (r : Room) : Room * list Effect :=
  let r1 :=
    mkRoom PLAYING (lineUp (JsMap.size (players r)) 0 (players r))
      (waitingRoom r) [] 1 GAME_DURATION (countdownSeconds r) 0
      (nextPlayerId r) now 0 [] (randomCursor r) in
  (r1, [SetAlarm (now + FALLBACK_ALARM_MS)%Z]).

(** An element of [ranked] before the award loop. *)
Definition rankedEntry (e : string * Player) : Ranked :=
  let p := snd e in
  mkRanked (fst e) (p_name p) (p_score p) (p_color p) (p_hat p) (p_userId p)
    0 false.

(** [ranked.sort((a, b) => b.score - a.score)]: descending by score,
    equal scores in their previous order. *)
Fixpoint insertRanked (x : Ranked) (l : list Ranked) : list Ranked :=
  match l with
  | [] => [x]
  | y :: rest =>
      if (rk_score x <? rk_score y)%Z then y :: insertRanked x rest
      else x :: y :: rest
  end.

Definition sortRanked (l : list Ranked) : list Ranked :=
  fold_right insertRanked [] l.

(** The body of the award loop for the entry at index [i]. *)
Definition award (i : nat) (p : Ranked) : Ranked :=
  let isWinner := (i =? 0)%nat && (0 <? rk_score p)%Z in
  let coinsFromScore := rk_score p in
  let bonus := if isWinner then WINNER_BONUS else 0%Z in
  let participation := PARTICIPATION_BONUS in
  let coinsEarned := (coinsFromScore + bonus + participation)%Z in
  mkRanked (rk_playerId p) (rk_name p) (rk_score p) (rk_color p) (rk_hat p)
    (rk_userId p) coinsEarned isWinner.

Fixpoint awardFrom (i : nat) (l : list Ranked) : list Ranked :=
  match l with
  | [] => []
  | p :: rest => award i p :: awardFrom (S i) rest
  end.

(** The entries pushed to [coinAwards]: those with a truthy [userId]. *)
Fixpoint coinAwardsOf (l : list Ranked) : list CoinAward :=
  match l with
  | [] => []
  | p :: rest =>
      match orNull (rk_userId p) with
      | Some u =>
          mkCoinAward u (rk_coinsEarned p) (rk_isWinner p) (rk_name p)
          :: coinAwardsOf rest
      | None => coinAwardsOf rest
      end
  end.

Definition rankPlayers (ps : JsMap.t Player) : list Ranked :=
  awardFrom 0 (sortRanked (List.map rankedEntry ps)).

Definition _endGame (now : Z) (r : Room) : Room * list Effect :=
  let ranked := rankPlayers (players r) in
  let coinAwards := coinAwardsOf ranked in
  (setState GAME_OVER r,
   [BroadcastAll (MsgGameOver ranked)]
   ++ sendEach (MsgGameOver ranked) (waitingRoom r)
   ++ (if nonEmpty coinAwards && env_DB E then [AwardCoins coinAwards] else [])
   ++ [SetAlarm (now + GAME_OVER_DISPLAY_SECONDS * 1000)%Z]).

Definition resetPlayer (index : nat) (p : Player) : Player :=
  mkPlayer LOBBY_X 0 (colorAt index) (p_name p) (p_hat p) (p_userId p)
    (p_connected p).

Definition playerOfWaiter (index : nat) (w : Waiter) : Player :=
  mkPlayer LOBBY_X 0 (colorAt index) (w_name w) (orCap (w_hat w))
    (orNull (w_userId w)) true.

(** First loop of [_returnToLobby]: current players are kept, with a
    [break] once [index] reaches [MAX_PLAYERS]. *)
Fixpoint keepPlayers (index : nat) (ps all : JsMap.t Player)
  : JsMap.t Player * nat :=
  match ps with
  | [] => (all, index)
  | (id, p) :: rest =>
      let all' := JsMap.set id (resetPlayer index p) all in
      if (MAX_PLAYERS <=? S index)%nat then (all', S index)
      else keepPlayers (S index) rest all'
  end.

(** Second loop: waiters become players while [index < MAX_PLAYERS],
    the others are copied to [remainingWaiters]. *)
Fixpoint promoteWaiters (index : nat) (ws : JsMap.t Waiter)
    (all : JsMap.t Player) (remaining : JsMap.t Waiter)
  : JsMap.t Player * JsMap.t Waiter :=
  match ws with
  | [] => (all, remaining)
  | (id, w) :: rest =>
      if (index <? MAX_PLAYERS)%nat
      then promoteWaiters (S index) rest
             (JsMap.set id (playerOfWaiter index w) all) remaining
      else promoteWaiters index rest all (JsMap.set id w remaining)
  end.

Definition _returnToLobby (now : Z) (r : Room) : Room * list Effect :=
  let '(kept, index) := keepPlayers 0 (players r) [] in
  let '(allPlayers, remainingWaiters) :=
    promoteWaiters index (waitingRoom r) kept [] in
  let r1 :=
    setWaitingRoom remainingWaiters
      (setPlayers allPlayers (setCoins [] (setState LOBBY r))) in
  (r1,
   _broadcastLobbyMsg r1
   ++ (if (0 <? JsMap.size (players r1))%nat
       then [SetAlarm (now + LOBBY_IDLE_TIMEOUT * 1000)%Z] else [])).

(** *** Handlers *)

(** The handlers as they run on an initialised instance, that is, what
    follows [await this._ensureInitialized()]; the module [GameRoom]
    below puts the restore in front. *)

(** [String(v)]. *)
Definition String_ (v : jsval) : string :=
  match v with
  | JUndefined => "undefined"
  | JNull => "null"
  | JBool true => "true"
  | JBool false => "false"
  | JNumber n => Number_toString E n
  | JString s => s
  | JObject text => text
  end.

(** [String(data.name || '')]. *)
Definition suppliedName (name : jsval) : string :=
  if truthy name then String_ name else "".

(** [sanitizeName(String(data.name || ''))], then the default. *)
Definition joinName (name : jsval) : string :=
  let n := sanitizeName (suppliedName name) in
  if Str.isEmpty n then "Player" else n.

(** [typeof data.userId === 'string' && isValidUUID(data.userId)]. *)
Definition joinUserId (userId : jsval) : option string :=
  match userId with
  | JString s => if UUID_RE_test s then Some s else None
  | _ => None
  end.

(** [typeof data.hat === 'string' && HAT_CATALOG[data.hat]]. *)
Definition joinHat (hat : jsval) : string :=
  match hat with
  | JString s => if HAT_CATALOG E s then s else "cap"
  | _ => "cap"
  end.

Definition REJECT_TEXT : string := "That name is not allowed.".

(** What the two physics triggers share: step by the clamped elapsed
    time, stamp the time, queue the events. *)
Definition physicsTick (now : Z) (r : Room) : Room :=
  let dt := physicsDt now r in
  let '(r1, collected) := _advancePhysics dt r in
  let r2 := setLastPhysicsTime now r1 in
  if nonEmpty collected
  then setPendingCollected (pendingCollected r2 ++ collected) r2
  else r2.

(** [this.timeLeft = 0; this._endGame(); this._persistState()]. *)
Definition finishRound (now : Z) (r : Room) : Room * list Effect :=
  let '(r1, e) := _endGame now (setTimeLeft 0 r) in
  (r1, e ++ [PersistState]).

(** Broadcast the snapshot with the queued events, then empty the queue. *)
Definition flushGameState (now : Z) (sendOk : string -> bool) (r : Room)
  : Room * list Effect :=
  let '(r1, e) := _broadcastGameState sendOk (pendingCollected r) r in
  (setLastBroadcastTime now (setPendingCollected [] r1), e).

(** [this.players.get(playerId).x =
     Math.max(0, Math.min(CANVAS_WIDTH - PLAYER_WIDTH, x))]. *)
Definition placePlayer (conn : string) (x : Num.xnum) (r : Room) : Room :=
  setPlayers
    (JsMap.update conn (setX (Num.clamp 0 (CANVAS_WIDTH - PLAYER_WIDTH) x))
       (players r)) r.

(** The fast path of [webSocketMessage] for a move while PLAYING. *)
Definition moveWhilePlaying (now : Z) (sendOk : string -> bool)
    (conn : string) (x : Num.xnum) (r : Room) : Room * list Effect :=
  if negb (Str.isEmpty conn) && JsMap.has conn (players r) then
    if Num.isNaN x then (r, [])
    else
      let r1 := placePlayer conn x r in
      let r2 := physicsTick now r1 in
      if Num.leb (timeLeft r2) 0 then finishRound now r2
      else if (BROADCAST_THROTTLE_MS <=? now - lastBroadcastTime r2)%Z
           then flushGameState now sendOk r2
           else (r2, [])
  else (r, []).

(** The [join] case of the normal path. *)
Definition joinRoom (now : Z) (conn : string) (name userId hat : jsval)
    (r : Room) : Room * list Effect :=
  if JsMap.has conn (players r) || JsMap.has conn (waitingRoom r) then (r, [])
  else
    let name' := joinName name in
    if negb (isNameClean name')
    then (r, [Send conn (MsgNameRejected REJECT_TEXT)])
    else
      let userId' := joinUserId userId in
      let hat' := joinHat hat in
      let '(r1, e) :=
        match state r with
        | LOBBY => _addPlayerToLobby now conn name' hat' userId' r
        | _ => _addToWaitingRoom conn name' hat' userId' r
        end in
      (r1, e ++ [PersistState]).

(** [conn] is the player id carried by the socket, both as its tag and
    in its attachment. *)
Definition webSocketMessage (now : Z) (sendOk : string -> bool)
    (conn : string) (m : Incoming) (r : Room) : Room * list Effect :=
  match m with
  | InDropped => (r, [])
  | InMove x =>
      match state r with
      | PLAYING => moveWhilePlaying now sendOk conn x r
      | _ => (r, [])   (* the normal path acts on a move only while PLAYING *)
      end
  | InJoin name userId hat =>
      if Str.isEmpty conn then (r, []) else joinRoom now conn name userId hat r
  | InOther => (r, [])
  end.

Definition webSocketClose (now : Z) (conn : string) (r : Room)
  : Room * list Effect :=
  if Str.isEmpty conn then (r, [])
  else
    let r1 :=
      setWaitingRoom (JsMap.delete conn (waitingRoom r))
        (setPlayers (JsMap.delete conn (players r)) r) in
    let e1 := match state r1 with LOBBY => _broadcastLobbyMsg r1 | _ => [] end in
    let '(r2, e2) :=
      if (JsMap.size (players r1) =? 0)%nat
         && negb (GameState_eqb (state r1) LOBBY)
      then _returnToLobby now r1 else (r1, []) in
    (r2, e1 ++ e2 ++ [PersistState]).

Definition alarm (now : Z) (sendOk : string -> bool) (r : Room)
  : Room * list Effect :=
  match state r with
  | LOBBY =>
      if (0 <? JsMap.size (players r))%nat
      then let '(r1, e) := _startCountdown now r in (r1, e ++ [PersistState])
      else (r, [])
  | COUNTDOWN =>
      let r1 := setCountdownSeconds (countdownSeconds r - 1)%Z r in
      if (countdownSeconds r1 <=? 0)%Z
      then let '(r2, e) := _startPlaying now r1 in (r2, e ++ [PersistState])
      else (r1, [BroadcastAll (MsgCountdown (countdownSeconds r1));
                 SetAlarm (now + 1000)%Z; PersistState])
  | PLAYING =>
      if (JsMap.size (players r) =? 0)%nat
      then let '(r1, e) := _returnToLobby now r in (r1, e ++ [PersistState])
      else
        let r1 := physicsTick now r in
        if Num.leb (timeLeft r1) 0 then finishRound now r1
        else
          let '(r2, e) := flushGameState now sendOk r1 in
          (r2, e ++ [SetAlarm (now + FALLBACK_ALARM_MS)%Z])
  | GAME_OVER =>
      let '(r1, e) := _returnToLobby now r in (r1, e ++ [PersistState])
  end.

(** *** Runs of the room *)

Inductive Trigger : Type :=
| OnMessage (conn : string) (m : Incoming)
| OnClose (conn : string)
| OnAlarm.

(** One handler invocation: what happened, when, and which sockets are
    able to take a message at that moment. *)
Record Stimulus : Type := mkStimulus {
  st_now : Z;
  st_sendOk : string -> bool;
  st_trigger : Trigger
}.

Definition handle (s : Stimulus) (r : Room) : Room * list Effect :=
  match st_trigger s with
  | OnMessage conn m => webSocketMessage (st_now s) (st_sendOk s) conn m r
  | OnClose conn => webSocketClose (st_now s) conn r
  | OnAlarm => alarm (st_now s) (st_sendOk s) r
  end.

(** Runs the stimuli in order, collecting the effects. *)
Fixpoint run (ss : list Stimulus) (r : Room) : Room * list Effect :=
  match ss with
  | [] => (r, [])
  | s :: rest =>
      let '(r1, e1) := handle s r in
      let '(r2, e2) := run rest r1 in
      (r2, e1 ++ e2)
  end.

(** The rooms that the handlers can produce from a new room. *)
Definition reachable (r : Room) : Prop :=
  exists ss, fst (run ss newRoom) = r.

End Room.

(* ================================================================== *)
(** ** Vocabulary of the statements *)
(* ================================================================== *)

(** The award as the settlement rule words it: the score, the winner
    bonus for rank 0 with a positive score, the participation bonus. *)
Definition expectedAward (rank : nat) (score : Z) : Z :=
  (score
   + (if (rank =? 0)%nat && (0 <? score)%Z then 50 else 0)
   + 25)%Z.

(** Ranking order: [a] may stand before [b]. *)
Definition scoreGe (a b : Ranked) : Prop := (rk_score b <= rk_score a)%Z.

Definition idScore (p : Ranked) : string * Z := (rk_playerId p, rk_score p).

(** Recognises a [nameRejected] reply among the effects. *)
Definition isRejection (e : Effect) : bool :=
  match e with
  | Send _ (MsgNameRejected _) => true
  | _ => false
  end.

(** Where an accepted join puts the connection: among the players or in
    the waiting room, under the given name. *)
Definition enrolledAs (conn name : string) (r : Room) : Prop :=
  (exists p, JsMap.get conn (players r) = Some p /\ p_name p = name)
  \/ (exists w, JsMap.get conn (waitingRoom r) = Some w /\ w_name w = name).

(** [timeLeft] after a step of [dt] as the rule words it: decremented
    by [dt] and floored at 0. *)
Definition flooredTime (t dt : Qc) : Qc :=
  if Num.leb (t - dt) 0 then 0 else t - dt.

(** Comparing two runs of a handler at different times: the recorded
    time stamps and the alarm times are set aside, all else must agree. *)
Definition eraseClock (r : Room) : Room :=
  setLastPhysicsTime 0 (setLastBroadcastTime 0 r).

Definition eraseAlarm (e : Effect) : Effect :=
  match e with
  | SetAlarm _ => SetAlarm 0
  | other => other
  end.

Definition sameUpToClock (a b : Room * list Effect) : Prop :=
  eraseClock (fst a) = eraseClock (fst b)
  /\ List.map eraseAlarm (snd a) = List.map eraseAlarm (snd b).

(** The physics step and the queueing of its events, for a given [dt]:
    [physicsTick] without the time stamp. *)
Definition tickCore (E : Env) (dt : Qc) (r : Room) : Room :=
  let '(r1, collected) := _advancePhysics E dt r in
  if nonEmpty collected
  then setPendingCollected (pendingCollected r1 ++ collected) r1
  else r1.

(** What the spawn loop leaves alone. *)
Record sameButCoins (r r' : Room) : Prop := mkSame {
  same_state : state r' = state r;
  same_players : players r' = players r;
  same_waiting : waitingRoom r' = waitingRoom r;
  same_timeLeft : timeLeft r' = timeLeft r;
  same_countdown : countdownSeconds r' = countdownSeconds r;
  same_nextPlayerId : nextPlayerId r' = nextPlayerId r;
  same_lastPhysics : lastPhysicsTime r' = lastPhysicsTime r;
  same_lastBroadcast : lastBroadcastTime r' = lastBroadcastTime r;
  same_pending : pendingCollected r' = pendingCollected r
}.

(** Sum of the scores of a roster. *)
Definition totalScore (ps : JsMap.t Player) : Z :=
  fold_right (fun e acc => (p_score (snd e) + acc)%Z) 0%Z ps.

(** The score held under [id], 0 when [id] is not in the roster. *)
Definition scoreOf (id : string) (ps : JsMap.t Player) : Z :=
  match JsMap.get id ps with
  | Some p => p_score p
  | None => 0%Z
  end.

(** How many of the events name [id]. *)
Definition creditedTo (id : string) (evs : list CollectedEvent) : Z :=
  Z.of_nat (List.length (List.filter (fun ev => String.eqb id (ev_playerId ev)) evs)).

(** The coins that a step of [dt] takes past the ground. *)
Definition groundedCoins (E : Env) (dt : Qc) (cs : list Coin) : list Coin :=
  List.filter (fun c => pastGround (moveCoin E dt c)) cs.

(** The coins that a step of [dt] leaves above the ground. *)
Definition airborneCoins (E : Env) (dt : Qc) (cs : list Coin) : list Coin :=
  List.filter (fun c => negb (pastGround (moveCoin E dt c))) cs.

(** The players kept by [_returnToLobby], numbered from [i]. *)
Fixpoint resetFrom (i : nat) (ps : JsMap.t Player) : JsMap.t Player :=
  match ps with
  | [] => []
  | (id, p) :: rest => (id, resetPlayer i p) :: resetFrom (S i) rest
  end.

(** The waiters promoted by [_returnToLobby], numbered from [i]. *)
Fixpoint promoteFrom (i : nat) (ws : JsMap.t Waiter) : JsMap.t Player :=
  match ws with
  | [] => []
  | (id, w) :: rest => (id, playerOfWaiter i w) :: promoteFrom (S i) rest
  end.

(** No roster entry of [r'] was a waiter of [r] without being a player
    of [r]. *)
Definition noPromotion (r r' : Room) : Prop :=
  forall k, In k (JsMap.keys (players r')) ->
            In k (JsMap.keys (players r))
            \/ ~ In k (JsMap.keys (waitingRoom r)).

(** The step from [r] to [r'] is a transition into LOBBY. *)
Definition intoLobby (r r' : Room) : Prop :=
  state r <> LOBBY /\ state r' = LOBBY.

(** The events that a payload announces: its [collected] field, nothing
    when the field is absent. *)
Definition collectedOf (m : ServerMsg) : list CollectedEvent :=
  match m with
  | MsgGameState _ _ _ (Some evs) => evs
  | _ => []
  end.

(** Recognises a gameState payload. *)
Definition isGameState (e : Effect) : bool :=
  match e with
  | Send _ (MsgGameState _ _ _ _) => true
  | BroadcastAll (MsgGameState _ _ _ _) => true
  | _ => false
  end.

(** Recognises a gameState payload that has a [collected] field. *)
Definition announcesCatch (e : Effect) : bool :=
  match e with
  | Send _ (MsgGameState _ _ _ (Some _)) => true
  | BroadcastAll (MsgGameState _ _ _ (Some _)) => true
  | _ => false
  end.

(** What every handler preserves: the two maps have distinct keys and
    share none, the roster fits the capacity, the clock is not negative. *)
Record roomInv (r : Room) : Prop := mkInv {
  inv_players : NoDup (JsMap.keys (players r));
  inv_waiting : NoDup (JsMap.keys (waitingRoom r));
  inv_disjoint :
    forall k, In k (JsMap.keys (players r)) ->
              ~ In k (JsMap.keys (waitingRoom r));
  inv_capacity : (JsMap.size (players r) <= MAX_PLAYERS)%nat;
  inv_timeLeft : 0 <= timeLeft r
}.

(* ================================================================== *)
(** ** Sample data used to evaluate the model *)
(* ================================================================== *)

(** An environment for evaluation.  The sample coins below have
    [wobbleAmount = 0] and the sample steps spawn nothing, so the sine and
    the random numbers chosen here do not influence what is computed. *)
Definition sampleEnv : Env :=
  {| Math_sin := fun _ => 0;
     Math_PI := Num.ofQ (355 # 113);
     Math_random := fun _ => Num.ofQ (1 # 2);
     Number_toString := fun _ => "0";
     HAT_CATALOG := fun h => String.eqb h "cap" || String.eqb h "crown";
     env_DB := true |}.

Definition allOk : string -> bool := fun _ => true.

Definition samplePlayer (x : Z) (score : Z) (name : string) : Player :=
  mkPlayer (Num.ofZ x) score "#e74c3c" name "cap" None true.

(** A coin that does not wobble, at [(x, y)] falling at [speed]. *)
Definition sampleCoin (id x y speed : Z) : Coin :=
  mkCoin id (Num.ofZ x) (Num.ofZ y) (Num.ofZ speed) COIN_RADIUS 0
    (Num.ofZ 3) 0 0.

(** A round in progress: [timeLeft] seconds left, last step at time 1000. *)
Definition playingRoom (ps : JsMap.t Player) (ws : JsMap.t Waiter)
    (cs : list Coin) (timeLeft : Qc) (pending : list CollectedEvent) : Room :=
  mkRoom PLAYING ps ws cs 2 timeLeft 0 0 3 1000 1000 pending 6.

(** Three players whose scores are 30, 10 and 0, in roster order 10, 0, 30. *)
Definition threePlayers : JsMap.t Player :=
  [ ("1", samplePlayer 100 10 "Ann");
    ("2", samplePlayer 400 0 "Bob");
    ("3", samplePlayer 700 30 "Cy") ].

(** A lobby with one player, "1", and nobody waiting. *)
Definition lobbyRoom : Room :=
  mkRoom LOBBY [("1", samplePlayer 450 0 "Ann")] [] [] 1 GAME_DURATION 5 0 3
    0 0 [] 0.

(** A round with one player, "1", one coin above the player and a tenth
    of a second left. *)
Definition lastMomentRoom : Room :=
  playingRoom [("1", samplePlayer 100 0 "Ann")] []
    [sampleCoin 1 120 400 100] (Num.ofQ (1 # 10)) [].

(** The same round with 30 seconds left and the coin far above. *)
Definition midRoundRoom : Room :=
  playingRoom [("1", samplePlayer 100 0 "Ann")] []
    [sampleCoin 1 120 0 100] (Num.ofZ 30) [].

(** A coin at height 505, below the ground line (500) but not yet a
    radius below it, right above the player of [lastMomentRoom]. *)
Definition lowCoin : Coin := sampleCoin 7 120 505 100.

(** Stimuli for sample runs: every socket takes every message. *)
Definition joinAt (now : Z) (conn name : string) : Stimulus :=
  mkStimulus now allOk (OnMessage conn (InJoin (JString name) JUndefined JUndefined)).

Definition moveAt (now : Z) (conn : string) (x : Z) : Stimulus :=
  mkStimulus now allOk (OnMessage conn (InMove (Num.Fin (Num.ofZ x)))).

Definition closeAt (now : Z) (conn : string) : Stimulus :=
  mkStimulus now allOk (OnClose conn).

Definition alarmAt (now : Z) : Stimulus :=
  mkStimulus now allOk OnAlarm.

(** Five joins fill the roster and start the countdown. *)
Definition fiveJoins : list Stimulus :=
  [ joinAt 100 "1" "Ann"; joinAt 200 "2" "Bob"; joinAt 300 "3" "Cy";
    joinAt 400 "4" "Dee"; joinAt 500 "5" "Eve" ].

Definition fullRoom : Room := fst (run sampleEnv fiveJoins newRoom).

(** One player joins, the idle timer and the countdown run, the round
    starts at 25000, then a second connection joins and has to wait. *)
Definition roundWithWaiter : list Stimulus :=
  [ joinAt 0 "1" "Ann"; alarmAt 20000;
    alarmAt 21000; alarmAt 22000; alarmAt 23000; alarmAt 24000; alarmAt 25000;
    joinAt 25100 "2" "Bob" ].

Definition waiterRoom : Room := fst (run sampleEnv roundWithWaiter newRoom).

(** From the end of a round to the start of the next: the display timer,
    the idle timer, five countdown alarms. *)
Definition toNextRound : list Stimulus :=
  [ alarmAt 6200; alarmAt 26200;
    alarmAt 27200; alarmAt 28200; alarmAt 29200; alarmAt 30200; alarmAt 31200 ].

(** Four players join and the idle timer starts the countdown; three
    more connections join and wait, in the order "5", "6", "7". *)
Definition crowdedRun : list Stimulus :=
  [ joinAt 100 "1" "Ann"; joinAt 200 "2" "Bob"; joinAt 300 "3" "Cy";
    joinAt 400 "4" "Dee"; alarmAt 20100;
    joinAt 20200 "5" "Eve"; joinAt 20300 "6" "Flo"; joinAt 20400 "7" "Gus" ].

Definition crowdedRoom : Room := fst (run sampleEnv crowdedRun newRoom).

(** A round with 30 seconds left, a coin just above player "1" and a
    connection "9" in the waiting room. *)
Definition catchRoom : Room :=
  playingRoom [("1", samplePlayer 100 0 "Ann")]
    [("9", mkWaiter "#e74c3c" "Zed" "cap" None)]
    [sampleCoin 1 120 415 100] (Num.ofZ 30) [].

(* ================================================================== *)
(** ** Vocabulary of the further properties *)
(* ================================================================== *)

(** Every character of [s] passes [f]. *)
Fixpoint allChars (f : ascii -> bool) (s : string) : bool :=
  match s with
  | "" => true
  | String c r => f c && allChars f r
  end.

(** [s] does not start with white space. *)
Definition noLeadingSpace (s : string) : bool :=
  match s with
  | "" => true
  | String c _ => negb (Str.isSpace c)
  end.

(** What [isNameClean] keeps of a lower-cased name. *)
Definition notSeparator (c : ascii) : bool := negb (Str.isSeparator c).

(** The text [p1-p2-p3-p4-p5]. *)
Definition dashed (p1 p2 p3 p4 p5 : string) : string :=
  p1 ++ "-" ++ p2 ++ "-" ++ p3 ++ "-" ++ p4 ++ "-" ++ p5.

(** [s] is [n] hexadecimal digits. *)
Definition hexBlock (n : nat) (s : string) : Prop :=
  String.length s = n /\ allChars Str.isHex s = true.

(** A score that catches can produce: 10 times a natural number. *)
Definition multipleOfTen (z : Z) : Prop :=
  exists k, (0 <= k)%Z /\ z = (10 * k)%Z.

(** A position inside the playfield: [0 <= x <= CANVAS_WIDTH - PLAYER_WIDTH]. *)
Definition inField (x : Qc) : Prop :=
  0 <= x /\ x <= CANVAS_WIDTH - PLAYER_WIDTH.

(** A display name as a join stores it. *)
Definition nameOk (s : string) : Prop :=
  (1 <= String.length s <= 8)%nat
  /\ allChars Str.isNameChar s = true
  /\ isNameClean s = true.

(** No user id, or one that [isValidUUID] accepts. *)
Definition uuidOk (u : option string) : Prop :=
  match u with
  | Some s => UUID_RE_test s = true
  | None => True
  end.

(** The default hat or a key of the catalog. *)
Definition hatOk (E : Env) (h : string) : Prop :=
  h = "cap" \/ HAT_CATALOG E h = true.

Record playerOk (E : Env) (p : Player) : Prop := mkPlayerOk {
  pok_x : inField (p_x p);
  pok_score : multipleOfTen (p_score p);
  pok_color : In (p_color p) PLAYER_COLORS;
  pok_name : nameOk (p_name p);
  pok_hat : hatOk E (p_hat p);
  pok_userId : uuidOk (p_userId p);
  pok_connected : p_connected p = true
}.

Record waiterOk (E : Env) (w : Waiter) : Prop := mkWaiterOk {
  wok_color : In (w_color w) PLAYER_COLORS;
  wok_name : nameOk (w_name w);
  wok_hat : hatOk E (w_hat w);
  wok_userId : uuidOk (w_userId w)
}.

(** What every handler preserves, beside [roomInv]: the entries of both
    maps are well formed; the coins are at most 50, their ids grow along
    the list and stay below [nextCoinId]; the spawn accumulator is below
    the spawn interval. *)
Record roomWf (E : Env) (r : Room) : Prop := mkWf {
  wf_players : Forall (fun e => playerOk E (snd e)) (players r);
  wf_waiting : Forall (fun e => waiterOk E (snd e)) (waitingRoom r);
  wf_cap : (List.length (coins r) <= COIN_CAP)%nat;
  wf_ids : StronglySorted Z.lt (List.map c_id (coins r));
  wf_below : Forall (fun c => (c_id c < nextCoinId r)%Z) (coins r);
  wf_accumulator : coinSpawnAccumulator r < COIN_SPAWN_INTERVAL
}.

(** What [_spawnCoin] and the spawn loop keep about the coins. *)
Definition coinsTidy (r : Room) : Prop :=
  (List.length (coins r) <= COIN_CAP)%nat
  /\ StronglySorted Z.lt (List.map c_id (coins r))
  /\ Forall (fun c => (c_id c < nextCoinId r)%Z) (coins r).


(** A join that carries a user id and a hat. *)
Definition joinWith (now : Z) (conn name userId hat : string) : Stimulus :=
  mkStimulus now allOk
    (OnMessage conn (InJoin (JString name) (JString userId) (JString hat))).

(** A session: a signed-in player with a hat and a guest join, the idle
    timer and the countdown run, the round starts at 25000; player "1"
    asks for a position far to the right, three fallback alarms pass (the
    third spawns a coin) and a third connection joins and has to wait. *)
Definition sessionRun : list Stimulus :=
  [ joinWith 0 "1" "Ann" "123e4567-e89b-12d3-a456-426614174000" "crown";
    joinAt 10 "2" "Bob"; alarmAt 20000;
    alarmAt 21000; alarmAt 22000; alarmAt 23000; alarmAt 24000; alarmAt 25000;
    moveAt 25100 "1" 5000;
    alarmAt 26100; alarmAt 27100; alarmAt 28100;
    joinAt 28200 "3" "Cy" ].

Definition sessionRoom : Room := fst (run sampleEnv sessionRun newRoom).


(** *** The database helper [awardCoins] of db.js *)

(** The values that [awardCoins] binds to one UPDATE statement:
    [bind(name || null, coinsEarned, coinsEarned, isWinner ? 1 : 0, userId)]. *)
Record AwardStatement : Type := mkAwardStatement {
  as_displayName : option string;
  as_balance : Z;
  as_total : Z;
  as_wins : Z;
  as_userId : string
}.

Definition awardStatement (a : CoinAward) : AwardStatement :=
  mkAwardStatement
    (if Str.isEmpty (ca_name a) then None else Some (ca_name a))
    (ca_coinsEarned a) (ca_coinsEarned a)
    (if ca_isWinner a then 1%Z else 0%Z)
    (ca_userId a).

(** [isValidUUID] on a value that is a string. *)
Definition isValidUUID (id : string) : bool := UUID_RE_test id.

(** The loop of [awardCoins]: an entry whose user id is not valid is
    skipped, every other entry gives one statement. *)
Fixpoint awardStatements (coinsByUser : list CoinAward) : list AwardStatement :=
  match coinsByUser with
  | [] => []
  | a :: rest =>
      if negb (isValidUUID (ca_userId a)) then awardStatements rest
      else awardStatement a :: awardStatements rest
  end.

(** [awardCoins]: the batch handed to [db.batch], or [None] when there is
    no statement and [db.batch] is not called. *)
Definition awardCoins (coinsByUser : list CoinAward)
  : option (list AwardStatement) :=
  let statements := awardStatements coinsByUser in
  if (0 <? List.length statements)%nat then Some statements else None.

(** *** Reading the effects of a handler *)

(** The times passed to [setAlarm], in order. *)
Definition alarmsOf (es : list Effect) : list Z :=
  flat_map (fun e => match e with SetAlarm t => [t] | _ => [] end) es.

(** The batches passed to [awardCoins], in order. *)
Definition awardsOf (es : list Effect) : list (list CoinAward) :=
  flat_map (fun e => match e with AwardCoins b => [b] | _ => [] end) es.


(** The session goes on: player "1" moves under the spawn point and the
    fallback alarm runs until 0.1 s are left; the next alarm ends the round. *)
Definition endRun : list Stimulus :=
  sessionRun ++ [moveAt 28300 "1" 450]
  ++ List.map (fun k => alarmAt (29000 + 1000 * Z.of_nat k)) (seq 0 295).

Definition endRoom : Room := fst (run sampleEnv endRun newRoom).


(** The arrows of the state machine: LOBBY to COUNTDOWN, COUNTDOWN to
    PLAYING, PLAYING to GAME_OVER, any state back to LOBBY, and staying. *)
Definition mayFollow (a b : GameState) : bool :=
  match a, b with
  | _, LOBBY => true
  | LOBBY, COUNTDOWN | COUNTDOWN, COUNTDOWN => true
  | COUNTDOWN, PLAYING | PLAYING, PLAYING => true
  | PLAYING, GAME_OVER | GAME_OVER, GAME_OVER => true
  | _, _ => false
  end.


(** No alarm, or one alarm [d] milliseconds from [now]. *)
Definition oneAlarm (now : Z) (es : list Effect) : Prop :=
  alarmsOf es = []
  \/ exists d, In d [1000; 5000; 20000]%Z /\ alarmsOf es = [(now + d)%Z].

(** The seconds announced by countdown broadcasts, in order. *)
Definition countdownsOf (es : list Effect) : list Z :=
  flat_map (fun e => match e with
                     | BroadcastAll (MsgCountdown n) => [n]
                     | _ => []
                     end) es.

(** [n; n - 1; ...; 1]. *)
Fixpoint downFrom (n : nat) : list Z :=
  match n with
  | O => []
  | S m => Z.of_nat n :: downFrom m
  end.

(** The round does not end now, and while it goes on more than [n] capped
    steps of time are left. *)
Definition timeFor (n : nat) (r : Room) : Prop :=
  state r <> GAME_OVER
  /\ (state r = PLAYING ->
      Num.ofZ (Z.of_nat n) * MAX_PHYSICS_DT < timeLeft r).


(** *** Reading a ranking *)

(** The coins that a ranking pays out in all. *)
Definition payout (l : list Ranked) : Z :=
  fold_right (fun p acc => (rk_coinsEarned p + acc)%Z) 0%Z l.

Definition scoreSum (l : list Ranked) : Z :=
  fold_right (fun p acc => (rk_score p + acc)%Z) 0%Z l.

(** Some player of the roster has a positive score. *)
Definition anyPositive (ps : JsMap.t Player) : bool :=
  existsb (fun e => (0 <? p_score (snd e))%Z) ps.

(** The entries of a ranking that hold the score [v]. *)
Definition withScore (v : Z) (l : list Ranked) : list Ranked :=
  filter (fun p => (rk_score p =? v)%Z) l.


(* ================================================================== *)
(** ** Hibernation: the stored snapshot and the socket attachments *)
(* ================================================================== *)

(** [att.role]. *)
Inductive Role : Type := RoleNew | RolePlayer | RoleWaiting.

(** The value that [serializeAttachment] puts on a socket.  [fetch]
    writes [playerId] and [role] only: the fields it leaves out are
    absent ([None]) or, where the code never reads them for that role,
    empty. *)
Record Attachment : Type := mkAttachment {
  att_playerId : string;
  att_role : Role;
  att_name : string;
  att_color : string;
  att_x : option Qc;
  att_score : option Z;
  att_hat : string;
  att_userId : option string
}.

(** [ctx.getWebSockets()]: the live sockets in their order, each with its
    tag (the player id given to [acceptWebSocket]) and its attachment.
    The [ws] that an entry of [players] or [waitingRoom] holds is the
    socket tagged with the key of the entry. *)
Definition Sockets : Type := JsMap.t (option Attachment).

(** The object stored under the key ['gs']. *)
Record Snapshot : Type := mkSnapshot {
  gs_state : GameState;
  gs_timeLeft : Qc;
  gs_countdownSeconds : Z;
  gs_nextPlayerId : Z;
  gs_coins : list Coin;
  gs_nextCoinId : Z;
  gs_coinSpawnAccumulator : Qc;
  gs_lastPhysicsTime : Z
}.

(** [v || d] on an integer. *)
Definition orZ (v d : Z) : Z := if (v =? 0)%Z then d else v.

(** [v || d] on a number. *)
Definition orNum (v d : Qc) : Qc := if Qc_eq_dec v 0 then d else v.

(** [v ?? d]. *)
Definition orElse {A : Type} (v : option A) (d : A) : A :=
  match v with Some a => a | None => d end.

Definition playerAttachment (playerId : string) (p : Player) : Attachment :=
  mkAttachment playerId RolePlayer (p_name p) (p_color p)
    (Some (p_x p)) (Some (p_score p)) (orCap (p_hat p)) (orNull (p_userId p)).

Definition waiterAttachment (playerId : string) (w : Waiter) : Attachment :=
  mkAttachment playerId RoleWaiting (w_name w) (w_color w)
    (Some 0) (Some 0%Z) (orCap (w_hat w)) (orNull (w_userId w)).

(** [{ playerId, role: 'new' }]. *)
Definition newAttachment (playerId : string) : Attachment :=
  mkAttachment playerId RoleNew "" "" None None "" None.

(** [ws.serializeAttachment(a)] on the socket tagged [id]; on a socket
    that is gone it throws, and the callers swallow that. *)
Definition serializeAttachment (id : string) (a : Attachment) (socks : Sockets)
  : Sockets :=
  JsMap.update id (fun _ => Some a) socks.

Definition _savePlayerAttachments (r : Room) (socks : Sockets) : Sockets :=
  let s1 :=
    fold_left
      (fun acc e =>
         serializeAttachment (fst e) (playerAttachment (fst e) (snd e)) acc)
      (players r) socks in
  fold_left
    (fun acc e =>
       serializeAttachment (fst e) (waiterAttachment (fst e) (snd e)) acc)
    (waitingRoom r) s1.

Definition snapshotOf (r : Room) : Snapshot :=
  mkSnapshot (state r) (timeLeft r) (countdownSeconds r) (nextPlayerId r)
    (coins r) (nextCoinId r) (coinSpawnAccumulator r) (lastPhysicsTime r).

(** [_persistState]: the stored snapshot and the sockets afterwards. *)
Definition _persistState (r : Room) (socks : Sockets) : Snapshot * Sockets :=
  (snapshotOf r, _savePlayerAttachments r socks).

(** The first part of [_ensureInitialized]: the fields read from ['gs']
    over those of the constructor. *)
Definition restoreFields (now : Z) (gs : option Snapshot) (r : Room) : Room :=
  match gs with
  | Some g =>
      mkRoom (gs_state g) (players r) (waitingRoom r) (gs_coins g)
        (orZ (gs_nextCoinId g) 1) (gs_timeLeft g) (gs_countdownSeconds g)
        (orNum (gs_coinSpawnAccumulator g) 0) (gs_nextPlayerId g)
        (orZ (gs_lastPhysicsTime g) now) (lastBroadcastTime r)
        (pendingCollected r) (randomCursor r)
  | None => r
  end.

(** One round of the loop over the sockets. *)
Definition restoreSocket (acc : JsMap.t Player * JsMap.t Waiter)
    (e : string * option Attachment) : JsMap.t Player * JsMap.t Waiter :=
  match snd e with
  | None => acc
  | Some att =>
      if Str.isEmpty (att_playerId att) then acc
      else
        match att_role att with
        | RoleWaiting =>
            (fst acc,
             JsMap.set (att_playerId att)
               (mkWaiter (att_color att) (att_name att) (orCap (att_hat att))
                  (orNull (att_userId att)))
               (snd acc))
        | RolePlayer =>
            (JsMap.set (att_playerId att)
               (mkPlayer (orElse (att_x att) LOBBY_X) (orElse (att_score att) 0%Z)
                  (att_color att) (att_name att) (orCap (att_hat att))
                  (orNull (att_userId att)) true)
               (fst acc),
             snd acc)
        | RoleNew => acc
        end
  end.

Definition restoreMaps (socks : Sockets) : JsMap.t Player * JsMap.t Waiter :=
  fold_left restoreSocket socks ([], []).

(** [_ensureInitialized] on an instance that is not initialised yet:
    [now] is [Date.now()], [gs] what storage holds under ['gs']. *)
Definition _ensureInitialized (now : Z) (gs : option Snapshot) (socks : Sockets)
  : Room * list Effect :=
  let r0 := restoreFields now gs newRoom in
  let maps := restoreMaps socks in
  let r1 := setWaitingRoom (snd maps) (setPlayers (fst maps) r0) in
  match state r1 with
  | PLAYING =>
      if (0 <? JsMap.size (players r1))%nat
      then (r1, [SetAlarm (now + FALLBACK_ALARM_MS)%Z])
      else (setCoins [] (setState LOBBY r1), [])
  | COUNTDOWN => (r1, [SetAlarm (now + 1000)%Z])
  | GAME_OVER => (r1, [SetAlarm (now + GAME_OVER_DISPLAY_SECONDS * 1000)%Z])
  | LOBBY =>
      if (0 <? JsMap.size (players r1))%nat
      then (r1, [SetAlarm (now + LOBBY_IDLE_TIMEOUT * 1000)%Z])
      else (r1, [])
  end.

(** What [fetch] answers. *)
Inductive FetchResponse : Type :=
| RoomFull                          (* status 503 *)
| Upgraded (playerId : string).     (* status 101, after the welcome message *)

(** [fetch] on an initialised room: the room, the sockets and the stored
    snapshot afterwards ([None]: nothing was stored), and the answer. *)
Definition fetch (E : Env) (r : Room) (socks : Sockets)
  : Room * Sockets * option Snapshot * FetchResponse :=
  if (20 <=? List.length socks)%nat then (r, socks, None, RoomFull)
  else
    let playerId := Number_toString E (Num.Fin (Num.ofZ (nextPlayerId r))) in
    let r1 :=
      mkRoom (state r) (players r) (waitingRoom r) (coins r) (nextCoinId r)
        (timeLeft r) (countdownSeconds r) (coinSpawnAccumulator r)
        (nextPlayerId r + 1)%Z (lastPhysicsTime r) (lastBroadcastTime r)
        (pendingCollected r) (randomCursor r) in
    let socks1 := socks ++ [(playerId, Some (newAttachment playerId))] in
    let '(gs, socks2) := _persistState r1 socks1 in
    (r1, socks2, Some gs, Upgraded playerId).

(** The sockets that [_broadcastAll] sends to: all but those whose
    attachment has the role ['new']. *)
Definition broadcastAllTargets (socks : Sockets) : list string :=
  JsMap.keys
    (filter (fun e => match snd e with
                      | Some att =>
                          match att_role att with RoleNew => false | _ => true end
                      | None => true
                      end) socks).

(** A player as [_ensureInitialized] rebuilds it from the attachment that
    [_savePlayerAttachments] wrote. *)
Definition revivePlayer (p : Player) : Player :=
  mkPlayer (p_x p) (p_score p) (p_color p) (p_name p)
    (orCap (orCap (p_hat p))) (orNull (orNull (p_userId p))) true.

Definition reviveWaiter (w : Waiter) : Waiter :=
  mkWaiter (w_color w) (w_name w)
    (orCap (orCap (w_hat w))) (orNull (orNull (w_userId w))).

(** The entries of [m] that have a socket, in the order of the sockets. *)
Definition inSocketOrder {V : Type} (f : V -> V) (m : JsMap.t V)
    (socks : Sockets) : JsMap.t V :=
  flat_map (fun k => match JsMap.get k m with
                     | Some v => [(k, f v)]
                     | None => []
                     end) (JsMap.keys socks).

(** No socket outside the two maps carries a player's or a waiter's
    attachment. *)
Definition strangersAreNew (r : Room) (socks : Sockets) : Prop :=
  forall tag att,
    In (tag, Some att) socks ->
    JsMap.has tag (players r) = false ->
    JsMap.has tag (waitingRoom r) = false ->
    att_role att = RoleNew.


(** The entry of a socket after [_savePlayerAttachments]. *)
Definition savedEntry (r : Room) (s : string * option Attachment)
  : string * option Attachment :=
  match JsMap.get (fst s) (players r) with
  | Some p => (fst s, Some (playerAttachment (fst s) p))
  | None =>
      match JsMap.get (fst s) (waitingRoom r) with
      | Some w => (fst s, Some (waiterAttachment (fst s) w))
      | None => s
      end
  end.


(** Sockets of the sample session, not in the order of the joins: "4"
    has connected and not joined yet. *)
Definition sessionSockets : Sockets :=
  [ ("2", Some (newAttachment "2")); ("1", Some (newAttachment "1"));
    ("3", None); ("4", Some (newAttachment "4")) ].


(** Every socket carries an attachment, as after [fetch]. *)
Definition allAttached (socks : Sockets) : Prop :=
  Forall (fun s => snd s <> None) socks.

(** The connection has joined: it is a player or a waiter. *)
Definition joined (r : Room) (k : string) : bool :=
  JsMap.has k (players r) || JsMap.has k (waitingRoom r).


(* ================================================================== *)
(** ** The database helpers of db.js over the tables of schema.sql *)
(* ================================================================== *)

Module Db.

(** A row of [users].  The columns [created_at] and [updated_at], which no
    function reads, are left out. *)
Record UserRow : Type := mkUserRow {
  user_id : string;
  display_name : string;
  coins_total : Z;
  coins_balance : Z;
  wins : Z;
  games_played : Z;
  equipped_hat : string
}.

(** The two tables; a row of [user_hats] is [(user_id, hat_id)]. *)
Record Database : Type := mkDatabase {
  users : list UserRow;
  user_hats : list (string * string)
}.

(** *** hat-catalog.js *)

Inductive AchievementType : Type := TypeWins | TypeCoins | TypeOther.

Record Achievement : Type := mkAchievement {
  ach_type : AchievementType;
  ach_value : Z;
  ach_label : string
}.

(** An entry of [HAT_CATALOG]: the fields that the server reads. *)
Record Hat : Type := mkHat {
  hat_cost : Z;
  hat_achievement : option Achievement
}.

Definition HAT_ENTRIES : JsMap.t Hat :=
  [ ("cap", mkHat 0 None); ("beanie", mkHat 50 None);
    ("headband", mkHat 75 None); ("baseball", mkHat 100 None);
    ("party", mkHat 200 None); ("beret", mkHat 200 None);
    ("cowboy", mkHat 250 None); ("tophat", mkHat 300 None);
    ("chef", mkHat 300 None); ("wizard", mkHat 500 None);
    ("pirate", mkHat 750 None);
    ("viking", mkHat 0 (Some (mkAchievement TypeWins 3 "Win 3 games")));
    ("crown", mkHat 1000 (Some (mkAchievement TypeWins 10 "Win 10 games")));
    ("astronaut",
     mkHat 1500 (Some (mkAchievement TypeCoins 5000 "Earn 5000 total coins")));
    ("halo", mkHat 2000 (Some (mkAchievement TypeWins 25 "Win 25 games"))) ].

(** The value of [HAT_CATALOG[hatId]]: an entry of the catalog, a property
    that the object inherits from [Object.prototype] (truthy, with neither
    [cost] nor [achievement]), or [undefined]. *)
Inductive CatalogValue : Type :=
| OwnHat (hat : Hat)
| Inherited
| Missing.

(** [proto] tells the names of the properties of [Object.prototype]. *)
Definition lookupHat (proto : string -> bool) (hatId : string) : CatalogValue :=
  match JsMap.get hatId HAT_ENTRIES with
  | Some hat => OwnHat hat
  | None => if proto hatId then Inherited else Missing
  end.

Definition meetsAchievement (hat : Hat) (user : UserRow) : bool :=
  match hat_achievement hat with
  | None => true
  | Some a =>
      match ach_type a with
      | TypeWins => (ach_value a <=? wins user)%Z
      | TypeCoins => (ach_value a <=? coins_total user)%Z
      | TypeOther => false
      end
  end.

(** *** The statements *)

(** [SELECT * FROM users WHERE user_id = ?], then [.first()]. *)
Definition selectUser (userId : string) (db : Database) : option UserRow :=
  find (fun u => String.eqb (user_id u) userId) (users db).

(** [SELECT 1 FROM user_hats WHERE user_id = ? AND hat_id = ?], then
    [.first()], as a truth value. *)
Definition ownsHat (userId hatId : string) (db : Database) : bool :=
  existsb (fun h => String.eqb (fst h) userId && String.eqb (snd h) hatId)
    (user_hats db).

(** [SELECT hat_id FROM user_hats WHERE user_id = ?]; the order of the
    rows is that of the table here, SQL leaves it open. *)
Definition hatsOf (userId : string) (db : Database) : list string :=
  List.map snd (filter (fun h => String.eqb (fst h) userId) (user_hats db)).

(** The row that the INSERT of [getOrCreateUser] makes. *)
Definition newUser (userId : string) : UserRow :=
  mkUserRow userId "Player" 0 0 0 0 "cap".

(** The two CHECK constraints of [users]. *)
Definition checksHold (u : UserRow) : bool :=
  (0 <=? coins_total u)%Z && (0 <=? coins_balance u)%Z.

(** [UPDATE users SET ... WHERE ...]: [None] when a changed row breaks a
    CHECK constraint, else the table and the number of rows changed. *)
Definition updateUsers (matches : UserRow -> bool) (change : UserRow -> UserRow)
    (rows : list UserRow) : option (list UserRow * nat) :=
  let rows' := List.map (fun u => if matches u then change u else u) rows in
  if forallb (fun u => negb (matches u) || checksHold (change u)) rows
  then Some (rows', List.length (filter matches rows))
  else None.

(** What the helpers give back: [{ user, hats }], [{ error, status }], or
    an exception. *)
Inductive Result : Type :=
| Profile (user : UserRow) (hats : list string)
| Error (status : Z) (message : string)
| Throws.

(** *** The helpers *)

Definition getOrCreateUser (userId : string) (db : Database)
  : Database * Result :=
  match selectUser userId db with
  | Some user => (db, Profile user (hatsOf userId db))
  | None =>
      (* the batch of two INSERTs; a key that exists already makes the
         batch fail, and nothing is written *)
      if ownsHat userId "cap" db then (db, Throws)
      else
        let db' := mkDatabase (users db ++ [newUser userId])
                     (user_hats db ++ [(userId, "cap")]) in
        match selectUser userId db' with
        | Some user => (db', Profile user (hatsOf userId db'))
        | None => (db', Throws)
        end
  end.

Definition buyHat (proto : string -> bool) (userId hatId : string)
    (db : Database) : Database * Result :=
  match lookupHat proto hatId with
  | Missing => (db, Error 404 "Hat not found")
  | found =>
      match selectUser userId db with
      | None => (db, Error 404 "User not found")
      | Some user =>
          if ownsHat userId hatId db then (db, Error 409 "Hat already owned")
          else
            match found with
            | OwnHat hat =>
                if negb (meetsAchievement hat user)
                then (db, Error 403
                            ("Achievement required: "
                             ++ match hat_achievement hat with
                                | Some a => ach_label a
                                | None => ""
                                end)%string)
                else if (coins_balance user <? hat_cost hat)%Z
                then (db, Error 403 "Not enough coins")
                else
                  match updateUsers
                          (fun u => String.eqb (user_id u) userId
                                    && (hat_cost hat <=? coins_balance u)%Z)
                          (fun u => mkUserRow (user_id u) (display_name u)
                                      (coins_total u)
                                      (coins_balance u - hat_cost hat)%Z
                                      (wins u) (games_played u) (equipped_hat u))
                          (users db) with
                  | None => (db, Throws)
                  | Some (_, O) => (db, Error 403 "Not enough coins")
                  | Some (rows, _) =>
                      (* INSERT OR IGNORE INTO user_hats *)
                      let db1 := mkDatabase rows (user_hats db) in
                      let db2 :=
                        if ownsHat userId hatId db1 then db1
                        else mkDatabase rows (user_hats db ++ [(userId, hatId)]) in
                      getOrCreateUser userId db2
                  end
            | _ =>
                (* [hat.cost] is undefined: the UPDATE is bound to it *)
                (db, Throws)
            end
      end
  end.

Definition equipHat (proto : string -> bool) (userId hatId : string)
    (db : Database) : Database * Result :=
  match lookupHat proto hatId with
  | Missing => (db, Error 404 "Hat not found")
  | _ =>
      match selectUser userId db with
      | None => (db, Error 404 "User not found")
      | Some _ =>
          if negb (ownsHat userId hatId db) then (db, Error 403 "Hat not owned")
          else
            match updateUsers (fun u => String.eqb (user_id u) userId)
                    (fun u => mkUserRow (user_id u) (display_name u)
                                (coins_total u) (coins_balance u) (wins u)
                                (games_played u) hatId)
                    (users db) with
            | None => (db, Throws)
            | Some (rows, _) =>
                getOrCreateUser userId (mkDatabase rows (user_hats db))
            end
      end
  end.

(** One UPDATE of [awardCoins], with the values bound to it. *)
Definition runAward (st : AwardStatement) (db : Database) : option Database :=
  match updateUsers (fun u => String.eqb (user_id u) (as_userId st))
          (fun u => mkUserRow (user_id u)
                      (match as_displayName st with
                       | Some n => n
                       | None => display_name u
                       end)
                      (coins_total u + as_total st)%Z
                      (coins_balance u + as_balance st)%Z
                      (wins u + as_wins st)%Z
                      (games_played u + 1)%Z (equipped_hat u))
          (users db) with
  | Some (rows, _) => Some (mkDatabase rows (user_hats db))
  | None => None
  end.

(** [db.batch(statements)]: the statements in order, all or nothing. *)
Fixpoint batch (statements : list AwardStatement) (db : Database)
  : option Database :=
  match statements with
  | [] => Some db
  | st :: rest =>
      match runAward st db with
      | Some db' => batch rest db'
      | None => None
      end
  end.

(** [awardCoins(db, coinsByUser)]: the database afterwards, and whether
    the call has thrown (the batch has failed and is rolled back). *)
Definition awardCoins (coinsByUser : list CoinAward) (db : Database)
  : Database * bool :=
  match awardCoins coinsByUser with
  | None => (db, false)
  | Some statements =>
      match batch statements db with
      | Some db' => (db', false)
      | None => (db, true)
      end
  end.

End Db.

(** What the tables keep: the keys of schema.sql (one row per user, one
    row per user and hat, every hat row belongs to a user), the two CHECK
    constraints, and beyond the schema: the balance is at most the total,
    the equipped hat is owned, and every owned hat is in the catalog. *)
Record dbInv (db : Db.Database) : Prop := mkDbInv {
  inv_users : NoDup (List.map Db.user_id (Db.users db));
  inv_hats : NoDup (Db.user_hats db);
  inv_foreign : forall h, In h (Db.user_hats db) ->
                  In (fst h) (List.map Db.user_id (Db.users db));
  inv_checks : forall u, In u (Db.users db) ->
                 (0 <= Db.coins_balance u <= Db.coins_total u)%Z;
  inv_equipped : forall u, In u (Db.users db) ->
                   In (Db.user_id u, Db.equipped_hat u) (Db.user_hats db);
  inv_catalog : forall h, In h (Db.user_hats db) ->
                  JsMap.has (snd h) Db.HAT_ENTRIES = true
}.

(** Two sample tables: Ann has 300 coins and the default hat. *)
Definition sampleDb : Db.Database :=
  Db.mkDatabase
    [ Db.mkUserRow "123e4567-e89b-12d3-a456-426614174000" "Ann" 400 300 1 7 "cap" ]
    [ ("123e4567-e89b-12d3-a456-426614174000", "cap") ].

(** The property names of [Object.prototype] that matter in the samples. *)
Definition sampleProto (k : string) : bool :=
  String.eqb k "constructor" || String.eqb k "toString".


(** The row of a user after a purchase at [cost]. *)
Definition afterPurchase (cost : Z) (u : Db.UserRow) : Db.UserRow :=
  Db.mkUserRow (Db.user_id u) (Db.display_name u) (Db.coins_total u)
    (Db.coins_balance u - cost)%Z (Db.wins u) (Db.games_played u)
    (Db.equipped_hat u).

(** The row of a user who has put on [hatId]. *)
Definition wearing (hatId : string) (u : Db.UserRow) : Db.UserRow :=
  Db.mkUserRow (Db.user_id u) (Db.display_name u) (Db.coins_total u)
    (Db.coins_balance u) (Db.wins u) (Db.games_played u) hatId.


(** The entries of a batch that [awardCoins] books for the user [userId]. *)
Definition bookedFor (userId : string) (a : CoinAward) : bool :=
  isValidUUID (ca_userId a) && String.eqb userId (ca_userId a).

(** The coins, the wins and the rounds that a batch books for a user. *)
Definition coinsFor (userId : string) (l : list CoinAward) : Z :=
  fold_right (fun a acc => if bookedFor userId a
                           then (ca_coinsEarned a + acc)%Z else acc) 0%Z l.

Definition winsFor (userId : string) (l : list CoinAward) : Z :=
  fold_right (fun a acc => if bookedFor userId a && ca_isWinner a
                           then (1 + acc)%Z else acc) 0%Z l.

Definition roundsFor (userId : string) (l : list CoinAward) : Z :=
  fold_right (fun a acc => if bookedFor userId a then (1 + acc)%Z else acc)
    0%Z l.

(** The display name after a batch: the last name that is not empty among
    the entries booked for the user, else the name as it was. *)
Fixpoint nameAfter (userId : string) (l : list CoinAward) (name : string)
  : string :=
  match l with
  | [] => name
  | a :: rest =>
      nameAfter userId rest
        (if bookedFor userId a && negb (Str.isEmpty (ca_name a))
         then ca_name a else name)
  end.

(** The row of a user after the batch [l]. *)
Definition credited (l : list CoinAward) (u : Db.UserRow) : Db.UserRow :=
  Db.mkUserRow (Db.user_id u)
    (nameAfter (Db.user_id u) l (Db.display_name u))
    (Db.coins_total u + coinsFor (Db.user_id u) l)%Z
    (Db.coins_balance u + coinsFor (Db.user_id u) l)%Z
    (Db.wins u + winsFor (Db.user_id u) l)%Z
    (Db.games_played u + roundsFor (Db.user_id u) l)%Z
    (Db.equipped_hat u).

(** A batch for the sample tables: Ann twice, and a player without a row. *)
Definition sampleBatch : list CoinAward :=
  [ mkCoinAward "123e4567-e89b-12d3-a456-426614174000" 105 true "Ann";
    mkCoinAward "00000000-0000-4000-8000-000000000000" 25 false "Bob";
    mkCoinAward "123E4567-E89B-12D3-A456-426614174000" 35 false "ANN";
    mkCoinAward "123e4567-e89b-12d3-a456-426614174000" 35 false "Annie" ].


(* ================================================================== *)
(** ** The worker entry: routing and the REST API *)
(* ================================================================== *)

(** What [request.json()] gives: it rejects, or parses [null], or parses
    a value whose fields [userId] and [hatId] are as given ([JUndefined]
    for a field that is not there). *)
Inductive Body : Type :=
| NotJson
| JsonNull
| JsonFields (userId hatId : jsval).

(** What the worker reads of a request. *)
Record Request : Type := mkRequest {
  rq_pathname : string;              (* url.pathname *)
  rq_host : string;                  (* url.host *)
  rq_method : string;                (* request.method *)
  rq_upgrade : option string;        (* headers.get('Upgrade') *)
  rq_origin : option string;         (* headers.get('Origin') *)
  rq_userId : option string;         (* url.searchParams.get('userId') *)
  rq_body : Body
}.

Inductive Response : Type :=
| TextResponse (status : Z) (text : string)    (* new Response(text, { status }) *)
| ErrorJson (status : Z) (error : string)      (* json({ error }, status) *)
| ProfileJson (user : Db.UserRow) (hats : list string)   (* json(result) *)
| FromRoom                                     (* room.fetch(request) *)
| Uncaught.                                    (* the handler throws *)

(** [isValidUUID] on any value. *)
Definition isValidUUIDValue (v : jsval) : option string :=
  match v with
  | JString s => if isValidUUID s then Some s else None
  | _ => None
  end.

(** [!hatId || typeof hatId !== 'string'], negated: the hat id if there
    is one. *)
Definition hatIdValue (v : jsval) : option string :=
  match v with
  | JString s => if Str.isEmpty s then None else Some s
  | _ => None
  end.

(** [if (result.error) return json({ error }, status); return json(result)]. *)
Definition answer (out : Db.Database * Db.Result) : Db.Database * Response :=
  match snd out with
  | Db.Profile user hats => (fst out, ProfileJson user hats)
  | Db.Error status message =>
      (* an empty error text is falsy: [json(result)], with status 200 *)
      if Str.isEmpty message then (fst out, ErrorJson 200 message)
      else (fst out, ErrorJson status message)
  | Db.Throws => (fst out, Uncaught)
  end.

(** The two POST routes share their body: parse, validate, call. *)
Definition hatRoute
    (helper : string -> string -> Db.Database -> Db.Database * Db.Result)
    (rq : Request) (db : Db.Database) : Db.Database * Response :=
  match rq_body rq with
  | NotJson => (db, ErrorJson 400 "Invalid JSON")
  | JsonNull => (db, Uncaught)
  | JsonFields userId hatId =>
      match isValidUUIDValue userId with
      | None => (db, ErrorJson 400 "Invalid userId")
      | Some u =>
          match hatIdValue hatId with
          | None => (db, ErrorJson 400 "Invalid hatId")
          | Some h => answer (helper u h db)
          end
      end
  end.

Definition handleAPI (proto : string -> bool) (rq : Request) (db : Db.Database)
  : Db.Database * Response :=
  if String.eqb (rq_pathname rq) "/api/profile" && String.eqb (rq_method rq) "GET"
  then
    match rq_userId rq with
    | Some u =>
        if isValidUUID u then answer (Db.getOrCreateUser u db)
        else (db, ErrorJson 400 "Invalid userId")
    | None => (db, ErrorJson 400 "Invalid userId")
    end
  else if String.eqb (rq_pathname rq) "/api/hat/buy"
          && String.eqb (rq_method rq) "POST"
  then hatRoute (Db.buyHat proto) rq db
  else if String.eqb (rq_pathname rq) "/api/hat/equip"
          && String.eqb (rq_method rq) "POST"
  then hatRoute (Db.equipHat proto) rq db
  else (db, ErrorJson 404 "Not Found").

(** The [fetch] of the worker.  [urlHost o] is [new URL(o).host], [None]
    when [o] is not a URL and the constructor throws. *)
Definition workerFetch (urlHost : string -> option string)
    (proto : string -> bool) (rq : Request) (db : Db.Database)
  : Db.Database * Response :=
  if String.eqb (rq_pathname rq) "/ws" then
    if negb (match rq_upgrade rq with
             | Some upgradeHeader => String.eqb upgradeHeader "websocket"
             | None => false
             end)
    then (db, TextResponse 426 "Expected WebSocket")
    else
      match rq_origin rq with
      | Some origin =>
          if Str.isEmpty origin then (db, FromRoom)
          else
            match urlHost origin with
            | None => (db, Uncaught)
            | Some originHost =>
                if negb (String.eqb originHost (rq_host rq))
                then (db, TextResponse 403 "Forbidden")
                else (db, FromRoom)
            end
      | None => (db, FromRoom)
      end
  else if String.prefix "/api/" (rq_pathname rq) then handleAPI proto rq db
  else (db, TextResponse 404 "Not Found").

(** The user id that a request names, where the API reads one. *)
Definition namedUser (rq : Request) : option string :=
  if String.eqb (rq_pathname rq) "/api/profile"
  then rq_userId rq
  else match rq_body rq with
       | JsonFields (JString u) _ => Some u
       | _ => None
       end.

(** The request comes from the site itself: it has no [Origin], or one
    with the host of the URL. *)
Definition ownOrigin (urlHost : string -> option string) (rq : Request) : Prop :=
  match rq_origin rq with
  | None => True
  | Some origin => origin = "" \/ urlHost origin = Some (rq_host rq)
  end.

(** A request for the samples: a purchase by Ann. *)
Definition sampleRequest : Request :=
  mkRequest "/api/hat/buy" "moneyman.example" "POST" None None None
    (JsonFields (JString "123e4567-e89b-12d3-a456-426614174000")
       (JString "beret")).


(* ================================================================== *)
(** ** The client: HTML escaping *)
(* ================================================================== *)

(** The double quote. *)
Definition QUOTE : ascii := "034"%char.

(** [str.replace(/c/g, by)] for a single character [c]. *)
Fixpoint replaceAll (c : ascii) (by_ : string) (str : string) : string :=
  match str with
  | EmptyString => EmptyString
  | String d rest =>
      if Ascii.eqb d c then (by_ ++ replaceAll c by_ rest)%string
      else String d (replaceAll c by_ rest)
  end.

Definition esc (str : string) : string :=
  replaceAll QUOTE "&quot;"
    (replaceAll ">" "&gt;" (replaceAll "<" "&lt;" (replaceAll "&" "&amp;" str))).

(** What [esc] makes of one character. *)
Definition escChar (c : ascii) : string :=
  if Ascii.eqb c "&" then "&amp;"
  else if Ascii.eqb c "<" then "&lt;"
  else if Ascii.eqb c ">" then "&gt;"
  else if Ascii.eqb c QUOTE then "&quot;"
  else String c EmptyString.

(** [esc] character by character. *)
Fixpoint escEach (str : string) : string :=
  match str with
  | EmptyString => EmptyString
  | String c rest => (escChar c ++ escEach rest)%string
  end.

(** A character that cannot open or close a tag or end an attribute. *)
Definition isInert (c : ascii) : bool :=
  negb (Ascii.eqb c "<") && negb (Ascii.eqb c ">") && negb (Ascii.eqb c QUOTE).


(* ================================================================== *)
(** ** Vocabulary of the catch rule *)
(* ================================================================== *)

(** The first player in iteration order whose box the coin hits. *)
Definition firstHit (c : Coin) (ps : JsMap.t Player) : option string :=
  option_map fst (List.find (fun e => hits (snd e) c) ps).

(** What a step does with a coin. *)
Inductive Fate : Type :=
| Grounded                  (* past the ground: removed, nobody scores *)
| CaughtBy (id : string)    (* removed, 10 points and one event for [id] *)
| Kept.                     (* moved, stays in the object set *)

(** The fate of the coin [c] in a step of [dt] with the roster [ps], as
    the rule words it: the ground first, then the first player hit. *)
Definition fate (E : Env) (dt : Qc) (ps : JsMap.t Player) (c : Coin) : Fate :=
  if pastGround (moveCoin E dt c) then Grounded
  else
    match firstHit (moveCoin E dt c) ps with
    | Some id => CaughtBy id
    | None => Kept
    end.

Definition isKept (f : Fate) : bool :=
  match f with Kept => true | _ => false end.

Definition isCaughtBy (id : string) (f : Fate) : bool :=
  match f with CaughtBy w => String.eqb id w | _ => false end.

(** The object set after the step: the coins that are kept, moved. *)
Definition keptCoins (E : Env) (dt : Qc) (ps : JsMap.t Player)
    (cs : list Coin) : list Coin :=
  List.map (moveCoin E dt)
    (List.filter (fun c => isKept (fate E dt ps c)) cs).

(** The event of a coin: one when it is caught, none otherwise. *)
Definition catchEvent (E : Env) (dt : Qc) (ps : JsMap.t Player) (c : Coin)
  : list CollectedEvent :=
  match fate E dt ps c with
  | CaughtBy id =>
      [mkCollected id (c_x (moveCoin E dt c)) (c_y (moveCoin E dt c))]
  | _ => []
  end.

(** The events of a step, in the order of the loop: last coin first. *)
Definition catchEvents (E : Env) (dt : Qc) (ps : JsMap.t Player)
    (cs : list Coin) : list CollectedEvent :=
  flat_map (catchEvent E dt ps) (List.rev cs).

(** How many of the coins the player [id] catches. *)
Definition catchesOf (E : Env) (dt : Qc) (ps : JsMap.t Player) (id : string)
    (cs : list Coin) : Z :=
  Z.of_nat
    (List.length (List.filter (fun c => isCaughtBy id (fate E dt ps c)) cs)).

(** Who stands where: what the collision test reads of the roster. *)
Definition stance (ps : JsMap.t Player) : list (string * Qc) :=
  List.map (fun e => (fst e, p_x (snd e))) ps.

(** The room of a step once its clock is set back and its spawn loop has
    run, before the coins move. *)
Definition afterSpawn (E : Env) (dt : Qc) (r : Room) : Room :=
  let r1 := setTimeLeft (timeLeft r - dt) r in
  let r2 := setCoinSpawnAccumulator (coinSpawnAccumulator r1 + dt) r1 in
  spawnLoop E (spawnFuel (coinSpawnAccumulator r2)) r2.

(* ================================================================== *)
(** ** The instance: handlers that wake it first *)
(* ================================================================== *)

(** [webSocketMessage], [webSocketClose] and [alarm] above are the bodies
    of the handlers as they run on an initialised instance.  In the
    source each of them, and [fetch], opens with
    [await this._ensureInitialized()] (the fast path of a move apart,
    which asks for [this.initialized]): on an instance that was evicted,
    the first handler to run restores the fields from storage and the two
    maps from the sockets, arms the alarm of the restored state, and only
    then goes on.  [GameRoom] puts the two together. *)
Module GameRoom.

(** What a handler finds: the fields in memory once the instance is
    initialised ([None] before that: the constructor has just run), the
    snapshot that storage holds under ['gs'], and the live sockets with
    their attachments. *)
Record Instance : Type := mkInstance {
  memory : option Room;
  stored : option Snapshot;
  sockets : Sockets
}.

(** Eviction: the memory is lost, storage and the sockets stay. *)
Definition evict (i : Instance) : Instance :=
  mkInstance None (stored i) (sockets i).

(** The fields of the object: those of the constructor before the
    instance is initialised. *)
Definition room (i : Instance) : Room :=
  match memory i with
  | Some r => r
  | None => newRoom
  end.

(** [_ensureInitialized] with its first line,
    [if (this.initialized) return]. *)
Definition ensureInitialized (now : Z) (i : Instance) : Room * list Effect :=
  match memory i with
  | Some r => (r, [])
  | None => _ensureInitialized now (stored i) (sockets i)
  end.

Definition persists (es : list Effect) : bool :=
  existsb (fun e => match e with PersistState => true | _ => false end) es.

(** The instance when a handler returns with the fields [r] after the
    effects [es].  [_persistState], the last step of the handlers that
    call it, stores the snapshot and writes the attachments; [saved] says
    that [_savePlayerAttachments] ran by itself. *)
Definition settle (saved : bool) (r : Room) (es : list Effect) (i : Instance)
  : Instance :=
  if persists es
  then mkInstance (Some r) (Some (snapshotOf r))
         (_savePlayerAttachments r (sockets i))
  else if saved
       then mkInstance (Some r) (stored i)
              (_savePlayerAttachments r (sockets i))
       else mkInstance (Some r) (stored i) (sockets i).

(** The PLAYING branch of [alarm] reaches its last lines, where it calls
    [_savePlayerAttachments]: the roster is not empty and the step leaves
    time on the clock. *)
Definition reachesSave (E : Env) (now : Z) (r : Room) : bool :=
  match state r with
  | PLAYING =>
      negb (JsMap.size (players r) =? 0)%nat
      && negb (Num.leb (timeLeft (physicsTick E now r)) 0)
  | _ => false
  end.

Definition alarm (E : Env) (now : Z) (sendOk : string -> bool) (i : Instance)
  : Instance * list Effect :=
  let '(r, e0) := ensureInitialized now i in
  let '(r', e) := alarm E now sendOk r in
  (settle (reachesSave E now r) r' e i, e0 ++ e).

(** [conn] is [att.playerId], empty when the socket has no attachment. *)
Definition webSocketClose (now : Z) (conn : string) (i : Instance)
  : Instance * list Effect :=
  let '(r, e0) := ensureInitialized now i in
  let '(r', e) := webSocketClose now conn r in
  (settle false r' e i, e0 ++ e).

(** The [move] case of the normal path: the position only, no step. *)
Definition moveFallback (conn : string) (x : Num.xnum) (r : Room) : Room :=
  if GameState_eqb (state r) PLAYING && JsMap.has conn (players r)
  then if Num.isNaN x then r else placePlayer conn x r
  else r.

(** A frame is dropped before anything else.  On an initialised instance
    the body above runs.  Otherwise a move cannot take the fast path: the
    normal path restores the room and then handles the message. *)
Definition webSocketMessage (E : Env) (now : Z) (sendOk : string -> bool)
    (conn : string) (m : Incoming) (i : Instance) : Instance * list Effect :=
  match m with
  | InDropped => (i, [])
  | _ =>
      match memory i with
      | Some r =>
          let '(r', e) := webSocketMessage E now sendOk conn m r in
          (settle false r' e i, e)
      | None =>
          let '(r, e0) := _ensureInitialized now (stored i) (sockets i) in
          if Str.isEmpty conn then (settle false r [] i, e0)
          else
            match m with
            | InJoin name userId hat =>
                let '(r', e) := joinRoom E now conn name userId hat r in
                (settle false r' e i, e0 ++ e)
            | InMove x => (settle false (moveFallback conn x r) [] i, e0)
            | _ => (settle false r [] i, e0)
            end
      end
  end.

(** [fetch]: restore, then accept the connection. *)
Definition fetch (E : Env) (now : Z) (i : Instance)
  : Instance * list Effect * FetchResponse :=
  let '(r, e0) := ensureInitialized now i in
  let '(r', socks', gs, answer) := fetch E r (sockets i) in
  (mkInstance (Some r')
     (match gs with Some g => Some g | None => stored i end) socks',
   e0, answer).

(** One invocation of a handler on the instance. *)
Definition handle (E : Env) (s : Stimulus) (i : Instance)
  : Instance * list Effect :=
  match st_trigger s with
  | OnMessage conn m => webSocketMessage E (st_now s) (st_sendOk s) conn m i
  | OnClose conn => webSocketClose (st_now s) conn i
  | OnAlarm => alarm E (st_now s) (st_sendOk s) i
  end.

(** Runs the invocations in order; the instance may be evicted between
    any two of them (see [evict]). *)
Fixpoint run (E : Env) (ss : list Stimulus) (i : Instance)
  : Instance * list Effect :=
  match ss with
  | [] => (i, [])
  | s :: rest =>
      let '(i1, e1) := handle E s i in
      let '(i2, e2) := run E rest i1 in
      (i2, e1 ++ e2)
  end.

End GameRoom.

(** The effects of the restore and of the body in an invocation. *)
Definition restoreEffects (s : Stimulus) (i : GameRoom.Instance) : list Effect :=
  match st_trigger s with
  | OnMessage _ InDropped => []
  | _ => snd (GameRoom.ensureInitialized (st_now s) i)
  end.

(** A round with one player, "1", and a coin just above; the sockets of
    "1" and of a connection "9" that has not joined yet. *)
Definition openRound : GameRoom.Instance :=
  GameRoom.mkInstance
    (Some (playingRoom [("1", samplePlayer 100 0 "Ann")] []
             [sampleCoin 1 120 415 100] (Num.ofZ 30) []))
    None
    [ ("1", Some (playerAttachment "1" (samplePlayer 100 0 "Ann")));
      ("9", Some (newAttachment "9")) ].

(** Connection "9" joins at 1000 and has to wait: the room is
    [catchRoom], and [_persistState] has stored it. *)
Definition storedRound : GameRoom.Instance :=
  fst (GameRoom.handle sampleEnv (joinAt 1000 "9" "Zed") openRound).

(** The alarm at 1200 steps the round: player "1" catches the coin. *)
Definition afterCatch : GameRoom.Instance * list Effect :=
  GameRoom.handle sampleEnv (alarmAt 1200) storedRound.

(** The instance is evicted; the alarm set for 2200 wakes it. *)
Definition afterWake : GameRoom.Instance * list Effect :=
  GameRoom.handle sampleEnv (alarmAt 2200) (GameRoom.evict (fst afterCatch)).

(** The session after the first 27 invocations of [endRun]: seven coins
    fall, and the oldest, coin 1, is a step above player "1". *)
Definition ripeRoom : Room := fst (run sampleEnv (firstn 27 endRun) newRoom).

(** [a] lists entries of [b], in the order that they have in [b]. *)
Inductive inOrderOf {A : Type} : list A -> list A -> Prop :=
| order_nil : inOrderOf [] []
| order_keep (x : A) (a b : list A) : inOrderOf a b -> inOrderOf (x :: a) (x :: b)
| order_drop (x : A) (a b : list A) : inOrderOf a b -> inOrderOf a (x :: b).

(** Seven connections, listed by [ctx.getWebSockets()] in an order that
    is not the order in which they join below. *)
Definition queueSockets : Sockets :=
  List.map (fun k => (k, Some (newAttachment k)))
    ["7"; "6"; "5"; "4"; "3"; "2"; "1"].

(** "1" joins and the round starts at 25000; "2" to "7" join in this
    order and have to wait. *)
Definition queueRun : list Stimulus :=
  [ joinAt 0 "1" "Ann"; alarmAt 20000;
    alarmAt 21000; alarmAt 22000; alarmAt 23000; alarmAt 24000; alarmAt 25000;
    joinAt 25100 "2" "Bob"; joinAt 25200 "3" "Cy"; joinAt 25300 "4" "Dee";
    joinAt 25400 "5" "Eve"; joinAt 25500 "6" "Flo"; joinAt 25600 "7" "Gus" ].

Definition queueInstance : GameRoom.Instance :=
  fst (GameRoom.run sampleEnv queueRun
         (GameRoom.mkInstance None None queueSockets)).

(** The queue of [r'] is the queue of [r] without some of its entries,
    the others in their order. *)
Definition queueKept (r r' : Room) : Prop :=
  inOrderOf (JsMap.keys (waitingRoom r')) (JsMap.keys (waitingRoom r)).

(** The queue of [r'] is the queue of [r] with [conn], a new key, at its
    end. *)
Definition queueJoined (conn : string) (r r' : Room) : Prop :=
  ~ In conn (JsMap.keys (waitingRoom r))
  /\ JsMap.keys (waitingRoom r') = JsMap.keys (waitingRoom r) ++ [conn].

(** [Number.MAX_SAFE_INTEGER]: up to this size an integer is the same
    as a JavaScript number, as a D1 parameter and as an SQLite INTEGER,
    and sums of such integers are exact in all three. *)
Definition MAX_SAFE_INTEGER : Z := 9007199254740991.

Definition safeInteger (z : Z) : Prop :=
  (- MAX_SAFE_INTEGER <= z <= MAX_SAFE_INTEGER)%Z.

(** The four amounts of a row are safe integers. *)
Definition amountsSafe (u : Db.UserRow) : Prop :=
  safeInteger (Db.coins_total u) /\ safeInteger (Db.coins_balance u)
  /\ safeInteger (Db.wins u) /\ safeInteger (Db.games_played u).

(** A new instance with the three connections of the sample session,
    accepted and not joined yet. *)
Definition sessionStart : GameRoom.Instance :=
  GameRoom.mkInstance None None
    (List.map (fun k => (k, Some (newAttachment k))) ["1"; "2"; "3"]).

(** The first 28 invocations of [endRun] on that instance: in the last
    one, the alarm at 42000, player "1" catches coin 1. *)
Definition sessionCaught : GameRoom.Instance :=
  fst (GameRoom.run sampleEnv (firstn 28 endRun) sessionStart).

(** [k] fallback alarms from 43000 on, a second apart. *)
Definition laterAlarms (k : nat) : list Stimulus :=
  List.map (fun j => alarmAt (43000 + 1000 * Z.of_nat j)) (seq 0 k).

(** The coin with the id [k] has been in the object set and has left it:
    the id has been given out and no coin of the set carries it. *)
Definition gone (k : Z) (r : Room) : Prop :=
  (k < nextCoinId r)%Z /\ ~ In k (List.map c_id (coins r)).

(** The handler starts a round: [_startPlaying] empties the object set
    and gives out the ids from 1 again. *)
Definition startsRound (E : Env) (s : Stimulus) (r : Room) : Prop :=
  state r = COUNTDOWN /\ state (fst (handle E s r)) = PLAYING.

(** No invocation of the run starts a round. *)
Fixpoint sameRound (E : Env) (ss : list Stimulus) (r : Room) : Prop :=
  match ss with
  | [] => True
  | s :: rest =>
      ~ startsRound E s r /\ sameRound E rest (fst (handle E s r))
  end.

(* ================================================================== *)
(** ** Facts about numbers *)
(* ================================================================== *)

Module NumFacts.
Import Num.

Lemma leb_le (a b : Qc) : leb a b = true <-> (a <= b)%Qc.
Proof. unfold leb, Qcle. apply Qle_bool_iff. Qed.

Lemma leb_gt (a b : Qc) : leb a b = false <-> (b < a)%Qc.
Proof.
  unfold leb, Qclt. split; intro H.
  - apply Qnot_le_lt. intro L. apply Qle_bool_iff in L. congruence.
  - destruct (Qle_bool a b) eqn:E; [|reflexivity].
    apply Qle_bool_iff in E. exfalso. apply (Qlt_not_le _ _ H E).
Qed.

Lemma ltb_lt (a b : Qc) : ltb a b = true <-> (a < b)%Qc.
Proof.
  unfold ltb. rewrite negb_true_iff. apply leb_gt.
Qed.

(** Subtraction, seen through the underlying rationals. *)
Lemma minus_Q (a b : Qc) : ((a - b)%Qc : Q) == (a : Q) - (b : Q).
Proof.
  unfold Qcminus, Qcplus, Qcopp, Q2Qc, this.
  do 2 setoid_rewrite Qred_correct. reflexivity.
Qed.

Lemma minus_le_self (a d : Qc) : (0 <= d)%Qc -> (a - d <= a)%Qc.
Proof.
  unfold Qcle. intro H. rewrite minus_Q.
  change (this 0%Qc) with 0%Q in H. lra.
Qed.

Lemma this_Q2Qc (q : Q) : (Q2Qc q : Q) == q.
Proof. unfold Q2Qc, this. apply Qred_correct. Qed.

Lemma div_Q (a b : Qc) : ((a / b)%Qc : Q) == (a : Q) / (b : Q).
Proof.
  unfold Qcdiv, Qcmult, Qcinv. rewrite this_Q2Qc, this_Q2Qc. reflexivity.
Qed.

Lemma ofZ_div_nonneg (n d : Z) :
  (0 <= n)%Z -> (0 < d)%Z -> (0 <= ofZ n / ofZ d)%Qc.
Proof.
  intros Hn Hd. unfold Qcle. rewrite div_Q. unfold ofZ.
  rewrite !this_Q2Qc. change (this 0%Qc) with 0%Q.
  apply Qle_shift_div_l.
  - change 0%Q with (inject_Z 0). rewrite <- Zlt_Qlt. exact Hd.
  - rewrite Qmult_0_l. change 0%Q with (inject_Z 0).
    rewrite <- Zle_Qle. exact Hn.
Qed.

Lemma min_nonneg (a b : Qc) : (0 <= a)%Qc -> (0 <= b)%Qc -> (0 <= min a b)%Qc.
Proof. intros Ha Hb. unfold min. destruct (leb a b); assumption. Qed.

End NumFacts.

(** ** The name filter on examples *)

Example sanitize_ex1 : sanitizeName "  <b>Zoe!</b>  " = "bZoeb".
Proof. reflexivity. Qed.

Example sanitize_ex2 : sanitizeName "!!!" = "".
Proof. reflexivity. Qed.

Example sanitize_ex3 : sanitizeName "abcdefg  xyz" = "abcdefg ".
Proof. reflexivity. Qed.

Example clean_ex1 : isNameClean "Player" = true.
Proof. reflexivity. Qed.

Example clean_ex2 : isNameClean "s-h_i t" = false.
Proof. reflexivity. Qed.

Example uuid_ex1 : UUID_RE_test "123e4567-E89b-12d3-a456-426614174000" = true.
Proof. reflexivity. Qed.

Example uuid_ex2 : UUID_RE_test "123e4567-e89b-12d3-a456-42661417400" = false.
Proof. reflexivity. Qed.

(* ================================================================== *)
(** ** Facts about maps *)
(* ================================================================== *)

Module JsMapFacts.
Import JsMap.

Section Facts.
Variable V : Type.
Implicit Types (m : t V) (k : string) (v : V).

Lemma has_In k m : has k m = true <-> In k (keys m).
Proof.
  induction m as [|[k' v'] m IH]; simpl.
  - split; [discriminate | tauto].
  - rewrite orb_true_iff, IH, String.eqb_eq. intuition congruence.
Qed.

Lemma has_false_notIn k m : has k m = false <-> ~ In k (keys m).
Proof.
  rewrite <- has_In. destruct (has k m); split; congruence.
Qed.

Lemma set_fresh k v m : has k m = false -> set k v m = m ++ [(k, v)].
Proof.
  induction m as [|[k' v'] m IH]; simpl; intro H; [reflexivity|].
  apply orb_false_iff in H as [H1 H2]. rewrite H1, IH by assumption.
  reflexivity.
Qed.

Lemma keys_set_fresh k v m : has k m = false -> keys (set k v m) = keys m ++ [k].
Proof.
  intro H. rewrite set_fresh by assumption. unfold keys.
  rewrite map_app. reflexivity.
Qed.

Lemma get_set_same k v m : get k (set k v m) = Some v.
Proof.
  induction m as [|[k' v'] m IH]; simpl.
  - rewrite String.eqb_refl. reflexivity.
  - destruct (String.eqb k k') eqn:Ek; simpl.
    + rewrite String.eqb_refl. reflexivity.
    + rewrite Ek. exact IH.
Qed.

Lemma keys_update k (f : V -> V) m : keys (update k f m) = keys m.
Proof.
  induction m as [|[k' v'] m IH]; simpl; [reflexivity|].
  destruct (String.eqb k k'); simpl; [reflexivity|].
  f_equal. exact IH.
Qed.

Lemma keys_delete_incl k m : incl (keys (delete k m)) (keys m).
Proof.
  induction m as [|[k' v'] m IH]; simpl; [apply incl_refl|].
  destruct (String.eqb k k'); simpl.
  - apply incl_tl, incl_refl.
  - apply incl_cons; [left; reflexivity | apply incl_tl, IH].
Qed.

Lemma NoDup_keys_delete k m : NoDup (keys m) -> NoDup (keys (delete k m)).
Proof.
  induction m as [|[k' v'] m IH]; simpl; intro H; [constructor|].
  inversion H as [|? ? Hn Hd]; subst.
  destruct (String.eqb k k'); simpl; [assumption|].
  constructor; [|apply IH; assumption].
  intro Hin. apply Hn. apply (keys_delete_incl k m). exact Hin.
Qed.

Lemma keys_filter_incl (f : string * V -> bool) m :
  incl (keys (List.filter f m)) (keys m).
Proof.
  induction m as [|e m IH]; simpl; [apply incl_refl|].
  destruct (f e); simpl.
  - apply incl_cons; [left; reflexivity | apply incl_tl, IH].
  - apply incl_tl, IH.
Qed.

Lemma NoDup_keys_filter (f : string * V -> bool) m :
  NoDup (keys m) -> NoDup (keys (List.filter f m)).
Proof.
  induction m as [|e m IH]; simpl; intro H; [constructor|].
  inversion H as [|? ? Hn Hd]; subst.
  destruct (f e); simpl; [|apply IH; assumption].
  constructor; [|apply IH; assumption].
  intro Hin. apply Hn. apply (keys_filter_incl f m). exact Hin.
Qed.

End Facts.
End JsMapFacts.

(* ================================================================== *)
(** ** Settlement *)
(* ================================================================== *)

Section Settlement.

Lemma insertRanked_perm x l : Permutation (insertRanked x l) (x :: l).
Proof.
  induction l as [|y l IH]; simpl; [apply Permutation_refl|].
  destruct (rk_score x <? rk_score y)%Z; [|apply Permutation_refl].
  eapply perm_trans; [apply perm_skip, IH | apply perm_swap].
Qed.

Lemma sortRanked_perm l : Permutation (sortRanked l) l.
Proof.
  induction l as [|x l IH]; simpl; [constructor|].
  eapply perm_trans; [apply insertRanked_perm | apply perm_skip, IH].
Qed.

Lemma insertRanked_sorted x l :
  StronglySorted scoreGe l -> StronglySorted scoreGe (insertRanked x l).
Proof.
  induction l as [|y l IH]; simpl; intro H.
  - repeat constructor.
  - inversion H as [|? ? Hs Hf]; subst.
    destruct (rk_score x <? rk_score y)%Z eqn:Ec.
    + apply Z.ltb_lt in Ec. constructor; [apply IH; assumption|].
      apply Forall_forall. intros z Hz.
      apply (Permutation_in _ (insertRanked_perm x l)) in Hz.
      destruct Hz as [<-|Hz]; [unfold scoreGe; lia|].
      rewrite Forall_forall in Hf. apply Hf; assumption.
    + apply Z.ltb_ge in Ec. constructor; [assumption|].
      constructor; [exact Ec|].
      rewrite Forall_forall in Hf |- *. intros z Hz.
      specialize (Hf z Hz). unfold scoreGe in *. lia.
Qed.

Lemma sortRanked_sorted l : StronglySorted scoreGe (sortRanked l).
Proof.
  induction l as [|x l IH]; simpl; [constructor|].
  apply insertRanked_sorted, IH.
Qed.

Lemma awardFrom_idScore i l :
  List.map idScore (awardFrom i l) = List.map idScore l.
Proof.
  revert i. induction l as [|p l IH]; intro i; simpl; [reflexivity|].
  rewrite IH. reflexivity.
Qed.

Lemma awardFrom_nth l : forall i k p,
  nth_error (awardFrom i l) k = Some p ->
  exists q, nth_error l k = Some q /\ p = award (i + k) q.
Proof.
  induction l as [|x l IH]; intros i k p H.
  - destruct k; discriminate.
  - destruct k as [|k]; simpl in H.
    + injection H as <-. exists x. rewrite Nat.add_0_r. split; reflexivity.
    + apply IH in H as [q [Hq ->]]. exists q. split; [exact Hq|].
      f_equal. lia.
Qed.

Lemma awardFrom_sorted i l :
  StronglySorted scoreGe l -> StronglySorted scoreGe (awardFrom i l).
Proof.
  revert i. induction l as [|x l IH]; intros i H; simpl; [constructor|].
  inversion H as [|? ? Hs Hf]; subst. constructor; [apply IH; assumption|].
  rewrite Forall_forall in Hf |- *. intros z Hz.
  apply In_nth_error in Hz as [k Hk].
  apply awardFrom_nth in Hk as [q [Hq ->]].
  apply nth_error_In in Hq. exact (Hf q Hq).
Qed.

End Settlement.

(** C4. At the PLAYING to GAME_OVER transition ([_endGame]) the ranking
    that is broadcast lists the players by descending score, and the
    award of the player at every rank is score + winner bonus (50, only at
    rank 0 and only for a positive score) + participation bonus (25); for
    ranked scores 30, 10, 0 the awards are 105, 35, 25. *)
Theorem C4_settlement_awards (E : Env) (now : Z) (r : Room) :
  let ranked := rankPlayers (players r) in
  state (fst (_endGame E now r)) = GAME_OVER
  /\ In (BroadcastAll (MsgGameOver ranked)) (snd (_endGame E now r))
  /\ StronglySorted scoreGe ranked
  /\ Permutation (List.map idScore ranked)
       (List.map (fun e => (fst e, p_score (snd e))) (players r))
  /\ (forall i p, nth_error ranked i = Some p ->
        rk_coinsEarned p = expectedAward i (rk_score p)
        /\ rk_isWinner p = ((i =? 0)%nat && (0 <? rk_score p)%Z))
  /\ (forall ps,
        List.map rk_score (rankPlayers ps) = [30; 10; 0]%Z ->
        List.map rk_coinsEarned (rankPlayers ps) = [105; 35; 25]%Z).
Proof.
  intro ranked. repeat split.
  - simpl. left. reflexivity.
  - apply awardFrom_sorted, sortRanked_sorted.
  - unfold ranked, rankPlayers. rewrite awardFrom_idScore.
    eapply perm_trans; [apply Permutation_map, sortRanked_perm|].
    rewrite map_map. apply Permutation_refl.
  - unfold ranked, rankPlayers in H.
    apply awardFrom_nth in H as [q [_ ->]]. reflexivity.
  - unfold ranked, rankPlayers in H.
    apply awardFrom_nth in H as [q [_ ->]]. reflexivity.
  - intros ps H. unfold rankPlayers in *.
    destruct (sortRanked (List.map rankedEntry ps)) as [|a [|b [|c [|d l]]]];
      simpl in H; try discriminate.
    injection H as Ha Hb Hc. simpl. rewrite Ha, Hb, Hc. reflexivity.
Qed.

(** The roster with scores 10, 0, 30 is ranked 30, 10, 0 and earns
    105, 35, 25. *)
Lemma C4_settlement_awards_witness :
  List.map rk_score (rankPlayers threePlayers) = [30; 10; 0]%Z
  /\ List.map rk_coinsEarned (rankPlayers threePlayers) = [105; 35; 25]%Z
  /\ List.map rk_playerId (rankPlayers threePlayers) = ["3"; "1"; "2"].
Proof.
  split; [reflexivity|]. split; [|reflexivity].
  apply (C4_settlement_awards sampleEnv 0
           (playingRoom threePlayers [] [] 0 [])).
  reflexivity.
Defined.

(* ================================================================== *)
(** ** Joining *)
(* ================================================================== *)

(** C10. A join message from a connection whose id is already in the
    active roster or in the waiting room changes nothing in the room and
    has no effect at all. *)
Theorem C10_join_idempotent (E : Env) (now : Z) (sendOk : string -> bool)
    (conn : string) (name userId hat : jsval) (r : Room) :
  JsMap.has conn (players r) = true \/ JsMap.has conn (waitingRoom r) = true ->
  webSocketMessage E now sendOk conn (InJoin name userId hat) r = (r, []).
Proof.
  intro H. unfold webSocketMessage, joinRoom.
  destruct (Str.isEmpty conn); [reflexivity|].
  destruct H as [-> | ->]; [reflexivity|].
  rewrite orb_true_r. reflexivity.
Qed.

Lemma C10_join_idempotent_witness :
  webSocketMessage sampleEnv 5000 allOk "1"
    (InJoin (JString "Zed") JUndefined JUndefined)
    (playingRoom threePlayers [] [] GAME_DURATION [])
  = (playingRoom threePlayers [] [] GAME_DURATION [], []).
Proof.
  apply C10_join_idempotent. left. reflexivity.
Defined.


Lemma isRejection_In to reason (e : list Effect) :
  In (Send to (MsgNameRejected reason)) e -> existsb isRejection e = true.
Proof.
  intro H. apply existsb_exists. eexists. split; [exact H | reflexivity].
Qed.

Lemma addPlayerToLobby_quiet now conn name hat userId r :
  existsb isRejection (snd (_addPlayerToLobby now conn name hat userId r)) = false.
Proof.
  unfold _addPlayerToLobby.
  destruct (MAX_PLAYERS <=? JsMap.size (players r))%nat; [reflexivity|].
  cbv zeta.
  destruct (JsMap.size _ =? 1)%nat; destruct (MAX_PLAYERS <=? _)%nat;
    reflexivity.
Qed.

Lemma addToWaitingRoom_enrolls conn name hat userId r :
  enrolledAs conn name (fst (_addToWaitingRoom conn name hat userId r)).
Proof.
  right. simpl. eexists. split; [apply JsMapFacts.get_set_same | reflexivity].
Qed.

Lemma addPlayerToLobby_enrolls now conn name hat userId r :
  enrolledAs conn name (fst (_addPlayerToLobby now conn name hat userId r)).
Proof.
  unfold _addPlayerToLobby.
  destruct (MAX_PLAYERS <=? JsMap.size (players r))%nat.
  - apply addToWaitingRoom_enrolls.
  - cbv zeta. destruct (MAX_PLAYERS <=? _)%nat; left; simpl;
      (eexists; split; [apply JsMapFacts.get_set_same | reflexivity]).
Qed.

(** C9. A join whose supplied name sanitizes to the empty string is
    accepted under the display name 'Player'; a nameRejected reply is sent
    only when the sanitized (or defaulted) name fails the profanity
    filter, and then the room is left as it was: no player and no waiting
    entry is created. *)
Theorem C9_default_name_and_rejection (E : Env) (now : Z)
    (sendOk : string -> bool) (conn : string) (name userId hat : jsval)
    (r : Room) :
  let out := webSocketMessage E now sendOk conn (InJoin name userId hat) r in
  (* the reply is sent only for a name that fails the filter *)
  (forall to reason,
     In (Send to (MsgNameRejected reason)) (snd out) ->
     isNameClean (joinName E name) = false /\ fst out = r)
  /\ (Str.isEmpty conn = false ->
      JsMap.has conn (players r) = false ->
      JsMap.has conn (waitingRoom r) = false ->
      (* an empty sanitized name: accepted as 'Player', no rejection *)
      (sanitizeName (suppliedName E name) = "" ->
         joinName E name = "Player"
         /\ existsb isRejection (snd out) = false
         /\ enrolledAs conn "Player" (fst out))
      (* a name failing the filter: rejected, room untouched *)
      /\ (isNameClean (joinName E name) = false ->
            out = (r, [Send conn (MsgNameRejected REJECT_TEXT)]))).
Proof.
  intro out. subst out. unfold webSocketMessage, joinRoom. split.
  - intros to reason Hin. apply isRejection_In in Hin.
    destruct (Str.isEmpty conn); [discriminate|].
    destruct (JsMap.has conn (players r) || JsMap.has conn (waitingRoom r));
      [discriminate|].
    destruct (isNameClean (joinName E name)) eqn:Ec; simpl in *.
    + exfalso.
      destruct (state r).
      * pose proof (addPlayerToLobby_quiet now conn (joinName E name)
                      (joinHat E hat) (joinUserId userId) r) as Q.
        destruct (_addPlayerToLobby _ _ _ _ _ _) as [r1 e1]; simpl in *.
        rewrite existsb_app, Q in Hin. discriminate.
      * simpl in Hin. discriminate.
      * simpl in Hin. discriminate.
      * simpl in Hin. discriminate.
    + split; reflexivity.
  - intros Hc Hp Hw. rewrite Hc, Hp, Hw. simpl. split.
    + intro Hs. assert (Hn : joinName E name = "Player").
      { unfold joinName. rewrite Hs. reflexivity. }
      rewrite Hn. change (isNameClean "Player") with true. simpl.
      split; [reflexivity|].
      destruct (state r).
      * pose proof (addPlayerToLobby_quiet now conn "Player"
                      (joinHat E hat) (joinUserId userId) r) as Q.
        pose proof (addPlayerToLobby_enrolls now conn "Player"
                      (joinHat E hat) (joinUserId userId) r) as En.
        destruct (_addPlayerToLobby _ _ _ _ _ _) as [r1 e1]; simpl in *.
        rewrite existsb_app, Q. split; [reflexivity | exact En].
      * split; [reflexivity | apply addToWaitingRoom_enrolls].
      * split; [reflexivity | apply addToWaitingRoom_enrolls].
      * split; [reflexivity | apply addToWaitingRoom_enrolls].
    + intros ->. reflexivity.
Qed.

(** A name that is not a string is turned into text first: [true] joins
    as "true", so such a name does not always sanitize to the empty
    string; a falsy one ([null], [false], [0], a missing field) does. *)
Remark nonstring_names (E : Env) :
  joinName E (JBool true) = "true"
  /\ joinName E JUndefined = "Player"
  /\ joinName E JNull = "Player"
  /\ joinName E (JBool false) = "Player"
  /\ joinName E (JNumber (Num.Fin 0)) = "Player"
  /\ joinName E (JString "") = "Player".
Proof. repeat split. Qed.

(** A join with the name "!!!" (nothing survives the filter) in a lobby
    enrolls the connection as 'Player'; a join as "a_s-s" is rejected. *)
Lemma C9_default_name_and_rejection_witness :
  enrolledAs "2" "Player"
    (fst (webSocketMessage sampleEnv 5000 allOk "2"
            (InJoin (JString "!!!") JUndefined JUndefined) lobbyRoom))
  /\ webSocketMessage sampleEnv 5000 allOk "2"
       (InJoin (JString "a_s-s") JUndefined JUndefined) lobbyRoom
     = (lobbyRoom, [Send "2" (MsgNameRejected REJECT_TEXT)]).
Proof.
  split.
  - apply (C9_default_name_and_rejection sampleEnv 5000 allOk "2"
             (JString "!!!") JUndefined JUndefined lobbyRoom);
      reflexivity.
  - apply (C9_default_name_and_rejection sampleEnv 5000 allOk "2"
             (JString "a_s-s") JUndefined JUndefined lobbyRoom);
      reflexivity.
Defined.

(* ================================================================== *)
(** ** The physics step and the clock *)
(* ================================================================== *)

Section PhysicsFrame.

Variable E : Env.

Lemma sameButCoins_refl r : sameButCoins r r.
Proof. constructor; reflexivity. Qed.

Lemma sameButCoins_trans r1 r2 r3 :
  sameButCoins r1 r2 -> sameButCoins r2 r3 -> sameButCoins r1 r3.
Proof.
  intros [] []. constructor; congruence.
Qed.

Lemma spawnCoin_same r : sameButCoins r (_spawnCoin E r).
Proof.
  unfold _spawnCoin. destruct (COIN_CAP <=? _)%nat; constructor; reflexivity.
Qed.

Lemma spawnLoop_same fuel : forall r, sameButCoins r (spawnLoop E fuel r).
Proof.
  induction fuel as [|fuel IH]; intro r; simpl; [apply sameButCoins_refl|].
  destruct (Num.leb _ _); [|apply sameButCoins_refl].
  eapply sameButCoins_trans; [|apply IH].
  eapply sameButCoins_trans; [|apply spawnCoin_same].
  constructor; reflexivity.
Qed.

Lemma advancePhysics_timeLeft dt r :
  timeLeft (fst (_advancePhysics E dt r)) = timeLeft r - dt.
Proof.
  unfold _advancePhysics. cbv zeta.
  change (timeLeft (fst (?a, ?b))) with (timeLeft a).
  change (timeLeft (setPlayers ?p (setCoins ?c ?x))) with (timeLeft x).
  rewrite (same_timeLeft (spawnLoop_same _ _)). reflexivity.
Qed.

Lemma physicsTick_timeLeft now r :
  timeLeft (physicsTick E now r) = timeLeft r - physicsDt now r.
Proof.
  unfold physicsTick.
  pose proof (advancePhysics_timeLeft (physicsDt now r) r) as H.
  destruct (_advancePhysics E (physicsDt now r) r) as [r1 collected].
  simpl in H. destruct (nonEmpty collected); simpl; exact H.
Qed.

End PhysicsFrame.

Lemma physicsDt_nonneg now r :
  (lastPhysicsTime r <= now)%Z -> 0 <= physicsDt now r.
Proof.
  intro H. unfold physicsDt. apply NumFacts.min_nonneg.
  - apply NumFacts.ofZ_div_nonneg; lia.
  - apply NumFacts.leb_le. reflexivity.
Qed.

Lemma flooredTime_nonneg t dt : 0 <= flooredTime t dt.
Proof.
  unfold flooredTime. destruct (Num.leb (t - dt) 0) eqn:Ef.
  - apply Qcle_refl.
  - apply NumFacts.leb_gt in Ef. apply Qclt_le_weak. exact Ef.
Qed.

Lemma flooredTime_le t dt : 0 <= dt -> 0 <= t -> flooredTime t dt <= t.
Proof.
  intros Hd Ht. unfold flooredTime. destruct (Num.leb (t - dt) 0).
  - exact Ht.
  - apply NumFacts.minus_le_self. exact Hd.
Qed.

(** The clock part of both physics triggers: tick, then either end the
    round with [timeLeft = 0] or carry on with the decremented value. *)
Lemma tick_then_floor (E : Env) now r (k : Room -> Room * list Effect) :
  (forall x, timeLeft (fst (k x)) = timeLeft x) ->
  timeLeft
    (fst (if Num.leb (timeLeft (physicsTick E now r)) 0
          then finishRound E now (physicsTick E now r)
          else k (physicsTick E now r)))
  = flooredTime (timeLeft r) (physicsDt now r).
Proof.
  intro Hk. unfold flooredTime. rewrite <- physicsTick_timeLeft with (E := E).
  destruct (Num.leb _ 0); [reflexivity | apply Hk].
Qed.

(** C1. While PLAYING, [_advancePhysics] subtracts the step's [dt] from
    [timeLeft], and each physics trigger (a move of an active player, the
    fallback alarm) leaves [timeLeft] decremented by [dt] and floored at 0:
    it is never negative after a step and, the clock not running
    backwards, never larger than before. *)
Theorem C1_timeLeft_floor_monotone (E : Env) (now : Z)
    (sendOk : string -> bool) (r : Room) :
  state r = PLAYING ->
  let dt := physicsDt now r in
  timeLeft (fst (_advancePhysics E dt r)) = timeLeft r - dt
  /\ (forall conn x,
        Str.isEmpty conn = false ->
        JsMap.has conn (players r) = true ->
        Num.isNaN x = false ->
        let r' := fst (webSocketMessage E now sendOk conn (InMove x) r) in
        timeLeft r' = flooredTime (timeLeft r) dt
        /\ 0 <= timeLeft r'
        /\ ((lastPhysicsTime r <= now)%Z -> 0 <= timeLeft r ->
            timeLeft r' <= timeLeft r))
  /\ (JsMap.size (players r) <> 0%nat ->
        let r' := fst (alarm E now sendOk r) in
        timeLeft r' = flooredTime (timeLeft r) dt
        /\ 0 <= timeLeft r'
        /\ ((lastPhysicsTime r <= now)%Z -> 0 <= timeLeft r ->
            timeLeft r' <= timeLeft r)).
Proof.
  intros Hst dt. split; [apply advancePhysics_timeLeft|].
  assert (Hfloor : forall t', t' = flooredTime (timeLeft r) dt ->
            t' = flooredTime (timeLeft r) dt /\ 0 <= t'
            /\ ((lastPhysicsTime r <= now)%Z -> 0 <= timeLeft r ->
                t' <= timeLeft r)).
  { intros t' ->. split; [reflexivity|]. split; [apply flooredTime_nonneg|].
    intros Hn Ht. apply flooredTime_le; [apply physicsDt_nonneg|]; assumption. }
  split.
  - intros conn x Hc Hp Hx r'. apply Hfloor. subst r'.
    unfold webSocketMessage. rewrite Hst. unfold moveWhilePlaying.
    rewrite Hc, Hp, Hx. cbv zeta. simpl negb. simpl andb. cbv iota.
    set (r1 := placePlayer conn x r).
    change dt with (physicsDt now r1). change (timeLeft r) with (timeLeft r1).
    apply (tick_then_floor E now r1
             (fun x => if (BROADCAST_THROTTLE_MS <=? now - lastBroadcastTime x)%Z
                       then flushGameState now sendOk x else (x, []))).
    intro y. destruct (_ <=? _)%Z; reflexivity.
  - intros Hsz r'. apply Hfloor. subst r'. unfold alarm. rewrite Hst.
    apply Nat.eqb_neq in Hsz. rewrite Hsz.
    apply (tick_then_floor E now r
             (fun x => let '(r2, e) := flushGameState now sendOk x in
                       (r2, e ++ [SetAlarm (now + FALLBACK_ALARM_MS)%Z]))).
    intro y. reflexivity.
Qed.

(** 150 ms after the last step with 30 s left, the alarm and a move both
    leave a [timeLeft] that is neither negative nor larger than before. *)
Lemma C1_timeLeft_floor_monotone_witness :
  (0 <= timeLeft (fst (alarm sampleEnv 1150 allOk midRoundRoom))
   /\ timeLeft (fst (alarm sampleEnv 1150 allOk midRoundRoom))
      <= timeLeft midRoundRoom)
  /\ timeLeft (fst (webSocketMessage sampleEnv 1150 allOk "1"
                      (InMove (Num.Fin (Num.ofZ 200))) midRoundRoom))
     <= timeLeft midRoundRoom.
Proof.
  pose proof (C1_timeLeft_floor_monotone sampleEnv 1150 allOk midRoundRoom
                eq_refl) as [_ [Hmove Halarm]].
  split.
  - destruct Halarm as [_ [H0 Hle]]; [discriminate|].
    split; [exact H0|]. apply Hle; vm_compute; discriminate.
  - destruct (Hmove "1" (Num.Fin (Num.ofZ 200)) eq_refl eq_refl eq_refl)
      as [_ [_ Hle]].
    apply Hle; vm_compute; discriminate.
Defined.

(* ================================================================== *)
(** ** The clamp on the step size *)
(* ================================================================== *)

Lemma physicsDt_at_ceiling now r :
  (lastPhysicsTime r + 200 <= now)%Z -> physicsDt now r = MAX_PHYSICS_DT.
Proof.
  intro H. unfold physicsDt, Num.min.
  destruct (Num.leb _ MAX_PHYSICS_DT) eqn:El; [|reflexivity].
  apply NumFacts.leb_le in El. apply Qcle_antisym; [exact El|].
  unfold Qcle. rewrite NumFacts.div_Q. unfold Num.ofZ, MAX_PHYSICS_DT, Num.ofQ.
  rewrite !NumFacts.this_Q2Qc.
  apply Qle_shift_div_l; [reflexivity|].
  assert (Hq : (2 # 10) * inject_Z 1000 == inject_Z 200) by reflexivity.
  rewrite Hq. rewrite <- Zle_Qle. lia.
Qed.

Lemma physicsTick_core (E : Env) now r :
  physicsTick E now r = setLastPhysicsTime now (tickCore E (physicsDt now r) r).
Proof.
  unfold physicsTick, tickCore.
  destruct (_advancePhysics E (physicsDt now r) r) as [r1 collected].
  destruct (nonEmpty collected); reflexivity.
Qed.

Lemma finishRound_clock (E : Env) n n' t t' core :
  sameUpToClock (finishRound E n (setLastPhysicsTime t core))
                (finishRound E n' (setLastPhysicsTime t' core)).
Proof.
  split; [reflexivity|]. unfold finishRound, _endGame. cbn [snd].
  repeat rewrite map_app. reflexivity.
Qed.

Lemma flushGameState_clock n n' t t' sendOk core :
  sameUpToClock (flushGameState n sendOk (setLastPhysicsTime t core))
                (flushGameState n' sendOk (setLastPhysicsTime t' core)).
Proof. split; reflexivity. Qed.

(** C2. A physics trigger that comes at least 0.2 s after the last step
    steps the physics by exactly the ceiling: the clamped [dt] is
    [MAX_PHYSICS_DT], and the room and the effects that the alarm or a
    move produce are those of the same trigger arriving exactly 0.2 s
    after the last step, recorded time stamps and alarm times apart. *)
Theorem C2_clamped_step_equals_ceiling (E : Env) (sendOk : string -> bool)
    (r : Room) (now : Z) :
  state r = PLAYING ->
  (lastPhysicsTime r + 200 <= now)%Z ->
  let ceiling := (lastPhysicsTime r + 200)%Z in
  physicsDt now r = MAX_PHYSICS_DT
  /\ _advancePhysics E (physicsDt now r) r = _advancePhysics E MAX_PHYSICS_DT r
  /\ physicsTick E now r
     = setLastPhysicsTime now (physicsTick E ceiling r)
  /\ sameUpToClock (alarm E now sendOk r) (alarm E ceiling sendOk r)
  /\ (forall conn x,
        (lastBroadcastTime r <= lastPhysicsTime r)%Z ->
        sameUpToClock (webSocketMessage E now sendOk conn (InMove x) r)
                      (webSocketMessage E ceiling sendOk conn (InMove x) r)).
Proof.
  intros Hst Hgap ceiling.
  assert (Hdt : physicsDt now r = MAX_PHYSICS_DT)
    by (apply physicsDt_at_ceiling; exact Hgap).
  assert (Hdc : physicsDt ceiling r = MAX_PHYSICS_DT)
    by (apply physicsDt_at_ceiling; unfold ceiling; lia).
  split; [exact Hdt|]. split; [rewrite Hdt; reflexivity|].
  split; [rewrite !physicsTick_core, Hdt, Hdc; reflexivity|].
  split.
  - unfold alarm. rewrite Hst.
    destruct (JsMap.size (players r) =? 0)%nat.
    + unfold _returnToLobby.
      destruct (keepPlayers 0 (players r) []) as [kept index].
      destruct (promoteWaiters index (waitingRoom r) kept [])
        as [allPlayers remaining].
      split; [reflexivity|].
      cbn [snd]. repeat rewrite map_app.
      destruct (0 <? JsMap.size _)%nat; reflexivity.
    + rewrite !physicsTick_core, Hdt, Hdc.
      set (core := tickCore E MAX_PHYSICS_DT r).
      change (timeLeft (setLastPhysicsTime _ core)) with (timeLeft core).
      destruct (Num.leb (timeLeft core) 0); [apply finishRound_clock|].
      split; [reflexivity|]. unfold flushGameState, _broadcastGameState.
      cbn [snd]. repeat rewrite map_app. reflexivity.
  - intros conn x Hb. unfold webSocketMessage. rewrite Hst.
    unfold moveWhilePlaying.
    destruct (negb (Str.isEmpty conn) && JsMap.has conn (players r));
      [|split; reflexivity].
    destruct (Num.isNaN x); [split; reflexivity|]. cbv zeta.
    set (r1 := placePlayer conn x r).
    rewrite !physicsTick_core.
    change (physicsDt now r1) with (physicsDt now r).
    change (physicsDt ceiling r1) with (physicsDt ceiling r).
    rewrite Hdt, Hdc.
    set (core := tickCore E MAX_PHYSICS_DT r1).
    change (timeLeft (setLastPhysicsTime _ core)) with (timeLeft core).
    change (lastBroadcastTime (setLastPhysicsTime _ core))
      with (lastBroadcastTime core).
    destruct (Num.leb (timeLeft core) 0); [apply finishRound_clock|].
    assert (Hlb : lastBroadcastTime core = lastBroadcastTime r).
    { unfold core, tickCore, _advancePhysics. cbv zeta.
      destruct (nonEmpty _);
        cbn [lastBroadcastTime setPendingCollected setPlayers setCoins];
        rewrite (same_lastBroadcast (spawnLoop_same E _ _)); reflexivity. }
    rewrite Hlb.
    assert (T1 : (BROADCAST_THROTTLE_MS <=? now - lastBroadcastTime r)%Z = true)
      by (apply Z.leb_le; unfold BROADCAST_THROTTLE_MS; lia).
    assert (T2 : (BROADCAST_THROTTLE_MS <=? ceiling - lastBroadcastTime r)%Z = true)
      by (apply Z.leb_le; unfold BROADCAST_THROTTLE_MS, ceiling; lia).
    rewrite T1, T2. apply flushGameState_clock.
Qed.

Lemma C2_clamped_step_equals_ceiling_witness :
  physicsDt 11000 midRoundRoom = MAX_PHYSICS_DT
  /\ sameUpToClock (alarm sampleEnv 11000 allOk midRoundRoom)
                   (alarm sampleEnv 1200 allOk midRoundRoom)
  /\ sameUpToClock
       (webSocketMessage sampleEnv 11000 allOk "1"
          (InMove (Num.Fin (Num.ofZ 200))) midRoundRoom)
       (webSocketMessage sampleEnv 1200 allOk "1"
          (InMove (Num.Fin (Num.ofZ 200))) midRoundRoom).
Proof.
  assert (G : (lastPhysicsTime midRoundRoom + 200 <= 11000)%Z)
    by (vm_compute; discriminate).
  pose proof (C2_clamped_step_equals_ceiling sampleEnv allOk midRoundRoom
                eq_refl G) as [Hdt [_ [_ [Ha Hm]]]].
  split; [exact Hdt|]. split; [exact Ha|].
  apply Hm. vm_compute. discriminate.
Defined.

(* ================================================================== *)
(** ** Coins: ground and catches *)
(* ================================================================== *)

Section Coins.

Variable E : Env.

Lemma pastGround_iff c :
  pastGround c = true <-> GROUND_Y < c_y c - COIN_RADIUS.
Proof. unfold pastGround. apply NumFacts.ltb_lt. Qed.

Lemma coinStep_grounded dt c res :
  pastGround (moveCoin E dt c) = true -> coinStep E dt c res = res.
Proof. intro H. unfold coinStep. rewrite H. reflexivity. Qed.

Lemma coinLoop_airborne dt cs ps :
  coinLoop E dt cs ps = coinLoop E dt (airborneCoins E dt cs) ps.
Proof.
  induction cs as [|c cs IH]; [reflexivity|].
  unfold airborneCoins in *. simpl.
  destruct (pastGround (moveCoin E dt c)) eqn:Eg; simpl.
  - rewrite coinStep_grounded by assumption. exact IH.
  - rewrite IH. reflexivity.
Qed.

Lemma coinStep_coins dt c res :
  Forall (fun c' => pastGround c' = false) (lr_coins res) ->
  Forall (fun c' => pastGround c' = false) (lr_coins (coinStep E dt c res)).
Proof.
  intro H. unfold coinStep.
  destruct (pastGround (moveCoin E dt c)) eqn:Eg; [exact H|].
  destruct (catchCoin _ _) as [[w ps']|]; simpl; [exact H|].
  constructor; assumption.
Qed.

Lemma coinLoop_coins dt cs ps :
  Forall (fun c' => pastGround c' = false) (lr_coins (coinLoop E dt cs ps)).
Proof.
  induction cs as [|c cs IH]; simpl; [constructor|].
  apply coinStep_coins, IH.
Qed.

End Coins.

(** C8 (amended). During a physics step, every coin whose Y coordinate,
    after this step's motion, is more than the coin radius past the ground
    line ([y - 16 > 500]) is removed with no side effect: the step gives
    what it would give had the coin not been there, so no score changes and
    no CollectedEvent is produced for it, and no such coin stays in the
    object set. *)
Theorem C8_grounded_coin_removed_silently (E : Env) (dt : Qc)
    (cs : list Coin) (ps : JsMap.t Player) :
  (forall c, pastGround (moveCoin E dt c) = true
             <-> GROUND_Y < c_y (moveCoin E dt c) - COIN_RADIUS)
  /\ (forall c res, pastGround (moveCoin E dt c) = true ->
                    coinStep E dt c res = res)
  /\ coinLoop E dt cs ps = coinLoop E dt (airborneCoins E dt cs) ps
  /\ Forall (fun c' => pastGround c' = false) (lr_coins (coinLoop E dt cs ps)).
Proof.
  split; [intro c; apply pastGround_iff|].
  split; [intros c res; apply coinStep_grounded|].
  split; [apply coinLoop_airborne | apply coinLoop_coins].
Qed.

(** A coin that starts at height 520 stays past the ground and is dropped
    without a trace, although it is right above the player. *)
Lemma C8_grounded_coin_removed_silently_witness :
  coinStep sampleEnv (Num.ofQ (1 # 20)) (sampleCoin 9 120 520 100)
    (mkLoop [] [("1", samplePlayer 100 0 "Ann")] [])
  = mkLoop [] [("1", samplePlayer 100 0 "Ann")] [].
Proof.
  apply C8_grounded_coin_removed_silently; [exact [] | exact [] | reflexivity].
Defined.

(** C8 as stated fails: after a step of 0.05 s the coin [lowCoin] is at
    height 510, past the ground line 500, yet it is not removed when nobody
    stands there, and when a player stands there it is caught: an event is
    produced and the score changes. *)
Lemma C8_as_stated_counterexample :
  let dt := Num.ofQ (1 # 20) in
  let moved := moveCoin sampleEnv dt lowCoin in
  Num.ltb GROUND_Y (c_y lowCoin) = true
  /\ Num.ltb GROUND_Y (c_y moved) = true
  /\ List.map c_id (lr_coins (coinLoop sampleEnv dt [lowCoin] [])) = [7%Z]
  /\ (let res := coinLoop sampleEnv dt [lowCoin]
                   [("1", samplePlayer 100 0 "Ann")] in
      List.map ev_playerId (lr_collected res) = ["1"]
      /\ List.map (fun e => p_score (snd e)) (lr_players res) = [10%Z]).
Proof.
  vm_compute. repeat split.
Qed.

(* ================================================================== *)
(** ** Catches *)
(* ================================================================== *)

Section Catches.

Variable E : Env.

(** The catcher is the first player that the coin hits; that entry gains
    10 points and nothing else in the roster changes. *)
Lemma catchCoin_first c ps w ps' :
  catchCoin c ps = Some (w, ps') ->
  exists pre p post,
  ps = pre ++ (w, p) :: post
  /\ Forall (fun e => hits (snd e) c = false) pre
  /\ hits p c = true
  /\ ps' = pre ++ (w, addScore SCORE_PER_COIN p) :: post.
Proof.
  revert w ps'. induction ps as [|[k p] rest IH]; intros w ps' H; simpl in H.
  - discriminate.
  - destruct (hits p c) eqn:Eh.
    + injection H as <- <-. exists [], p, rest. repeat split; auto.
    + destruct (catchCoin c rest) as [[w0 rest']|]; [|discriminate].
      injection H as <- <-.
      destruct (IH _ _ eq_refl) as [pre [q [post [-> [Hf [Hq ->]]]]]].
      exists ((k, p) :: pre), q, post. repeat split; auto.
Qed.

Lemma catchCoin_none c ps :
  catchCoin c ps = None <-> Forall (fun e => hits (snd e) c = false) ps.
Proof.
  induction ps as [|[k p] rest IH]; simpl.
  - split; [constructor | reflexivity].
  - destruct (hits p c) eqn:Eh.
    + split; [discriminate|]. intro H. inversion H; subst. simpl in *. congruence.
    + destruct (catchCoin c rest) as [[w0 rest']|].
      * split; [discriminate|]. intro H. inversion H as [|? ? _ Hr]; subst.
        apply IH in Hr. discriminate.
      * split; [|reflexivity]. intros _. constructor; [exact Eh|].
        apply IH. reflexivity.
Qed.

Lemma catchCoin_keys c ps w ps' :
  catchCoin c ps = Some (w, ps') ->
  JsMap.keys ps' = JsMap.keys ps /\ In w (JsMap.keys ps).
Proof.
  intro H. destruct (catchCoin_first _ _ H) as [pre [p [post [-> [_ [_ ->]]]]]].
  unfold JsMap.keys. rewrite !map_app. simpl. split; [reflexivity|].
  apply in_or_app. right. left. reflexivity.
Qed.

Lemma totalScore_app a b : totalScore (a ++ b) = (totalScore a + totalScore b)%Z.
Proof.
  induction a as [|e a IH]; simpl; [reflexivity|].
  unfold totalScore in *. simpl. rewrite IH. lia.
Qed.

Lemma catchCoin_total c ps w ps' :
  catchCoin c ps = Some (w, ps') ->
  totalScore ps' = (totalScore ps + 10)%Z.
Proof.
  intro H. destruct (catchCoin_first _ _ H) as [pre [p [post [-> [_ [_ ->]]]]]].
  rewrite !totalScore_app. unfold totalScore. simpl.
  unfold SCORE_PER_COIN. lia.
Qed.

Lemma catchCoin_scoreOf c ps w ps' id :
  NoDup (JsMap.keys ps) ->
  catchCoin c ps = Some (w, ps') ->
  scoreOf id ps' = (scoreOf id ps + (if String.eqb id w then 10 else 0))%Z.
Proof.
  revert w ps'. induction ps as [|[k p] rest IH]; intros w ps' Hnd H; simpl in H.
  - discriminate.
  - inversion Hnd as [|? ? Hk Hrest]; subst.
    destruct (hits p c) eqn:Eh.
    + injection H as <- <-. unfold scoreOf. simpl.
      destruct (String.eqb id k); simpl; unfold SCORE_PER_COIN; lia.
    + destruct (catchCoin c rest) as [[w0 rest']|] eqn:Ec; [|discriminate].
      injection H as <- <-.
      specialize (IH _ _ Hrest eq_refl).
      unfold scoreOf in *. simpl.
      destruct (String.eqb id k) eqn:Eik.
      * apply String.eqb_eq in Eik. subst k.
        destruct (String.eqb id w0) eqn:Eiw; [|lia].
        apply String.eqb_eq in Eiw. subst w0. exfalso. apply Hk.
        apply (catchCoin_keys _ _ Ec).
      * exact IH.
Qed.

(** Accounting over the whole coin loop. *)
Lemma coinLoop_accounts dt cs ps :
  let res := coinLoop E dt cs ps in
  (List.length (lr_coins res) + List.length (lr_collected res)
  + List.length (groundedCoins E dt cs) = List.length cs)%nat
  /\ totalScore (lr_players res)
  = (totalScore ps + 10 * Z.of_nat (List.length (lr_collected res)))%Z
  /\ JsMap.keys (lr_players res) = JsMap.keys ps.
Proof.
  induction cs as [|c cs IH].
  - cbv zeta. cbn [coinLoop lr_coins lr_players lr_collected List.length].
    repeat split; first [reflexivity | lia].
  - destruct IH as [Hn [Ht Hk]]. unfold groundedCoins in *.
    cbn [coinLoop List.filter]. unfold coinStep.
    destruct (pastGround (moveCoin E dt c)) eqn:Eg.
    + cbn [List.length]. repeat split; [lia | exact Ht | exact Hk].
    + destruct (catchCoin _ _) as [[w ps']|] eqn:Ec;
        cbn [lr_coins lr_players lr_collected List.length].
      * rewrite length_app. cbn [List.length].
        rewrite (catchCoin_total _ _ Ec), Ht.
        destruct (catchCoin_keys _ _ Ec) as [Hk' _].
        repeat split; [lia | lia | congruence].
      * repeat split; [lia | exact Ht | exact Hk].
Qed.

Lemma creditedTo_app id a b :
  creditedTo id (a ++ b) = (creditedTo id a + creditedTo id b)%Z.
Proof.
  unfold creditedTo. rewrite filter_app, length_app. lia.
Qed.

Lemma coinLoop_scoreOf dt cs ps id :
  NoDup (JsMap.keys ps) ->
  let res := coinLoop E dt cs ps in
  scoreOf id (lr_players res)
  = (scoreOf id ps + 10 * creditedTo id (lr_collected res))%Z.
Proof.
  intro Hnd. induction cs as [|c cs IH]; cbv zeta in *.
  - cbn [coinLoop lr_players lr_collected]. unfold creditedTo.
    cbn [List.filter List.length Z.of_nat]. lia.
  - cbn [coinLoop]. unfold coinStep.
    destruct (pastGround (moveCoin E dt c)); [exact IH|].
    destruct (catchCoin _ _) as [[w ps']|] eqn:Ec;
      cbn [lr_players lr_collected]; [|exact IH].
    assert (Hnd' : NoDup (JsMap.keys (lr_players (coinLoop E dt cs ps)))).
    { destruct (coinLoop_accounts dt cs ps) as [_ [_ Hk]].
      rewrite Hk. exact Hnd. }
      rewrite (@catchCoin_scoreOf _ _ _ _ id Hnd' Ec), IH, creditedTo_app.
      unfold creditedTo at 3. cbn [List.filter ev_playerId].
      destruct (String.eqb id w); cbn [List.length Z.of_nat]; lia.
Qed.

End Catches.

(* ================================================================== *)
(** ** The return to the lobby *)
(* ================================================================== *)

Section Lobby.

Lemma keys_resetFrom i ps : JsMap.keys (resetFrom i ps) = JsMap.keys ps.
Proof.
  revert i. induction ps as [|[id p] rest IH]; intro i; simpl; [reflexivity|].
  f_equal. apply IH.
Qed.

Lemma keys_promoteFrom i ws : JsMap.keys (promoteFrom i ws) = JsMap.keys ws.
Proof.
  revert i. induction ws as [|[id w] rest IH]; intro i; simpl; [reflexivity|].
  f_equal. apply IH.
Qed.

Lemma keys_app {V : Type} (a b : JsMap.t V) :
  JsMap.keys (a ++ b) = JsMap.keys a ++ JsMap.keys b.
Proof. apply map_app. Qed.

Lemma keys_firstn {V : Type} n (m : JsMap.t V) :
  JsMap.keys (firstn n m) = firstn n (JsMap.keys m).
Proof. unfold JsMap.keys. symmetry. apply firstn_map. Qed.

Lemma keys_skipn {V : Type} n (m : JsMap.t V) :
  JsMap.keys (skipn n m) = skipn n (JsMap.keys m).
Proof. unfold JsMap.keys. symmetry. apply skipn_map. Qed.

(** Within the capacity the first loop keeps every player, in order. *)
Lemma keepPlayers_all ps : forall i all,
  (i + List.length ps <= MAX_PLAYERS)%nat ->
  NoDup (JsMap.keys ps) ->
  (forall k, In k (JsMap.keys ps) -> ~ In k (JsMap.keys all)) ->
  keepPlayers i ps all = (all ++ resetFrom i ps, (i + List.length ps)%nat).
Proof.
  induction ps as [|[id p] rest IH]; intros i all Hlen Hnd Hfresh.
  - simpl. rewrite app_nil_r, Nat.add_0_r. reflexivity.
  - simpl in Hlen. inversion Hnd as [|? ? Hid Hrest]; subst.
    cbn [keepPlayers resetFrom].
    rewrite JsMapFacts.set_fresh
      by (apply JsMapFacts.has_false_notIn, Hfresh; left; reflexivity).
    destruct (MAX_PLAYERS <=? S i)%nat eqn:Eb.
    + apply Nat.leb_le in Eb. destruct rest; [|simpl in Hlen; lia].
      simpl. f_equal. lia.
    + rewrite IH.
      * rewrite <- app_assoc. simpl. f_equal. lia.
      * lia.
      * exact Hrest.
      * intros k Hk. rewrite keys_app. intro Hin.
        apply in_app_or in Hin as [Hin|[<-|[]]].
        -- apply (Hfresh k); [right; exact Hk | exact Hin].
        -- exact (Hid Hk).
Qed.

(** The second loop promotes the first [MAX_PLAYERS - i] waiters, in
    order, and keeps the others, in order. *)
Lemma promoteWaiters_fifo ws : forall i all remaining,
  NoDup (JsMap.keys ws) ->
  (forall k, In k (JsMap.keys ws) -> ~ In k (JsMap.keys all)) ->
  (forall k, In k (JsMap.keys ws) -> ~ In k (JsMap.keys remaining)) ->
  promoteWaiters i ws all remaining
  = (all ++ promoteFrom i (firstn (MAX_PLAYERS - i) ws),
     remaining ++ skipn (MAX_PLAYERS - i) ws).
Proof.
  induction ws as [|[id w] rest IH]; intros i all remaining Hnd Ha Hr.
  - rewrite firstn_nil, skipn_nil. simpl. rewrite !app_nil_r. reflexivity.
  - inversion Hnd as [|? ? Hid Hrest]; subst. cbn [promoteWaiters].
    assert (Hstep : forall {V : Type} (acc : JsMap.t V) k,
               In k (JsMap.keys rest) ->
               ~ In k (JsMap.keys acc) ->
               forall v, ~ In k (JsMap.keys (acc ++ [(id, v)]))).
    { intros V acc k Hk Hacc v. rewrite keys_app. intro Hin.
      apply in_app_or in Hin as [Hin|[<-|[]]]; [exact (Hacc Hin) | exact (Hid Hk)]. }
    destruct (i <? MAX_PLAYERS)%nat eqn:Eb.
    + apply Nat.ltb_lt in Eb.
      rewrite JsMapFacts.set_fresh
        by (apply JsMapFacts.has_false_notIn, Ha; left; reflexivity).
      rewrite IH.
      * replace (MAX_PLAYERS - i)%nat with (S (MAX_PLAYERS - S i)) by lia.
        cbn [firstn skipn promoteFrom]. rewrite <- app_assoc. reflexivity.
      * exact Hrest.
      * intros k Hk. apply Hstep; [exact Hk|]. apply Ha. right. exact Hk.
      * intros k Hk. apply Hr. right. exact Hk.
    + apply Nat.ltb_ge in Eb.
      rewrite JsMapFacts.set_fresh
        by (apply JsMapFacts.has_false_notIn, Hr; left; reflexivity).
      rewrite IH.
      * replace (MAX_PLAYERS - i)%nat with 0%nat by lia.
        cbn [firstn skipn promoteFrom]. rewrite <- app_assoc. reflexivity.
      * exact Hrest.
      * intros k Hk. apply Ha. right. exact Hk.
      * intros k Hk. apply Hstep; [exact Hk|]. apply Hr. right. exact Hk.
Qed.

(** [_returnToLobby] on a room that satisfies the invariant. *)
Lemma returnToLobby_spec now r :
  roomInv r ->
  let n := JsMap.size (players r) in
  let r' := fst (_returnToLobby now r) in
  state r' = LOBBY
  /\ players r'
     = resetFrom 0 (players r)
       ++ promoteFrom n (firstn (MAX_PLAYERS - n) (waitingRoom r))
  /\ waitingRoom r' = skipn (MAX_PLAYERS - n) (waitingRoom r)
  /\ timeLeft r' = timeLeft r.
Proof.
  intros [Hp Hw Hd Hc Ht] n r'. subst r'. unfold _returnToLobby.
  rewrite keepPlayers_all;
    [| exact Hc | exact Hp | intros k _ []].
  cbn [app Nat.add]. fold n.
  rewrite promoteWaiters_fifo;
    [| exact Hw
     | intros k Hk; rewrite keys_resetFrom; intro Hin; exact (Hd k Hin Hk)
     | intros k _ []].
  repeat split.
Qed.

End Lobby.

(* ================================================================== *)
(** ** The invariant of the room *)
(* ================================================================== *)

Section Invariant.

Variable E : Env.

Lemma size_keys {V : Type} (m : JsMap.t V) :
  JsMap.size m = List.length (JsMap.keys m).
Proof. unfold JsMap.size, JsMap.keys. symmetry. apply length_map. Qed.

Lemma NoDup_app_disjoint {A : Type} (a b : list A) x :
  NoDup (a ++ b) -> In x a -> ~ In x b.
Proof.
  induction a as [|y a IH]; simpl; intros H Ha Hb; [tauto|].
  inversion H as [|? ? Hy Hrest]; subst. destruct Ha as [->|Ha].
  - apply Hy. apply in_or_app. right. exact Hb.
  - exact (IH Hrest Ha Hb).
Qed.

Lemma in_firstn {A : Type} n (l : list A) x : In x (firstn n l) -> In x l.
Proof.
  intro H. rewrite <- (firstn_skipn n l). apply in_or_app. left. exact H.
Qed.

Lemma in_skipn {A : Type} n (l : list A) x : In x (skipn n l) -> In x l.
Proof.
  intro H. rewrite <- (firstn_skipn n l). apply in_or_app. right. exact H.
Qed.

Lemma fst_with_effects (x : Room * list Effect)
    (g : list Effect -> list Effect) :
  fst (let '(r1, e) := x in (r1, g e)) = fst x.
Proof. destruct x. reflexivity. Qed.

Lemma roomInv_newRoom : roomInv newRoom.
Proof.
  constructor; simpl.
  - constructor.
  - constructor.
  - tauto.
  - unfold MAX_PLAYERS. lia.
  - vm_compute. discriminate.
Qed.

(** A room whose maps lost entries, and nothing else, is still fine. *)
Lemma roomInv_shrink r r' :
  roomInv r ->
  NoDup (JsMap.keys (players r')) ->
  NoDup (JsMap.keys (waitingRoom r')) ->
  incl (JsMap.keys (players r')) (JsMap.keys (players r)) ->
  incl (JsMap.keys (waitingRoom r')) (JsMap.keys (waitingRoom r)) ->
  0 <= timeLeft r' ->
  roomInv r'.
Proof.
  intros [Hp Hw Hd Hc Ht] Hp' Hw' Ip Iw Ht'. constructor; auto.
  - intros k Hk Hkw. exact (Hd k (Ip k Hk) (Iw k Hkw)).
  - rewrite size_keys in *.
    pose proof (NoDup_incl_length Hp' Ip). lia.
Qed.

(** The same, for maps that kept their keys. *)
Lemma roomInv_same_keys r r' :
  roomInv r ->
  JsMap.keys (players r') = JsMap.keys (players r) ->
  JsMap.keys (waitingRoom r') = JsMap.keys (waitingRoom r) ->
  0 <= timeLeft r' ->
  roomInv r'.
Proof.
  intros H Kp Kw Ht. apply (@roomInv_shrink r r' H); try assumption.
  - rewrite Kp. apply H.
  - rewrite Kw. apply H.
  - rewrite Kp. apply incl_refl.
  - rewrite Kw. apply incl_refl.
Qed.

Lemma keys_lineUp n i ps : JsMap.keys (lineUp n i ps) = JsMap.keys ps.
Proof.
  revert i. induction ps as [|[id p] rest IH]; intro i; simpl; [reflexivity|].
  f_equal. apply IH.
Qed.

Lemma advancePhysics_maps dt r :
  let r' := fst (_advancePhysics E dt r) in
  JsMap.keys (players r') = JsMap.keys (players r)
  /\ waitingRoom r' = waitingRoom r
  /\ state r' = state r
  /\ pendingCollected r' = pendingCollected r
  /\ lastBroadcastTime r' = lastBroadcastTime r.
Proof.
  unfold _advancePhysics. cbv zeta.
  set (r2 := setCoinSpawnAccumulator _ _).
  set (r3 := spawnLoop E _ r2).
  assert (S3 : sameButCoins r2 r3) by apply spawnLoop_same.
  cbn [fst players waitingRoom state pendingCollected lastBroadcastTime
       setPlayers setCoins].
  destruct (coinLoop_accounts E dt (coins r3) (players r3)) as [_ [_ Hk]].
  rewrite Hk, (same_players S3), (same_waiting S3), (same_state S3),
    (same_pending S3), (same_lastBroadcast S3).
  repeat split.
Qed.

Lemma physicsTick_maps now r :
  let t := physicsTick E now r in
  JsMap.keys (players t) = JsMap.keys (players r)
  /\ waitingRoom t = waitingRoom r
  /\ state t = state r
  /\ pendingCollected t
     = pendingCollected r ++ snd (_advancePhysics E (physicsDt now r) r)
  /\ lastBroadcastTime t = lastBroadcastTime r.
Proof.
  unfold physicsTick.
  pose proof (advancePhysics_maps (physicsDt now r) r) as H.
  destruct (_advancePhysics E (physicsDt now r) r) as [r1 collected].
  cbv zeta in H. cbn [fst snd] in *.
  destruct H as [Hk [Hw [Hs [Hp Hb]]]].
  destruct collected as [|ev evs];
    cbn [nonEmpty players waitingRoom state pendingCollected lastBroadcastTime
         setPendingCollected setLastPhysicsTime];
    rewrite ?Hp, ?app_nil_r; repeat split; assumption.
Qed.

Lemma returnToLobby_inv now r :
  roomInv r -> roomInv (fst (_returnToLobby now r)).
Proof.
  intro H. destruct (@returnToLobby_spec now r H) as [_ [Hp [Hw Ht]]].
  destruct H as [Np Nw Hd Hc H0].
  set (n := JsMap.size (players r)) in *.
  set (k := (MAX_PLAYERS - n)%nat) in *.
  assert (Nsplit : NoDup (firstn k (JsMap.keys (waitingRoom r))
                          ++ skipn k (JsMap.keys (waitingRoom r))))
    by (rewrite firstn_skipn; exact Nw).
  constructor.
  - rewrite Hp, keys_app, keys_resetFrom, keys_promoteFrom, keys_firstn.
    apply NoDup_app; [exact Np | exact (NoDup_app_remove_r _ _ Nsplit) |].
    intros a Ha Hf. exact (Hd a Ha (@in_firstn _ _ _ _ Hf)).
  - rewrite Hw, keys_skipn. exact (NoDup_app_remove_l _ _ Nsplit).
  - intros a. rewrite Hp, Hw, keys_app, keys_resetFrom, keys_promoteFrom,
      keys_firstn, keys_skipn. intros Ha Hs.
    apply in_app_or in Ha as [Ha|Ha].
    + exact (Hd a Ha (@in_skipn _ _ _ _ Hs)).
    + exact (@NoDup_app_disjoint _ _ _ _ Nsplit Ha Hs).
  - rewrite Hp, size_keys, keys_app, keys_resetFrom, keys_promoteFrom,
      keys_firstn, length_app, length_firstn.
    fold (JsMap.keys (players r)). rewrite <- size_keys. fold n.
    unfold k. lia.
  - rewrite Ht. exact H0.
Qed.

Lemma addToWaitingRoom_inv conn name hat userId r :
  roomInv r ->
  JsMap.has conn (players r) = false ->
  JsMap.has conn (waitingRoom r) = false ->
  roomInv (fst (_addToWaitingRoom conn name hat userId r)).
Proof.
  intros [Np Nw Hd Hc H0] Hp Hw. unfold _addToWaitingRoom.
  cbn [fst]. apply JsMapFacts.has_false_notIn in Hp.
  constructor; cbn [players waitingRoom timeLeft setWaitingRoom]; auto.
  - rewrite JsMapFacts.keys_set_fresh by exact Hw.
    apply NoDup_app; [exact Nw | repeat constructor; tauto |].
    intros a Ha [<-|[]]. apply JsMapFacts.has_false_notIn in Hw. exact (Hw Ha).
  - intros k Hk. rewrite JsMapFacts.keys_set_fresh by exact Hw. intro Hin.
    apply in_app_or in Hin as [Hin|[<-|[]]]; [exact (Hd k Hk Hin) | exact (Hp Hk)].
Qed.

Lemma addPlayerToLobby_inv now conn name hat userId r :
  roomInv r ->
  JsMap.has conn (players r) = false ->
  JsMap.has conn (waitingRoom r) = false ->
  roomInv (fst (_addPlayerToLobby now conn name hat userId r)).
Proof.
  intros H Hp Hw. unfold _addPlayerToLobby.
  destruct (MAX_PLAYERS <=? JsMap.size (players r))%nat eqn:Ecap.
  - apply addToWaitingRoom_inv; assumption.
  - apply Nat.leb_gt in Ecap. destruct H as [Np Nw Hd Hc H0]. cbv zeta.
    set (r1 := setPlayers _ r).
    assert (Inv1 : roomInv r1).
    { apply JsMapFacts.has_false_notIn in Hw.
      constructor; unfold r1;
        cbn [players waitingRoom timeLeft setPlayers]; auto.
      - rewrite JsMapFacts.keys_set_fresh by exact Hp.
        apply NoDup_app; [exact Np | repeat constructor; tauto |].
        intros a Ha [<-|[]]. apply JsMapFacts.has_false_notIn in Hp.
        exact (Hp Ha).
      - intros k. rewrite JsMapFacts.keys_set_fresh by exact Hp. intro Hin.
        apply in_app_or in Hin as [Hin|[<-|[]]]; [exact (Hd k Hin) | exact Hw].
      - rewrite size_keys, JsMapFacts.keys_set_fresh by exact Hp.
        rewrite length_app, <- size_keys. simpl. lia. }
    destruct (MAX_PLAYERS <=? JsMap.size (players r1))%nat; cbn [fst];
      [|exact Inv1].
    unfold _startCountdown. cbn [fst].
    apply (@roomInv_same_keys r1 _ Inv1); [reflexivity | reflexivity | apply Inv1].
Qed.

Lemma joinRoom_inv now conn name userId hat r :
  roomInv r -> roomInv (fst (joinRoom E now conn name userId hat r)).
Proof.
  intro H. unfold joinRoom.
  destruct (JsMap.has conn (players r)) eqn:Hp; [exact H|].
  destruct (JsMap.has conn (waitingRoom r)) eqn:Hw; [exact H|].
  cbn [orb]. destruct (negb (isNameClean _)); [exact H|].
  rewrite fst_with_effects.
  destruct (state r);
    [apply addPlayerToLobby_inv | apply addToWaitingRoom_inv
     | apply addToWaitingRoom_inv | apply addToWaitingRoom_inv];
    assumption.
Qed.

(** After the tick: the round ends, or the snapshot goes out, or nothing
    is sent; in each case the invariant of the room before holds again. *)
Lemma afterTick_inv now sendOk r t (permit : Room -> bool)
    (g : list Effect -> list Effect) :
  roomInv r ->
  JsMap.keys (players t) = JsMap.keys (players r) ->
  waitingRoom t = waitingRoom r ->
  roomInv
    (fst (if Num.leb (timeLeft t) 0 then finishRound E now t
          else if permit t
               then let '(r2, e) := flushGameState now sendOk t in (r2, g e)
               else (t, []))).
Proof.
  intros H Kp Kw. destruct (Num.leb (timeLeft t) 0) eqn:El.
  - apply (@roomInv_same_keys r _ H); cbn; try assumption.
    + rewrite Kw. reflexivity.
    + apply Qcle_refl.
  - apply NumFacts.leb_gt, Qclt_le_weak in El.
    destruct (permit t).
    + rewrite fst_with_effects.
      apply (@roomInv_shrink r _ H);
        cbn [fst flushGameState _broadcastGameState players waitingRoom
             timeLeft setLastBroadcastTime setPendingCollected
             setWaitingRoom setPlayers].
      * apply JsMapFacts.NoDup_keys_filter. rewrite Kp. apply H.
      * apply JsMapFacts.NoDup_keys_filter. rewrite Kw. apply H.
      * rewrite <- Kp. apply JsMapFacts.keys_filter_incl.
      * rewrite <- Kw. apply JsMapFacts.keys_filter_incl.
      * exact El.
    + apply (@roomInv_same_keys r _ H); cbn [fst]; try assumption.
      rewrite Kw. reflexivity.
Qed.

Lemma moveWhilePlaying_inv now sendOk conn x r :
  roomInv r -> roomInv (fst (moveWhilePlaying E now sendOk conn x r)).
Proof.
  intro H. unfold moveWhilePlaying.
  destruct (negb (Str.isEmpty conn) && JsMap.has conn (players r)); [|exact H].
  destruct (Num.isNaN x); [exact H|]. cbv zeta.
  set (r1 := placePlayer conn x r).
  destruct (physicsTick_maps now r1) as [Kp [Kw _]].
  pose proof (@afterTick_inv now sendOk r (physicsTick E now r1)
                (fun t => (BROADCAST_THROTTLE_MS <=? now - lastBroadcastTime t)%Z)
                (fun e => e) H) as A.
  cbv beta in A.
  replace (let '(r2, e) := flushGameState now sendOk (physicsTick E now r1)
           in (r2, e))
    with (flushGameState now sendOk (physicsTick E now r1)) in A
    by (destruct (flushGameState _ _ _); reflexivity).
  apply A.
  - rewrite Kp. unfold r1, placePlayer. cbn [players setPlayers].
    apply JsMapFacts.keys_update.
  - rewrite Kw. reflexivity.
Qed.

Lemma webSocketClose_inv now conn r :
  roomInv r -> roomInv (fst (webSocketClose now conn r)).
Proof.
  intro H. unfold webSocketClose.
  destruct (Str.isEmpty conn); [exact H|]. cbv zeta.
  set (r1 := setWaitingRoom _ _).
  assert (Inv1 : roomInv r1).
  { apply (@roomInv_shrink r _ H); unfold r1;
      cbn [players waitingRoom timeLeft setWaitingRoom setPlayers].
    - apply JsMapFacts.NoDup_keys_delete, H.
    - apply JsMapFacts.NoDup_keys_delete, H.
    - apply JsMapFacts.keys_delete_incl.
    - apply JsMapFacts.keys_delete_incl.
    - apply H. }
  destruct ((JsMap.size (players r1) =? 0)%nat
            && negb (GameState_eqb (state r1) LOBBY)).
  - rewrite fst_with_effects. apply returnToLobby_inv. exact Inv1.
  - exact Inv1.
Qed.

Lemma alarm_inv now sendOk r :
  roomInv r -> roomInv (fst (alarm E now sendOk r)).
Proof.
  intro H. unfold alarm. destruct (state r).
  - destruct (0 <? JsMap.size (players r))%nat; [|exact H].
    apply (@roomInv_same_keys r _ H); try reflexivity. apply H.
  - cbv zeta.
    destruct (countdownSeconds _ <=? 0)%Z.
    + apply (@roomInv_same_keys r _ H); cbn; try reflexivity.
      * apply keys_lineUp.
      * vm_compute. discriminate.
    + apply (@roomInv_same_keys r _ H); try reflexivity. apply H.
  - destruct (JsMap.size (players r) =? 0)%nat.
    + rewrite fst_with_effects. apply returnToLobby_inv. exact H.
    + destruct (physicsTick_maps now r) as [Kp [Kw _]].
      apply (@afterTick_inv now sendOk r (physicsTick E now r)
               (fun _ => true)
               (fun e => e ++ [SetAlarm (now + FALLBACK_ALARM_MS)%Z]) H);
        assumption.
  - rewrite fst_with_effects. apply returnToLobby_inv. exact H.
Qed.

Lemma handle_inv s r : roomInv r -> roomInv (fst (handle E s r)).
Proof.
  intro H. unfold handle. destruct (st_trigger s) as [conn m|conn|].
  - unfold webSocketMessage. destruct m as [|name userId hat|x|].
    + exact H.
    + destruct (Str.isEmpty conn); [exact H | apply joinRoom_inv; exact H].
    + destruct (state r); try exact H. apply moveWhilePlaying_inv. exact H.
    + exact H.
  - apply webSocketClose_inv. exact H.
  - apply alarm_inv. exact H.
Qed.

Lemma run_inv ss : forall r, roomInv r -> roomInv (fst (run E ss r)).
Proof.
  induction ss as [|s ss IH]; intros r H; [exact H|].
  cbn [run]. pose proof (handle_inv s H) as H1.
  destruct (handle E s r) as [r1 e1]. cbn [fst] in H1.
  specialize (IH r1 H1). destruct (run E ss r1) as [r2 e2]. exact IH.
Qed.

Lemma reachable_inv r : reachable E r -> roomInv r.
Proof.
  intros [ss <-]. apply run_inv, roomInv_newRoom.
Qed.

End Invariant.

(* ================================================================== *)
(** ** Capacity *)
(* ================================================================== *)



(* ================================================================== *)
(** ** Promotion from the waiting room *)
(* ================================================================== *)

Section Promotion.

Variable E : Env.

Lemma returnToLobby_state now r : state (fst (_returnToLobby now r)) = LOBBY.
Proof.
  unfold _returnToLobby.
  destruct (keepPlayers 0 (players r) []) as [kept index].
  destruct (promoteWaiters index (waitingRoom r) kept []) as [a b].
  reflexivity.
Qed.

Lemma noPromotion_incl r r' :
  incl (JsMap.keys (players r')) (JsMap.keys (players r)) -> noPromotion r r'.
Proof. intros H k Hk. left. exact (H k Hk). Qed.

Lemma afterTick_players now sendOk t (permit : Room -> bool)
    (g : list Effect -> list Effect) :
  incl
    (JsMap.keys
       (players
          (fst (if Num.leb (timeLeft t) 0 then finishRound E now t
                else if permit t
                     then let '(r2, e) := flushGameState now sendOk t in (r2, g e)
                     else (t, [])))))
    (JsMap.keys (players t)).
Proof.
  destruct (Num.leb (timeLeft t) 0); [apply incl_refl|].
  destruct (permit t); [|apply incl_refl].
  apply JsMapFacts.keys_filter_incl.
Qed.

Lemma joinRoom_players now conn name userId hat r :
  noPromotion r (fst (joinRoom E now conn name userId hat r)).
Proof.
  unfold joinRoom.
  destruct (JsMap.has conn (players r)) eqn:Hp;
    [apply noPromotion_incl, incl_refl|].
  destruct (JsMap.has conn (waitingRoom r)) eqn:Hw;
    [apply noPromotion_incl, incl_refl|].
  cbn [orb]. destruct (negb _); [apply noPromotion_incl, incl_refl|].
  rewrite fst_with_effects.
  assert (Hwait : noPromotion r
            (fst (_addToWaitingRoom conn (joinName E name) (joinHat E hat)
                    (joinUserId userId) r)))
    by (apply noPromotion_incl, incl_refl).
  destruct (state r); try exact Hwait.
  unfold _addPlayerToLobby.
  destruct (MAX_PLAYERS <=? JsMap.size (players r))%nat; [exact Hwait|].
  cbv zeta. intros k Hk.
  assert (Hk' : In k (JsMap.keys (players r) ++ [conn])).
  { rewrite <- (@JsMapFacts.keys_set_fresh _ conn
                  (mkPlayer LOBBY_X 0 (colorAt (JsMap.size (players r)))
                     (joinName E name) (joinHat E hat) (joinUserId userId) true)
                  (players r) Hp).
    destruct (MAX_PLAYERS <=? _)%nat; exact Hk. }
  apply in_app_or in Hk' as [Hk'|[<-|[]]]; [left; exact Hk'|].
  right. apply JsMapFacts.has_false_notIn. exact Hw.
Qed.

Lemma handle_promotes_only_into_lobby s r :
  noPromotion r (fst (handle E s r)) \/ intoLobby r (fst (handle E s r)).
Proof.
  unfold handle. destruct (st_trigger s) as [conn m|conn|].
  - left. unfold webSocketMessage. destruct m as [|name userId hat|x|];
      try (apply noPromotion_incl, incl_refl).
    + destruct (Str.isEmpty conn);
        [apply noPromotion_incl, incl_refl | apply joinRoom_players].
    + destruct (state r); try (apply noPromotion_incl, incl_refl).
      unfold moveWhilePlaying.
      destruct (_ && _); [|apply noPromotion_incl, incl_refl].
      destruct (Num.isNaN x); [apply noPromotion_incl, incl_refl|].
      cbv zeta. set (r1 := placePlayer conn x r).
      apply noPromotion_incl.
      pose proof (@afterTick_players (st_now s) (st_sendOk s)
                    (physicsTick E (st_now s) r1)
                    (fun t => (BROADCAST_THROTTLE_MS
                               <=? st_now s - lastBroadcastTime t)%Z)
                    (fun e => e)) as A.
      cbv beta in A.
      replace (let '(r2, e) :=
                 flushGameState (st_now s) (st_sendOk s)
                   (physicsTick E (st_now s) r1) in (r2, e))
        with (flushGameState (st_now s) (st_sendOk s)
                (physicsTick E (st_now s) r1)) in A
        by (destruct (flushGameState _ _ _); reflexivity).
      eapply incl_tran; [exact A|].
      destruct (physicsTick_maps E (st_now s) r1) as [Kp _]. rewrite Kp.
      unfold r1, placePlayer. cbn [players setPlayers].
      rewrite JsMapFacts.keys_update.
      apply incl_refl.
  - unfold webSocketClose.
    destruct (Str.isEmpty conn); [left; apply noPromotion_incl, incl_refl|].
    cbv zeta. set (r1 := setWaitingRoom _ _).
    destruct (JsMap.size (players r1) =? 0)%nat; cbn [andb].
    + destruct (GameState_eqb (state r1) LOBBY) eqn:Es; cbn [negb].
      * left. apply noPromotion_incl. cbn [fst].
        apply JsMapFacts.keys_delete_incl.
      * right. rewrite fst_with_effects. split.
        -- intro Hl. change (state r1) with (state r) in Es.
           rewrite Hl in Es. discriminate.
        -- apply returnToLobby_state.
    + left. apply noPromotion_incl. cbn [fst].
      apply JsMapFacts.keys_delete_incl.
  - unfold alarm. destruct (state r) eqn:Es.
    + left. apply noPromotion_incl.
      destruct (0 <? _)%nat; apply incl_refl.
    + left. apply noPromotion_incl. cbv zeta.
      destruct (_ <=? 0)%Z; [|apply incl_refl].
      cbn [fst _startPlaying players]. rewrite keys_lineUp. apply incl_refl.
    + destruct (JsMap.size (players r) =? 0)%nat.
      * right. rewrite fst_with_effects.
        split; [rewrite Es; discriminate | apply returnToLobby_state].
      * left. apply noPromotion_incl.
        eapply incl_tran;
          [apply (@afterTick_players (st_now s) (st_sendOk s)
                    (physicsTick E (st_now s) r) (fun _ => true)
                    (fun e => e ++ [SetAlarm (st_now s + FALLBACK_ALARM_MS)%Z]))|].
        destruct (physicsTick_maps E (st_now s) r) as [Kp _]. rewrite Kp.
        apply incl_refl.
    + right. rewrite fst_with_effects.
      split; [rewrite Es; discriminate | apply returnToLobby_state].
Qed.

End Promotion.

Example crowdedRoom_promotion :
  JsMap.keys (players crowdedRoom) = ["1"; "2"; "3"; "4"]
  /\ JsMap.keys (waitingRoom crowdedRoom) = ["5"; "6"; "7"]
  /\ JsMap.keys (players (fst (_returnToLobby 30000 crowdedRoom)))
     = ["1"; "2"; "3"; "4"; "5"]
  /\ JsMap.keys (waitingRoom (fst (_returnToLobby 30000 crowdedRoom)))
     = ["6"; "7"].
Proof. vm_compute. repeat split. Qed.

(** C5 as stated fails: in [waiterRoom] a round is being played, "1" is
    the only player and "2" waits.  When "1" disconnects the room goes
    from PLAYING to LOBBY and "2" is promoted: a promotion at a transition
    other than GAME_OVER to LOBBY. *)
Lemma C5_as_stated_counterexample :
  let before := waiterRoom in
  let after := fst (handle sampleEnv (closeAt 25200 "1") before) in
  state before = PLAYING
  /\ JsMap.keys (players before) = ["1"]
  /\ JsMap.keys (waitingRoom before) = ["2"]
  /\ state after = LOBBY
  /\ JsMap.keys (players after) = ["2"]
  /\ JsMap.keys (waitingRoom after) = [].
Proof. vm_compute. repeat split. Qed.

(* ================================================================== *)
(** ** Catch notifications *)
(* ================================================================== *)

Lemma collectedOf_gameStateMsg q t : collectedOf (gameStateMsg q t) = q.
Proof. destruct q; reflexivity. Qed.

(** C6 (amended). While the round goes on, the CollectedEvents of each
    physics step are appended to the pending buffer; a step that
    broadcasts (the fallback alarm, or a move at least 50 ms after the last
    broadcast) sends to every player and waiter one gameState payload whose
    [collected] field is the whole buffer, and empties the buffer; a
    throttled move sends nothing and keeps the whole buffer for the next
    broadcast. *)
Theorem C6_pending_events_flushed (E : Env) (now : Z)
    (sendOk : string -> bool) (r : Room) :
  state r = PLAYING ->
  pendingCollected (physicsTick E now r)
  = pendingCollected r ++ snd (_advancePhysics E (physicsDt now r) r)
  /\ (forall q t, collectedOf (gameStateMsg q t) = q)
  /\ (JsMap.size (players r) <> 0%nat ->
      let t := physicsTick E now r in
      Num.leb (timeLeft t) 0 = false ->
      let msg := gameStateMsg (pendingCollected t) t in
      snd (alarm E now sendOk r)
      = sendEach msg (players t) ++ sendEach msg (waitingRoom t)
        ++ [SetAlarm (now + FALLBACK_ALARM_MS)%Z]
      /\ pendingCollected (fst (alarm E now sendOk r)) = [])
  /\ (forall conn x,
        Str.isEmpty conn = false ->
        JsMap.has conn (players r) = true ->
        Num.isNaN x = false ->
        let t := physicsTick E now (placePlayer conn x r) in
        Num.leb (timeLeft t) 0 = false ->
        let msg := gameStateMsg (pendingCollected t) t in
        let out := webSocketMessage E now sendOk conn (InMove x) r in
        if (BROADCAST_THROTTLE_MS <=? now - lastBroadcastTime r)%Z
        then snd out = sendEach msg (players t) ++ sendEach msg (waitingRoom t)
             /\ pendingCollected (fst out) = []
        else snd out = [] /\ pendingCollected (fst out) = pendingCollected t).
Proof.
  intro Hst. split; [apply physicsTick_maps|].
  split; [apply collectedOf_gameStateMsg|]. split.
  - intros Hsz t Hgo msg. unfold alarm. rewrite Hst.
    apply Nat.eqb_neq in Hsz. rewrite Hsz. fold t. rewrite Hgo.
    unfold flushGameState, _broadcastGameState. cbn [fst snd].
    fold msg. rewrite <- app_assoc. split; reflexivity.
  - intros conn x Hc Hp Hx t Hgo msg out. subst out.
    unfold webSocketMessage. rewrite Hst. unfold moveWhilePlaying.
    rewrite Hc, Hp, Hx. cbn [negb andb]. cbv zeta. fold t. rewrite Hgo.
    destruct (physicsTick_maps E now (placePlayer conn x r))
      as [_ [_ [_ [_ Hlb]]]].
    fold t in Hlb. rewrite Hlb.
    change (lastBroadcastTime (placePlayer conn x r))
      with (lastBroadcastTime r).
    destruct (BROADCAST_THROTTLE_MS <=? now - lastBroadcastTime r)%Z.
    + unfold flushGameState, _broadcastGameState. cbn [fst snd].
      fold msg. split; reflexivity.
    + split; reflexivity.
Qed.

(** Outside a round no gameState payload is sent, and a round that
    starts begins with an empty buffer: what is still queued when a round
    ends is never broadcast. *)
Lemma returnToLobby_quiet now r :
  existsb isGameState (snd (_returnToLobby now r)) = false.
Proof.
  unfold _returnToLobby.
  destruct (keepPlayers 0 (players r) []) as [kept index].
  destruct (promoteWaiters index (waitingRoom r) kept []) as [a b].
  cbn [snd]. destruct (0 <? _)%nat; reflexivity.
Qed.

Lemma addPlayerToLobby_state now conn name hat userId r :
  let out := _addPlayerToLobby now conn name hat userId r in
  existsb isGameState (snd out) = false
  /\ (state (fst out) = state r \/ state (fst out) = COUNTDOWN)
  /\ pendingCollected (fst out) = pendingCollected r.
Proof.
  unfold _addPlayerToLobby.
  destruct (MAX_PLAYERS <=? JsMap.size (players r))%nat;
    [repeat split; left; reflexivity|].
  cbv zeta.
  destruct (JsMap.size _ =? 1)%nat; destruct (MAX_PLAYERS <=? _)%nat;
    repeat split; first [right; reflexivity | left; reflexivity].
Qed.

Ltac stays_outside :=
  cbn [fst snd]; split; [reflexivity | intro; congruence].

Lemma quiet_outside_round (E : Env) s r :
  state r <> PLAYING ->
  existsb isGameState (snd (handle E s r)) = false
  /\ (state (fst (handle E s r)) = PLAYING ->
      pendingCollected (fst (handle E s r)) = []).
Proof.
  intro Hst. unfold handle. destruct (st_trigger s) as [conn m|conn|].
  - unfold webSocketMessage. destruct m as [|name userId hat|x|].
    + stays_outside.
    + destruct (Str.isEmpty conn); [stays_outside|].
      unfold joinRoom.
      destruct (_ || _); [stays_outside|].
      destruct (negb _); [stays_outside|].
      destruct (state r) eqn:Es; try congruence;
        try (cbn [fst snd _addToWaitingRoom state setWaitingRoom];
             rewrite Es; split; [reflexivity | intro; discriminate]).
      destruct (addPlayerToLobby_state (st_now s) conn (joinName E name)
                  (joinHat E hat) (joinUserId userId) r) as [Hq [Hs _]].
      destruct (_addPlayerToLobby _ _ _ _ _ _) as [r1 e1]. cbn [fst snd] in *.
      rewrite existsb_app, Hq. split; [reflexivity|].
      intro H. rewrite Es in Hs. destruct Hs; congruence.
    + destruct (state r) eqn:Es; try congruence; stays_outside.
    + stays_outside.
  - unfold webSocketClose.
    destruct (Str.isEmpty conn); [stays_outside|].
    cbv zeta. set (r1 := setWaitingRoom _ _).
    change (state r1) with (state r).
    destruct ((JsMap.size (players r1) =? 0)%nat
              && negb (GameState_eqb (state r) LOBBY)).
    + pose proof (returnToLobby_quiet (st_now s) r1) as Hq.
      pose proof (returnToLobby_state (st_now s) r1) as Hl.
      destruct (_returnToLobby (st_now s) r1) as [r2 e2]. cbn [fst snd] in *.
      split; [|intro H; congruence].
      rewrite !existsb_app, Hq. destruct (state r); reflexivity.
    + cbn [fst snd]. split; [|intro H; exact (False_ind _ (Hst H))].
      destruct (state r); reflexivity.
  - unfold alarm. destruct (state r) eqn:Es; try congruence.
    + destruct (0 <? _)%nat; cbn [fst snd _startCountdown];
        [split; [reflexivity | intro; discriminate] | stays_outside].
    + cbv zeta. destruct (_ <=? 0)%Z.
      * cbn [fst snd _startPlaying]. split; [reflexivity | intro; reflexivity].
      * cbn [fst snd state setCountdownSeconds]. rewrite Es.
        split; [reflexivity | intro; discriminate].
    + pose proof (returnToLobby_quiet (st_now s) r) as Hq.
      pose proof (returnToLobby_state (st_now s) r) as Hl.
      destruct (_returnToLobby (st_now s) r) as [r2 e2]. cbn [fst snd] in *.
      split; [|intro H; congruence].
      rewrite existsb_app, Hq. reflexivity.
Qed.

(** In [catchRoom] the alarm at 1200 catches the coin and sends the event
    to the player and to the waiter; a move at 1020, 20 ms after the last
    broadcast, catches it too, sends nothing and keeps the event queued. *)
Lemma C6_pending_events_flushed_witness :
  (let t := physicsTick sampleEnv 1200 catchRoom in
   let msg := gameStateMsg (pendingCollected t) t in
   snd (alarm sampleEnv 1200 allOk catchRoom)
   = sendEach msg (players t) ++ sendEach msg (waitingRoom t)
     ++ [SetAlarm (1200 + FALLBACK_ALARM_MS)%Z]
   /\ pendingCollected (fst (alarm sampleEnv 1200 allOk catchRoom)) = [])
  /\ (let t := physicsTick sampleEnv 1020
                 (placePlayer "1" (Num.Fin (Num.ofZ 100)) catchRoom) in
      snd (webSocketMessage sampleEnv 1020 allOk "1"
             (InMove (Num.Fin (Num.ofZ 100))) catchRoom) = []
      /\ pendingCollected
           (fst (webSocketMessage sampleEnv 1020 allOk "1"
                   (InMove (Num.Fin (Num.ofZ 100))) catchRoom))
         = pendingCollected t).
Proof.
  split.
  - destruct (C6_pending_events_flushed sampleEnv 1200 allOk catchRoom eq_refl)
      as [_ [_ [Halarm _]]].
    apply Halarm; [discriminate | vm_compute; reflexivity].
  - destruct (C6_pending_events_flushed sampleEnv 1020 allOk catchRoom eq_refl)
      as [_ [_ [_ Hmove]]].
    apply (Hmove "1" (Num.Fin (Num.ofZ 100)) eq_refl eq_refl eq_refl).
    vm_compute. reflexivity.
Defined.

Example catchRoom_events :
  List.map (fun e => match e with
                     | Send to m => (to, List.map ev_playerId (collectedOf m))
                     | _ => ("", [])
                     end)
    (snd (alarm sampleEnv 1200 allOk catchRoom))
  = [("1", ["1"]); ("9", ["1"]); ("", [])]
  /\ List.map ev_playerId
       (pendingCollected
          (fst (webSocketMessage sampleEnv 1020 allOk "1"
                  (InMove (Num.Fin (Num.ofZ 100))) catchRoom)))
     = ["1"].
Proof. vm_compute. split; reflexivity. Qed.

(** C6 as stated fails, in two ways.
    The delay is not bounded by the throttle interval: in [catchRoom] a
    move at 1020, 20 ms after the last broadcast, catches the coin and is
    throttled; when no other move arrives the event goes out with the
    fallback alarm, at 2000, 980 ms later.
    And an event can stay unsent: in [lastMomentRoom] a move at 1200 steps
    the physics by 0.2 s, player "1" catches the coin (score 10, one event
    queued) and the round ends, so no gameState payload is sent; the
    display timer, the idle timer and the countdown then lead to the next
    round, which starts with an empty buffer. *)
Lemma C6_as_stated_counterexample :
  (let throttled := handle sampleEnv (moveAt 1020 "1" 100) catchRoom in
   let later := handle sampleEnv (alarmAt 2000) (fst throttled) in
   List.map ev_playerId (pendingCollected (fst throttled)) = ["1"]
   /\ snd throttled = []
   /\ existsb announcesCatch (snd later) = true
   /\ (BROADCAST_THROTTLE_MS <? 2000 - 1020)%Z = true)
  /\ (let first := handle sampleEnv (moveAt 1200 "1" 100) lastMomentRoom in
      let rest := run sampleEnv toNextRound (fst first) in
      List.map ev_playerId (pendingCollected (fst first)) = ["1"]
      /\ List.map (fun e => p_score (snd e)) (players (fst first)) = [10%Z]
      /\ state (fst first) = GAME_OVER
      /\ existsb isGameState (snd first) = false
      /\ state (fst rest) = PLAYING
      /\ pendingCollected (fst rest) = []
      /\ existsb isGameState (snd rest) = false).
Proof. vm_compute. repeat split. Qed.

(* ================================================================== *)
(** ** The spawn loop ends *)
(* ================================================================== *)

Section SpawnLoop.

Variable E : Env.

Lemma mult_Q (a b : Qc) : ((a * b)%Qc : Q) == (a : Q) * (b : Q).
Proof. unfold Qcmult. apply NumFacts.this_Q2Qc. Qed.

Lemma ofZ_Q (z : Z) : (Num.ofZ z : Q) == inject_Z z.
Proof. unfold Num.ofZ. apply NumFacts.this_Q2Qc. Qed.

Lemma spawnCoin_accumulator r :
  coinSpawnAccumulator (_spawnCoin E r) = coinSpawnAccumulator r.
Proof.
  unfold _spawnCoin. destruct (COIN_CAP <=? _)%nat; reflexivity.
Qed.

(** With [n] rounds of fuel the loop leaves an accumulator below the
    interval, when the accumulator starts below [n] intervals. *)
Lemma spawnLoop_below n : forall r,
  coinSpawnAccumulator r < Num.ofZ (Z.of_nat n) * COIN_SPAWN_INTERVAL ->
  Num.leb COIN_SPAWN_INTERVAL (coinSpawnAccumulator (spawnLoop E n r)) = false.
Proof.
  induction n as [|n IH]; intros r H.
  - cbn [spawnLoop]. apply NumFacts.leb_gt. unfold Qclt in *.
    rewrite mult_Q, ofZ_Q in H.
    change (this COIN_SPAWN_INTERVAL) with (1 # 2)%Q in *.
    change (inject_Z (Z.of_nat 0)) with 0%Q in H. lra.
  - cbn [spawnLoop].
    destruct (Num.leb COIN_SPAWN_INTERVAL (coinSpawnAccumulator r)) eqn:El;
      [|exact El].
    apply IH. rewrite spawnCoin_accumulator.
    cbn [coinSpawnAccumulator setCoinSpawnAccumulator].
    unfold Qclt in *. rewrite mult_Q, ofZ_Q in *. rewrite NumFacts.minus_Q.
    change (this COIN_SPAWN_INTERVAL) with (1 # 2)%Q in *.
    rewrite Nat2Z.inj_succ in H. unfold Z.succ in H.
    rewrite inject_Z_plus in H. change (inject_Z 1) with 1%Q in H. lra.
Qed.

Lemma spawnFuel_enough (acc : Qc) :
  acc < Num.ofZ (Z.of_nat (spawnFuel acc)) * COIN_SPAWN_INTERVAL.
Proof.
  unfold spawnFuel, Qclt.
  set (f := Qfloor (acc / COIN_SPAWN_INTERVAL)%Qc).
  rewrite mult_Q, ofZ_Q.
  change (this COIN_SPAWN_INTERVAL) with (1 # 2)%Q.
  assert (Hf : ((acc : Q) / (1 # 2) < inject_Z (f + 1))%Q).
  { unfold f. rewrite NumFacts.div_Q.
    change (this COIN_SPAWN_INTERVAL) with (1 # 2)%Q. apply Qlt_floor. }
  assert (Hn : (inject_Z (f + 1) <= inject_Z (Z.of_nat (S (Z.to_nat f))))%Q).
  { rewrite <- Zle_Qle. lia. }
  assert (Hd : ((acc : Q) / (1 # 2) == (acc : Q) * 2)%Q) by (field).
  rewrite Hd in Hf.
  generalize dependent (inject_Z (Z.of_nat (S (Z.to_nat f)))).
  generalize dependent (inject_Z (f + 1)).
  intros a Ha b Hb. lra.
Qed.

(** The fuel that [_advancePhysics] gives suffices: the loop stops
    because its condition fails. *)
Lemma spawnLoop_exits r :
  Num.leb COIN_SPAWN_INTERVAL
    (coinSpawnAccumulator
       (spawnLoop E (spawnFuel (coinSpawnAccumulator r)) r)) = false.
Proof. apply spawnLoop_below, spawnFuel_enough. Qed.

(** Once the condition fails, more fuel changes nothing. *)
Lemma spawnLoop_stable n : forall r k,
  Num.leb COIN_SPAWN_INTERVAL (coinSpawnAccumulator (spawnLoop E n r)) = false ->
  spawnLoop E (n + k) r = spawnLoop E n r.
Proof.
  induction n as [|n IH]; intros r k H.
  - cbn [spawnLoop] in *. destruct k; [reflexivity|].
    cbn [Nat.add spawnLoop]. rewrite H. reflexivity.
  - cbn [Nat.add spawnLoop] in *.
    destruct (Num.leb COIN_SPAWN_INTERVAL (coinSpawnAccumulator r));
      [|reflexivity].
    apply IH. exact H.
Qed.

End SpawnLoop.

(* ================================================================== *)
(** ** Further properties: names and identifiers *)
(* ================================================================== *)

Section Names.

Lemma allChars_filter f s : allChars f (Str.filter f s) = true.
Proof.
  induction s as [|c r IH]; simpl; [reflexivity|].
  destruct (f c) eqn:Ef; simpl; [rewrite Ef|]; exact IH.
Qed.

Lemma allChars_trimStart f s :
  allChars f s = true -> allChars f (Str.trimStart s) = true.
Proof.
  induction s as [|c r IH]; simpl; intro H; [reflexivity|].
  apply andb_true_iff in H as [Hc Hr].
  destruct (Str.isSpace c); [exact (IH Hr)|].
  simpl. rewrite Hc. exact Hr.
Qed.

Lemma allChars_trimEnd f s :
  allChars f s = true -> allChars f (Str.trimEnd s) = true.
Proof.
  induction s as [|c r IH]; simpl; intro H; [reflexivity|].
  apply andb_true_iff in H as [Hc Hr]. specialize (IH Hr).
  destruct (Str.trimEnd r) as [|c' r'].
  - destruct (Str.isSpace c); simpl; [reflexivity|]. rewrite Hc. reflexivity.
  - simpl in *. rewrite Hc. exact IH.
Qed.

Lemma allChars_take f n : forall s,
  allChars f s = true -> allChars f (Str.take n s) = true.
Proof.
  induction n as [|n IH]; intros [|c r] H; simpl; try reflexivity.
  simpl in H. apply andb_true_iff in H as [Hc Hr].
  rewrite Hc. exact (IH r Hr).
Qed.

Lemma length_take n : forall s, (String.length (Str.take n s) <= n)%nat.
Proof.
  induction n as [|n IH]; intros [|c r]; simpl; try lia.
  specialize (IH r). lia.
Qed.

Lemma noLeadingSpace_trimStart s : noLeadingSpace (Str.trimStart s) = true.
Proof.
  induction s as [|c r IH]; simpl; [reflexivity|].
  destruct (Str.isSpace c) eqn:Es; [exact IH|]. simpl. rewrite Es. reflexivity.
Qed.

Lemma noLeadingSpace_trimEnd s :
  noLeadingSpace s = true -> noLeadingSpace (Str.trimEnd s) = true.
Proof.
  destruct s as [|c r]; simpl; intro H; [reflexivity|].
  destruct (Str.trimEnd r); [|exact H].
  destruct (Str.isSpace c) eqn:Es; [reflexivity|].
  simpl. rewrite Es. reflexivity.
Qed.

Lemma noLeadingSpace_take n s :
  noLeadingSpace s = true -> noLeadingSpace (Str.take n s) = true.
Proof.
  destruct n, s; simpl; auto.
Qed.

Lemma prefix_filter f w : forall s,
  allChars f w = true ->
  String.prefix w s = true -> String.prefix w (Str.filter f s) = true.
Proof.
  induction w as [|a w IH]; intros s Hw Hp; [destruct (Str.filter f s); reflexivity|].
  destruct s as [|b s]; [discriminate|]. simpl in Hw, Hp.
  apply andb_true_iff in Hw as [Ha Hw].
  destruct (ascii_dec a b) as [<-|Hne]; [|discriminate].
  simpl. rewrite Ha. simpl.
  destruct (ascii_dec a a); [|congruence]. exact (IH s Hw Hp).
Qed.

Lemma includes_filter f w : forall s,
  allChars f w = true ->
  Str.includes w s = true -> Str.includes w (Str.filter f s) = true.
Proof.
  intros s Hw. induction s as [|c s IH]; intro H.
  - exact H.
  - cbn [Str.includes] in H. apply orb_true_iff in H as [Hp|Hi].
    + pose proof (@prefix_filter f w _ Hw Hp) as Hf.
      destruct (Str.filter f (String c s)) as [|d t] eqn:Ed.
      * cbn [Str.includes]. rewrite Hf. reflexivity.
      * cbn [Str.includes]. rewrite Hf. reflexivity.
    + specialize (IH Hi). cbn [Str.filter].
      destruct (f c); [|exact IH].
      cbn [Str.includes]. rewrite IH. apply orb_true_r.
Qed.

Lemma blocked_words_plain :
  Forall (fun w => allChars notSeparator w = true) BLOCKED_WORDS.
Proof. repeat constructor. Qed.

End Names.

(** X1. [sanitizeName] returns at most 8 characters, all of them letters,
    digits, space, underscore or hyphen, and never starts with a space. *)
Theorem X1_sanitizeName_shape (name : string) :
  (String.length (sanitizeName name) <= 8)%nat
  /\ allChars Str.isNameChar (sanitizeName name) = true
  /\ noLeadingSpace (sanitizeName name) = true.
Proof.
  unfold sanitizeName, Str.trim. split; [apply length_take|]. split.
  - apply allChars_take, allChars_trimEnd, allChars_trimStart, allChars_filter.
  - apply noLeadingSpace_take, noLeadingSpace_trimEnd, noLeadingSpace_trimStart.
Qed.

(** X2. A name that contains a blocked word, in whatever letter case, is
    never clean. *)
Theorem X2_blocked_word_rejected (word name : string) :
  In word BLOCKED_WORDS ->
  Str.includes word (Str.toLowerCase name) = true ->
  isNameClean name = false.
Proof.
  intros Hin Hinc. unfold isNameClean. apply negb_false_iff.
  apply existsb_exists. exists word. split; [exact Hin|].
  apply includes_filter; [|exact Hinc].
  pose proof blocked_words_plain as H. rewrite Forall_forall in H.
  exact (H word Hin).
Qed.

Lemma X2_blocked_word_rejected_witness : isNameClean "xXDamNit" = false.
Proof.
  apply (@X2_blocked_word_rejected "damn" "xXDamNit").
  - simpl. tauto.
  - reflexivity.
Defined.

Section Uuid.

Lemma append_empty (s : string) : (s ++ "")%string = s.
Proof. induction s as [|c s IH]; simpl; [reflexivity | rewrite IH; reflexivity]. Qed.

Lemma length_append (a b : string) :
  String.length (a ++ b)%string = (String.length a + String.length b)%nat.
Proof. induction a as [|c a IH]; simpl; [reflexivity | rewrite IH; reflexivity]. Qed.

Lemma hexRun_split n : forall s r,
  hexRun n s = Some r -> exists pre, s = (pre ++ r)%string /\ hexBlock n pre.
Proof.
  induction n as [|n IH]; intros s r H; simpl in H.
  - injection H as <-. exists "". repeat split.
  - destruct s as [|c s]; [discriminate|].
    destruct (Str.isHex c) eqn:Ec; [|discriminate].
    destruct (IH _ _ H) as [pre [-> [Hl Hh]]].
    exists (String c pre). repeat split; simpl; [congruence|].
    rewrite Ec. exact Hh.
Qed.

Lemma hexRun_app n : forall pre r,
  hexBlock n pre -> hexRun n (pre ++ r)%string = Some r.
Proof.
  induction n as [|n IH]; intros pre r [Hl Hh].
  - destruct pre; [reflexivity | discriminate].
  - destruct pre as [|c pre]; [discriminate|]. simpl in *.
    apply andb_true_iff in Hh as [Hc Hh]. rewrite Hc.
    apply IH. split; [congruence | exact Hh].
Qed.

Lemma hexGroup_true n k s :
  hexGroup n k s = true <->
  exists pre r, s = (pre ++ r)%string /\ hexBlock n pre /\ k r = true.
Proof.
  unfold hexGroup. split.
  - destruct (hexRun n s) as [r|] eqn:Er; [|discriminate].
    intro Hk. destruct (hexRun_split _ _ Er) as [pre [-> Hb]].
    exists pre, r. repeat split; try apply Hb. exact Hk.
  - intros [pre [r [-> [Hb Hk]]]]. rewrite (hexRun_app r Hb). exact Hk.
Qed.

Lemma dashThen_true k s :
  dashThen k s = true <-> exists r, s = ("-" ++ r)%string /\ k r = true.
Proof.
  unfold dashThen. split.
  - destruct s as [|c r]; [discriminate|]. intro H.
    apply andb_true_iff in H as [Hc Hk]. apply Ascii.eqb_eq in Hc. subst c.
    exists r. split; [reflexivity | exact Hk].
  - intros [r [-> Hk]]. simpl. exact Hk.
Qed.

Lemma isEmpty_true s : Str.isEmpty s = true <-> s = "".
Proof. destruct s; simpl; split; congruence. Qed.

Lemma isHex_lower c : Str.isHex (Str.lowerChar c) = Str.isHex c.
Proof.
  destruct c as [[] [] [] [] [] [] [] []]; reflexivity.
Qed.

Lemma dash_lower c :
  Ascii.eqb (Str.lowerChar c) "-" = Ascii.eqb c "-".
Proof.
  destruct c as [[] [] [] [] [] [] [] []]; reflexivity.
Qed.

Lemma hexGroup_lower n (k k' : string -> bool) :
  (forall r, k (Str.toLowerCase r) = k' r) ->
  forall s, hexGroup n k (Str.toLowerCase s) = hexGroup n k' s.
Proof.
  intro Hk. unfold hexGroup. induction n as [|n IH]; intro s; simpl.
  - apply Hk.
  - destruct s as [|c s]; simpl; [reflexivity|].
    rewrite isHex_lower. destruct (Str.isHex c); [apply IH | reflexivity].
Qed.

Lemma dashThen_lower (k k' : string -> bool) :
  (forall r, k (Str.toLowerCase r) = k' r) ->
  forall s, dashThen k (Str.toLowerCase s) = dashThen k' s.
Proof.
  intros Hk [|c s]; simpl; [reflexivity|].
  rewrite dash_lower. fold (Str.toLowerCase s). rewrite Hk. reflexivity.
Qed.

End Uuid.

(** X3. [UUID_RE.test] accepts exactly the texts made of five blocks of
    8, 4, 4, 4 and 12 hexadecimal digits joined by hyphens; such a text has
    36 characters, and lower-casing a text does not change the verdict. *)
Theorem X3_uuid_shape (s : string) :
  (UUID_RE_test s = true <->
   exists p1 p2 p3 p4 p5,
     s = dashed p1 p2 p3 p4 p5
     /\ hexBlock 8 p1 /\ hexBlock 4 p2 /\ hexBlock 4 p3
     /\ hexBlock 4 p4 /\ hexBlock 12 p5)
  /\ (UUID_RE_test s = true -> String.length s = 36%nat)
  /\ UUID_RE_test (Str.toLowerCase s) = UUID_RE_test s.
Proof.
  assert (Hiff : UUID_RE_test s = true <->
    exists p1 p2 p3 p4 p5,
      s = dashed p1 p2 p3 p4 p5
      /\ hexBlock 8 p1 /\ hexBlock 4 p2 /\ hexBlock 4 p3
      /\ hexBlock 4 p4 /\ hexBlock 12 p5).
  { unfold UUID_RE_test, dashed. split.
    - intro H.
      apply hexGroup_true in H as [p1 [r1 [-> [H1 H]]]].
      apply dashThen_true in H as [r [-> H]].
      apply hexGroup_true in H as [p2 [r2 [-> [H2 H]]]].
      apply dashThen_true in H as [r [-> H]].
      apply hexGroup_true in H as [p3 [r3 [-> [H3 H]]]].
      apply dashThen_true in H as [r [-> H]].
      apply hexGroup_true in H as [p4 [r4 [-> [H4 H]]]].
      apply dashThen_true in H as [r [-> H]].
      apply hexGroup_true in H as [p5 [r5 [-> [H5 H]]]].
      apply isEmpty_true in H. subst r5.
      exists p1, p2, p3, p4, p5. rewrite append_empty. tauto.
    - intros [p1 [p2 [p3 [p4 [p5 [-> [H1 [H2 [H3 [H4 H5]]]]]]]]]].
      apply hexGroup_true. exists p1. eexists. split; [reflexivity|].
      split; [exact H1|]. apply dashThen_true. eexists. split; [reflexivity|].
      apply hexGroup_true. exists p2. eexists. split; [reflexivity|].
      split; [exact H2|]. apply dashThen_true. eexists. split; [reflexivity|].
      apply hexGroup_true. exists p3. eexists. split; [reflexivity|].
      split; [exact H3|]. apply dashThen_true. eexists. split; [reflexivity|].
      apply hexGroup_true. exists p4. eexists. split; [reflexivity|].
      split; [exact H4|]. apply dashThen_true. eexists. split; [reflexivity|].
      apply hexGroup_true. exists p5, "". rewrite append_empty.
      repeat split; apply H5. }
  split; [exact Hiff|]. split.
  - intro H. apply Hiff in H
      as [p1 [p2 [p3 [p4 [p5 [-> [[L1 _] [[L2 _] [[L3 _] [[L4 _] [L5 _]]]]]]]]]]].
    unfold dashed. rewrite !length_append. simpl. lia.
  - unfold UUID_RE_test.
    repeat first [apply hexGroup_lower; intro | apply dashThen_lower; intro].
    match goal with
    | |- Str.isEmpty (Str.toLowerCase ?r) = _ => destruct r; reflexivity
    end.
Qed.

Lemma X3_uuid_shape_witness :
  String.length "123e4567-E89b-12d3-a456-426614174000" = 36%nat.
Proof.
  apply (X3_uuid_shape "123e4567-E89b-12d3-a456-426614174000").
  reflexivity.
Defined.

(* ================================================================== *)
(** ** Further properties: what the room keeps well formed *)
(* ================================================================== *)

Section WellFormed.

Variable E : Env.

(** *** Entries of a map *)

Lemma Forall_set {V : Type} (P : V -> Prop) k v (m : JsMap.t V) :
  P v -> Forall (fun e => P (snd e)) m ->
  Forall (fun e => P (snd e)) (JsMap.set k v m).
Proof.
  intros Hv. induction m as [|[k' v'] m IH]; simpl; intro H.
  - repeat constructor. exact Hv.
  - inversion H as [|? ? H1 H2]; subst.
    destruct (String.eqb k k'); constructor; auto.
Qed.

Lemma Forall_delete {V : Type} (P : V -> Prop) k (m : JsMap.t V) :
  Forall (fun e => P (snd e)) m ->
  Forall (fun e => P (snd e)) (JsMap.delete k m).
Proof.
  induction m as [|[k' v'] m IH]; simpl; intro H; [constructor|].
  inversion H as [|? ? H1 H2]; subst.
  destruct (String.eqb k k'); [exact H2|]. constructor; auto.
Qed.

Lemma Forall_update {V : Type} (P : V -> Prop) k (f : V -> V) (m : JsMap.t V) :
  (forall v, P v -> P (f v)) ->
  Forall (fun e => P (snd e)) m ->
  Forall (fun e => P (snd e)) (JsMap.update k f m).
Proof.
  intro Hf. induction m as [|[k' v'] m IH]; simpl; intro H; [constructor|].
  inversion H as [|? ? H1 H2]; subst.
  destruct (String.eqb k k'); constructor; auto. apply Hf. exact H1.
Qed.

Lemma Forall_survivors {V : Type} (P : V -> Prop) sendOk (m : JsMap.t V) :
  Forall (fun e => P (snd e)) m ->
  Forall (fun e => P (snd e)) (survivors sendOk m).
Proof.
  unfold survivors. induction m as [|e m IH]; simpl; intro H; [constructor|].
  inversion H as [|? ? H1 H2]; subst.
  destruct (sendOk (fst e)); [constructor|]; auto.
Qed.

(** *** Positions *)

Lemma clamp_inField x :
  inField (Num.clamp 0 (CANVAS_WIDTH - PLAYER_WIDTH) x).
Proof.
  assert (H0 : inField 0) by (split; vm_compute; discriminate).
  assert (H9 : inField (CANVAS_WIDTH - PLAYER_WIDTH))
    by (split; vm_compute; discriminate).
  destruct x as [|q| |]; cbn [Num.clamp]; try exact H0.
  - unfold Num.max, Num.min.
    destruct (Num.leb (CANVAS_WIDTH - PLAYER_WIDTH) q) eqn:Ehi.
    + destruct (Num.leb 0 (CANVAS_WIDTH - PLAYER_WIDTH)); assumption.
    + apply NumFacts.leb_gt in Ehi.
      destruct (Num.leb 0 q) eqn:Elo; [|exact H0].
      apply NumFacts.leb_le in Elo. split; [exact Elo|].
      apply Qclt_le_weak. exact Ehi.
  - unfold Num.max.
    destruct (Num.leb 0 (CANVAS_WIDTH - PLAYER_WIDTH)); assumption.
Qed.

Lemma lobbyX_inField : inField LOBBY_X.
Proof. split; vm_compute; discriminate. Qed.

(** The start position of player [i] of [n], for at most 5 players. *)
Lemma startX_inField n i :
  (i < n)%nat -> (n <= MAX_PLAYERS)%nat ->
  inField (CANVAS_WIDTH / Num.ofZ (Z.of_nat n + 1)
           * Num.ofZ (Z.of_nat i + 1) - PLAYER_WIDTH / Num.ofZ 2).
Proof.
  unfold MAX_PLAYERS. intros Hi Hn.
  destruct n as [|[|[|[|[|[|n]]]]]]; try lia;
    destruct i as [|[|[|[|[|i]]]]]; try lia;
    split; vm_compute; discriminate.
Qed.

(** *** Names, hats, colours, user ids *)

Lemma colorAt_palette i : In (colorAt i) PLAYER_COLORS.
Proof.
  unfold colorAt. apply nth_In. apply Nat.mod_upper_bound. discriminate.
Qed.

Lemma length_nonempty s : Str.isEmpty s = false -> (1 <= String.length s)%nat.
Proof. destruct s; simpl; [discriminate | lia]. Qed.

Lemma joinName_ok name :
  isNameClean (joinName E name) = true -> nameOk (joinName E name).
Proof.
  intro Hc. split; [|split; [|exact Hc]]; unfold joinName in *; cbv zeta in *.
  - destruct (Str.isEmpty (sanitizeName (suppliedName E name))) eqn:Ee.
    + simpl. lia.
    + split; [apply length_nonempty; exact Ee|].
      unfold sanitizeName. apply length_take.
  - destruct (Str.isEmpty (sanitizeName (suppliedName E name))).
    + reflexivity.
    + unfold sanitizeName, Str.trim.
      apply allChars_take, allChars_trimEnd, allChars_trimStart,
        allChars_filter.
Qed.

Lemma joinHat_ok hat : hatOk E (joinHat E hat).
Proof.
  unfold joinHat, hatOk. destruct hat; try (left; reflexivity).
  destruct (HAT_CATALOG E s) eqn:Eh; [right; exact Eh | left; reflexivity].
Qed.

Lemma joinUserId_ok userId : uuidOk (joinUserId userId).
Proof.
  unfold joinUserId, uuidOk. destruct userId; try exact I.
  destruct (UUID_RE_test s) eqn:Eu; [exact Eu | exact I].
Qed.

Lemma orCap_ok h : hatOk E h -> hatOk E (orCap h).
Proof.
  unfold orCap. destruct (Str.isEmpty h); [left; reflexivity | auto].
Qed.

Lemma orNull_ok u : uuidOk u -> uuidOk (orNull u).
Proof.
  unfold orNull, uuidOk. destruct u as [s|]; [|auto].
  destruct (Str.isEmpty s); auto.
Qed.

Lemma multipleOfTen_0 : multipleOfTen 0.
Proof. exists 0%Z. split; lia. Qed.

Lemma multipleOfTen_catch z : multipleOfTen z -> multipleOfTen (z + SCORE_PER_COIN).
Proof.
  intros [k [Hk ->]]. exists (k + 1)%Z. unfold SCORE_PER_COIN. split; lia.
Qed.

(** *** The loops over players *)

Lemma addScore_ok p : playerOk E p -> playerOk E (addScore SCORE_PER_COIN p).
Proof.
  intros [Hx Hs Hc Hn Hh Hu Hk]. constructor; cbn; auto.
  apply multipleOfTen_catch. exact Hs.
Qed.

Lemma catchCoin_ok c ps w ps' :
  catchCoin c ps = Some (w, ps') ->
  Forall (fun e => playerOk E (snd e)) ps ->
  Forall (fun e => playerOk E (snd e)) ps'.
Proof.
  intros Hc H. destruct (catchCoin_first _ _ Hc) as [pre [p [post [-> [_ [_ ->]]]]]].
  apply Forall_app in H as [Hpre Hrest].
  inversion Hrest as [|? ? Hp Hpost]; subst.
  apply Forall_app. split; [exact Hpre|].
  constructor; [apply addScore_ok; exact Hp | exact Hpost].
Qed.

Lemma coinLoop_players_ok dt cs ps :
  Forall (fun e => playerOk E (snd e)) ps ->
  Forall (fun e => playerOk E (snd e)) (lr_players (coinLoop E dt cs ps)).
Proof.
  intro H. induction cs as [|c cs IH]; [exact H|].
  cbn [coinLoop]. unfold coinStep.
  destruct (pastGround (moveCoin E dt c)); [exact IH|].
  destruct (catchCoin _ _) as [[w ps']|] eqn:Ec; cbn [lr_players];
    [|exact IH].
  exact (@catchCoin_ok _ _ _ _ Ec IH).
Qed.

Lemma lineUp_ok n : forall i ps,
  (i + List.length ps <= n)%nat -> (n <= MAX_PLAYERS)%nat ->
  Forall (fun e => playerOk E (snd e)) ps ->
  Forall (fun e => playerOk E (snd e)) (lineUp n i ps).
Proof.
  intros i ps. revert i. induction ps as [|[id p] rest IH]; intros i Hl Hn H.
  - constructor.
  - inversion H as [|? ? Hp Hrest]; subst. cbn [lineUp]. cbv zeta.
    cbn [List.length] in Hl. constructor.
    + destruct Hp as [Hx Hs Hc Hnm Hh Hu Hk]. constructor; cbn; auto.
      * apply startX_inField; lia.
      * apply multipleOfTen_0.
    + apply IH; [lia | exact Hn | exact Hrest].
Qed.

Lemma resetPlayer_ok i p : playerOk E p -> playerOk E (resetPlayer i p).
Proof.
  intros [Hx Hs Hc Hnm Hh Hu Hk]. constructor; cbn; auto.
  - apply lobbyX_inField.
  - apply multipleOfTen_0.
  - apply colorAt_palette.
Qed.

Lemma playerOfWaiter_ok i w : waiterOk E w -> playerOk E (playerOfWaiter i w).
Proof.
  intros [Hc Hnm Hh Hu]. constructor; cbn; auto.
  - apply lobbyX_inField.
  - apply multipleOfTen_0.
  - apply colorAt_palette.
  - apply orCap_ok. exact Hh.
  - apply orNull_ok. exact Hu.
Qed.

Lemma keepPlayers_ok ps : forall i all,
  Forall (fun e => playerOk E (snd e)) ps ->
  Forall (fun e => playerOk E (snd e)) all ->
  Forall (fun e => playerOk E (snd e)) (fst (keepPlayers i ps all)).
Proof.
  induction ps as [|[id p] rest IH]; intros i all H Ha; [exact Ha|].
  inversion H as [|? ? Hp Hrest]; subst. cbn [keepPlayers]. cbv zeta.
  assert (Hs : Forall (fun e => playerOk E (snd e))
                 (JsMap.set id (resetPlayer i p) all))
    by (apply Forall_set; [apply resetPlayer_ok; exact Hp | exact Ha]).
  destruct (MAX_PLAYERS <=? S i)%nat; [exact Hs|].
  apply IH; assumption.
Qed.

Lemma promoteWaiters_ok ws : forall i all remaining,
  Forall (fun e => waiterOk E (snd e)) ws ->
  Forall (fun e => playerOk E (snd e)) all ->
  Forall (fun e => waiterOk E (snd e)) remaining ->
  Forall (fun e => playerOk E (snd e)) (fst (promoteWaiters i ws all remaining))
  /\ Forall (fun e => waiterOk E (snd e))
       (snd (promoteWaiters i ws all remaining)).
Proof.
  induction ws as [|[id w] rest IH]; intros i all remaining H Ha Hr;
    [split; assumption|].
  inversion H as [|? ? Hw Hrest]; subst. cbn [promoteWaiters].
  destruct (i <? MAX_PLAYERS)%nat.
  - apply IH; [exact Hrest | | exact Hr].
    apply Forall_set; [apply playerOfWaiter_ok; exact Hw | exact Ha].
  - apply IH; [exact Hrest | exact Ha |].
    apply Forall_set; [exact Hw | exact Hr].
Qed.

(** *** Coins *)

Lemma moveCoin_id dt c : c_id (moveCoin E dt c) = c_id c.
Proof. reflexivity. Qed.

(** The coins that the loop keeps come from the list, in its order. *)
Lemma coinLoop_ids_in dt cs ps d :
  In d (lr_coins (coinLoop E dt cs ps)) -> In (c_id d) (List.map c_id cs).
Proof.
  induction cs as [|c cs IH]; [intros []|].
  cbn [coinLoop]. unfold coinStep.
  destruct (pastGround (moveCoin E dt c)); [intro H; right; exact (IH H)|].
  destruct (catchCoin _ _) as [[w ps']|]; cbn [lr_coins];
    [intro H; right; exact (IH H)|].
  intros [<-|H]; [left; reflexivity | right; exact (IH H)].
Qed.

Lemma coinLoop_ids_sorted dt cs ps :
  StronglySorted Z.lt (List.map c_id cs) ->
  StronglySorted Z.lt (List.map c_id (lr_coins (coinLoop E dt cs ps))).
Proof.
  induction cs as [|c cs IH]; intro H; [constructor|].
  cbn [List.map] in H. inversion H as [|? ? Hs Hf]; subst.
  cbn [coinLoop]. unfold coinStep.
  destruct (pastGround (moveCoin E dt c)); [exact (IH Hs)|].
  destruct (catchCoin _ _) as [[w ps']|]; cbn [lr_coins]; [exact (IH Hs)|].
  cbn [List.map]. constructor; [exact (IH Hs)|].
  rewrite Forall_forall in Hf |- *. intros z Hz.
  apply in_map_iff in Hz as [d [<- Hd]].
  rewrite moveCoin_id. apply Hf. exact (coinLoop_ids_in _ _ _ _ Hd).
Qed.

Lemma coinLoop_ids_below dt cs ps n :
  Forall (fun c => (c_id c < n)%Z) cs ->
  Forall (fun c => (c_id c < n)%Z) (lr_coins (coinLoop E dt cs ps)).
Proof.
  intro H. rewrite Forall_forall in H |- *. intros d Hd.
  apply coinLoop_ids_in in Hd. apply in_map_iff in Hd as [c [Hc Hin]].
  rewrite <- Hc. exact (H c Hin).
Qed.

Lemma coinLoop_length dt cs ps :
  (List.length (lr_coins (coinLoop E dt cs ps)) <= List.length cs)%nat.
Proof.
  destruct (coinLoop_accounts E dt cs ps) as [H _]. cbv zeta in H. lia.
Qed.
Lemma sorted_snoc (l : list Z) (x : Z) :
  StronglySorted Z.lt l -> Forall (fun y => (y < x)%Z) l ->
  StronglySorted Z.lt (l ++ [x]).
Proof.
  induction l as [|a l IH]; intros Hs Hf; cbn [app].
  - repeat constructor.
  - inversion Hs as [|? ? Hs' Ha]; subst.
    inversion Hf as [|? ? Hax Hf']; subst.
    constructor; [apply IH; assumption|].
    apply Forall_app. split; [exact Ha | repeat constructor; exact Hax].
Qed.

Lemma spawnCoin_tidy r : coinsTidy r -> coinsTidy (_spawnCoin E r).
Proof.
  intros [Hc [Hs Hb]]. unfold _spawnCoin.
  destruct (COIN_CAP <=? List.length (coins r))%nat eqn:Ecap;
    [repeat split; assumption|].
  apply Nat.leb_gt in Ecap. cbv zeta. unfold coinsTidy.
  cbn [coins nextCoinId setRandomCursor setNextCoinId setCoins].
  repeat split.
  - rewrite length_app. cbn [List.length]. lia.
  - rewrite map_app. cbn [List.map c_id]. apply sorted_snoc; [exact Hs|].
    rewrite Forall_map. exact Hb.
  - apply Forall_app. split.
    + eapply Forall_impl; [|exact Hb]. cbv beta. intros c Hc'. lia.
    + repeat constructor. cbn [c_id]. lia.
Qed.

Lemma spawnLoop_tidy fuel : forall r,
  coinsTidy r -> coinsTidy (spawnLoop E fuel r).
Proof.
  induction fuel as [|fuel IH]; intros r H; [exact H|].
  cbn [spawnLoop].
  destruct (Num.leb COIN_SPAWN_INTERVAL (coinSpawnAccumulator r)); [|exact H].
  apply IH, spawnCoin_tidy. exact H.
Qed.

(** *** The physics step *)

Lemma roomWf_tidy r : roomWf E r -> coinsTidy r.
Proof. intros [_ _ Hc Hs Hb _]. repeat split; assumption. Qed.

(** [roomWf] looks at five fields only. *)
Lemma roomWf_ext r r' :
  roomWf E r ->
  players r' = players r -> waitingRoom r' = waitingRoom r ->
  coins r' = coins r -> nextCoinId r' = nextCoinId r ->
  coinSpawnAccumulator r' = coinSpawnAccumulator r ->
  roomWf E r'.
Proof.
  intros [Hp Hw Hc Hs Hb Ha] Ep Ew Ec En Eacc.
  constructor; rewrite ?Ep, ?Ew, ?Ec, ?En, ?Eacc; assumption.
Qed.

Lemma advancePhysics_wf dt r :
  roomWf E r -> roomWf E (fst (_advancePhysics E dt r)).
Proof.
  intro H. unfold _advancePhysics. cbv zeta.
  set (r2 := setCoinSpawnAccumulator _ _).
  set (r3 := spawnLoop E _ r2).
  assert (S3 : sameButCoins r2 r3) by apply spawnLoop_same.
  assert (T3 : coinsTidy r3) by (apply spawnLoop_tidy, (roomWf_tidy H)).
  assert (A3 : coinSpawnAccumulator r3 < COIN_SPAWN_INTERVAL)
    by (apply NumFacts.leb_gt; unfold r3; apply spawnLoop_exits).
  destruct T3 as [Hc [Hs Hb]].
  constructor;
    cbn [fst players waitingRoom coins nextCoinId coinSpawnAccumulator
         setPlayers setCoins].
  - apply coinLoop_players_ok. rewrite (same_players S3). apply H.
  - rewrite (same_waiting S3). apply H.
  - pose proof (coinLoop_length dt (coins r3) (players r3)). lia.
  - apply coinLoop_ids_sorted. exact Hs.
  - apply coinLoop_ids_below. exact Hb.
  - exact A3.
Qed.

Lemma physicsTick_wf now r : roomWf E r -> roomWf E (physicsTick E now r).
Proof.
  intro H. unfold physicsTick.
  pose proof (advancePhysics_wf (physicsDt now r) H) as H1.
  destruct (_advancePhysics E (physicsDt now r) r) as [r1 collected].
  cbn [fst] in H1.
  destruct (nonEmpty collected);
    apply (@roomWf_ext r1 _ H1); reflexivity.
Qed.

(** *** The transitions and the handlers *)

Lemma returnToLobby_wf now r :
  roomWf E r -> roomWf E (fst (_returnToLobby now r)).
Proof.
  intros [Hp Hw Hc Hs Hb Ha]. unfold _returnToLobby.
  pose proof (@keepPlayers_ok (players r) 0 [] Hp (Forall_nil _)) as Hk.
  destruct (keepPlayers 0 (players r) []) as [kept index]. cbn [fst] in Hk.
  pose proof (@promoteWaiters_ok (waitingRoom r) index kept [] Hw Hk
                (Forall_nil _)) as [Hq Hr].
  destruct (promoteWaiters index (waitingRoom r) kept [])
    as [allPlayers remainingWaiters].
  cbn [fst snd] in *.
  constructor;
    cbn [players waitingRoom coins nextCoinId coinSpawnAccumulator
         setWaitingRoom setPlayers setCoins setState List.length List.map];
    try assumption.
  - lia.
  - constructor.
  - constructor.
Qed.

Lemma addToWaitingRoom_wf conn name hat userId r :
  roomWf E r -> nameOk name -> hatOk E hat -> uuidOk userId ->
  roomWf E (fst (_addToWaitingRoom conn name hat userId r)).
Proof.
  intros [Hp Hw Hc Hs Hb Ha] Hn Hh Hu. unfold _addToWaitingRoom.
  constructor;
    cbn [fst players waitingRoom coins nextCoinId coinSpawnAccumulator
         setWaitingRoom]; try assumption.
  apply Forall_set; [|exact Hw].
  constructor; cbn; auto. apply colorAt_palette.
Qed.

Lemma addPlayerToLobby_wf now conn name hat userId r :
  roomWf E r -> nameOk name -> hatOk E hat -> uuidOk userId ->
  roomWf E (fst (_addPlayerToLobby now conn name hat userId r)).
Proof.
  intros H Hn Hh Hu. unfold _addPlayerToLobby.
  destruct (MAX_PLAYERS <=? JsMap.size (players r))%nat;
    [apply addToWaitingRoom_wf; assumption|].
  cbv zeta. set (r1 := setPlayers _ r).
  assert (W1 : roomWf E r1).
  { destruct H as [Hp Hw Hc Hs Hb Ha].
    constructor; unfold r1;
      cbn [players waitingRoom coins nextCoinId coinSpawnAccumulator
           setPlayers]; try assumption.
    apply Forall_set; [|exact Hp].
    constructor; cbn; auto.
    - apply lobbyX_inField.
    - apply multipleOfTen_0.
    - apply colorAt_palette. }
  destruct (MAX_PLAYERS <=? JsMap.size (players r1))%nat; cbn [fst];
    [|exact W1].
  apply (@roomWf_ext r1 _ W1); reflexivity.
Qed.

Lemma joinRoom_wf now conn name userId hat r :
  roomWf E r -> roomWf E (fst (joinRoom E now conn name userId hat r)).
Proof.
  intro H. unfold joinRoom.
  destruct (JsMap.has conn (players r) || JsMap.has conn (waitingRoom r));
    [exact H|].
  cbv zeta. destruct (isNameClean (joinName E name)) eqn:Ec; [|exact H].
  cbn [negb]. rewrite fst_with_effects.
  pose proof (joinName_ok name Ec) as Hn.
  pose proof (joinHat_ok hat) as Hh.
  pose proof (joinUserId_ok userId) as Hu.
  destruct (state r);
    [apply addPlayerToLobby_wf | apply addToWaitingRoom_wf
     | apply addToWaitingRoom_wf | apply addToWaitingRoom_wf];
    assumption.
Qed.

Lemma afterTick_wf now sendOk t (permit : Room -> bool)
    (g : list Effect -> list Effect) :
  roomWf E t ->
  roomWf E
    (fst (if Num.leb (timeLeft t) 0 then finishRound E now t
          else if permit t
               then let '(r2, e) := flushGameState now sendOk t in (r2, g e)
               else (t, []))).
Proof.
  intro H. destruct (Num.leb (timeLeft t) 0).
  - apply (@roomWf_ext t _ H); reflexivity.
  - destruct (permit t); [|exact H].
    rewrite fst_with_effects. destruct H as [Hp Hw Hc Hs Hb Ha].
    constructor;
      cbn [fst flushGameState _broadcastGameState players waitingRoom coins
           nextCoinId coinSpawnAccumulator setLastBroadcastTime
           setPendingCollected setWaitingRoom setPlayers];
      try assumption; apply Forall_survivors; assumption.
Qed.

Lemma setX_ok x p : inField x -> playerOk E p -> playerOk E (setX x p).
Proof.
  intros Hx [_ Hs Hc Hnm Hh Hu Hk]. constructor; cbn; auto.
Qed.

Lemma placePlayer_wf conn x r : roomWf E r -> roomWf E (placePlayer conn x r).
Proof.
  intros [Hp Hw Hc Hs Hb Ha].
  constructor; unfold placePlayer;
    cbn [players waitingRoom coins nextCoinId coinSpawnAccumulator setPlayers];
    try assumption.
  apply Forall_update; [|exact Hp].
  intros p. apply setX_ok, clamp_inField.
Qed.

Lemma moveWhilePlaying_wf now sendOk conn x r :
  roomWf E r -> roomWf E (fst (moveWhilePlaying E now sendOk conn x r)).
Proof.
  intro H. unfold moveWhilePlaying.
  destruct (negb (Str.isEmpty conn) && JsMap.has conn (players r)); [|exact H].
  destruct (Num.isNaN x); [exact H|]. cbv zeta.
  set (r1 := placePlayer conn x r).
  pose proof (@afterTick_wf now sendOk (physicsTick E now r1)
                (fun t => (BROADCAST_THROTTLE_MS <=? now - lastBroadcastTime t)%Z)
                (fun e => e)) as A.
  cbv beta in A.
  replace (let '(r2, e) := flushGameState now sendOk (physicsTick E now r1)
           in (r2, e))
    with (flushGameState now sendOk (physicsTick E now r1)) in A
    by (destruct (flushGameState _ _ _); reflexivity).
  apply A, physicsTick_wf, placePlayer_wf. exact H.
Qed.

Lemma webSocketClose_wf now conn r :
  roomWf E r -> roomWf E (fst (webSocketClose now conn r)).
Proof.
  intro H. unfold webSocketClose.
  destruct (Str.isEmpty conn); [exact H|]. cbv zeta.
  set (r1 := setWaitingRoom _ _).
  assert (W1 : roomWf E r1).
  { destruct H as [Hp Hw Hc Hs Hb Ha].
    constructor; unfold r1;
      cbn [players waitingRoom coins nextCoinId coinSpawnAccumulator
           setWaitingRoom setPlayers];
      try assumption; apply Forall_delete; assumption. }
  destruct ((JsMap.size (players r1) =? 0)%nat
            && negb (GameState_eqb (state r1) LOBBY)).
  - rewrite fst_with_effects. apply returnToLobby_wf. exact W1.
  - exact W1.
Qed.

Lemma startPlaying_wf now r :
  (JsMap.size (players r) <= MAX_PLAYERS)%nat ->
  roomWf E r -> roomWf E (fst (_startPlaying now r)).
Proof.
  intros Hn [Hp Hw Hc Hs Hb Ha]. unfold _startPlaying.
  constructor;
    cbn [fst players waitingRoom coins nextCoinId coinSpawnAccumulator
         List.length List.map]; try assumption.
  - apply lineUp_ok; [unfold JsMap.size; lia | exact Hn | exact Hp].
  - lia.
  - constructor.
  - constructor.
  - vm_compute. reflexivity.
Qed.

Lemma alarm_wf now sendOk r :
  roomInv r -> roomWf E r -> roomWf E (fst (alarm E now sendOk r)).
Proof.
  intros Inv H. unfold alarm. destruct (state r).
  - destruct (0 <? JsMap.size (players r))%nat; [|exact H].
    apply (@roomWf_ext r _ H); reflexivity.
  - cbv zeta.
    destruct (countdownSeconds _ <=? 0)%Z.
    + rewrite fst_with_effects. apply startPlaying_wf.
      * cbn [players setCountdownSeconds]. apply Inv.
      * apply (@roomWf_ext r _ H); reflexivity.
    + apply (@roomWf_ext r _ H); reflexivity.
  - destruct (JsMap.size (players r) =? 0)%nat.
    + rewrite fst_with_effects. apply returnToLobby_wf. exact H.
    + apply (@afterTick_wf now sendOk (physicsTick E now r)
               (fun _ => true)
               (fun e => e ++ [SetAlarm (now + FALLBACK_ALARM_MS)%Z])).
      apply physicsTick_wf. exact H.
  - rewrite fst_with_effects. apply returnToLobby_wf. exact H.
Qed.

Lemma handle_wf s r :
  roomInv r -> roomWf E r -> roomWf E (fst (handle E s r)).
Proof.
  intros Inv H. unfold handle. destruct (st_trigger s) as [conn m|conn|].
  - unfold webSocketMessage. destruct m as [|name userId hat|x|].
    + exact H.
    + destruct (Str.isEmpty conn); [exact H | apply joinRoom_wf; exact H].
    + destruct (state r); try exact H. apply moveWhilePlaying_wf. exact H.
    + exact H.
  - apply webSocketClose_wf. exact H.
  - apply alarm_wf; assumption.
Qed.

Lemma roomWf_newRoom : roomWf E newRoom.
Proof.
  constructor; cbn [newRoom players waitingRoom coins nextCoinId
                    coinSpawnAccumulator List.length List.map].
  - constructor.
  - constructor.
  - lia.
  - constructor.
  - constructor.
  - vm_compute. reflexivity.
Qed.

Lemma run_wf ss : forall r,
  roomInv r -> roomWf E r -> roomWf E (fst (run E ss r)).
Proof.
  induction ss as [|s ss IH]; intros r Inv H; [exact H|].
  cbn [run]. pose proof (handle_inv E s Inv) as I1.
  pose proof (handle_wf s Inv H) as H1.
  destruct (handle E s r) as [r1 e1]. cbn [fst] in I1, H1.
  specialize (IH r1 I1 H1). destruct (run E ss r1) as [r2 e2]. exact IH.
Qed.

Lemma reachable_wf r : reachable E r -> roomWf E r.
Proof.
  intros [ss <-]. apply run_wf; [apply roomInv_newRoom | apply roomWf_newRoom].
Qed.

End WellFormed.

Lemma sorted_NoDup (l : list Z) : StronglySorted Z.lt l -> NoDup l.
Proof.
  induction 1 as [|a l Hs IH Ha]; constructor; [|exact IH].
  intro Hin. rewrite Forall_forall in Ha. specialize (Ha a Hin). lia.
Qed.

(** X4. In every room that the handlers can produce, every player stands
    inside the playfield: [0 <= x <= CANVAS_WIDTH - PLAYER_WIDTH = 900],
    whatever positions the clients have sent. *)
Theorem X4_players_stay_in_field (E : Env) (r : Room) :
  reachable E r ->
  Forall (fun e => 0 <= p_x (snd e) /\ p_x (snd e) <= Num.ofZ 900) (players r).
Proof.
  intro H. apply reachable_wf in H. destruct H as [Hp _ _ _ _ _].
  eapply Forall_impl; [|exact Hp]. cbv beta. intros e He.
  exact (pok_x He).
Qed.

Lemma X4_players_stay_in_field_witness :
  Forall (fun e => 0 <= p_x (snd e) /\ p_x (snd e) <= Num.ofZ 900)
    (players sessionRoom).
Proof.
  apply (@X4_players_stay_in_field sampleEnv sessionRoom).
  exists sessionRun. unfold sessionRoom. reflexivity.
Defined.

(** X5. Every score in a reachable room is ten times a natural number:
    scores start at 0, grow by [10] per catch and are reset to 0. *)
Theorem X5_scores_multiples_of_ten (E : Env) (r : Room) :
  reachable E r ->
  Forall (fun e => exists k, (0 <= k)%Z /\ p_score (snd e) = (10 * k)%Z)
    (players r).
Proof.
  intro H. apply reachable_wf in H. destruct H as [Hp _ _ _ _ _].
  eapply Forall_impl; [|exact Hp]. cbv beta. intros e He.
  exact (pok_score He).
Qed.

Lemma X5_scores_multiples_of_ten_witness :
  Forall (fun e => exists k, (0 <= k)%Z /\ p_score (snd e) = (10 * k)%Z)
    (players sessionRoom).
Proof.
  apply (@X5_scores_multiples_of_ten sampleEnv sessionRoom).
  exists sessionRun. unfold sessionRoom. reflexivity.
Defined.

(** X6. Every name stored in a reachable room, of a player or of a
    waiter, has 1 to 8 characters, all of them letters, digits, spaces,
    underscores or hyphens, and passes [isNameClean]. *)
Theorem X6_stored_names_clean (E : Env) (r : Room) :
  reachable E r ->
  Forall (fun e => nameOk (p_name (snd e))) (players r)
  /\ Forall (fun e => nameOk (w_name (snd e))) (waitingRoom r).
Proof.
  intro H. apply reachable_wf in H. destruct H as [Hp Hw _ _ _ _]. split.
  - eapply Forall_impl; [|exact Hp]. cbv beta. intros e He. exact (pok_name He).
  - eapply Forall_impl; [|exact Hw]. cbv beta. intros e He. exact (wok_name He).
Qed.

Lemma X6_stored_names_clean_witness :
  Forall (fun e => nameOk (p_name (snd e))) (players sessionRoom)
  /\ Forall (fun e => nameOk (w_name (snd e))) (waitingRoom sessionRoom).
Proof.
  apply (@X6_stored_names_clean sampleEnv sessionRoom).
  exists sessionRun. unfold sessionRoom. reflexivity.
Defined.

(** X8. In every reachable room there are at most 50 coins, their ids
    grow strictly along the list (so no two coins share an id) and every
    id is below [nextCoinId]. *)
Theorem X8_coins_capped_ids_increasing (E : Env) (r : Room) :
  reachable E r ->
  (List.length (coins r) <= 50)%nat
  /\ StronglySorted Z.lt (List.map c_id (coins r))
  /\ NoDup (List.map c_id (coins r))
  /\ Forall (fun c => (c_id c < nextCoinId r)%Z) (coins r).
Proof.
  intro H. apply reachable_wf in H. destruct H as [_ _ Hc Hs Hb _].
  repeat split; try assumption. apply sorted_NoDup. exact Hs.
Qed.

Lemma X8_coins_capped_ids_increasing_witness :
  (List.length (coins sessionRoom) <= 50)%nat
  /\ StronglySorted Z.lt (List.map c_id (coins sessionRoom))
  /\ NoDup (List.map c_id (coins sessionRoom))
  /\ Forall (fun c => (c_id c < nextCoinId sessionRoom)%Z) (coins sessionRoom).
Proof.
  apply (@X8_coins_capped_ids_increasing sampleEnv sessionRoom).
  exists sessionRun. unfold sessionRoom. reflexivity.
Defined.

(** X10. In every reachable room each colour, of a player or of a
    waiter, is one of the five [PLAYER_COLORS]; each hat is "cap" or a key
    of [HAT_CATALOG]; each user id is absent or passes [isValidUUID]. *)
Theorem X10_profiles_validated (E : Env) (r : Room) :
  reachable E r ->
  Forall (fun e => In (p_color (snd e)) PLAYER_COLORS
                   /\ hatOk E (p_hat (snd e))
                   /\ uuidOk (p_userId (snd e))) (players r)
  /\ Forall (fun e => In (w_color (snd e)) PLAYER_COLORS
                      /\ hatOk E (w_hat (snd e))
                      /\ uuidOk (w_userId (snd e))) (waitingRoom r).
Proof.
  intro H. apply reachable_wf in H. destruct H as [Hp Hw _ _ _ _]. split.
  - eapply Forall_impl; [|exact Hp]. cbv beta. intros e He.
    exact (conj (pok_color He) (conj (pok_hat He) (pok_userId He))).
  - eapply Forall_impl; [|exact Hw]. cbv beta. intros e He.
    exact (conj (wok_color He) (conj (wok_hat He) (wok_userId He))).
Qed.

Lemma X10_profiles_validated_witness :
  Forall (fun e => In (p_color (snd e)) PLAYER_COLORS
                   /\ hatOk sampleEnv (p_hat (snd e))
                   /\ uuidOk (p_userId (snd e))) (players sessionRoom)
  /\ Forall (fun e => In (w_color (snd e)) PLAYER_COLORS
                      /\ hatOk sampleEnv (w_hat (snd e))
                      /\ uuidOk (w_userId (snd e))) (waitingRoom sessionRoom).
Proof.
  apply (@X10_profiles_validated sampleEnv sessionRoom).
  exists sessionRun. unfold sessionRoom. reflexivity.
Defined.

(* ================================================================== *)
(** ** The catch rule over a whole step *)
(* ================================================================== *)

Section CatchRule.

Variable E : Env.

Lemma catchCoin_firstHit c ps :
  match firstHit c ps with
  | Some w =>
      exists pre p post,
        ps = pre ++ (w, p) :: post
        /\ Forall (fun e => hits (snd e) c = false) pre
        /\ hits p c = true
        /\ catchCoin c ps
           = Some (w, pre ++ (w, addScore SCORE_PER_COIN p) :: post)
  | None =>
      Forall (fun e => hits (snd e) c = false) ps /\ catchCoin c ps = None
  end.
Proof.
  unfold firstHit. induction ps as [|[k p] rest IH]; cbn [find catchCoin snd].
  - split; [constructor | reflexivity].
  - destruct (hits p c) eqn:Eh; cbn [option_map fst].
    + exists [], p, rest. repeat split; [constructor | exact Eh].
    + destruct (find _ rest) as [[w q]|]; cbn [option_map fst] in IH |- *.
      * destruct IH as [pre [q' [post [-> [Hf [Hq Hc]]]]]]. rewrite Hc.
        exists ((k, p) :: pre), q', post.
        repeat split; [constructor; assumption | exact Hq].
      * destruct IH as [Hf Hc]. rewrite Hc.
        split; [constructor; assumption | reflexivity].
Qed.

Lemma firstHit_stance c ps : forall qs,
  stance ps = stance qs -> firstHit c ps = firstHit c qs.
Proof.
  unfold firstHit, stance.
  induction ps as [|[k p] ps IH]; intros [|[k' q] qs] H;
    try discriminate; [reflexivity|].
  cbn [List.map fst snd] in H. injection H as Hk Hx Hrest.
  cbn [find snd].
  assert (Hh : hits p c = hits q c) by (unfold hits; rewrite Hx; reflexivity).
  rewrite Hh. destruct (hits q c); cbn [option_map fst]; [rewrite Hk; reflexivity|].
  apply IH. exact Hrest.
Qed.

Lemma catchCoin_stance c ps w ps' :
  catchCoin c ps = Some (w, ps') -> stance ps' = stance ps.
Proof.
  intro H. destruct (catchCoin_first _ _ H) as [pre [p [post [-> [_ [_ ->]]]]]].
  unfold stance. rewrite !map_app. reflexivity.
Qed.

Lemma coinLoop_stance dt cs ps :
  stance (lr_players (coinLoop E dt cs ps)) = stance ps.
Proof.
  induction cs as [|c cs IH]; [reflexivity|].
  cbn [coinLoop]. unfold coinStep.
  destruct (pastGround (moveCoin E dt c)); [exact IH|].
  destruct (catchCoin _ _) as [[w ps']|] eqn:Ec; cbn [lr_players];
    [|exact IH].
  rewrite (catchCoin_stance _ _ Ec). exact IH.
Qed.

Lemma fate_stance dt ps qs c :
  stance ps = stance qs -> fate E dt ps c = fate E dt qs c.
Proof.
  intro H. unfold fate. rewrite (@firstHit_stance (moveCoin E dt c) ps qs H). reflexivity.
Qed.

(** One round of the loop does what the rule says of the coin. *)
Lemma coinStep_fate dt c res :
  match fate E dt (lr_players res) c with
  | Grounded => coinStep E dt c res = res
  | Kept =>
      coinStep E dt c res
      = mkLoop (moveCoin E dt c :: lr_coins res) (lr_players res)
          (lr_collected res)
  | CaughtBy w =>
      exists pre p post,
        lr_players res = pre ++ (w, p) :: post
        /\ Forall (fun e => hits (snd e) (moveCoin E dt c) = false) pre
        /\ hits p (moveCoin E dt c) = true
        /\ coinStep E dt c res
           = mkLoop (lr_coins res)
               (pre ++ (w, addScore 10 p) :: post)
               (lr_collected res
                ++ [mkCollected w (c_x (moveCoin E dt c))
                      (c_y (moveCoin E dt c))])
  end.
Proof.
  unfold fate, coinStep. cbv zeta.
  destruct (pastGround (moveCoin E dt c)); [reflexivity|].
  pose proof (catchCoin_firstHit (moveCoin E dt c) (lr_players res)) as H.
  destruct (firstHit (moveCoin E dt c) (lr_players res)) as [w|].
  - destruct H as [pre [p [post [H1 [H2 [H3 H4]]]]]].
    exists pre, p, post. rewrite H4. repeat split; assumption.
  - destruct H as [_ H]. rewrite H. reflexivity.
Qed.

(** The whole loop: the object set and the events are those of the rule. *)
Lemma coinLoop_fates dt cs ps :
  lr_coins (coinLoop E dt cs ps) = keptCoins E dt ps cs
  /\ lr_collected (coinLoop E dt cs ps) = catchEvents E dt ps cs.
Proof.
  induction cs as [|c cs [IHc IHe]]; [split; reflexivity|].
  unfold keptCoins, catchEvents in *.
  cbn [coinLoop List.filter List.rev]. rewrite flat_map_app.
  cbn [flat_map]. rewrite app_nil_r.
  pose proof (coinStep_fate dt c (coinLoop E dt cs ps)) as H.
  rewrite (@fate_stance dt _ _ c (coinLoop_stance dt cs ps)) in H.
  unfold catchEvent at 2.
  destruct (fate E dt ps c) as [|w|] eqn:Ef; cbn [isKept List.map].
  - rewrite H. rewrite app_nil_r. split; assumption.
  - destruct H as [pre [p [post [_ [_ [_ H]]]]]]. rewrite H.
    cbn [lr_coins lr_collected]. rewrite IHe. split; [exact IHc | reflexivity].
  - rewrite H. cbn [lr_coins lr_collected]. rewrite IHc, app_nil_r.
    split; [reflexivity | exact IHe].
Qed.

Lemma creditedTo_catchEvents dt ps id cs :
  creditedTo id (catchEvents E dt ps cs) = catchesOf E dt ps id cs.
Proof.
  unfold catchEvents, catchesOf.
  induction cs as [|c cs IH]; [reflexivity|].
  cbn [List.rev List.filter]. rewrite flat_map_app, creditedTo_app, IH.
  cbn [flat_map]. rewrite app_nil_r. unfold catchEvent, creditedTo.
  destruct (fate E dt ps c) as [|w|]; cbn [isCaughtBy List.filter ev_playerId];
    try (cbn [List.length]; lia).
  destruct (String.eqb id w); cbn [List.length]; lia.
Qed.

Lemma length_catchEvents dt ps cs :
  List.length (catchEvents E dt ps cs)
  = List.length
      (List.filter (fun c => match fate E dt ps c with
                             | CaughtBy _ => true
                             | _ => false
                             end) cs).
Proof.
  unfold catchEvents.
  induction cs as [|c cs IH]; [reflexivity|].
  cbn [List.rev List.filter]. rewrite flat_map_app, length_app, IH.
  cbn [flat_map]. rewrite app_nil_r. unfold catchEvent.
  destruct (fate E dt ps c); cbn [List.length]; lia.
Qed.

Lemma ids_keptCoins dt ps cs :
  List.map c_id (keptCoins E dt ps cs)
  = List.map c_id (List.filter (fun c => isKept (fate E dt ps c)) cs).
Proof.
  unfold keptCoins. rewrite map_map. apply map_ext. intro c. reflexivity.
Qed.

Lemma NoDup_map_eq {A B : Type} (f : A -> B) (l : list A) x y :
  NoDup (List.map f l) -> In x l -> In y l -> f x = f y -> x = y.
Proof.
  induction l as [|a l IH]; intros Hnd Hx Hy Hf; [destruct Hx|].
  cbn [List.map] in Hnd. inversion Hnd as [|? ? Ha Hl]; subst.
  destruct Hx as [->|Hx], Hy as [->|Hy].
  - reflexivity.
  - exfalso. apply Ha. rewrite Hf. apply in_map. exact Hy.
  - exfalso. apply Ha. rewrite <- Hf. apply in_map. exact Hx.
  - apply IH; assumption.
Qed.

(** A coin that is caught or grounded is gone from the object set. *)
Lemma keptCoins_gone dt ps cs c :
  NoDup (List.map c_id cs) -> In c cs ->
  isKept (fate E dt ps c) = false ->
  ~ In (c_id c) (List.map c_id (keptCoins E dt ps cs)).
Proof.
  intros Hnd Hc Hf Hin. rewrite ids_keptCoins in Hin.
  apply in_map_iff in Hin as [c2 [Hid H2]].
  apply filter_In in H2 as [H2 Hk].
  rewrite (NoDup_map_eq c_id cs c2 c Hnd H2 Hc Hid) in Hk. congruence.
Qed.

Lemma spawnCoin_appends r : exists news, coins (_spawnCoin E r) = coins r ++ news.
Proof.
  unfold _spawnCoin. destruct (COIN_CAP <=? _)%nat.
  - exists []. symmetry. apply app_nil_r.
  - eexists. reflexivity.
Qed.

Lemma spawnLoop_appends fuel : forall r,
  exists news, coins (spawnLoop E fuel r) = coins r ++ news.
Proof.
  induction fuel as [|fuel IH]; intro r; cbn [spawnLoop].
  - exists []. symmetry. apply app_nil_r.
  - destruct (Num.leb _ _); [|exists []; symmetry; apply app_nil_r].
    destruct (IH (_spawnCoin E
                    (setCoinSpawnAccumulator
                       (coinSpawnAccumulator r - COIN_SPAWN_INTERVAL) r)))
      as [n2 H2].
    destruct (spawnCoin_appends
                (setCoinSpawnAccumulator
                   (coinSpawnAccumulator r - COIN_SPAWN_INTERVAL) r))
      as [n1 H1].
    exists (n1 ++ n2). rewrite H2, H1. cbn [coins setCoinSpawnAccumulator].
    apply eq_sym, app_assoc.
Qed.

Lemma afterSpawn_players dt r : players (afterSpawn E dt r) = players r.
Proof.
  unfold afterSpawn. cbv zeta.
  rewrite (same_players (spawnLoop_same E _ _)). reflexivity.
Qed.

Lemma afterSpawn_appends dt r :
  exists news, coins (afterSpawn E dt r) = coins r ++ news.
Proof.
  unfold afterSpawn. cbv zeta.
  destruct (spawnLoop_appends
              (spawnFuel (coinSpawnAccumulator r + dt))
              (setCoinSpawnAccumulator (coinSpawnAccumulator r + dt)
                 (setTimeLeft (timeLeft r - dt) r))) as [news H].
  exists news. exact H.
Qed.

(** [_advancePhysics] in terms of the rule. *)
Lemma advancePhysics_fates dt r :
  let out := _advancePhysics E dt r in
  coins (fst out) = keptCoins E dt (players r) (coins (afterSpawn E dt r))
  /\ snd out = catchEvents E dt (players r) (coins (afterSpawn E dt r))
  /\ stance (players (fst out)) = stance (players r)
  /\ JsMap.keys (players (fst out)) = JsMap.keys (players r)
  /\ (NoDup (JsMap.keys (players r)) ->
      forall id,
        scoreOf id (players (fst out))
        = (scoreOf id (players r)
           + 10 * catchesOf E dt (players r) id (coins (afterSpawn E dt r)))%Z).
Proof.
  cbv zeta.
  change (_advancePhysics E dt r)
    with (let res := coinLoop E dt (coins (afterSpawn E dt r))
                       (players (afterSpawn E dt r)) in
          (setPlayers (lr_players res)
             (setCoins (lr_coins res) (afterSpawn E dt r)),
           lr_collected res)).
  cbv zeta. cbn [fst snd coins players setPlayers setCoins].
  rewrite afterSpawn_players.
  destruct (coinLoop_fates dt (coins (afterSpawn E dt r)) (players r))
    as [Hc He].
  destruct (coinLoop_accounts E dt (coins (afterSpawn E dt r)) (players r))
    as [_ [_ Hk]].
  repeat split; try assumption.
  - apply coinLoop_stance.
  - intros Hnd id.
    rewrite (@coinLoop_scoreOf E dt (coins (afterSpawn E dt r)) (players r) id Hnd).
    rewrite He, creditedTo_catchEvents. reflexivity.
Qed.

End CatchRule.

Section Gone.

Variable E : Env.

(** [gone] looks at two fields only. *)
Lemma gone_ext k r r' :
  coins r' = coins r -> nextCoinId r' = nextCoinId r -> gone k r -> gone k r'.
Proof. unfold gone. intros -> ->. tauto. Qed.

Lemma gone_emptied k r r' :
  coins r' = [] -> nextCoinId r' = nextCoinId r -> gone k r -> gone k r'.
Proof. unfold gone. intros -> ->. intros [H _]. split; [exact H | intros []]. Qed.

Lemma spawnCoin_gone k r : gone k r -> gone k (_spawnCoin E r).
Proof.
  unfold _spawnCoin. destruct (COIN_CAP <=? _)%nat; [tauto|].
  unfold gone. cbn [coins nextCoinId setRandomCursor setNextCoinId setCoins].
  intros [Hk Hn]. split; [lia|].
  rewrite map_app. cbn [List.map c_id]. intro Hin.
  apply in_app_or in Hin as [Hin|[Hin|[]]]; [exact (Hn Hin) | lia].
Qed.

Lemma spawnLoop_gone k fuel : forall r, gone k r -> gone k (spawnLoop E fuel r).
Proof.
  induction fuel as [|fuel IH]; intros r H; [exact H|].
  cbn [spawnLoop]. destruct (Num.leb _ _); [|exact H].
  apply IH, spawnCoin_gone. exact H.
Qed.

Lemma afterSpawn_gone k dt r : gone k r -> gone k (afterSpawn E dt r).
Proof. intro H. unfold afterSpawn. cbv zeta. apply spawnLoop_gone. exact H. Qed.

Lemma keptCoins_ids_incl dt ps cs :
  incl (List.map c_id (keptCoins E dt ps cs)) (List.map c_id cs).
Proof.
  rewrite ids_keptCoins. intros k Hk.
  apply in_map_iff in Hk as [c [<- Hc]]. apply filter_In in Hc as [Hc _].
  apply in_map. exact Hc.
Qed.

Lemma advancePhysics_gone k dt r :
  gone k r -> gone k (fst (_advancePhysics E dt r)).
Proof.
  intro H. apply (afterSpawn_gone dt) in H. destruct H as [Hk Hn].
  destruct (advancePhysics_fates E dt r) as [Hc _]. cbv zeta in Hc.
  split; [exact Hk|]. rewrite Hc. intro Hin.
  apply Hn. exact (@keptCoins_ids_incl _ _ _ _ Hin).
Qed.

Lemma physicsTick_gone k now r : gone k r -> gone k (physicsTick E now r).
Proof.
  intro H. apply (advancePhysics_gone (physicsDt now r)) in H.
  unfold physicsTick.
  destruct (_advancePhysics E (physicsDt now r) r) as [r1 collected].
  cbn [fst] in H. destruct (nonEmpty collected); exact H.
Qed.

Lemma afterTick_gone k now sendOk t (permit : Room -> bool)
    (g : list Effect -> list Effect) :
  gone k t ->
  gone k
    (fst (if Num.leb (timeLeft t) 0 then finishRound E now t
          else if permit t
               then let '(r2, e) := flushGameState now sendOk t in (r2, g e)
               else (t, []))).
Proof.
  intro H. destruct (Num.leb (timeLeft t) 0);
    [exact (@gone_ext k t _ eq_refl eq_refl H)|].
  destruct (permit t); [|exact H].
  exact (@gone_ext k t _ eq_refl eq_refl H).
Qed.

Lemma returnToLobby_gone k now r : gone k r -> gone k (fst (_returnToLobby now r)).
Proof.
  intro H. apply (@gone_emptied k r); [| |exact H]; unfold _returnToLobby;
    destruct (keepPlayers 0 (players r) []) as [kept index];
    destruct (promoteWaiters index (waitingRoom r) kept []) as [a b];
    reflexivity.
Qed.

Lemma joinRoom_gone k now conn name userId hat r :
  gone k r -> gone k (fst (joinRoom E now conn name userId hat r)).
Proof.
  intro H. unfold joinRoom.
  destruct (_ || _); [exact H|]. cbv zeta.
  destruct (negb _); [exact H|]. rewrite fst_with_effects.
  assert (Hw : gone k (fst (_addToWaitingRoom conn (joinName E name)
                              (joinHat E hat) (joinUserId userId) r)))
    by exact (@gone_ext k r _ eq_refl eq_refl H).
  destruct (state r); try exact Hw.
  unfold _addPlayerToLobby.
  destruct (MAX_PLAYERS <=? JsMap.size (players r))%nat; [exact Hw|].
  cbv zeta. destruct (MAX_PLAYERS <=? _)%nat;
    exact (@gone_ext k r _ eq_refl eq_refl H).
Qed.

(** A coin that has left the object set does not come back, unless the
    handler starts a round. *)
Lemma handle_gone k s r :
  gone k r -> ~ startsRound E s r -> gone k (fst (handle E s r)).
Proof.
  intros H Hs. unfold startsRound in Hs. revert Hs. unfold handle.
  destruct (st_trigger s) as [conn m|conn|]; intro Hs.
  - unfold webSocketMessage. destruct m as [|name userId hat|x|];
      try exact H.
    + destruct (Str.isEmpty conn); [exact H | apply joinRoom_gone; exact H].
    + destruct (state r); try exact H.
      unfold moveWhilePlaying.
      destruct (_ && _); [|exact H].
      destruct (Num.isNaN x); [exact H|]. cbv zeta.
      pose proof (@afterTick_gone k (st_now s) (st_sendOk s)
                    (physicsTick E (st_now s) (placePlayer conn x r))
                    (fun t => (BROADCAST_THROTTLE_MS
                               <=? st_now s - lastBroadcastTime t)%Z)
                    (fun e => e)) as A.
      cbv beta in A.
      replace (let '(r2, e) :=
                 flushGameState (st_now s) (st_sendOk s)
                   (physicsTick E (st_now s) (placePlayer conn x r))
               in (r2, e))
        with (flushGameState (st_now s) (st_sendOk s)
                (physicsTick E (st_now s) (placePlayer conn x r))) in A
        by (destruct (flushGameState _ _ _); reflexivity).
      apply A, physicsTick_gone.
      exact (@gone_ext k r _ eq_refl eq_refl H).
  - unfold webSocketClose. destruct (Str.isEmpty conn); [exact H|].
    cbv zeta. set (r1 := setWaitingRoom _ _).
    assert (H1 : gone k r1) by exact (@gone_ext k r _ eq_refl eq_refl H).
    destruct (_ && _).
    + rewrite fst_with_effects. apply returnToLobby_gone. exact H1.
    + exact H1.
  - unfold alarm in *. destruct (state r) eqn:Es.
    + destruct (0 <? _)%nat; [|exact H].
      exact (@gone_ext k r _ eq_refl eq_refl H).
    + cbv zeta in *. destruct (_ <=? 0)%Z.
      * exfalso. apply Hs. split; reflexivity.
      * exact (@gone_ext k r _ eq_refl eq_refl H).
    + destruct (JsMap.size (players r) =? 0)%nat.
      * rewrite fst_with_effects. apply returnToLobby_gone. exact H.
      * apply (@afterTick_gone k (st_now s) (st_sendOk s)
                 (physicsTick E (st_now s) r) (fun _ => true)
                 (fun e => e ++ [SetAlarm (st_now s + FALLBACK_ALARM_MS)%Z])).
        apply physicsTick_gone. exact H.
    + rewrite fst_with_effects. apply returnToLobby_gone. exact H.
Qed.

Lemma run_gone k ss : forall r,
  gone k r -> sameRound E ss r -> gone k (fst (run E ss r)).
Proof.
  induction ss as [|s ss IH]; intros r H Hs; [exact H|].
  cbn [sameRound] in Hs. destruct Hs as [Hs1 Hs2]. cbn [run].
  pose proof (@handle_gone k s r H Hs1) as H1.
  specialize (IH _ H1 Hs2).
  destruct (handle E s r) as [r1 e1]. cbn [fst] in *.
  destruct (run E ss r1) as [r2 e2]. exact IH.
Qed.

(** The step in which a coin is caught or grounded makes it [gone]. *)
Lemma caught_gone dt r c :
  roomWf E r -> In c (coins r) ->
  isKept (fate E dt (players r) c) = false ->
  gone (c_id c) (fst (_advancePhysics E dt r)).
Proof.
  intros Hw Hc Hf.
  assert (T : coinsTidy (afterSpawn E dt r)).
  { unfold afterSpawn. cbv zeta. apply spawnLoop_tidy.
    apply (roomWf_tidy Hw). }
  destruct T as [_ [Hs Hb]].
  destruct (afterSpawn_appends E dt r) as [news Hn].
  assert (Hin : In c (coins (afterSpawn E dt r)))
    by (rewrite Hn; apply in_or_app; left; exact Hc).
  destruct (advancePhysics_fates E dt r) as [Hcoins _]. cbv zeta in Hcoins.
  split.
  - change (nextCoinId (fst (_advancePhysics E dt r)))
      with (nextCoinId (afterSpawn E dt r)).
    rewrite Forall_forall in Hb. exact (Hb c Hin).
  - rewrite Hcoins. apply keptCoins_gone; [|exact Hin | exact Hf].
    apply sorted_NoDup. exact Hs.
Qed.

End Gone.

(** The physics trigger runs the step and queues its events. *)
Lemma physicsTick_step (E : Env) now r :
  let out := _advancePhysics E (physicsDt now r) r in
  players (physicsTick E now r) = players (fst out)
  /\ coins (physicsTick E now r) = coins (fst out)
  /\ nextCoinId (physicsTick E now r) = nextCoinId (fst out)
  /\ pendingCollected (physicsTick E now r)
     = pendingCollected (fst out) ++ snd out.
Proof.
  cbv zeta. unfold physicsTick.
  destruct (_advancePhysics E (physicsDt now r) r) as [r1 collected].
  destruct collected as [|ev evs]; cbn [nonEmpty fst snd];
    repeat split; try reflexivity.
  cbn [pendingCollected setLastPhysicsTime]. symmetry. apply app_nil_r.
Qed.

(** The alarm that steps the round leaves a caught coin [gone]. *)
Lemma alarm_caught_gone (E : Env) now sendOk r c :
  roomWf E r ->
  state r = PLAYING -> JsMap.size (players r) <> 0%nat ->
  In c (coins r) ->
  isKept (fate E (physicsDt now r) (players r) c) = false ->
  gone (c_id c) (fst (alarm E now sendOk r)).
Proof.
  intros Hw Hs Hn Hc Hf. unfold alarm. rewrite Hs.
  apply Nat.eqb_neq in Hn. rewrite Hn.
  apply (@afterTick_gone E (c_id c) now sendOk (physicsTick E now r)
           (fun _ => true)
           (fun e => e ++ [SetAlarm (now + FALLBACK_ALARM_MS)%Z])).
  destruct (physicsTick_step E now r) as [_ [Hcoins [Hnext _]]].
  exact (@gone_ext (c_id c) _ _ Hcoins Hnext
           (@caught_gone E (physicsDt now r) r c Hw Hc Hf)).
Qed.

(** C3 (amended). In a physics step every coin that hits a player is
    caught: the catcher is the first player in iteration order whose box
    the coin hits, that player's score grows by exactly 10 while every
    other roster entry is untouched, the coin is removed from the object
    set in memory and one CollectedEvent with the catcher's id is queued;
    a coin past the ground is removed without a score and every other
    coin is kept.  Within the step no coin is credited to two players or
    counted twice: the object set and the events of the step are those
    given by the fate of each coin, and a player's score grows by 10 per
    coin that this player catches.  A coin that is caught has left the
    object set, and no handler on the instance in memory brings it back
    while the round goes on.  This is for the object set in memory; a
    restore from storage can bring a caught coin back. *)
Theorem C3_catch_credits_one_player (E : Env) (dt : Qc) :
  (* whether a coin is caught, and by whom *)
  (forall c ps,
      match firstHit c ps with
      | Some w =>
          exists pre p post,
            ps = pre ++ (w, p) :: post
            /\ Forall (fun e => hits (snd e) c = false) pre
            /\ hits p c = true
            /\ catchCoin c ps = Some (w, pre ++ (w, addScore 10 p) :: post)
            /\ p_score (addScore 10 p) = (p_score p + 10)%Z
      | None => catchCoin c ps = None
      end)
  (* one round of the loop over the coins *)
  /\ (forall c res,
        match fate E dt (lr_players res) c with
        | Grounded => coinStep E dt c res = res
        | Kept =>
            coinStep E dt c res
            = mkLoop (moveCoin E dt c :: lr_coins res) (lr_players res)
                (lr_collected res)
        | CaughtBy w =>
            exists pre p post,
              lr_players res = pre ++ (w, p) :: post
              /\ Forall (fun e => hits (snd e) (moveCoin E dt c) = false) pre
              /\ hits p (moveCoin E dt c) = true
              /\ coinStep E dt c res
                 = mkLoop (lr_coins res)
                     (pre ++ (w, addScore 10 p) :: post)
                     (lr_collected res
                      ++ [mkCollected w (c_x (moveCoin E dt c))
                            (c_y (moveCoin E dt c))])
        end)
  (* the whole loop *)
  /\ (forall cs ps,
        let res := coinLoop E dt cs ps in
        lr_coins res = keptCoins E dt ps cs
        /\ lr_collected res = catchEvents E dt ps cs
        /\ (List.length (lr_coins res) + List.length (lr_collected res)
            + List.length (groundedCoins E dt cs) = List.length cs)%nat
        /\ totalScore (lr_players res)
           = (totalScore ps + 10 * Z.of_nat (List.length (lr_collected res)))%Z
        /\ JsMap.keys (lr_players res) = JsMap.keys ps
        /\ stance (lr_players res) = stance ps
        /\ (NoDup (JsMap.keys ps) ->
            forall id,
              scoreOf id (lr_players res)
              = (scoreOf id ps + 10 * catchesOf E dt ps id cs)%Z
              /\ creditedTo id (lr_collected res) = catchesOf E dt ps id cs))
  (* the step, and the two triggers that run it *)
  /\ (forall r,
        let out := _advancePhysics E dt r in
        (exists spawned, coins (afterSpawn E dt r) = coins r ++ spawned)
        /\ coins (fst out)
           = keptCoins E dt (players r) (coins (afterSpawn E dt r))
        /\ snd out = catchEvents E dt (players r) (coins (afterSpawn E dt r))
        /\ JsMap.keys (players (fst out)) = JsMap.keys (players r)
        /\ (NoDup (JsMap.keys (players r)) ->
            forall id,
              scoreOf id (players (fst out))
              = (scoreOf id (players r)
                 + 10 * catchesOf E dt (players r) id
                          (coins (afterSpawn E dt r)))%Z))
  /\ (forall now r,
        let out := _advancePhysics E (physicsDt now r) r in
        players (physicsTick E now r) = players (fst out)
        /\ coins (physicsTick E now r) = coins (fst out)
        /\ nextCoinId (physicsTick E now r) = nextCoinId (fst out)
        /\ pendingCollected (physicsTick E now r)
           = pendingCollected (fst out) ++ snd out)
  (* a coin that is caught has left the object set in memory *)
  /\ (forall r c,
        reachable E r -> In c (coins r) ->
        isKept (fate E dt (players r) c) = false ->
        gone (c_id c) (fst (_advancePhysics E dt r)))
  /\ (forall now sendOk r c,
        reachable E r ->
        state r = PLAYING -> JsMap.size (players r) <> 0%nat ->
        In c (coins r) ->
        isKept (fate E (physicsDt now r) (players r) c) = false ->
        gone (c_id c) (fst (alarm E now sendOk r)))
  (* and no handler brings it back while the round goes on *)
  /\ (forall k ss r,
        gone k r -> sameRound E ss r -> gone k (fst (run E ss r))).
Proof.
  split; [|split; [|split; [|split; [|split; [|split; [|split]]]]]].
  - intros c ps. pose proof (catchCoin_firstHit c ps) as H.
    destruct (firstHit c ps) as [w|]; [|apply H].
    destruct H as [pre [p [post [H1 [H2 [H3 H4]]]]]].
    exists pre, p, post. repeat split; assumption.
  - intros c res. apply coinStep_fate.
  - intros cs ps res. subst res.
    destruct (coinLoop_fates E dt cs ps) as [Hc He].
    destruct (coinLoop_accounts E dt cs ps) as [Hn [Ht Hk]].
    split; [exact Hc|]. split; [exact He|]. split; [exact Hn|].
    split; [exact Ht|]. split; [exact Hk|].
    split; [apply coinLoop_stance|].
    intros Hnd id.
    rewrite (@coinLoop_scoreOf E dt cs ps id Hnd), He,
      creditedTo_catchEvents.
    split; reflexivity.
  - intros r out. subst out.
    destruct (advancePhysics_fates E dt r) as [Hc [He [_ [Hk Hs]]]].
    split; [apply afterSpawn_appends|].
    repeat split; assumption.
  - intros now r. apply physicsTick_step.
  - intros r c Hr Hc Hf.
    exact (@caught_gone E dt r c (reachable_wf Hr) Hc Hf).
  - intros now sendOk r c Hr. apply alarm_caught_gone.
    exact (reachable_wf Hr).
  - intros k ss r. apply run_gone.
Qed.

(** Two players stand under the coin: the first in roster order gets the
    points and the only event.  In [ripeRoom], reached by the sample
    session, the oldest coin is caught by player "1" in the next step and
    its id is gone from the object set, also two alarms later. *)
Lemma C3_catch_credits_one_player_witness :
  let ann := samplePlayer 100 0 "Ann" in
  let bob := samplePlayer 110 0 "Bob" in
  let c := sampleCoin 1 120 400 100 in
  let ps := [("1", ann); ("2", bob)] in
  let res := coinLoop sampleEnv MAX_PHYSICS_DT [c] ps in
  let oldest := hd c (coins ripeRoom) in
  (scoreOf "1" (lr_players res)
   = (scoreOf "1" ps + 10 * catchesOf sampleEnv MAX_PHYSICS_DT ps "1" [c])%Z
   /\ creditedTo "1" (lr_collected res)
      = catchesOf sampleEnv MAX_PHYSICS_DT ps "1" [c])
  /\ (catchesOf sampleEnv MAX_PHYSICS_DT ps "1" [c] = 1%Z
      /\ catchesOf sampleEnv MAX_PHYSICS_DT ps "2" [c] = 0%Z)
  /\ (c_id oldest = 1%Z
      /\ fate sampleEnv MAX_PHYSICS_DT (players ripeRoom) oldest = CaughtBy "1")
  /\ (scoreOf "1"
        (players (fst (_advancePhysics sampleEnv MAX_PHYSICS_DT ripeRoom)))
      = (scoreOf "1" (players ripeRoom)
         + 10 * catchesOf sampleEnv MAX_PHYSICS_DT (players ripeRoom) "1"
                  (coins (afterSpawn sampleEnv MAX_PHYSICS_DT ripeRoom)))%Z
      /\ catchesOf sampleEnv MAX_PHYSICS_DT (players ripeRoom) "1"
           (coins (afterSpawn sampleEnv MAX_PHYSICS_DT ripeRoom)) = 1%Z)
  /\ gone (c_id oldest)
       (fst (_advancePhysics sampleEnv MAX_PHYSICS_DT ripeRoom))
  /\ gone (c_id oldest) (fst (alarm sampleEnv 42000 allOk ripeRoom))
  /\ gone (c_id oldest)
       (fst (run sampleEnv [alarmAt 43000; alarmAt 44000]
               (fst (alarm sampleEnv 42000 allOk ripeRoom)))).
Proof.
  intros ann bob c ps res oldest.
  destruct (C3_catch_credits_one_player sampleEnv MAX_PHYSICS_DT)
    as [_ [_ [Hloop [Hstep [_ [Hgone [Halarm Hstays]]]]]]].
  destruct (Hloop [c] ps) as [_ [_ [_ [_ [_ [_ Hs]]]]]].
  assert (Hnd : NoDup (JsMap.keys ps)).
  { repeat constructor; cbn; intuition discriminate. }
  split; [exact (Hs Hnd "1")|].
  split; [vm_compute; split; reflexivity|].
  split; [vm_compute; split; reflexivity|].
  split.
  { split; [|vm_compute; reflexivity].
    destruct (Hstep ripeRoom) as [_ [_ [_ [_ Hscore]]]].
    apply Hscore. vm_compute.
    repeat constructor; cbn; intuition discriminate. }
  assert (G : gone (c_id oldest)
                (fst (_advancePhysics sampleEnv MAX_PHYSICS_DT ripeRoom))).
  { apply (Hgone ripeRoom oldest).
    - exists (firstn 27 endRun). unfold ripeRoom. reflexivity.
    - vm_compute. left. reflexivity.
    - vm_compute. reflexivity. }
  split; [exact G|].
  assert (R : reachable sampleEnv ripeRoom)
    by (exists (firstn 27 endRun); unfold ripeRoom; reflexivity).
  assert (G' : gone (c_id oldest) (fst (alarm sampleEnv 42000 allOk ripeRoom))).
  { apply (Halarm 42000%Z allOk ripeRoom oldest R).
    - vm_compute. reflexivity.
    - vm_compute. discriminate.
    - vm_compute. left. reflexivity.
    - vm_compute. reflexivity. }
  split; [exact G'|].
  apply Hstays; [exact G'|].
  cbn [sameRound]. unfold startsRound.
  repeat split; intros [H _]; vm_compute in H; discriminate H.
Defined.

(** C3 as stated fails across an eviction.  In [storedRound] connection
    "9" has just joined the round, so [_persistState] has stored the coin
    list: coin 1 falls above player "1", who has no points.  The alarm at
    1200 steps the round: "1" catches coin 1, the coin is spliced from
    [this.coins], the score 10 goes to the attachment of "1"
    ([_savePlayerAttachments]) and nothing is written to storage.  The
    instance is then evicted.  The alarm at 2200 wakes it:
    [_ensureInitialized] reads [gs.coins], where coin 1 still is, and the
    score 10 from the attachment, and the step that follows lets "1" catch
    coin 1 a second time: 20 points and two events for one coin. *)
Lemma C3_as_stated_counterexample :
  GameRoom.room storedRound = catchRoom
  /\ option_map gs_coins (GameRoom.stored storedRound) = Some (coins catchRoom)
  /\ List.map c_id (coins catchRoom) = [1%Z]
  /\ scoreOf "1" (players catchRoom) = 0%Z
  /\ coins (GameRoom.room (fst afterCatch)) = []
  /\ scoreOf "1" (players (GameRoom.room (fst afterCatch))) = 10%Z
  /\ existsb announcesCatch (snd afterCatch) = true
  /\ GameRoom.stored (fst afterCatch) = GameRoom.stored storedRound
  /\ (let woken :=
        fst (GameRoom.ensureInitialized 2200
               (GameRoom.evict (fst afterCatch))) in
      List.map c_id (coins woken) = [1%Z]
      /\ scoreOf "1" (players woken) = 10%Z)
  /\ coins (GameRoom.room (fst afterWake)) = []
  /\ scoreOf "1" (players (GameRoom.room (fst afterWake))) = 20%Z
  /\ existsb announcesCatch (snd afterWake) = true.
Proof. vm_compute. repeat split. Qed.

(** The same in the sample session, run from a new instance.  The coin
    list was stored when connection "3" joined, with coin 1 in it.  Player
    "1" catches coin 1 in the 28th invocation.  After an eviction the
    handler restores coin 1 and the score 10, and fifteen alarms later
    player "1" has caught coin 1 again. *)
Example session_recatch_after_eviction :
  let before := fst (GameRoom.run sampleEnv (firstn 27 endRun) sessionStart) in
  let woken :=
    fst (GameRoom.ensureInitialized 43000 (GameRoom.evict sessionCaught)) in
  let later :=
    fst (GameRoom.run sampleEnv (laterAlarms 15)
           (GameRoom.evict sessionCaught)) in
  (List.map c_id (coins (GameRoom.room before)) = [1; 2; 3; 4; 5; 6; 7]%Z
   /\ scoreOf "1" (players (GameRoom.room before)) = 0%Z)
  /\ (List.map c_id (coins (GameRoom.room sessionCaught))
      = [2; 3; 4; 5; 6; 7]%Z
      /\ scoreOf "1" (players (GameRoom.room sessionCaught)) = 10%Z
      /\ option_map (fun g => List.map c_id (gs_coins g))
           (GameRoom.stored sessionCaught) = Some [1%Z])
  /\ (List.map c_id (coins woken) = [1%Z]
      /\ scoreOf "1" (players woken) = 10%Z)
  /\ scoreOf "1" (players (GameRoom.room later)) = 20%Z.
Proof. vm_compute. repeat split. Qed.

(* ================================================================== *)
(** ** Further properties: the spawn rate *)
(* ================================================================== *)

Section SpawnRate.

Variable E : Env.

Lemma min_le_r (a b : Qc) : Num.min a b <= b.
Proof.
  unfold Num.min. destruct (Num.leb a b) eqn:El.
  - apply NumFacts.leb_le. exact El.
  - apply Qcle_refl.
Qed.

Lemma spawnLoop_idle n r :
  Num.leb COIN_SPAWN_INTERVAL (coinSpawnAccumulator r) = false ->
  spawnLoop E n r = r.
Proof.
  intro H. destruct n; cbn [spawnLoop]; [reflexivity|]. rewrite H. reflexivity.
Qed.

Lemma spawnCoin_counts r :
  (nextCoinId r <= nextCoinId (_spawnCoin E r) <= nextCoinId r + 1)%Z
  /\ (List.length (coins (_spawnCoin E r)) <= List.length (coins r) + 1)%nat.
Proof.
  unfold _spawnCoin. destruct (COIN_CAP <=? List.length (coins r))%nat.
  - split; lia.
  - cbn [nextCoinId coins setRandomCursor setNextCoinId setCoins].
    rewrite length_app. cbn [List.length]. split; lia.
Qed.

(** An accumulator below two intervals lets the loop spawn at most once. *)
Lemma spawnLoop_once n r :
  coinSpawnAccumulator r < COIN_SPAWN_INTERVAL + COIN_SPAWN_INTERVAL ->
  (nextCoinId r <= nextCoinId (spawnLoop E n r) <= nextCoinId r + 1)%Z
  /\ (List.length (coins (spawnLoop E n r)) <= List.length (coins r) + 1)%nat.
Proof.
  intro H. destruct n as [|n]; cbn [spawnLoop]; [split; lia|].
  destruct (Num.leb COIN_SPAWN_INTERVAL (coinSpawnAccumulator r)) eqn:El;
    [|split; lia].
  rewrite spawnLoop_idle.
  - apply (spawnCoin_counts
             (setCoinSpawnAccumulator
                (coinSpawnAccumulator r - COIN_SPAWN_INTERVAL) r)).
  - rewrite spawnCoin_accumulator.
    cbn [coinSpawnAccumulator setCoinSpawnAccumulator].
    apply NumFacts.leb_gt. unfold Qclt in *.
    rewrite NumFacts.minus_Q. unfold Qcplus in H.
    rewrite NumFacts.this_Q2Qc in H.
    change (this COIN_SPAWN_INTERVAL) with (1 # 2)%Q in *. lra.
Qed.

Lemma physicsTick_counts now r :
  coinSpawnAccumulator r < COIN_SPAWN_INTERVAL ->
  let t := physicsTick E now r in
  (nextCoinId r <= nextCoinId t <= nextCoinId r + 1)%Z
  /\ (List.length (coins t) <= List.length (coins r) + 1)%nat.
Proof.
  intro H. cbv zeta. unfold physicsTick, _advancePhysics. cbv zeta.
  set (dt := physicsDt now r).
  set (r2 := setCoinSpawnAccumulator _ _).
  assert (H2 : coinSpawnAccumulator r2
               < COIN_SPAWN_INTERVAL + COIN_SPAWN_INTERVAL).
  { unfold r2. cbn [coinSpawnAccumulator setCoinSpawnAccumulator setTimeLeft].
    pose proof (min_le_r (Num.ofZ (now - lastPhysicsTime r) / Num.ofZ 1000)
                  MAX_PHYSICS_DT) as Hd.
    fold (physicsDt now r) in Hd. fold dt in Hd.
    unfold Qclt, Qcle in *. unfold Qcplus.
    rewrite !NumFacts.this_Q2Qc.
    change (this COIN_SPAWN_INTERVAL) with (1 # 2)%Q in *.
    change (this MAX_PHYSICS_DT) with (1 # 5)%Q in *. lra. }
  pose proof (@spawnLoop_once (spawnFuel (coinSpawnAccumulator r2)) r2 H2)
    as [Hn Hl].
  set (r3 := spawnLoop E _ r2) in *.
  pose proof (coinLoop_length E dt (coins r3) (players r3)) as Hc.
  change (nextCoinId r2) with (nextCoinId r) in Hn.
  change (coins r2) with (coins r) in Hl.
  destruct (nonEmpty _);
    cbn [nextCoinId coins setPendingCollected setLastPhysicsTime setPlayers
         setCoins]; split; lia.
Qed.

End SpawnRate.

(** X9. In a reachable room the spawn accumulator is below the spawn
    interval, so one physics step, whose time is capped at 0.2 s, spawns
    at most one coin: [nextCoinId] grows by 0 or 1 and the list of coins
    by at most one. *)
Theorem X9_one_spawn_per_step (E : Env) (now : Z) (r : Room) :
  reachable E r ->
  let t := physicsTick E now r in
  coinSpawnAccumulator r < COIN_SPAWN_INTERVAL
  /\ (nextCoinId r <= nextCoinId t <= nextCoinId r + 1)%Z
  /\ (List.length (coins t) <= List.length (coins r) + 1)%nat.
Proof.
  intro H. apply reachable_wf in H. destruct H as [_ _ _ _ _ Ha].
  split; [exact Ha|]. apply physicsTick_counts. exact Ha.
Qed.

Lemma X9_one_spawn_per_step_witness :
  let t := physicsTick sampleEnv 29000 sessionRoom in
  coinSpawnAccumulator sessionRoom < COIN_SPAWN_INTERVAL
  /\ (nextCoinId sessionRoom <= nextCoinId t <= nextCoinId sessionRoom + 1)%Z
  /\ (List.length (coins t) <= List.length (coins sessionRoom) + 1)%nat.
Proof.
  apply (@X9_one_spawn_per_step sampleEnv 29000 sessionRoom).
  exists sessionRun. unfold sessionRoom. reflexivity.
Defined.

(* ================================================================== *)
(** ** Further properties: what the handlers ask of their environment *)
(* ================================================================== *)

Section Effects.

Variable E : Env.

Lemma alarmsOf_app a b : alarmsOf (a ++ b) = alarmsOf a ++ alarmsOf b.
Proof. apply flat_map_app. Qed.

Lemma awardsOf_app a b : awardsOf (a ++ b) = awardsOf a ++ awardsOf b.
Proof. apply flat_map_app. Qed.

Lemma alarmsOf_sendEach {V : Type} msg (m : JsMap.t V) :
  alarmsOf (sendEach msg m) = [].
Proof. induction m as [|e m IH]; [reflexivity | exact IH]. Qed.

Lemma awardsOf_sendEach {V : Type} msg (m : JsMap.t V) :
  awardsOf (sendEach msg m) = [].
Proof. induction m as [|e m IH]; [reflexivity | exact IH]. Qed.

Lemma returnToLobby_effects now r :
  let out := _returnToLobby now r in
  awardsOf (snd out) = []
  /\ alarmsOf (snd out)
     = if (0 <? JsMap.size (players (fst out)))%nat
       then [(now + LOBBY_IDLE_TIMEOUT * 1000)%Z] else [].
Proof.
  unfold _returnToLobby.
  destruct (keepPlayers 0 (players r) []) as [kept index].
  destruct (promoteWaiters index (waitingRoom r) kept []) as [a b].
  cbn [fst snd]. destruct (0 <? _)%nat; split; reflexivity.
Qed.

Lemma addPlayerToLobby_effects now conn name hat userId r :
  let out := _addPlayerToLobby now conn name hat userId r in
  awardsOf (snd out) = []
  /\ (alarmsOf (snd out) = []
      \/ alarmsOf (snd out) = [(now + LOBBY_IDLE_TIMEOUT * 1000)%Z]
      \/ alarmsOf (snd out) = [(now + 1000)%Z]).
Proof.
  unfold _addPlayerToLobby.
  destruct (MAX_PLAYERS <=? JsMap.size (players r))%nat;
    [split; [reflexivity | left; reflexivity]|].
  cbv zeta. set (r1 := setPlayers _ r).
  destruct (JsMap.size (players r1) =? 1)%nat eqn:E1.
  - apply Nat.eqb_eq in E1. rewrite E1.
    cbn [Nat.leb MAX_PLAYERS]. split; [reflexivity | right; left; reflexivity].
  - destruct (MAX_PLAYERS <=? JsMap.size (players r1))%nat;
      split; first [reflexivity | left; reflexivity | right; right; reflexivity].
Qed.

Lemma joinRoom_effects now conn name userId hat r :
  let out := joinRoom E now conn name userId hat r in
  awardsOf (snd out) = []
  /\ (alarmsOf (snd out) = []
      \/ alarmsOf (snd out) = [(now + LOBBY_IDLE_TIMEOUT * 1000)%Z]
      \/ alarmsOf (snd out) = [(now + 1000)%Z]).
Proof.
  unfold joinRoom.
  destruct (_ || _); [split; [reflexivity | left; reflexivity]|].
  cbv zeta. destruct (negb _); [split; [reflexivity | left; reflexivity]|].
  destruct (state r);
    try (split; [reflexivity | left; reflexivity]).
  pose proof (addPlayerToLobby_effects now conn (joinName E name)
                (joinHat E hat) (joinUserId userId) r) as H.
  cbv zeta in H.
  destruct (_addPlayerToLobby _ _ _ _ _ _) as [r1 e1]. cbn [fst snd] in *.
  rewrite awardsOf_app, alarmsOf_app, !app_nil_r. exact H.
Qed.

Lemma finishRound_effects now t :
  let batch := coinAwardsOf (rankPlayers (players t)) in
  awardsOf (snd (finishRound E now t))
  = (if nonEmpty batch && env_DB E then [batch] else [])
  /\ alarmsOf (snd (finishRound E now t))
     = [(now + GAME_OVER_DISPLAY_SECONDS * 1000)%Z].
Proof.
  cbv zeta. unfold finishRound, _endGame. cbn [fst snd players setTimeLeft].
  rewrite !awardsOf_app, !alarmsOf_app, awardsOf_sendEach, alarmsOf_sendEach.
  destruct (nonEmpty _ && env_DB E); split; reflexivity.
Qed.

Lemma flushGameState_effects now sendOk t :
  awardsOf (snd (flushGameState now sendOk t)) = []
  /\ alarmsOf (snd (flushGameState now sendOk t)) = [].
Proof.
  unfold flushGameState, _broadcastGameState. cbn [snd].
  rewrite awardsOf_app, alarmsOf_app, !awardsOf_sendEach, !alarmsOf_sendEach.
  split; reflexivity.
Qed.

(** An award batch is made at the end of a round only, from the roster
    [t] that the last physics step has left. *)
Lemma handle_awards s r batch :
  In batch (awardsOf (snd (handle E s r))) ->
  state r = PLAYING
  /\ state (fst (handle E s r)) = GAME_OVER
  /\ nonEmpty batch = true
  /\ exists t, (roomWf E r -> roomWf E t)
              /\ batch = coinAwardsOf (rankPlayers (players t)).
Proof.
  assert (Fin : forall now t (k : Room * list Effect),
    In batch (awardsOf (snd (if Num.leb (timeLeft t) 0
                              then finishRound E now t else k))) ->
    awardsOf (snd k) = [] ->
    state (fst (if Num.leb (timeLeft t) 0 then finishRound E now t else k))
    = GAME_OVER
    /\ nonEmpty batch = true
    /\ batch = coinAwardsOf (rankPlayers (players t))).
  { intros now t k Hin Hk. destruct (Num.leb (timeLeft t) 0).
    - destruct (finishRound_effects now t) as [Ha _]. cbv zeta in Ha.
      rewrite Ha in Hin.
      destruct (nonEmpty (coinAwardsOf (rankPlayers (players t)))) eqn:En;
        [|destruct Hin].
      destruct (env_DB E); [|destruct Hin].
      destruct Hin as [<-|[]]. repeat split. exact En.
    - rewrite Hk in Hin. destruct Hin. }
  unfold handle. destruct (st_trigger s) as [conn m|conn|].
  - unfold webSocketMessage. destruct m as [|name userId hat|x|].
    + intros [].
    + destruct (Str.isEmpty conn); [intros []|].
      destruct (joinRoom_effects (st_now s) conn name userId hat r) as [Ha _].
      rewrite Ha. intros [].
    + destruct (state r) eqn:Es; try (intros []).
      unfold moveWhilePlaying.
      destruct (negb (Str.isEmpty conn) && JsMap.has conn (players r));
        [|intros []].
      destruct (Num.isNaN x); [intros []|]. cbv zeta.
      intro Hin. apply Fin in Hin.
      * destruct Hin as [Hs [Hn Hb]]. repeat split; try assumption.
        exists (physicsTick E (st_now s) (placePlayer conn x r)).
        split; [|exact Hb].
        intro H. apply physicsTick_wf, placePlayer_wf. exact H.
      * destruct (_ <=? _)%Z; [|reflexivity].
        apply flushGameState_effects.
    + intros [].
  - unfold webSocketClose.
    destruct (Str.isEmpty conn); [intros []|]. cbv zeta.
    set (r1 := setWaitingRoom _ _).
    destruct ((JsMap.size (players r1) =? 0)%nat
              && negb (GameState_eqb (state r1) LOBBY)).
    + destruct (returnToLobby_effects (st_now s) r1) as [Ha _].
      destruct (_returnToLobby (st_now s) r1) as [r2 e2]. cbn [fst snd] in *.
      rewrite !awardsOf_app, Ha.
      destruct (state r1); intros [].
    + cbn [snd]. rewrite !awardsOf_app. destruct (state r1); intros [].
  - unfold alarm. destruct (state r) eqn:Es.
    + destruct (0 <? _)%nat; intros [].
    + cbv zeta. destruct (_ <=? 0)%Z; intros [].
    + destruct (JsMap.size (players r) =? 0)%nat.
      * destruct (returnToLobby_effects (st_now s) r) as [Ha _].
        destruct (_returnToLobby (st_now s) r) as [r2 e2]. cbn [fst snd] in *.
        rewrite awardsOf_app, Ha. intros [].
      * cbv zeta. intro Hin. apply Fin in Hin.
        -- destruct Hin as [Hs [Hn Hb]]. repeat split; try assumption.
           exists (physicsTick E (st_now s) r). split; [|exact Hb].
           intro H. apply physicsTick_wf. exact H.
        -- destruct (flushGameState_effects (st_now s) (st_sendOk s)
                       (physicsTick E (st_now s) r)) as [Ha _].
           destruct (flushGameState _ _ _) as [r2 e2]. cbn [snd] in *.
           rewrite awardsOf_app, Ha. reflexivity.
    + destruct (returnToLobby_effects (st_now s) r) as [Ha _].
      destruct (_returnToLobby (st_now s) r) as [r2 e2]. cbn [fst snd] in *.
      rewrite awardsOf_app, Ha. intros [].
Qed.

Lemma awardFrom_In l : forall i p,
  In p (awardFrom i l) -> exists k q, In q l /\ p = award k q.
Proof.
  induction l as [|q l IH]; intros i p; [intros []|].
  cbn [awardFrom]. intros [<-|H].
  - exists i, q. split; [left; reflexivity | reflexivity].
  - destruct (IH _ _ H) as [k [q' [Hq ->]]].
    exists k, q'. split; [right; exact Hq | reflexivity].
Qed.

(** An entry of the ranking is a player of the roster, with the award
    added. *)
Lemma rankPlayers_In ps p :
  In p (rankPlayers ps) ->
  exists e, In e ps
    /\ rk_name p = p_name (snd e) /\ rk_userId p = p_userId (snd e)
    /\ (p_score (snd e) + PARTICIPATION_BONUS <= rk_coinsEarned p)%Z.
Proof.
  unfold rankPlayers. intro H.
  destruct (awardFrom_In _ _ _ H) as [k [q [Hq ->]]].
  apply (Permutation_in _ (sortRanked_perm _)) in Hq.
  apply in_map_iff in Hq as [e [<- He]].
  exists e. cbn [award rankedEntry rk_name rk_userId rk_coinsEarned rk_score].
  repeat split; [exact He|].
  destruct (_ && _); unfold WINNER_BONUS; lia.
Qed.

Lemma coinAwardsOf_In l a :
  In a (coinAwardsOf l) ->
  exists p, In p l /\ orNull (rk_userId p) = Some (ca_userId a)
    /\ ca_name a = rk_name p /\ ca_coinsEarned a = rk_coinsEarned p.
Proof.
  induction l as [|p l IH]; [intros []|].
  cbn [coinAwardsOf].
  destruct (orNull (rk_userId p)) as [u|] eqn:Eu.
  - intros [<-|H].
    + exists p. cbn. repeat split; [left; reflexivity | exact Eu].
    + destruct (IH H) as [q [Hq Hr]]. exists q. split; [right; exact Hq | exact Hr].
  - intro H. destruct (IH H) as [q [Hq Hr]].
    exists q. split; [right; exact Hq | exact Hr].
Qed.

Lemma orNull_Some u s : orNull u = Some s -> u = Some s.
Proof.
  unfold orNull. destruct u as [v|]; [|discriminate].
  destruct (Str.isEmpty v); [discriminate | auto].
Qed.

(** Statements that [awardCoins] builds from a batch with valid ids. *)
Lemma awardStatements_valid l :
  Forall (fun a => isValidUUID (ca_userId a) = true) l ->
  awardStatements l = List.map awardStatement l.
Proof.
  induction 1 as [|a l Ha _ IH]; [reflexivity|].
  cbn [awardStatements List.map]. rewrite Ha, IH. reflexivity.
Qed.

Lemma batch_ok t :
  roomWf E t ->
  Forall (fun a => isValidUUID (ca_userId a) = true
                   /\ Str.isEmpty (ca_name a) = false
                   /\ (PARTICIPATION_BONUS <= ca_coinsEarned a)%Z)
    (coinAwardsOf (rankPlayers (players t))).
Proof.
  intros [Hp _ _ _ _ _]. apply Forall_forall. intros a Ha.
  destruct (coinAwardsOf_In _ _ Ha) as [p [Hin [Hu [Hn Hc]]]].
  destruct (rankPlayers_In _ _ Hin) as [e [He [En [Eu Es]]]].
  rewrite Forall_forall in Hp. specialize (Hp e He).
  destruct Hp as [_ [k [Hk Hs]] _ [[Hl _] _] _ Hid _].
  apply orNull_Some in Hu. rewrite Eu in Hu. rewrite Hu in Hid.
  repeat split.
  - exact Hid.
  - rewrite Hn, En. destruct (p_name (snd e)); [cbn in Hl; lia | reflexivity].
  - rewrite Hc. unfold PARTICIPATION_BONUS in *. lia.
Qed.

End Effects.

(** X7. When a handler of a reachable room hands a batch to [awardCoins],
    the round has just ended (PLAYING to GAME_OVER) and [awardCoins] skips
    no entry: the statements given to [db.batch] are one per entry, each
    with a valid user id, a display name and at least the participation
    bonus of 25. *)
Theorem X7_awards_reach_database (E : Env) (s : Stimulus) (r : Room)
    (batch : list CoinAward) :
  reachable E r ->
  In batch (awardsOf (snd (handle E s r))) ->
  state r = PLAYING
  /\ state (fst (handle E s r)) = GAME_OVER
  /\ awardCoins batch = Some (List.map awardStatement batch)
  /\ Forall (fun st => isValidUUID (as_userId st) = true
                       /\ as_displayName st <> None
                       /\ (25 <= as_total st)%Z
                       /\ as_balance st = as_total st)
       (List.map awardStatement batch).
Proof.
  intros Hr Hin. apply reachable_wf in Hr.
  destruct (handle_awards E s r batch Hin) as [Hs [Hg [Hn [t [Ht Hb]]]]].
  pose proof (batch_ok (Ht Hr)) as Hok. rewrite <- Hb in Hok.
  assert (Hv : Forall (fun a => isValidUUID (ca_userId a) = true) batch)
    by (eapply Forall_impl; [|exact Hok]; cbv beta; intros a Ha; apply Ha).
  repeat split; try assumption.
  - unfold awardCoins. cbv zeta. rewrite (awardStatements_valid Hv).
    rewrite length_map. destruct batch; [discriminate Hn | reflexivity].
  - rewrite Forall_map. eapply Forall_impl; [|exact Hok]. cbv beta.
    intros a [Hu [He Hc]].
    cbn [awardStatement as_userId as_displayName as_total as_balance].
    rewrite He. repeat split; [exact Hu | discriminate | exact Hc].
Qed.

Lemma X7_awards_reach_database_witness :
  let s := alarmAt 400000 in
  let batch := [mkCoinAward "123e4567-e89b-12d3-a456-426614174000" 1205 true "Ann"] in
  state endRoom = PLAYING
  /\ state (fst (handle sampleEnv s endRoom)) = GAME_OVER
  /\ awardCoins batch = Some (List.map awardStatement batch)
  /\ Forall (fun st => isValidUUID (as_userId st) = true
                       /\ as_displayName st <> None
                       /\ (25 <= as_total st)%Z
                       /\ as_balance st = as_total st)
       (List.map awardStatement batch).
Proof.
  intros s batch.
  apply (@X7_awards_reach_database sampleEnv s endRoom batch).
  - exists endRun. unfold endRoom. reflexivity.
  - vm_compute. left. reflexivity.
Defined.

(* ================================================================== *)
(** ** Further properties: the state machine *)
(* ================================================================== *)

Section StateMachine.

Variable E : Env.

Lemma mayFollow_refl a : mayFollow a a = true.
Proof. destruct a; reflexivity. Qed.

Lemma lineUp_scores n ps : forall i,
  Forall (fun e => p_score (snd e) = 0%Z) (lineUp n i ps).
Proof.
  induction ps as [|[id p] rest IH]; intro i; cbn [lineUp]; constructor;
    [reflexivity | apply IH].
Qed.

(** After the physics step the state stays, or the round ends. *)
Lemma afterTick_state now sendOk t (permit : Room -> bool)
    (g : list Effect -> list Effect) :
  let out := if Num.leb (timeLeft t) 0 then finishRound E now t
             else if permit t
                  then let '(r2, e) := flushGameState now sendOk t in (r2, g e)
                  else (t, []) in
  state (fst out) = state t \/ state (fst out) = GAME_OVER.
Proof.
  cbv zeta. destruct (Num.leb (timeLeft t) 0); [right; reflexivity|].
  destruct (permit t); left; reflexivity.
Qed.

Lemma moveWhilePlaying_state now sendOk conn x r :
  let r' := fst (moveWhilePlaying E now sendOk conn x r) in
  state r' = state r \/ state r' = GAME_OVER.
Proof.
  cbv zeta. unfold moveWhilePlaying.
  destruct (negb (Str.isEmpty conn) && JsMap.has conn (players r));
    [|left; reflexivity].
  destruct (Num.isNaN x); [left; reflexivity|]. cbv zeta.
  set (t := physicsTick E now (placePlayer conn x r)).
  assert (Ht : state t = state r).
  { unfold t. destruct (physicsTick_maps E now (placePlayer conn x r))
      as [_ [_ [Hs _]]]. rewrite Hs. reflexivity. }
  rewrite <- Ht.
  destruct (Num.leb (timeLeft t) 0); [right; reflexivity|].
  destruct (_ <=? _)%Z; left; reflexivity.
Qed.

Lemma joinRoom_state now conn name userId hat r :
  let r' := fst (joinRoom E now conn name userId hat r) in
  state r' = state r \/ (state r = LOBBY /\ state r' = COUNTDOWN).
Proof.
  cbv zeta. unfold joinRoom.
  destruct (_ || _); [left; reflexivity|].
  cbv zeta. destruct (negb _); [left; reflexivity|].
  rewrite fst_with_effects.
  destruct (state r) eqn:Es; try (left; cbn; congruence).
  destruct (addPlayerToLobby_state now conn (joinName E name) (joinHat E hat)
              (joinUserId userId) r) as [_ [[H|H] _]].
  - left. congruence.
  - right. split; [reflexivity | exact H].
Qed.

Lemma webSocketClose_state now conn r :
  let r' := fst (webSocketClose now conn r) in
  state r' = state r \/ state r' = LOBBY.
Proof.
  cbv zeta. unfold webSocketClose.
  destruct (Str.isEmpty conn); [left; reflexivity|]. cbv zeta.
  set (r1 := setWaitingRoom _ _).
  destruct ((JsMap.size (players r1) =? 0)%nat
            && negb (GameState_eqb (state r1) LOBBY)).
  - right. rewrite fst_with_effects. apply returnToLobby_state.
  - left. reflexivity.
Qed.

Lemma alarm_state now sendOk r :
  let r' := fst (alarm E now sendOk r) in
  mayFollow (state r) (state r') = true
  /\ (state r' = PLAYING -> state r <> PLAYING ->
      state r = COUNTDOWN
      /\ r' = fst (_startPlaying now
                     (setCountdownSeconds (countdownSeconds r - 1)%Z r))).
Proof.
  cbv zeta. unfold alarm. destruct (state r) eqn:Es.
  - destruct (0 <? _)%nat; cbn [fst _startCountdown state setState
                                 setCountdownSeconds];
      rewrite ?Es; split; try reflexivity; intro; discriminate.
  - cbv zeta. destruct (_ <=? 0)%Z.
    + rewrite fst_with_effects. split; [reflexivity|].
      intros _ _. split; reflexivity.
    + cbn [fst state setCountdownSeconds]. rewrite Es.
      split; [reflexivity | intro; discriminate].
  - split; [|intros _ H; congruence].
    destruct (JsMap.size (players r) =? 0)%nat.
    + rewrite fst_with_effects, returnToLobby_state. reflexivity.
    + destruct (@afterTick_state now sendOk (physicsTick E now r)
                  (fun _ => true)
                  (fun e => e ++ [SetAlarm (now + FALLBACK_ALARM_MS)%Z]))
        as [H|H]; cbv beta in H; rewrite H; [|reflexivity].
      destruct (physicsTick_maps E now r) as [_ [_ [Hs _]]].
      rewrite Hs, Es. reflexivity.
  - rewrite fst_with_effects, returnToLobby_state.
    split; [reflexivity | intro; discriminate].
Qed.

Lemma handle_state s r :
  let r' := fst (handle E s r) in
  mayFollow (state r) (state r') = true
  /\ (state r <> PLAYING -> state r' = PLAYING ->
      st_trigger s = OnAlarm /\ state r = COUNTDOWN
      /\ timeLeft r' = GAME_DURATION /\ coins r' = []
      /\ pendingCollected r' = []
      /\ Forall (fun e => p_score (snd e) = 0%Z) (players r')
      /\ JsMap.keys (players r') = JsMap.keys (players r)
      /\ waitingRoom r' = waitingRoom r).
Proof.
  cbv zeta. unfold handle. destruct (st_trigger s) as [conn m|conn|].
  - unfold webSocketMessage. destruct m as [|name userId hat|x|].
    + split; [apply mayFollow_refl | intros H1 H2; destruct (H1 H2)].
    + destruct (Str.isEmpty conn);
        [split; [apply mayFollow_refl | intros H1 H2; destruct (H1 H2)]|].
      destruct (joinRoom_state (st_now s) conn name userId hat r)
        as [H|[H1 H2]].
      * rewrite H. split; [apply mayFollow_refl|].
        intros H1 H2. destruct (H1 H2).
      * rewrite H1, H2. split; [reflexivity | intros _ H; discriminate].
    + destruct (state r) eqn:Es;
        try (cbn [fst]; rewrite Es;
             split; [reflexivity | intros _ H; discriminate]).
      split; [|intros H; destruct (H eq_refl)].
      destruct (moveWhilePlaying_state (st_now s) (st_sendOk s) conn x r)
        as [H|H]; rewrite H, ?Es; reflexivity.
    + split; [apply mayFollow_refl | intros H1 H2; destruct (H1 H2)].
  - destruct (webSocketClose_state (st_now s) conn r) as [H|H]; rewrite H.
    + split; [apply mayFollow_refl | intros H1 H2; destruct (H1 H2)].
    + split; [destruct (state r); reflexivity | intros _ H2; discriminate].
  - destruct (alarm_state (st_now s) (st_sendOk s) r) as [Hm Hp].
    cbv zeta in Hp. split; [exact Hm|].
    intros Hn Hs. destruct (Hp Hs Hn) as [Hc Hr]. rewrite Hr.
    cbn [fst _startPlaying timeLeft coins pendingCollected players waitingRoom
         setCountdownSeconds].
    repeat split; try assumption.
    + apply lineUp_scores.
    + apply keys_lineUp.
Qed.

End StateMachine.

(** X11. Every handler invocation moves the room along an arrow of the
    state machine (LOBBY to COUNTDOWN, COUNTDOWN to PLAYING, PLAYING to
    GAME_OVER, any state to LOBBY) or leaves the state as it is.  A round
    is entered only by the countdown alarm, and it starts fresh: the full
    time, no coin, no pending event, every score 0, the same players. *)
Theorem X11_state_machine (E : Env) (s : Stimulus) (r : Room) :
  let r' := fst (handle E s r) in
  mayFollow (state r) (state r') = true
  /\ (state r <> PLAYING -> state r' = PLAYING ->
      st_trigger s = OnAlarm /\ state r = COUNTDOWN
      /\ timeLeft r' = GAME_DURATION /\ coins r' = []
      /\ pendingCollected r' = []
      /\ Forall (fun e => p_score (snd e) = 0%Z) (players r')
      /\ JsMap.keys (players r') = JsMap.keys (players r)
      /\ waitingRoom r' = waitingRoom r).
Proof. apply handle_state. Qed.

Lemma X11_state_machine_witness :
  let r := fst (run sampleEnv (firstn 6 roundWithWaiter) newRoom) in
  let r' := fst (handle sampleEnv (alarmAt 25000) r) in
  mayFollow (state r) (state r') = true
  /\ st_trigger (alarmAt 25000) = OnAlarm /\ state r = COUNTDOWN
  /\ timeLeft r' = GAME_DURATION /\ coins r' = []
  /\ pendingCollected r' = []
  /\ Forall (fun e => p_score (snd e) = 0%Z) (players r')
  /\ JsMap.keys (players r') = JsMap.keys (players r)
  /\ waitingRoom r' = waitingRoom r.
Proof.
  intros r r'.
  destruct (@X11_state_machine sampleEnv (alarmAt 25000) r) as [Hm Hp].
  split; [exact Hm|]. apply Hp.
  - vm_compute. discriminate.
  - vm_compute. reflexivity.
Defined.

(* ================================================================== *)
(** ** Further properties: the alarm *)
(* ================================================================== *)

Section AlarmChain.

Variable E : Env.

Lemma oneAlarm_at now d es :
  In d [1000; 5000; 20000]%Z -> alarmsOf es = [(now + d)%Z] -> oneAlarm now es.
Proof. intros Hd He. right. exists d. split; assumption. Qed.

Lemma returnToLobby_oneAlarm now r e :
  oneAlarm now (snd (_returnToLobby now r) ++ e) <-> oneAlarm now
    ((if (0 <? JsMap.size (players (fst (_returnToLobby now r))))%nat
      then [SetAlarm (now + LOBBY_IDLE_TIMEOUT * 1000)%Z] else []) ++ e).
Proof.
  unfold oneAlarm. rewrite !alarmsOf_app.
  destruct (returnToLobby_effects now r) as [_ Ha]. cbv zeta in Ha.
  rewrite Ha. destruct (0 <? _)%nat; reflexivity.
Qed.

Lemma afterTick_oneAlarm now sendOk t :
  oneAlarm now
    (snd (if Num.leb (timeLeft t) 0 then finishRound E now t
          else if (BROADCAST_THROTTLE_MS <=? now - lastBroadcastTime t)%Z
               then flushGameState now sendOk t
               else (t, []))).
Proof.
  destruct (Num.leb (timeLeft t) 0).
  - apply (@oneAlarm_at now 5000%Z); [simpl; tauto|].
    apply (finishRound_effects E now t).
  - left. destruct (_ <=? _)%Z; [|reflexivity].
    apply flushGameState_effects.
Qed.

Lemma size_zero {V : Type} (m : JsMap.t V) :
  (0 <? JsMap.size m)%nat = false -> m = [].
Proof. destruct m; [reflexivity | discriminate]. Qed.

Lemma size_eq_zero {V : Type} (m : JsMap.t V) :
  (JsMap.size m =? 0)%nat = true -> m = [].
Proof. destruct m; [reflexivity | discriminate]. Qed.

(** After [_returnToLobby] the idle timer is armed, or nobody is there. *)
Lemma returnToLobby_rearms now r e :
  alarmsOf (snd (_returnToLobby now r) ++ e) = [] ->
  state (fst (_returnToLobby now r)) = LOBBY
  /\ players (fst (_returnToLobby now r)) = [].
Proof.
  rewrite alarmsOf_app.
  destruct (returnToLobby_effects now r) as [_ Ha]. cbv zeta in Ha.
  rewrite Ha. intro H. split; [apply returnToLobby_state|].
  destruct (0 <? _)%nat eqn:Es; [discriminate H|].
  apply size_zero. exact Es.
Qed.

Lemma alarm_rearms now sendOk r :
  alarmsOf (snd (alarm E now sendOk r)) = [] ->
  state (fst (alarm E now sendOk r)) = LOBBY
  /\ players (fst (alarm E now sendOk r)) = [].
Proof.
  unfold alarm. destruct (state r) eqn:Es.
  - destruct (0 <? JsMap.size (players r))%nat eqn:En; [discriminate|].
    intros _. split; [exact Es | apply size_zero; exact En].
  - cbv zeta. destruct (_ <=? 0)%Z; discriminate.
  - destruct (JsMap.size (players r) =? 0)%nat.
    + pose proof (returnToLobby_rearms now r [PersistState]) as H.
      destruct (_returnToLobby now r) as [r1 e1]. exact H.
    + destruct (Num.leb (timeLeft (physicsTick E now r)) 0).
      * destruct (finishRound_effects E now (physicsTick E now r)) as [_ Ha].
        rewrite Ha. discriminate.
      * destruct (flushGameState now sendOk (physicsTick E now r)) as [r2 e2].
        cbn [snd]. rewrite alarmsOf_app. intro H.
        apply app_eq_nil in H as [_ H]. discriminate H.
  - pose proof (returnToLobby_rearms now r [PersistState]) as H.
    destruct (_returnToLobby now r) as [r1 e1]. exact H.
Qed.

Lemma alarm_oneAlarm now sendOk r :
  oneAlarm now (snd (alarm E now sendOk r)).
Proof.
  unfold alarm. destruct (state r).
  - destruct (0 <? _)%nat; [|left; reflexivity].
    apply (@oneAlarm_at now 1000%Z); [simpl; tauto | reflexivity].
  - cbv zeta. destruct (_ <=? 0)%Z;
      apply (@oneAlarm_at now 1000%Z); try (simpl; tauto); reflexivity.
  - destruct (JsMap.size (players r) =? 0)%nat.
    + pose proof (returnToLobby_oneAlarm now r [PersistState]) as H.
      destruct (_returnToLobby now r) as [r1 e1]. cbn [fst snd] in *.
      apply H. destruct (0 <? _)%nat; [|left; reflexivity].
      apply (@oneAlarm_at now 20000%Z); [simpl; tauto | reflexivity].
    + destruct (Num.leb (timeLeft (physicsTick E now r)) 0).
      * apply (@oneAlarm_at now 5000%Z); [simpl; tauto|].
        apply (finishRound_effects E now (physicsTick E now r)).
      * destruct (flushGameState_effects now sendOk (physicsTick E now r))
          as [_ Ha].
        destruct (flushGameState now sendOk (physicsTick E now r)) as [r2 e2].
        cbn [snd] in *. apply (@oneAlarm_at now 1000%Z); [simpl; tauto|].
        rewrite alarmsOf_app, Ha. reflexivity.
  - pose proof (returnToLobby_oneAlarm now r [PersistState]) as H.
    destruct (_returnToLobby now r) as [r1 e1]. cbn [fst snd] in *.
    apply H. destruct (0 <? _)%nat; [|left; reflexivity].
    apply (@oneAlarm_at now 20000%Z); [simpl; tauto | reflexivity].
Qed.

Lemma webSocketClose_oneAlarm now conn r :
  oneAlarm now (snd (webSocketClose now conn r)).
Proof.
  unfold webSocketClose. destruct (Str.isEmpty conn); [left; reflexivity|].
  cbv zeta. set (r1 := setWaitingRoom _ _).
  assert (H0 : forall e, alarmsOf
            (match state r1 with LOBBY => _broadcastLobbyMsg r1 | _ => [] end
             ++ e) = alarmsOf e)
    by (intro e; destruct (state r1); reflexivity).
  destruct ((JsMap.size (players r1) =? 0)%nat
            && negb (GameState_eqb (state r1) LOBBY)).
  - pose proof (returnToLobby_oneAlarm now r1 [PersistState]) as H.
    destruct (_returnToLobby now r1) as [r2 e2]. cbn [fst snd] in *.
    unfold oneAlarm in *. rewrite H0. apply H.
    destruct (0 <? _)%nat; [|left; reflexivity].
    right. exists 20000%Z. split; [simpl; tauto | reflexivity].
  - left. cbn [snd]. rewrite H0. reflexivity.
Qed.

Lemma handle_oneAlarm s r : oneAlarm (st_now s) (snd (handle E s r)).
Proof.
  unfold handle. destruct (st_trigger s) as [conn m|conn|].
  - unfold webSocketMessage. destruct m as [|name userId hat|x|];
      try (left; reflexivity).
    + destruct (Str.isEmpty conn); [left; reflexivity|].
      destruct (joinRoom_effects E (st_now s) conn name userId hat r)
        as [_ [H|[H|H]]].
      * left. exact H.
      * apply (@oneAlarm_at _ 20000%Z); [simpl; tauto | exact H].
      * apply (@oneAlarm_at _ 1000%Z); [simpl; tauto | exact H].
    + destruct (state r); try (left; reflexivity).
      unfold moveWhilePlaying.
      destruct (negb (Str.isEmpty conn) && JsMap.has conn (players r));
        [|left; reflexivity].
      destruct (Num.isNaN x); [left; reflexivity|].
      apply afterTick_oneAlarm.
  - apply webSocketClose_oneAlarm.
  - apply alarm_oneAlarm.
Qed.

End AlarmChain.

(* ================================================================== *)
(** ** Further properties: leaving the room *)
(* ================================================================== *)

Section Leaving.

Lemma has_delete {V : Type} k (m : JsMap.t V) :
  NoDup (JsMap.keys m) -> JsMap.has k (JsMap.delete k m) = false.
Proof.
  induction m as [|[k' v] m IH]; intro H; [reflexivity|].
  cbn [JsMap.keys List.map fst] in H. inversion H as [|? ? Hn Hm]; subst.
  cbn [JsMap.delete]. destruct (String.eqb k k') eqn:Ek.
  - apply String.eqb_eq in Ek. subst k'.
    apply JsMapFacts.has_false_notIn. exact Hn.
  - cbn [JsMap.has]. rewrite Ek. apply IH. exact Hm.
Qed.

Lemma has_false_incl {V W : Type} k (m : JsMap.t V) (m' : JsMap.t W) :
  incl (JsMap.keys m') (JsMap.keys m) ->
  JsMap.has k m = false -> JsMap.has k m' = false.
Proof.
  intros Hi Hm. apply JsMapFacts.has_false_notIn.
  apply JsMapFacts.has_false_notIn in Hm. intro H. exact (Hm (Hi _ H)).
Qed.

(** [_returnToLobby] brings in nobody who was in neither map. *)
Lemma returnToLobby_absent now k r :
  roomInv r ->
  JsMap.has k (players r) = false -> JsMap.has k (waitingRoom r) = false ->
  JsMap.has k (players (fst (_returnToLobby now r))) = false
  /\ JsMap.has k (waitingRoom (fst (_returnToLobby now r))) = false.
Proof.
  intros Inv Hp Hw.
  destruct (@returnToLobby_spec now r Inv) as [_ [Ep [Ew _]]].
  rewrite Ep, Ew.
  apply JsMapFacts.has_false_notIn in Hp.
  apply JsMapFacts.has_false_notIn in Hw. split.
  - apply JsMapFacts.has_false_notIn.
    rewrite keys_app, keys_resetFrom, keys_promoteFrom, keys_firstn.
    intro H. apply in_app_or in H as [H|H]; [exact (Hp H)|].
    exact (Hw (@in_firstn _ _ _ _ H)).
  - apply JsMapFacts.has_false_notIn. rewrite keys_skipn.
    intro H. exact (Hw (@in_skipn _ _ _ _ H)).
Qed.

Lemma webSocketClose_forgets now conn r :
  roomInv r -> Str.isEmpty conn = false ->
  JsMap.has conn (players (fst (webSocketClose now conn r))) = false
  /\ JsMap.has conn (waitingRoom (fst (webSocketClose now conn r))) = false.
Proof.
  intros Inv Hc. unfold webSocketClose. rewrite Hc. cbv zeta.
  set (r1 := setWaitingRoom _ _).
  assert (Inv1 : roomInv r1).
  { apply (@roomInv_shrink r _ Inv); unfold r1;
      cbn [players waitingRoom timeLeft setWaitingRoom setPlayers].
    - apply JsMapFacts.NoDup_keys_delete, Inv.
    - apply JsMapFacts.NoDup_keys_delete, Inv.
    - apply JsMapFacts.keys_delete_incl.
    - apply JsMapFacts.keys_delete_incl.
    - apply Inv. }
  assert (Hp : JsMap.has conn (players r1) = false)
    by (apply has_delete, Inv).
  assert (Hw : JsMap.has conn (waitingRoom r1) = false)
    by (apply has_delete, Inv).
  destruct ((JsMap.size (players r1) =? 0)%nat
            && negb (GameState_eqb (state r1) LOBBY)).
  - rewrite fst_with_effects. apply returnToLobby_absent; assumption.
  - split; assumption.
Qed.

End Leaving.

(** X13. When the socket of a connection of a reachable room closes, the
    connection is in neither map afterwards, also when the close empties
    the roster and the waiters are promoted. *)
Theorem X13_closed_connection_forgotten (E : Env) (now : Z) (conn : string)
    (r : Room) :
  reachable E r -> Str.isEmpty conn = false ->
  let r' := fst (webSocketClose now conn r) in
  JsMap.has conn (players r') = false
  /\ JsMap.has conn (waitingRoom r') = false.
Proof.
  intros Hr Hc. apply webSocketClose_forgets; [|exact Hc].
  exact (reachable_inv Hr).
Qed.

Lemma X13_closed_connection_forgotten_witness :
  let r' := fst (webSocketClose 30000 "1" sessionRoom) in
  JsMap.has "1" (players r') = false
  /\ JsMap.has "1" (waitingRoom r') = false.
Proof.
  apply (@X13_closed_connection_forgotten sampleEnv 30000 "1" sessionRoom).
  - exists sessionRun. unfold sessionRoom. reflexivity.
  - reflexivity.
Defined.

(* ================================================================== *)
(** ** Further properties: the countdown and the length of a round *)
(* ================================================================== *)

Section Clock.

Variable E : Env.

Lemma countdown_run ss : forall r,
  state r = COUNTDOWN ->
  Forall (fun s => st_trigger s = OnAlarm) ss ->
  Z.of_nat (List.length ss) = countdownSeconds r ->
  (1 <= countdownSeconds r)%Z ->
  let out := run E ss r in
  state (fst out) = PLAYING
  /\ timeLeft (fst out) = GAME_DURATION
  /\ coins (fst out) = []
  /\ JsMap.keys (players (fst out)) = JsMap.keys (players r)
  /\ waitingRoom (fst out) = waitingRoom r
  /\ countdownsOf (snd out) = downFrom (List.length ss - 1).
Proof.
  induction ss as [|s ss IH]; intros r Hs Ha Hl Hk; [cbn in Hl; lia|].
  inversion Ha as [|? ? Hs1 Ha']; subst.
  cbv zeta. cbn [run]. unfold handle. rewrite Hs1. unfold alarm. rewrite Hs.
  cbv zeta. cbn [countdownSeconds setCountdownSeconds].
  destruct ss as [|s' ss'].
  - cbn [List.length] in Hl.
    assert (Hz : (countdownSeconds r - 1 <=? 0)%Z = true)
      by (apply Z.leb_le; lia).
    rewrite Hz. cbn [_startPlaying run fst snd state timeLeft coins players
                     waitingRoom setCountdownSeconds].
    repeat split. apply keys_lineUp.
  - cbn [List.length] in Hl.
    assert (Hz : (countdownSeconds r - 1 <=? 0)%Z = false)
      by (apply Z.leb_gt; lia).
    rewrite Hz.
    set (r1 := setCountdownSeconds (countdownSeconds r - 1)%Z r).
    specialize (IH r1 Hs Ha').
    assert (Hl1 : Z.of_nat (List.length (s' :: ss')) = countdownSeconds r1)
      by (unfold r1; cbn [List.length countdownSeconds setCountdownSeconds];
          lia).
    specialize (IH Hl1).
    assert (Hk1 : (1 <= countdownSeconds r1)%Z)
      by (rewrite <- Hl1; cbn [List.length]; lia).
    specialize (IH Hk1). cbv zeta in IH.
    destruct (run E (s' :: ss') r1) as [r2 e2]. cbn [fst snd] in *.
    destruct IH as [I1 [I2 [I3 [I4 [I5 I6]]]]].
    repeat split; try assumption.
    unfold countdownsOf in *. cbn [flat_map app]. rewrite I6.
    cbn [List.length Nat.sub]. rewrite Nat.sub_0_r.
    cbn [downFrom]. f_equal. unfold r1.
    cbn [countdownSeconds setCountdownSeconds]. lia.
Qed.

(** What one handler invocation does to a round that is going on: the
    room goes back to the lobby, or the round goes on with the time
    reduced by some [d <= 0.2], or it ends because no more than [d] was
    left. *)
Lemma afterTick_time now sendOk r t (permit : Room -> bool)
    (g : list Effect -> list Effect) d :
  state t = PLAYING -> timeLeft t = timeLeft r - d ->
  let r' := fst (if Num.leb (timeLeft t) 0 then finishRound E now t
                 else if permit t
                      then let '(r2, e) := flushGameState now sendOk t
                           in (r2, g e)
                      else (t, [])) in
  (state r' = PLAYING /\ timeLeft r' = timeLeft r - d)
  \/ (state r' = GAME_OVER /\ timeLeft r - d <= 0).
Proof.
  intros Hs Ht. cbv zeta. destruct (Num.leb (timeLeft t) 0) eqn:El.
  - right. split; [reflexivity|]. rewrite <- Ht.
    apply NumFacts.leb_le. exact El.
  - left. destruct (permit t); [rewrite fst_with_effects|];
      split; assumption.
Qed.

Lemma minus_zero (a : Qc) : a = a - 0.
Proof. ring. Qed.

Lemma zero_le_cap : 0 <= MAX_PHYSICS_DT.
Proof. vm_compute. discriminate. Qed.

Lemma handle_playing s r :
  state r = PLAYING ->
  let r' := fst (handle E s r) in
  state r' = LOBBY
  \/ exists d, d <= MAX_PHYSICS_DT
       /\ ((state r' = PLAYING /\ timeLeft r' = timeLeft r - d)
           \/ (state r' = GAME_OVER /\ timeLeft r - d <= 0)).
Proof.
  intro Hs. cbv zeta.
  assert (Stay : forall r', state r' = PLAYING -> timeLeft r' = timeLeft r ->
    state r' = LOBBY
    \/ exists d, d <= MAX_PHYSICS_DT
         /\ ((state r' = PLAYING /\ timeLeft r' = timeLeft r - d)
             \/ (state r' = GAME_OVER /\ timeLeft r - d <= 0))).
  { intros r' H1 H2. right. exists 0. split; [apply zero_le_cap|].
    left. split; [exact H1|]. rewrite H2. apply minus_zero. }
  unfold handle. destruct (st_trigger s) as [conn m|conn|].
  - unfold webSocketMessage. destruct m as [|name userId hat|x|];
      try (apply Stay; [exact Hs | reflexivity]).
    + destruct (Str.isEmpty conn); [apply Stay; [exact Hs | reflexivity]|].
      unfold joinRoom.
      destruct (_ || _); [apply Stay; [exact Hs | reflexivity]|].
      cbv zeta. destruct (negb _); [apply Stay; [exact Hs | reflexivity]|].
      rewrite Hs. apply Stay; [exact Hs | reflexivity].
    + rewrite Hs. unfold moveWhilePlaying.
      destruct (negb (Str.isEmpty conn) && JsMap.has conn (players r));
        [|apply Stay; [exact Hs | reflexivity]].
      destruct (Num.isNaN x); [apply Stay; [exact Hs | reflexivity]|].
      cbv zeta. set (r1 := placePlayer conn x r).
      set (t := physicsTick E (st_now s) r1).
      right. exists (physicsDt (st_now s) r1). split; [apply min_le_r|].
      pose proof (@afterTick_time (st_now s) (st_sendOk s) r t
                    (fun t => (BROADCAST_THROTTLE_MS
                                <=? st_now s - lastBroadcastTime t)%Z)
                    (fun e => e) (physicsDt (st_now s) r1)) as A.
      cbv beta zeta in A.
      replace (let '(r2, e) := flushGameState (st_now s) (st_sendOk s) t
               in (r2, e))
        with (flushGameState (st_now s) (st_sendOk s) t) in A
        by (destruct (flushGameState _ _ _); reflexivity).
      apply A.
      * unfold t. destruct (physicsTick_maps E (st_now s) r1)
          as [_ [_ [H _]]]. rewrite H. exact Hs.
      * unfold t. rewrite physicsTick_timeLeft. reflexivity.
  - unfold webSocketClose.
    destruct (Str.isEmpty conn); [apply Stay; [exact Hs | reflexivity]|].
    cbv zeta. set (r1 := setWaitingRoom _ _).
    destruct ((JsMap.size (players r1) =? 0)%nat
              && negb (GameState_eqb (state r1) LOBBY)).
    + left. rewrite fst_with_effects. apply returnToLobby_state.
    + apply Stay; [exact Hs | reflexivity].
  - unfold alarm. rewrite Hs.
    destruct (JsMap.size (players r) =? 0)%nat.
    + left. rewrite fst_with_effects. apply returnToLobby_state.
    + right. exists (physicsDt (st_now s) r). split; [apply min_le_r|].
      apply (@afterTick_time (st_now s) (st_sendOk s) r
               (physicsTick E (st_now s) r) (fun _ => true)
               (fun e => e ++ [SetAlarm (st_now s + FALLBACK_ALARM_MS)%Z])).
      * destruct (physicsTick_maps E (st_now s) r) as [_ [_ [H _]]].
        rewrite H. exact Hs.
      * apply physicsTick_timeLeft.
Qed.

Lemma steps_Q (n : nat) :
  ((Num.ofZ (Z.of_nat n) * MAX_PHYSICS_DT)%Qc : Q)
  == inject_Z (Z.of_nat n) * (1 # 5).
Proof.
  rewrite mult_Q, ofZ_Q. change (this MAX_PHYSICS_DT) with (1 # 5)%Q.
  reflexivity.
Qed.

Lemma steps_fresh n :
  (n < 300)%nat -> Num.ofZ (Z.of_nat n) * MAX_PHYSICS_DT < GAME_DURATION.
Proof.
  intro H. unfold Qclt. rewrite steps_Q.
  change (this GAME_DURATION) with (60 # 1)%Q.
  assert (Hn : (inject_Z (Z.of_nat n) < inject_Z 300)%Q)
    by (rewrite <- Zlt_Qlt; lia).
  change (inject_Z 300) with (300 # 1)%Q in Hn.
  generalize dependent (inject_Z (Z.of_nat n)). intros q Hq. lra.
Qed.

Lemma steps_next n t d :
  Num.ofZ (Z.of_nat (S n)) * MAX_PHYSICS_DT < t -> d <= MAX_PHYSICS_DT ->
  Num.ofZ (Z.of_nat n) * MAX_PHYSICS_DT < t - d /\ 0 < t - d.
Proof.
  unfold Qclt, Qcle. rewrite !steps_Q, NumFacts.minus_Q.
  change (this MAX_PHYSICS_DT) with (1 # 5)%Q.
  change (this 0) with 0%Q.
  rewrite Nat2Z.inj_succ. unfold Z.succ. rewrite inject_Z_plus.
  change (inject_Z 1) with 1%Q.
  assert (Hn : (0 <= inject_Z (Z.of_nat n))%Q)
    by (change 0%Q with (inject_Z 0); rewrite <- Zle_Qle; lia).
  generalize dependent (inject_Z (Z.of_nat n)). intros q Hq H1 H2.
  split; lra.
Qed.

Lemma handle_timeFor s n r :
  (n < 300)%nat -> timeFor (S n) r -> timeFor n (fst (handle E s r)).
Proof.
  intros Hn [Hg Ht]. destruct (state r) eqn:Es.
  - destruct (handle_state E s r) as [Hm Hp]. cbv zeta in *.
    rewrite Es in Hm, Hp. split.
    + intro H. rewrite H in Hm. discriminate.
    + intro H. destruct (Hp ltac:(discriminate) H) as [_ [_ [Hl _]]].
      rewrite Hl. apply steps_fresh. exact Hn.
  - destruct (handle_state E s r) as [Hm Hp]. cbv zeta in *.
    rewrite Es in Hm, Hp. split.
    + intro H. rewrite H in Hm. discriminate.
    + intro H. destruct (Hp ltac:(discriminate) H) as [_ [_ [Hl _]]].
      rewrite Hl. apply steps_fresh. exact Hn.
  - specialize (Ht eq_refl).
    destruct (@handle_playing s r Es) as [H|[d [Hd [[H1 H2]|[H1 H2]]]]].
    + split; [rewrite H; discriminate | rewrite H; discriminate].
    + destruct (@steps_next n (timeLeft r) d Ht Hd) as [Hlt _].
      split; [rewrite H1; discriminate|]. intros _. rewrite H2. exact Hlt.
    + destruct (@steps_next n (timeLeft r) d Ht Hd) as [_ Hpos].
      exfalso. exact (Qclt_not_le _ _ Hpos H2).
  - destruct (Hg eq_refl).
Qed.

Lemma run_timeFor ss : forall r,
  (List.length ss < 300)%nat -> timeFor (List.length ss) r ->
  state (fst (run E ss r)) <> GAME_OVER.
Proof.
  induction ss as [|s ss IH]; intros r Hn Ht; [apply Ht|].
  cbn [List.length] in *. cbn [run].
  pose proof (@handle_timeFor s (List.length ss) r ltac:(lia) Ht) as H1.
  destruct (handle E s r) as [r1 e1]. cbn [fst] in H1.
  specialize (IH r1 ltac:(lia) H1). destruct (run E ss r1) as [r2 e2].
  exact IH.
Qed.

End Clock.

(** X14. From COUNTDOWN with [k >= 1] seconds on the counter, [k] alarms
    in a row start the round: the alarms before the last announce
    [k - 1], ..., [1] and the last one enters PLAYING with the full time,
    no coin, the same players and the same waiters. *)
Theorem X14_countdown_starts_round (E : Env) (ss : list Stimulus) (r : Room) :
  state r = COUNTDOWN ->
  Forall (fun s => st_trigger s = OnAlarm) ss ->
  Z.of_nat (List.length ss) = countdownSeconds r ->
  (1 <= countdownSeconds r)%Z ->
  let out := run E ss r in
  state (fst out) = PLAYING
  /\ timeLeft (fst out) = GAME_DURATION
  /\ coins (fst out) = []
  /\ JsMap.keys (players (fst out)) = JsMap.keys (players r)
  /\ waitingRoom (fst out) = waitingRoom r
  /\ countdownsOf (snd out) = downFrom (List.length ss - 1).
Proof. apply countdown_run. Qed.

Lemma X14_countdown_starts_round_witness :
  let ss := [alarmAt 1500; alarmAt 2500; alarmAt 3500; alarmAt 4500;
             alarmAt 5500] in
  let out := run sampleEnv ss fullRoom in
  state (fst out) = PLAYING
  /\ timeLeft (fst out) = GAME_DURATION
  /\ coins (fst out) = []
  /\ JsMap.keys (players (fst out)) = JsMap.keys (players fullRoom)
  /\ waitingRoom (fst out) = waitingRoom fullRoom
  /\ countdownsOf (snd out) = [4; 3; 2; 1]%Z.
Proof.
  intros ss out.
  apply (@X14_countdown_starts_round sampleEnv ss fullRoom).
  - reflexivity.
  - repeat constructor.
  - reflexivity.
  - vm_compute. discriminate.
Defined.

(** X15. A round that has its full 60 s left does not end within fewer
    than 300 handler invocations, whatever they are and whenever they
    come: one invocation takes at most 0.2 s off the round. *)
Theorem X15_round_outlasts_capped_steps (E : Env) (ss : list Stimulus)
    (r : Room) :
  state r = PLAYING ->
  GAME_DURATION <= timeLeft r ->
  (List.length ss < 300)%nat ->
  state (fst (run E ss r)) <> GAME_OVER.
Proof.
  intros Hs Ht Hn. apply run_timeFor; [exact Hn|].
  split; [rewrite Hs; discriminate|]. intros _.
  eapply Qclt_le_trans; [apply steps_fresh; exact Hn | exact Ht].
Qed.

(** In [waiterRoom] the round has just started. *)
Lemma X15_round_outlasts_capped_steps_witness :
  state (fst (run sampleEnv
                [alarmAt 100000; moveAt 200000 "1" 450; alarmAt 300000]
                waiterRoom)) <> GAME_OVER.
Proof.
  apply (@X15_round_outlasts_capped_steps sampleEnv
           [alarmAt 100000; moveAt 200000 "1" 450; alarmAt 300000]
           waiterRoom).
  - vm_compute. reflexivity.
  - vm_compute. discriminate.
  - cbn [List.length]. lia.
Defined.

(* ================================================================== *)
(** ** Further properties: the ranking *)
(* ================================================================== *)

Section Ranking.

Lemma withScore_insert v x l :
  withScore v (insertRanked x l)
  = if (rk_score x =? v)%Z then x :: withScore v l else withScore v l.
Proof.
  unfold withScore. induction l as [|y l IH]; cbn [insertRanked filter].
  - reflexivity.
  - destruct (rk_score x <? rk_score y)%Z eqn:Ec; [|reflexivity].
    apply Z.ltb_lt in Ec. cbn [filter]. rewrite IH.
    destruct (rk_score x =? v)%Z eqn:Ex; [|reflexivity].
    apply Z.eqb_eq in Ex.
    assert (Ey : (rk_score y =? v)%Z = false) by (apply Z.eqb_neq; lia).
    rewrite Ey. reflexivity.
Qed.

Lemma withScore_sort v l : withScore v (sortRanked l) = withScore v l.
Proof.
  induction l as [|x l IH]; [reflexivity|].
  cbn [sortRanked fold_right]. fold (sortRanked l).
  rewrite withScore_insert, IH. reflexivity.
Qed.

Lemma withScore_award v l : forall i,
  List.map rk_playerId (withScore v (awardFrom i l))
  = List.map rk_playerId (withScore v l).
Proof.
  unfold withScore. induction l as [|p l IH]; intro i; [reflexivity|].
  cbn [awardFrom filter award rk_score].
  destruct (rk_score p =? v)%Z; cbn [List.map]; rewrite IH; reflexivity.
Qed.

Lemma withScore_entries v ps :
  List.map rk_playerId (withScore v (List.map rankedEntry ps))
  = List.map fst (filter (fun e => (p_score (snd e) =? v)%Z) ps).
Proof.
  unfold withScore. induction ps as [|e ps IH]; [reflexivity|].
  cbn [List.map filter rankedEntry rk_score].
  destruct (p_score (snd e) =? v)%Z; cbn [List.map]; rewrite IH; reflexivity.
Qed.

Lemma awardFrom_later i l :
  filter rk_isWinner (awardFrom (S i) l) = []
  /\ payout (awardFrom (S i) l)
     = (scoreSum l + PARTICIPATION_BONUS * Z.of_nat (List.length l))%Z.
Proof.
  revert i. induction l as [|p l IH]; intro i; [split; reflexivity|].
  destruct (IH (S i)) as [Hw Hp]. split.
  - cbn [awardFrom filter award rk_isWinner Nat.eqb andb]. exact Hw.
  - cbn [awardFrom payout fold_right]. fold (payout (awardFrom (S (S i)) l)).
    rewrite Hp. cbn [award rk_coinsEarned Nat.eqb andb scoreSum fold_right
                     List.length].
    fold (scoreSum l). rewrite Nat2Z.inj_succ. lia.
Qed.

Lemma existsb_perm {A : Type} (f : A -> bool) l l' :
  Permutation l l' -> existsb f l = existsb f l'.
Proof.
  induction 1 as [|x l l' _ IH|x y l|l l' l'' _ IH1 _ IH2]; cbn [existsb].
  - reflexivity.
  - rewrite IH. reflexivity.
  - destruct (f x), (f y); reflexivity.
  - rewrite IH1. exact IH2.
Qed.

Lemma scoreSum_perm l l' : Permutation l l' -> scoreSum l = scoreSum l'.
Proof.
  unfold scoreSum.
  induction 1 as [|x l l' _ IH|x y l|l l' l'' _ IH1 _ IH2]; cbn [fold_right].
  - reflexivity.
  - rewrite IH. reflexivity.
  - lia.
  - rewrite IH1. exact IH2.
Qed.

(** In a ranking sorted by score the head is positive when any entry is. *)
Lemma head_positive l :
  StronglySorted scoreGe l ->
  match l with [] => false | p :: _ => (0 <? rk_score p)%Z end
  = existsb (fun p => (0 <? rk_score p)%Z) l.
Proof.
  intro H. destruct l as [|p l]; [reflexivity|].
  cbn [existsb]. destruct (0 <? rk_score p)%Z eqn:Ep; [reflexivity|].
  apply Z.ltb_ge in Ep. inversion H as [|? ? _ Hf]; subst.
  symmetry. cbn [orb]. clear H. induction l as [|q l IH]; [reflexivity|].
  inversion Hf as [|? ? Hq Hf']; subst. cbn [existsb].
  unfold scoreGe in Hq.
  assert (Eq : (0 <? rk_score q)%Z = false) by (apply Z.ltb_ge; lia).
  rewrite Eq. apply IH. exact Hf'.
Qed.

Lemma existsb_entries ps :
  existsb (fun p => (0 <? rk_score p)%Z) (List.map rankedEntry ps)
  = anyPositive ps.
Proof.
  unfold anyPositive. induction ps as [|e ps IH]; [reflexivity|].
  cbn [List.map existsb rankedEntry rk_score]. rewrite IH. reflexivity.
Qed.

Lemma scoreSum_entries ps : scoreSum (List.map rankedEntry ps) = totalScore ps.
Proof.
  unfold scoreSum, totalScore. induction ps as [|e ps IH]; [reflexivity|].
  cbn [List.map fold_right rankedEntry rk_score]. rewrite IH. reflexivity.
Qed.

Lemma ranking_facts ps :
  let ranked := rankPlayers ps in
  (forall v,
     List.map rk_playerId (withScore v ranked)
     = List.map fst (filter (fun e => (p_score (snd e) =? v)%Z) ps))
  /\ (List.length (filter rk_isWinner ranked) <= 1)%nat
  /\ existsb rk_isWinner ranked = anyPositive ps
  /\ payout ranked
     = (totalScore ps + PARTICIPATION_BONUS * Z.of_nat (List.length ps)
        + (if anyPositive ps then WINNER_BONUS else 0))%Z.
Proof.
  cbv zeta. unfold rankPlayers.
  set (l := sortRanked (List.map rankedEntry ps)).
  assert (Hs : StronglySorted scoreGe l) by apply sortRanked_sorted.
  assert (Hperm : Permutation l (List.map rankedEntry ps))
    by apply sortRanked_perm.
  assert (Hany : match l with [] => false | p :: _ => (0 <? rk_score p)%Z end
                 = anyPositive ps).
  { rewrite (head_positive Hs), (existsb_perm _ Hperm).
    apply existsb_entries. }
  assert (Hsum : scoreSum l = totalScore ps)
    by (rewrite (scoreSum_perm Hperm); apply scoreSum_entries).
  assert (Hlen : List.length l = List.length ps)
    by (rewrite (Permutation_length Hperm); apply length_map).
  split; [|split; [|split]].
  - intro v. rewrite withScore_award. unfold l.
    rewrite withScore_sort. apply withScore_entries.
  - destruct l as [|p l']; [cbn; lia|].
    cbn [awardFrom filter]. destruct (awardFrom_later 0 l') as [Hw _].
    rewrite Hw. destruct (rk_isWinner (award 0 p)); cbn [List.length]; lia.
  - rewrite <- Hany. destruct l as [|p l']; [reflexivity|].
    cbn [awardFrom existsb]. destruct (awardFrom_later 0 l') as [Hw _].
    assert (He : existsb rk_isWinner (awardFrom 1 l') = false).
    { destruct (existsb rk_isWinner (awardFrom 1 l')) eqn:Ee; [|reflexivity].
      apply existsb_exists in Ee as [q [Hq Hq']].
      assert (Hin : In q (filter rk_isWinner (awardFrom 1 l')))
        by (apply filter_In; split; assumption).
      rewrite Hw in Hin. destruct Hin. }
    rewrite He. cbn [award rk_isWinner Nat.eqb andb].
    apply orb_false_r.
  - rewrite <- Hany, <- Hsum, <- Hlen. destruct l as [|p l']; [reflexivity|].
    cbn [awardFrom payout fold_right]. fold (payout (awardFrom 1 l')).
    destruct (awardFrom_later 0 l') as [_ Hp]. rewrite Hp.
    cbn [award rk_coinsEarned Nat.eqb andb scoreSum fold_right List.length].
    fold (scoreSum l'). rewrite Nat2Z.inj_succ.
    destruct (0 <? rk_score p)%Z; lia.
Qed.

End Ranking.

(** X16. The ranking of [_endGame] keeps the roster order among players
    of equal score; it names at most one winner, and one exactly when
    some player has a positive score; the coins paid out in all are the
    sum of the scores, 25 per player, and 50 if there is a winner. *)
Theorem X16_ranking_ties_winner_payout (ps : JsMap.t Player) :
  let ranked := rankPlayers ps in
  (forall v,
     List.map rk_playerId (withScore v ranked)
     = List.map fst (filter (fun e => (p_score (snd e) =? v)%Z) ps))
  /\ (List.length (filter rk_isWinner ranked) <= 1)%nat
  /\ existsb rk_isWinner ranked = anyPositive ps
  /\ payout ranked
     = (totalScore ps + 25 * Z.of_nat (List.length ps)
        + (if anyPositive ps then 50 else 0))%Z.
Proof. apply ranking_facts. Qed.

(* ================================================================== *)
(** ** Further properties: hibernation *)
(* ================================================================== *)

Section Hibernation.

Lemma get_notIn {V : Type} k (m : JsMap.t V) :
  ~ In k (JsMap.keys m) -> JsMap.get k m = None.
Proof.
  induction m as [|[k' v] m IH]; intro H; [reflexivity|].
  cbn [JsMap.get]. destruct (String.eqb k k') eqn:Ek.
  - apply String.eqb_eq in Ek. subst. exfalso. apply H. left. reflexivity.
  - apply IH. intro Hin. apply H. right. exact Hin.
Qed.

Lemma get_Some_In {V : Type} k (m : JsMap.t V) v :
  JsMap.get k m = Some v -> In k (JsMap.keys m).
Proof.
  induction m as [|[k' v'] m IH]; [discriminate|].
  cbn [JsMap.get]. destruct (String.eqb k k') eqn:Ek.
  - apply String.eqb_eq in Ek. subst. intros _. left. reflexivity.
  - intro H. right. exact (IH H).
Qed.

Lemma get_None_has {V : Type} k (m : JsMap.t V) :
  JsMap.get k m = None -> JsMap.has k m = false.
Proof.
  induction m as [|[k' v'] m IH]; [reflexivity|].
  cbn [JsMap.get JsMap.has]. destruct (String.eqb k k'); [discriminate|].
  exact IH.
Qed.

(** With distinct keys, [update] touches the one entry of its key. *)
Lemma update_map {V : Type} k (f : V -> V) (m : JsMap.t V) :
  NoDup (JsMap.keys m) ->
  JsMap.update k f m
  = List.map (fun e => if String.eqb k (fst e) then (fst e, f (snd e)) else e) m.
Proof.
  induction m as [|[k' v] m IH]; intro H; [reflexivity|].
  cbn [JsMap.keys List.map fst] in H. inversion H as [|? ? Hn Hm]; subst.
  cbn [JsMap.update List.map fst snd]. destruct (String.eqb k k') eqn:Ek.
  - f_equal. apply String.eqb_eq in Ek. subst k'.
    rewrite <- (map_id m) at 1. apply map_ext_in. intros [k2 v2] Hin.
    cbn [fst snd]. destruct (String.eqb k k2) eqn:E2; [|reflexivity].
    apply String.eqb_eq in E2. subst k2. exfalso. apply Hn.
    apply in_map_iff. exists (k, v2). split; [reflexivity | exact Hin].
  - f_equal. apply IH. exact Hm.
Qed.

Lemma fold_serialize {V : Type} (F : string -> V -> Attachment)
    (m : JsMap.t V) : forall socks : Sockets,
  NoDup (JsMap.keys m) -> NoDup (JsMap.keys socks) ->
  fold_left (fun acc e => serializeAttachment (fst e) (F (fst e) (snd e)) acc)
    m socks
  = List.map (fun s => match JsMap.get (fst s) m with
                       | Some v => (fst s, Some (F (fst s) v))
                       | None => s
                       end) socks.
Proof.
  induction m as [|[k v] m IH]; intros socks Hm Hs.
  - cbn [fold_left JsMap.get]. symmetry. apply map_id.
  - cbn [JsMap.keys List.map fst] in Hm. inversion Hm as [|? ? Hn Hm']; subst.
    cbn [fold_left fst snd]. unfold serializeAttachment at 2.
    rewrite IH; [|exact Hm' | rewrite JsMapFacts.keys_update; exact Hs].
    rewrite (@update_map _ _ _ _ Hs), map_map. apply map_ext. intros [k2 a].
    cbn [fst snd JsMap.get]. destruct (String.eqb k k2) eqn:Ek.
    + apply String.eqb_eq in Ek. subst k2. cbn [fst].
      rewrite String.eqb_refl.
      rewrite (get_notIn _ _ Hn). reflexivity.
    + rewrite String.eqb_sym, Ek. reflexivity.
Qed.

(** [_savePlayerAttachments], socket by socket. *)
Lemma save_closed r (socks : Sockets) :
  roomInv r -> NoDup (JsMap.keys socks) ->
  _savePlayerAttachments r socks = List.map (savedEntry r) socks.
Proof.
  intros [Np Nw Hd _ _] Hs. unfold _savePlayerAttachments. cbv zeta.
  rewrite (@fold_serialize _ playerAttachment _ _ Np Hs).
  rewrite fold_serialize; [|exact Nw|].
  - rewrite map_map. apply map_ext. intros [k a]. unfold savedEntry.
    cbn [fst]. destruct (JsMap.get k (players r)) as [p|] eqn:Ep;
      [|reflexivity].
    cbn [fst]. rewrite get_notIn; [reflexivity|].
    intro Hw. exact (Hd k (get_Some_In _ _ Ep) Hw).
  - unfold JsMap.keys. rewrite map_map.
    erewrite map_ext; [exact Hs|]. intros [k a]. cbn [fst].
    destruct (JsMap.get k (players r)); reflexivity.
Qed.

Lemma keys_saved r (socks : Sockets) :
  JsMap.keys (List.map (savedEntry r) socks) = JsMap.keys socks.
Proof.
  unfold JsMap.keys. rewrite map_map. apply map_ext. intros [k a].
  unfold savedEntry. cbn [fst].
  destruct (JsMap.get k (players r)); [reflexivity|].
  destruct (JsMap.get k (waitingRoom r)); reflexivity.
Qed.

Lemma inSocketOrder_cons {V : Type} (f : V -> V) (m : JsMap.t V) k a
    (socks : Sockets) :
  inSocketOrder f m ((k, a) :: socks)
  = match JsMap.get k m with Some v => [(k, f v)] | None => [] end
    ++ inSocketOrder f m socks.
Proof. reflexivity. Qed.

Lemma isEmpty_false k : k <> "" -> Str.isEmpty k = false.
Proof. destruct k; [intro H; destruct (H eq_refl) | reflexivity]. Qed.

(** Rebuilding the maps from the sockets that [_savePlayerAttachments]
    has written: the entries come back in the order of the sockets. *)
Lemma restore_saved r : forall (socks : Sockets) accP accW,
  (forall k, In k (JsMap.keys (players r)) ->
             ~ In k (JsMap.keys (waitingRoom r))) ->
  NoDup (JsMap.keys socks) ->
  ~ In "" (JsMap.keys socks) ->
  (forall k, In k (JsMap.keys socks) ->
             ~ In k (JsMap.keys accP) /\ ~ In k (JsMap.keys accW)) ->
  (forall tag att, In (tag, Some att) socks ->
     JsMap.has tag (players r) = false ->
     JsMap.has tag (waitingRoom r) = false -> att_role att = RoleNew) ->
  fold_left restoreSocket (List.map (savedEntry r) socks) (accP, accW)
  = (accP ++ inSocketOrder revivePlayer (players r) socks,
     accW ++ inSocketOrder reviveWaiter (waitingRoom r) socks).
Proof.
  induction socks as [|[k a] socks IH]; intros accP accW Hd Hn He Hf Hs.
  - cbn. rewrite !app_nil_r. reflexivity.
  - cbn [JsMap.keys List.map fst] in Hn, He, Hf.
    inversion Hn as [|? ? Hk Hn']; subst.
    assert (Hk0 : Str.isEmpty k = false).
    { apply isEmpty_false. intro H. apply He. left. exact H. }
    assert (He' : ~ In "" (JsMap.keys socks))
      by (intro H; apply He; right; exact H).
    assert (Hs' : forall tag att, In (tag, Some att) socks ->
              JsMap.has tag (players r) = false ->
              JsMap.has tag (waitingRoom r) = false -> att_role att = RoleNew)
      by (intros tag att H; apply Hs; right; exact H).
    destruct (Hf k (or_introl eq_refl)) as [HkP HkW].
    cbn [List.map fold_left]. rewrite !inSocketOrder_cons.
    destruct (JsMap.get k (players r)) as [p|] eqn:Ep.
    + assert (Ew : JsMap.get k (waitingRoom r) = None)
        by (apply get_notIn, Hd, (get_Some_In _ _ Ep)).
      rewrite Ew.
      assert (Hstep : restoreSocket (accP, accW) (savedEntry r (k, a))
                      = (accP ++ [(k, revivePlayer p)], accW)).
      { unfold savedEntry, restoreSocket. cbn [fst snd]. rewrite Ep.
        cbn [snd fst att_playerId att_role playerAttachment att_x att_score
             att_color att_name att_hat att_userId orElse]. rewrite Hk0.
        rewrite JsMapFacts.set_fresh
          by (apply JsMapFacts.has_false_notIn; exact HkP).
        reflexivity. }
      rewrite Hstep, IH; try assumption.
      * cbn [app]. rewrite <- !app_assoc. reflexivity.
      * intros k' Hk'. destruct (Hf k' (or_intror Hk')) as [H1 H2].
        split; [|exact H2]. unfold JsMap.keys. rewrite map_app.
        intro Hin. apply in_app_or in Hin as [Hin|[Hin|[]]];
          [exact (H1 Hin)|]. cbn [fst] in Hin. subst k'. exact (Hk Hk').
    + destruct (JsMap.get k (waitingRoom r)) as [w|] eqn:Ew.
      * assert (Hstep : restoreSocket (accP, accW) (savedEntry r (k, a))
                        = (accP, accW ++ [(k, reviveWaiter w)])).
        { unfold savedEntry, restoreSocket. cbn [fst snd]. rewrite Ep, Ew.
          cbn [snd fst att_playerId att_role waiterAttachment att_color
               att_name att_hat att_userId]. rewrite Hk0.
          rewrite JsMapFacts.set_fresh
            by (apply JsMapFacts.has_false_notIn; exact HkW).
          reflexivity. }
        rewrite Hstep, IH; try assumption.
        -- cbn [app]. rewrite <- !app_assoc. reflexivity.
        -- intros k' Hk'. destruct (Hf k' (or_intror Hk')) as [H1 H2].
           split; [exact H1|]. unfold JsMap.keys. rewrite map_app.
           intro Hin. apply in_app_or in Hin as [Hin|[Hin|[]]];
             [exact (H2 Hin)|]. cbn [fst] in Hin. subst k'. exact (Hk Hk').
      * assert (Hstep : restoreSocket (accP, accW) (savedEntry r (k, a))
                        = (accP, accW)).
        { unfold savedEntry, restoreSocket. cbn [fst snd]. rewrite Ep, Ew.
          cbn [snd]. destruct a as [att|]; [|reflexivity].
          destruct (Str.isEmpty (att_playerId att)); [reflexivity|].
          rewrite (Hs k att (or_introl eq_refl)
                     (get_None_has _ _ Ep) (get_None_has _ _ Ew)).
          reflexivity. }
        rewrite Hstep. cbn [app]. apply IH; try assumption.
        intros k' Hk'. exact (Hf k' (or_intror Hk')).
Qed.

Lemma restoreMaps_saved r (socks : Sockets) :
  roomInv r ->
  NoDup (JsMap.keys socks) -> ~ In "" (JsMap.keys socks) ->
  strangersAreNew r socks ->
  restoreMaps (List.map (savedEntry r) socks)
  = (inSocketOrder revivePlayer (players r) socks,
     inSocketOrder reviveWaiter (waitingRoom r) socks).
Proof.
  intros Inv Hn He Hs. unfold restoreMaps.
  apply (@restore_saved r socks [] []); try assumption.
  - apply Inv.
  - intros k _. split; intros [].
Qed.

Lemma orNum_zero (v : Qc) : orNum v 0 = v.
Proof. unfold orNum. destruct (Qc_eq_dec v 0) as [->|]; reflexivity. Qed.

Lemma round_trip now r (socks : Sockets) :
  roomInv r ->
  NoDup (JsMap.keys socks) -> ~ In "" (JsMap.keys socks) ->
  strangersAreNew r socks ->
  nextCoinId r <> 0%Z ->
  (state r = PLAYING -> inSocketOrder revivePlayer (players r) socks <> []) ->
  fst (_ensureInitialized now (Some (fst (_persistState r socks)))
         (snd (_persistState r socks)))
  = mkRoom (state r)
      (inSocketOrder revivePlayer (players r) socks)
      (inSocketOrder reviveWaiter (waitingRoom r) socks)
      (coins r) (nextCoinId r) (timeLeft r) (countdownSeconds r)
      (coinSpawnAccumulator r) (nextPlayerId r)
      (orZ (lastPhysicsTime r) now) 0 [] 0.
Proof.
  intros Inv Hn He Hs Hc Hp. unfold _persistState. cbn [fst snd].
  rewrite (@save_closed r socks Inv Hn). unfold _ensureInitialized.
  rewrite (@restoreMaps_saved r socks Inv Hn He Hs).
  cbn [fst snd]. cbv zeta.
  cbn [restoreFields snapshotOf gs_state gs_coins gs_nextCoinId gs_timeLeft
       gs_countdownSeconds gs_coinSpawnAccumulator gs_nextPlayerId
       gs_lastPhysicsTime state players waitingRoom setWaitingRoom setPlayers
       newRoom coins nextCoinId timeLeft countdownSeconds coinSpawnAccumulator
       nextPlayerId lastPhysicsTime lastBroadcastTime pendingCollected
       randomCursor].
  rewrite orNum_zero.
  assert (Hz : orZ (nextCoinId r) 1 = nextCoinId r).
  { unfold orZ. destruct (nextCoinId r =? 0)%Z eqn:Ez; [|reflexivity].
    apply Z.eqb_eq in Ez. destruct (Hc Ez). }
  rewrite Hz.
  destruct (state r) eqn:Es; try reflexivity.
  - destruct (0 <? _)%nat; reflexivity.
  - destruct (0 <? _)%nat eqn:E0; [reflexivity|].
    apply size_zero in E0. destruct (Hp eq_refl E0).
Qed.

End Hibernation.

(** X18. Persisting a room and restoring it in a fresh instance gives the
    room back: the state, the clock, the counters and the coins are the
    same, and so are the players and waiters that have a live socket,
    listed in the order of the sockets instead of the order of the joins;
    what is lost is the pending catch events and the broadcast time stamp,
    and a [lastPhysicsTime] of 0 becomes the current time. *)
Theorem X18_hibernation_round_trip (now : Z) (r : Room) (socks : Sockets) :
  roomInv r ->
  NoDup (JsMap.keys socks) -> ~ In "" (JsMap.keys socks) ->
  strangersAreNew r socks ->
  nextCoinId r <> 0%Z ->
  (state r = PLAYING -> inSocketOrder revivePlayer (players r) socks <> []) ->
  fst (_ensureInitialized now (Some (fst (_persistState r socks)))
         (snd (_persistState r socks)))
  = mkRoom (state r)
      (inSocketOrder revivePlayer (players r) socks)
      (inSocketOrder reviveWaiter (waitingRoom r) socks)
      (coins r) (nextCoinId r) (timeLeft r) (countdownSeconds r)
      (coinSpawnAccumulator r) (nextPlayerId r)
      (orZ (lastPhysicsTime r) now) 0 [] 0.
Proof. apply round_trip. Qed.

Lemma X18_hibernation_round_trip_witness :
  JsMap.keys (players sessionRoom) = ["1"; "2"]
  /\ JsMap.keys
       (players
          (fst (_ensureInitialized 40000
                  (Some (fst (_persistState sessionRoom sessionSockets)))
                  (snd (_persistState sessionRoom sessionSockets)))))
     = ["2"; "1"].
Proof.
  split; [reflexivity|].
  rewrite (@X18_hibernation_round_trip 40000 sessionRoom sessionSockets).
  - reflexivity.
  - apply (@reachable_inv sampleEnv). exists sessionRun.
    unfold sessionRoom. reflexivity.
  - cbn. repeat constructor; cbn; intuition discriminate.
  - cbn. intuition discriminate.
  - intros tag att Hin _ _. cbn in Hin.
    destruct Hin as [H|[H|[H|[H|[]]]]]; inversion H; reflexivity.
  - vm_compute. discriminate.
  - intros _. vm_compute. discriminate.
Defined.

Lemma ensureInitialized_rearms now gs (socks : Sockets) :
  let out := _ensureInitialized now gs socks in
  oneAlarm now (snd out)
  /\ (alarmsOf (snd out) = [] ->
      state (fst out) = LOBBY /\ players (fst out) = [])
  /\ (state (fst out) = PLAYING -> players (fst out) <> []).
Proof.
  cbv zeta. unfold _ensureInitialized. cbv zeta.
  set (r1 := setWaitingRoom _ _).
  destruct (state r1) eqn:Es.
  - destruct (0 <? JsMap.size (players r1))%nat eqn:En; cbn [fst snd].
    + split; [|split; [discriminate | rewrite Es; discriminate]].
      right. exists 20000%Z. split; [simpl; tauto | reflexivity].
    + split; [left; reflexivity|].
      split; [|rewrite Es; discriminate].
      intros _. split; [exact Es | apply size_zero; exact En].
  - cbn [fst snd]. split; [|split; [discriminate | rewrite Es; discriminate]].
    right. exists 1000%Z. split; [simpl; tauto | reflexivity].
  - destruct (0 <? JsMap.size (players r1))%nat eqn:En; cbn [fst snd].
    + split; [|split; [discriminate|]].
      * right. exists 1000%Z. split; [simpl; tauto | reflexivity].
      * intros _ H. rewrite H in En. discriminate.
    + split; [left; reflexivity|]. split; [|discriminate].
      intros _. split; [reflexivity|]. apply size_zero in En. exact En.
  - cbn [fst snd]. split; [|split; [discriminate | rewrite Es; discriminate]].
    right. exists 5000%Z. split; [simpl; tauto | reflexivity].
Qed.

(** X17. A fresh instance that restores the room arms the alarm that the
    restored state needs, at most one, unless it ends in an empty lobby;
    it never leaves the room PLAYING without players: that case is
    repaired to LOBBY. *)
Theorem X17_restore_rearms (now : Z) (gs : option Snapshot) (socks : Sockets) :
  let out := _ensureInitialized now gs socks in
  (alarmsOf (snd out) = []
   \/ exists d, In d [1000; 5000; 20000]%Z
                /\ alarmsOf (snd out) = [(now + d)%Z])
  /\ (alarmsOf (snd out) = [] ->
      state (fst out) = LOBBY /\ players (fst out) = [])
  /\ (state (fst out) = PLAYING -> players (fst out) <> []).
Proof. apply ensureInitialized_rearms. Qed.

Lemma X17_restore_rearms_witness :
  let out := _ensureInitialized 40000 (Some (snapshotOf endRoom))
               [("7", Some (newAttachment "7"))] in
  state endRoom = PLAYING
  /\ state (fst out) = LOBBY /\ players (fst out) = [].
Proof.
  intro out. split; [reflexivity|].
  destruct (@X17_restore_rearms 40000 (Some (snapshotOf endRoom))
              [("7", Some (newAttachment "7"))]) as [_ [H _]].
  apply H. reflexivity.
Defined.

(* ================================================================== *)
(** ** Further properties: handlers that wake the instance *)
(* ================================================================== *)

Section Woken.

Variable E : Env.

Lemma oneAlarm_nil now : oneAlarm now [].
Proof. left. reflexivity. Qed.

Lemma ensure_oneAlarm now i :
  oneAlarm now (snd (GameRoom.ensureInitialized now i)).
Proof.
  unfold GameRoom.ensureInitialized. destruct (GameRoom.memory i).
  - apply oneAlarm_nil.
  - apply ensureInitialized_rearms.
Qed.

Lemma ensure_initialised now i r :
  GameRoom.memory i = Some r -> GameRoom.ensureInitialized now i = (r, []).
Proof. unfold GameRoom.ensureInitialized. intros ->. reflexivity. Qed.

Lemma settle_room saved r es i : GameRoom.room (GameRoom.settle saved r es i) = r.
Proof.
  unfold GameRoom.settle. destruct (GameRoom.persists es); [reflexivity|].
  destruct saved; reflexivity.
Qed.

Lemma settle_memory saved r es i :
  GameRoom.memory (GameRoom.settle saved r es i) = Some r.
Proof.
  unfold GameRoom.settle. destruct (GameRoom.persists es); [reflexivity|].
  destruct saved; reflexivity.
Qed.

(** An invocation is the restore, if the instance needs one, followed by
    the body on the room that the restore leaves. *)
Lemma handle_woken s i :
  match st_trigger s with
  | OnMessage _ InDropped => GameRoom.handle E s i = (i, [])
  | _ =>
      let woken := GameRoom.ensureInitialized (st_now s) i in
      exists body,
        snd (GameRoom.handle E s i) = snd woken ++ snd body
        /\ GameRoom.room (fst (GameRoom.handle E s i)) = fst body
        /\ GameRoom.memory (fst (GameRoom.handle E s i)) = Some (fst body)
        /\ (body = handle E s (fst woken)
            \/ exists conn x,
                 st_trigger s = OnMessage conn (InMove x)
                 /\ GameRoom.memory i = None
                 /\ body = (if Str.isEmpty conn then fst woken
                            else GameRoom.moveFallback conn x (fst woken), []))
  end.
Proof.
  unfold GameRoom.handle, handle.
  destruct (st_trigger s) as [conn m|conn|].
  - destruct m as [|name userId hat|x|]; [reflexivity| | |].
    + cbv zeta. unfold GameRoom.webSocketMessage, GameRoom.ensureInitialized.
      destruct (GameRoom.memory i) as [r|] eqn:Em.
      * exists (webSocketMessage E (st_now s) (st_sendOk s) conn
                  (InJoin name userId hat) r).
        destruct (webSocketMessage _ _ _ _ _ r) as [r' e] eqn:Eb. cbn [fst snd].
        rewrite settle_room, settle_memory. repeat split.
        left. symmetry. exact Eb.
      * destruct (_ensureInitialized (st_now s) (GameRoom.stored i)
                    (GameRoom.sockets i)) as [r e0]. cbn [fst snd].
        exists (webSocketMessage E (st_now s) (st_sendOk s) conn
                  (InJoin name userId hat) r).
        unfold webSocketMessage.
        destruct (Str.isEmpty conn).
        -- cbn [fst snd]. rewrite settle_room, settle_memory, app_nil_r.
           repeat split. left. reflexivity.
        -- destruct (joinRoom E (st_now s) conn name userId hat r) as [r' e]
             eqn:Eb.
           cbn [fst snd]. rewrite settle_room, settle_memory.
           repeat split. left. reflexivity.
    + cbv zeta. unfold GameRoom.webSocketMessage, GameRoom.ensureInitialized.
      destruct (GameRoom.memory i) as [r|] eqn:Em.
      * exists (webSocketMessage E (st_now s) (st_sendOk s) conn (InMove x) r).
        destruct (webSocketMessage _ _ _ _ _ r) as [r' e] eqn:Eb. cbn [fst snd].
        rewrite settle_room, settle_memory. repeat split.
        left. symmetry. exact Eb.
      * destruct (_ensureInitialized (st_now s) (GameRoom.stored i)
                    (GameRoom.sockets i)) as [r e0]. cbn [fst snd].
        exists (if Str.isEmpty conn then r
                else GameRoom.moveFallback conn x r, []).
        destruct (Str.isEmpty conn) eqn:Ec; cbn [fst snd];
          rewrite settle_room, settle_memory, app_nil_r;
          repeat split; right; exists conn, x; rewrite Ec; repeat split.
    + cbv zeta. unfold GameRoom.webSocketMessage, GameRoom.ensureInitialized.
      destruct (GameRoom.memory i) as [r|] eqn:Em.
      * exists (r, []). unfold webSocketMessage. cbn [fst snd].
        rewrite settle_room, settle_memory.
        repeat split. left. reflexivity.
      * destruct (_ensureInitialized (st_now s) (GameRoom.stored i)
                    (GameRoom.sockets i)) as [r e0]. cbn [fst snd].
        exists (r, []).
        destruct (Str.isEmpty conn); cbn [fst snd];
          rewrite settle_room, settle_memory, app_nil_r;
          repeat split; left; reflexivity.
  - cbv zeta. unfold GameRoom.webSocketClose.
    destruct (GameRoom.ensureInitialized (st_now s) i) as [r e0].
    exists (webSocketClose (st_now s) conn r).
    destruct (webSocketClose (st_now s) conn r) as [r' e] eqn:Eb.
    cbn [fst snd].
    rewrite settle_room, settle_memory. repeat split.
    left. symmetry. exact Eb.
  - cbv zeta. unfold GameRoom.alarm.
    destruct (GameRoom.ensureInitialized (st_now s) i) as [r e0].
    exists (alarm E (st_now s) (st_sendOk s) r).
    destruct (alarm E (st_now s) (st_sendOk s) r) as [r' e] eqn:Eb.
    cbn [fst snd].
    rewrite settle_room, settle_memory. repeat split.
    left. symmetry. exact Eb.
Qed.

Lemma oneAlarm_length now es :
  oneAlarm now es -> (List.length (alarmsOf es) <= 1)%nat.
Proof.
  intros [H|[d [_ H]]]; rewrite H; cbn [List.length]; lia.
Qed.

Lemma fetch_effects now i :
  snd (fst (GameRoom.fetch E now i))
  = snd (GameRoom.ensureInitialized now i).
Proof.
  unfold GameRoom.fetch.
  destruct (GameRoom.ensureInitialized now i) as [r e0].
  destruct (fetch E r (GameRoom.sockets i)) as [[[r' socks'] gs] answer].
  reflexivity.
Qed.

End Woken.

(** X12. A handler invocation arms the alarm at most twice: at most once
    when [_ensureInitialized] restores an instance that is not initialised
    yet, and at most once in what the handler does then; on an initialised
    instance at most once.  Every alarm is set 1, 5 or 20 seconds after the
    current time.  The alarm handler leaves an alarm armed unless it leaves
    an empty lobby: while a countdown, a round or a result display goes on,
    or players sit in the lobby, the chain of alarms does not break. *)
Theorem X12_alarm_discipline (E : Env) (s : Stimulus) (i : GameRoom.Instance) :
  let out := GameRoom.handle E s i in
  (exists body,
      snd out = restoreEffects s i ++ body
      /\ oneAlarm (st_now s) (restoreEffects s i)
      /\ oneAlarm (st_now s) body)
  /\ (GameRoom.memory i <> None -> oneAlarm (st_now s) (snd out))
  /\ (List.length (alarmsOf (snd out)) <= 2)%nat
  /\ (st_trigger s = OnAlarm -> alarmsOf (snd out) = [] ->
      state (GameRoom.room (fst out)) = LOBBY
      /\ players (GameRoom.room (fst out)) = [])
  /\ (forall now, oneAlarm now (snd (fst (GameRoom.fetch E now i)))).
Proof.
  cbv zeta.
  assert (Hparts : exists body,
            snd (GameRoom.handle E s i) = restoreEffects s i ++ body
            /\ oneAlarm (st_now s) (restoreEffects s i)
            /\ oneAlarm (st_now s) body).
  { pose proof (handle_woken E s i) as H. unfold restoreEffects.
    destruct (st_trigger s) as [conn m|conn|] eqn:Et.
    - destruct m as [|name userId hat|x|];
        [ rewrite H; exists []; repeat split; apply oneAlarm_nil | | | ];
        destruct H as [body [He [_ [_ Hb]]]]; exists (snd body);
        (split; [exact He|]); (split; [apply ensure_oneAlarm|]);
        (destruct Hb as [->|[c [y [_ [_ ->]]]]];
         [apply handle_oneAlarm | apply oneAlarm_nil]).
    - destruct H as [body [He [_ [_ Hb]]]]. exists (snd body).
      split; [exact He|]. split; [apply ensure_oneAlarm|].
      destruct Hb as [->|[c [y [Hc _]]]]; [apply handle_oneAlarm|].
      discriminate Hc.
    - destruct H as [body [He [_ [_ Hb]]]]. exists (snd body).
      split; [exact He|]. split; [apply ensure_oneAlarm|].
      destruct Hb as [->|[c [y [Hc _]]]]; [apply handle_oneAlarm|].
      discriminate Hc. }
  split; [exact Hparts|].
  destruct Hparts as [body [He [H0 Hb]]].
  split; [|split; [|split]].
  - intro Hm. rewrite He.
    assert (Hr : restoreEffects s i = []).
    { unfold restoreEffects, GameRoom.ensureInitialized.
      destruct (GameRoom.memory i); [|contradiction].
      destruct (st_trigger s) as [conn m|conn|]; [destruct m|..]; reflexivity. }
    rewrite Hr. exact Hb.
  - rewrite He, alarmsOf_app, length_app.
    pose proof (oneAlarm_length H0). pose proof (oneAlarm_length Hb). lia.
  - intros Ht Ha. pose proof (handle_woken E s i) as H. rewrite Ht in H.
    cbv zeta in H. destruct H as [b [Hs [Hroom [_ Hbody]]]].
    rewrite Hroom. rewrite Hs, alarmsOf_app in Ha.
    apply app_eq_nil in Ha as [_ Ha].
    destruct Hbody as [->|[c [y [Hc _]]]]; [|discriminate Hc].
    unfold handle in *. rewrite Ht in *. apply alarm_rearms. exact Ha.
  - intro now. rewrite fetch_effects. apply ensure_oneAlarm.
Qed.

(** An alarm on an initialised, empty lobby arms nothing and leaves the
    lobby empty; the alarm that wakes the evicted round of [afterCatch]
    arms the alarm twice, in the restore and in the step. *)
Lemma X12_alarm_discipline_witness :
  (let out :=
     GameRoom.handle sampleEnv (alarmAt 20000)
       (GameRoom.mkInstance (Some newRoom) None []) in
   oneAlarm 20000 (snd out)
   /\ state (GameRoom.room (fst out)) = LOBBY
   /\ players (GameRoom.room (fst out)) = [])
  /\ (List.length (alarmsOf (snd afterWake)) <= 2)%nat
  /\ alarmsOf (snd afterWake) = [3200; 3200]%Z.
Proof.
  split.
  - intro out.
    destruct (@X12_alarm_discipline sampleEnv (alarmAt 20000)
                (GameRoom.mkInstance (Some newRoom) None []))
      as [_ [H1 [_ [H2 _]]]].
    split; [apply H1; discriminate|]. apply H2; reflexivity.
  - split; [|vm_compute; reflexivity].
    destruct (@X12_alarm_discipline sampleEnv (alarmAt 2200)
                (GameRoom.evict (fst afterCatch)))
      as [_ [_ [H _]]].
    exact H.
Defined.

(* ================================================================== *)
(** ** The order of the waiting room *)
(* ================================================================== *)

Section Order.

Context {A : Type}.
Implicit Types a b c : list A.

Lemma inOrderOf_refl a : inOrderOf a a.
Proof. induction a; constructor; assumption. Qed.

Lemma inOrderOf_nil b : inOrderOf [] b.
Proof. induction b; constructor; assumption. Qed.

Lemma inOrderOf_trans a b c : inOrderOf a b -> inOrderOf b c -> inOrderOf a c.
Proof.
  intros Hab Hbc. revert a Hab.
  induction Hbc as [|x b c Hbc IH|x b c Hbc IH]; intros a Hab.
  - exact Hab.
  - inversion Hab as [|y a' b' Ha|y a' b' Ha]; subst.
    + apply order_keep, IH, Ha.
    + apply order_drop, IH, Ha.
  - apply order_drop, IH, Hab.
Qed.

Lemma inOrderOf_filter (f : A -> bool) a : inOrderOf (List.filter f a) a.
Proof.
  induction a as [|x a IH]; cbn [List.filter]; [constructor|].
  destruct (f x); constructor; exact IH.
Qed.

Lemma inOrderOf_skipn n : forall a, inOrderOf (skipn n a) a.
Proof.
  induction n as [|n IH]; intro a; [apply inOrderOf_refl|].
  destruct a as [|x a]; [constructor|]. cbn [skipn]. apply order_drop, IH.
Qed.

Lemma inOrderOf_In a b x : inOrderOf a b -> In x a -> In x b.
Proof.
  induction 1 as [|y a b H IH|y a b H IH]; intro Hx.
  - exact Hx.
  - destruct Hx as [->|Hx]; [left; reflexivity | right; exact (IH Hx)].
  - right. exact (IH Hx).
Qed.

End Order.

Lemma keys_filter_order {V : Type} (f : string * V -> bool) (m : JsMap.t V) :
  inOrderOf (JsMap.keys (List.filter f m)) (JsMap.keys m).
Proof.
  induction m as [|e m IH]; cbn [List.filter]; [constructor|].
  destruct (f e); constructor; exact IH.
Qed.

Lemma keys_delete_order {V : Type} k (m : JsMap.t V) :
  inOrderOf (JsMap.keys (JsMap.delete k m)) (JsMap.keys m).
Proof.
  induction m as [|[k' v] m IH]; cbn [JsMap.delete]; [constructor|].
  destruct (String.eqb k k').
  - apply order_drop, inOrderOf_refl.
  - apply order_keep, IH.
Qed.

Section Queue.

Variable E : Env.

Lemma queueKept_same r r' : waitingRoom r' = waitingRoom r -> queueKept r r'.
Proof. unfold queueKept. intros ->. apply inOrderOf_refl. Qed.

Lemma returnToLobby_queue now r :
  roomInv r -> queueKept r (fst (_returnToLobby now r)).
Proof.
  intro H. destruct (@returnToLobby_spec now r H) as [_ [_ [Hw _]]].
  unfold queueKept. rewrite Hw, keys_skipn. apply inOrderOf_skipn.
Qed.

Lemma afterTick_queue now sendOk t (permit : Room -> bool)
    (g : list Effect -> list Effect) :
  queueKept t
    (fst (if Num.leb (timeLeft t) 0 then finishRound E now t
          else if permit t
               then let '(r2, e) := flushGameState now sendOk t in (r2, g e)
               else (t, []))).
Proof.
  destruct (Num.leb (timeLeft t) 0); [apply queueKept_same; reflexivity|].
  destruct (permit t); [|apply queueKept_same; reflexivity].
  unfold queueKept. apply keys_filter_order.
Qed.

Lemma joinRoom_queue now conn name userId hat r :
  let r' := fst (joinRoom E now conn name userId hat r) in
  queueKept r r' \/ queueJoined conn r r'.
Proof.
  cbv zeta. unfold joinRoom.
  destruct (JsMap.has conn (players r));
    [left; apply queueKept_same; reflexivity|].
  destruct (JsMap.has conn (waitingRoom r)) eqn:Hw;
    [left; apply queueKept_same; reflexivity|].
  cbn [orb]. destruct (negb _); [left; apply queueKept_same; reflexivity|].
  rewrite fst_with_effects.
  assert (Hwait : queueJoined conn r
            (fst (_addToWaitingRoom conn (joinName E name) (joinHat E hat)
                    (joinUserId userId) r))).
  { split; [apply JsMapFacts.has_false_notIn; exact Hw|].
    unfold _addToWaitingRoom. cbn [fst waitingRoom setWaitingRoom].
    apply JsMapFacts.keys_set_fresh. exact Hw. }
  destruct (state r); try (right; exact Hwait).
  unfold _addPlayerToLobby.
  destruct (MAX_PLAYERS <=? JsMap.size (players r))%nat; [right; exact Hwait|].
  cbv zeta. left. apply queueKept_same.
  destruct (MAX_PLAYERS <=? _)%nat; reflexivity.
Qed.

(** A handler on an initialised instance leaves the waiters in their
    order: it removes entries, or appends the connection that joins. *)
Lemma handle_queue s r :
  roomInv r ->
  let r' := fst (handle E s r) in
  queueKept r r'
  \/ exists conn name userId hat,
       st_trigger s = OnMessage conn (InJoin name userId hat)
       /\ queueJoined conn r r'.
Proof.
  intro Inv. cbv zeta. unfold handle.
  destruct (st_trigger s) as [conn m|conn|].
  - unfold webSocketMessage. destruct m as [|name userId hat|x|];
      try (left; apply queueKept_same; reflexivity).
    + destruct (Str.isEmpty conn); [left; apply queueKept_same; reflexivity|].
      destruct (joinRoom_queue (st_now s) conn name userId hat r) as [H|H];
        [left; exact H|].
      right. exists conn, name, userId, hat. split; [reflexivity | exact H].
    + left. destruct (state r); try (apply queueKept_same; reflexivity).
      unfold moveWhilePlaying.
      destruct (_ && _); [|apply queueKept_same; reflexivity].
      destruct (Num.isNaN x); [apply queueKept_same; reflexivity|].
      cbv zeta. set (r1 := placePlayer conn x r).
      pose proof (@afterTick_queue (st_now s) (st_sendOk s)
                    (physicsTick E (st_now s) r1)
                    (fun t => (BROADCAST_THROTTLE_MS
                               <=? st_now s - lastBroadcastTime t)%Z)
                    (fun e => e)) as A.
      cbv beta in A.
      replace (let '(r2, e) :=
                 flushGameState (st_now s) (st_sendOk s)
                   (physicsTick E (st_now s) r1) in (r2, e))
        with (flushGameState (st_now s) (st_sendOk s)
                (physicsTick E (st_now s) r1)) in A
        by (destruct (flushGameState _ _ _); reflexivity).
      unfold queueKept in *.
      destruct (physicsTick_maps E (st_now s) r1) as [_ [Kw _]].
      rewrite Kw in A. exact A.
  - left. unfold webSocketClose.
    destruct (Str.isEmpty conn); [apply queueKept_same; reflexivity|].
    cbv zeta. set (r1 := setWaitingRoom _ _).
    assert (Inv1 : roomInv r1).
    { apply (@roomInv_shrink r _ Inv); unfold r1;
        cbn [players waitingRoom timeLeft setWaitingRoom setPlayers].
      - apply JsMapFacts.NoDup_keys_delete, Inv.
      - apply JsMapFacts.NoDup_keys_delete, Inv.
      - apply JsMapFacts.keys_delete_incl.
      - apply JsMapFacts.keys_delete_incl.
      - apply Inv. }
    assert (Q1 : queueKept r r1)
      by (unfold queueKept, r1; cbn [waitingRoom setWaitingRoom];
          apply keys_delete_order).
    destruct ((JsMap.size (players r1) =? 0)%nat
              && negb (GameState_eqb (state r1) LOBBY)).
    + rewrite fst_with_effects. unfold queueKept in *.
      eapply inOrderOf_trans; [|exact Q1].
      apply (returnToLobby_queue (st_now s) Inv1).
    + exact Q1.
  - left. unfold alarm. destruct (state r).
    + destruct (0 <? _)%nat; apply queueKept_same; reflexivity.
    + cbv zeta. destruct (_ <=? 0)%Z; apply queueKept_same; reflexivity.
    + destruct (JsMap.size (players r) =? 0)%nat.
      * rewrite fst_with_effects. apply returnToLobby_queue. exact Inv.
      * pose proof (@afterTick_queue (st_now s) (st_sendOk s)
                      (physicsTick E (st_now s) r) (fun _ => true)
                      (fun e => e ++ [SetAlarm (st_now s + FALLBACK_ALARM_MS)%Z]))
          as A.
        cbv beta in A. unfold queueKept in *.
        destruct (physicsTick_maps E (st_now s) r) as [_ [Kw _]].
        rewrite Kw in A. exact A.
    + rewrite fst_with_effects. apply returnToLobby_queue. exact Inv.
Qed.

End Queue.

Section Restored.

Variable E : Env.

(** [_ensureInitialized] puts every socket into the map that its
    attachment names, whatever is stored. *)
Lemma ensureInitialized_maps now gs (socks : Sockets) :
  let woken := fst (_ensureInitialized now gs socks) in
  players woken = fst (restoreMaps socks)
  /\ waitingRoom woken = snd (restoreMaps socks)
  /\ timeLeft woken
     = match gs with Some g => gs_timeLeft g | None => GAME_DURATION end.
Proof.
  cbv zeta. unfold _ensureInitialized. cbv zeta.
  set (r1 := setWaitingRoom _ _).
  assert (H1 : players r1 = fst (restoreMaps socks)
               /\ waitingRoom r1 = snd (restoreMaps socks)
               /\ timeLeft r1
                  = match gs with
                    | Some g => gs_timeLeft g
                    | None => GAME_DURATION
                    end).
  { unfold r1. destruct gs; repeat split. }
  destruct (state r1); try exact H1;
    destruct (0 <? JsMap.size (players r1))%nat; exact H1.
Qed.

Lemma keys_inSocketOrder {V : Type} (f : V -> V) (m : JsMap.t V)
    (socks : Sockets) :
  JsMap.keys (inSocketOrder f m socks)
  = List.filter (fun k => JsMap.has k m) (JsMap.keys socks).
Proof.
  induction socks as [|[k a] socks IH]; [reflexivity|].
  rewrite inSocketOrder_cons, keys_app, IH. cbn [JsMap.keys List.map fst List.filter].
  destruct (JsMap.get k m) as [v|] eqn:Eg.
  - assert (Hh : JsMap.has k m = true)
      by (apply JsMapFacts.has_In; exact (get_Some_In _ _ Eg)).
    rewrite Hh. reflexivity.
  - rewrite (get_None_has _ _ Eg). reflexivity.
Qed.

(** The room that a handler finds when it wakes an instance evicted after
    [_persistState]: the players and the waiters that have a socket, in
    the order of the sockets. *)
Lemma restored_maps now r (socks : Sockets) :
  roomInv r ->
  NoDup (JsMap.keys socks) -> ~ In "" (JsMap.keys socks) ->
  strangersAreNew r socks ->
  let woken :=
    fst (_ensureInitialized now (Some (fst (_persistState r socks)))
           (snd (_persistState r socks))) in
  players woken = inSocketOrder revivePlayer (players r) socks
  /\ waitingRoom woken = inSocketOrder reviveWaiter (waitingRoom r) socks
  /\ JsMap.keys (players woken)
     = List.filter (fun k => JsMap.has k (players r)) (JsMap.keys socks)
  /\ JsMap.keys (waitingRoom woken)
     = List.filter (fun k => JsMap.has k (waitingRoom r)) (JsMap.keys socks)
  /\ roomInv woken.
Proof.
  intros Inv Hn He Hs woken.
  destruct (ensureInitialized_maps now (Some (fst (_persistState r socks)))
              (snd (_persistState r socks))) as [Hp [Hw Ht]].
  fold woken in Hp, Hw, Ht.
  unfold _persistState in Hp, Hw, Ht. cbn [fst snd] in Hp, Hw, Ht.
  rewrite (@save_closed r socks Inv Hn) in Hp, Hw.
  rewrite (@restoreMaps_saved r socks Inv Hn He Hs) in Hp, Hw.
  cbn [fst snd] in Hp, Hw. cbn [snapshotOf gs_timeLeft] in Ht.
  assert (Kp := keys_inSocketOrder revivePlayer (players r) socks).
  assert (Kw := keys_inSocketOrder reviveWaiter (waitingRoom r) socks).
  rewrite <- Hp in Kp. rewrite <- Hw in Kw.
  repeat split; try assumption.
  - rewrite Kp. apply NoDup_filter. exact Hn.
  - rewrite Kw. apply NoDup_filter. exact Hn.
  - intros k Hk Hkw. rewrite Kp in Hk. rewrite Kw in Hkw.
    apply filter_In in Hk as [_ Hk]. apply filter_In in Hkw as [_ Hkw].
    apply JsMapFacts.has_In in Hk. apply JsMapFacts.has_In in Hkw.
    exact (inv_disjoint Inv k Hk Hkw).
  - rewrite size_keys, Kp.
    assert (Hi : incl (List.filter (fun k => JsMap.has k (players r))
                         (JsMap.keys socks)) (JsMap.keys (players r))).
    { intros k Hk. apply filter_In in Hk as [_ Hk].
      apply JsMapFacts.has_In. exact Hk. }
    pose proof (NoDup_incl_length (NoDup_filter _ Hn) Hi) as Hl.
    pose proof (inv_capacity Inv) as Hc. rewrite size_keys in Hc. lia.
  - rewrite Ht. apply Inv.
Qed.

(** Waking promotes nobody, and what the handler does then promotes only
    on the way into LOBBY. *)
Lemma woken_promotes_only_into_lobby s i :
  let woken := fst (GameRoom.ensureInitialized (st_now s) i) in
  let after := GameRoom.room (fst (GameRoom.handle E s i)) in
  noPromotion woken after \/ intoLobby woken after.
Proof.
  cbv zeta. pose proof (handle_woken E s i) as H.
  destruct (st_trigger s) as [conn m|conn|] eqn:Et.
  - destruct m as [|name userId hat|x|].
    + rewrite H. left. apply noPromotion_incl. cbn [fst].
      unfold GameRoom.room, GameRoom.ensureInitialized.
      destruct (GameRoom.memory i); [apply incl_refl|].
      intros k [].
    + destruct H as [body [_ [Hr [_ [->|[c [y [Hc _]]]]]]]];
        [|discriminate Hc].
      rewrite Hr. apply handle_promotes_only_into_lobby.
    + destruct H as [body [_ [Hr [_ [->|[c [y [_ [_ ->]]]]]]]]].
      * rewrite Hr. apply handle_promotes_only_into_lobby.
      * rewrite Hr. left. apply noPromotion_incl. cbn [fst].
        destruct (Str.isEmpty c); [apply incl_refl|].
        unfold GameRoom.moveFallback.
        destruct (_ && _); [|apply incl_refl].
        destruct (Num.isNaN y); [apply incl_refl|].
        unfold placePlayer. cbn [players setPlayers].
        rewrite JsMapFacts.keys_update. apply incl_refl.
    + destruct H as [body [_ [Hr [_ [->|[c [y [Hc _]]]]]]]];
        [|discriminate Hc].
      rewrite Hr. apply handle_promotes_only_into_lobby.
  - destruct H as [body [_ [Hr [_ [->|[c [y [Hc _]]]]]]]]; [|discriminate Hc].
    rewrite Hr. apply handle_promotes_only_into_lobby.
  - destruct H as [body [_ [Hr [_ [->|[c [y [Hc _]]]]]]]]; [|discriminate Hc].
    rewrite Hr. apply handle_promotes_only_into_lobby.
Qed.

End Restored.

(** C5 (amended). Waiting-room entries are promoted to the active roster
    only by a transition into LOBBY from another state: the return to the
    lobby, which the GAME_OVER display timer runs (and which also runs
    when the roster empties outside LOBBY).  That return keeps the
    surviving players and promotes the waiters in the iteration order of
    the [waitingRoom] Map, as many as the remaining capacity (5 minus the
    surviving players) allows; the waiters that are not promoted stay
    queued, in that order.  This holds on an initialised instance and on
    one that the handler wakes first.  The Map order is the join order
    while the instance stays in memory: a handler removes entries or
    appends the connection that joins.  A handler that wakes an evicted
    instance rebuilds the Map from the sockets, in the order of
    [ctx.getWebSockets()], and promotion then follows that order. *)
Theorem C5_promotion_fifo_into_lobby (E : Env) :
  (* the return to the lobby promotes the head of the queue *)
  (forall r now, roomInv r ->
     let n := JsMap.size (players r) in
     let r' := fst (_returnToLobby now r) in
     state r' = LOBBY
     /\ JsMap.keys (players r')
        = JsMap.keys (players r)
          ++ firstn (5 - n) (JsMap.keys (waitingRoom r))
     /\ players r'
        = resetFrom 0 (players r)
          ++ promoteFrom n (firstn (5 - n) (waitingRoom r))
     /\ waitingRoom r' = skipn (5 - n) (waitingRoom r))
  /\ (forall r, reachable E r -> roomInv r)
  /\ (forall r now sendOk, state r = GAME_OVER ->
        fst (alarm E now sendOk r) = fst (_returnToLobby now r))
  (* no promotion without a transition into LOBBY: in memory *)
  /\ (forall r s id, reachable E r ->
        In id (JsMap.keys (waitingRoom r)) ->
        In id (JsMap.keys (players (fst (handle E s r)))) ->
        state r <> LOBBY /\ state (fst (handle E s r)) = LOBBY)
  (* the same when the handler wakes the instance first *)
  /\ (forall i s id,
        let woken := fst (GameRoom.ensureInitialized (st_now s) i) in
        let after := GameRoom.room (fst (GameRoom.handle E s i)) in
        (forall k, In k (JsMap.keys (players woken)) ->
                   ~ In k (JsMap.keys (waitingRoom woken))) ->
        In id (JsMap.keys (waitingRoom woken)) ->
        In id (JsMap.keys (players after)) ->
        state woken <> LOBBY /\ state after = LOBBY)
  (* in memory the queue is in join order *)
  /\ (forall r s, roomInv r ->
        let r' := fst (handle E s r) in
        queueKept r r'
        \/ exists conn name userId hat,
             st_trigger s = OnMessage conn (InJoin name userId hat)
             /\ queueJoined conn r r')
  (* a restore rebuilds the queue in the order of the sockets *)
  /\ (forall now r (socks : Sockets),
        roomInv r ->
        NoDup (JsMap.keys socks) -> ~ In "" (JsMap.keys socks) ->
        strangersAreNew r socks ->
        let woken :=
          fst (_ensureInitialized now (Some (fst (_persistState r socks)))
                 (snd (_persistState r socks))) in
        JsMap.keys (players woken)
        = List.filter (fun k => JsMap.has k (players r)) (JsMap.keys socks)
        /\ JsMap.keys (waitingRoom woken)
           = List.filter (fun k => JsMap.has k (waitingRoom r))
               (JsMap.keys socks)
        /\ roomInv woken).
Proof.
  split; [|split; [|split; [|split; [|split; [|split]]]]].
  - intros r now Hr n r'.
    destruct (@returnToLobby_spec now r Hr) as [Hs [Hp [Hw _]]].
    fold n in Hp, Hw. fold r' in Hs, Hp, Hw. change MAX_PLAYERS with 5%nat in *.
    repeat split; try assumption.
    rewrite Hp, keys_app, keys_resetFrom, keys_promoteFrom, keys_firstn.
    reflexivity.
  - intros r Hr. exact (reachable_inv Hr).
  - intros r now sendOk Hs. unfold alarm. rewrite Hs.
    apply fst_with_effects.
  - intros r s id Hr Hw Hp. apply reachable_inv in Hr.
    destruct (handle_promotes_only_into_lobby E s r) as [Hno|Hinto];
      [|exact Hinto].
    exfalso. destruct (Hno id Hp) as [Hin|Hout]; [|exact (Hout Hw)].
    exact (inv_disjoint Hr id Hin Hw).
  - intros i s id woken after Hr Hw Hp.
    destruct (woken_promotes_only_into_lobby E s i) as [Hno|Hinto];
      [|exact Hinto].
    exfalso. destruct (Hno id Hp) as [Hin|Hout]; [|exact (Hout Hw)].
    exact (Hr id Hin Hw).
  - intros r s Hr. apply handle_queue. exact Hr.
  - intros now r socks Inv Hn He Hs woken.
    destruct (@restored_maps now r socks Inv Hn He Hs) as [_ [_ [Kp [Kw Hi]]]].
    split; [exact Kp | split; [exact Kw | exact Hi]].
Qed.

(** With four players and the waiters "5", "6", "7", the return to the
    lobby promotes "5" alone; the promotion of "2" when player "1" leaves
    [waiterRoom] goes with a transition into LOBBY; waking the evicted
    [queueInstance] lists its waiters in socket order, and the promotion
    of "7" when "1" leaves goes with a transition into LOBBY. *)
Lemma C5_promotion_fifo_into_lobby_witness :
  (JsMap.keys (players (fst (_returnToLobby 30000 crowdedRoom)))
   = JsMap.keys (players crowdedRoom)
     ++ firstn (5 - JsMap.size (players crowdedRoom))
          (JsMap.keys (waitingRoom crowdedRoom)))
  /\ (state waiterRoom <> LOBBY
      /\ state (fst (handle sampleEnv (closeAt 25200 "1") waiterRoom)) = LOBBY)
  /\ (let woken :=
        fst (_ensureInitialized 25700
               (Some (fst (_persistState (GameRoom.room queueInstance)
                             queueSockets)))
               (snd (_persistState (GameRoom.room queueInstance)
                       queueSockets))) in
      JsMap.keys (waitingRoom woken)
      = List.filter
          (fun k => JsMap.has k (waitingRoom (GameRoom.room queueInstance)))
          (JsMap.keys queueSockets))
  /\ (let i := GameRoom.evict queueInstance in
      let s := closeAt 25700 "1" in
      state (fst (GameRoom.ensureInitialized (st_now s) i)) <> LOBBY
      /\ state (GameRoom.room (fst (GameRoom.handle sampleEnv s i))) = LOBBY)
  /\ (let s := joinAt 25300 "3" "Cy" in
      let r' := fst (handle sampleEnv s waiterRoom) in
      queueKept waiterRoom r'
      \/ exists conn name userId hat,
           st_trigger s = OnMessage conn (InJoin name userId hat)
           /\ queueJoined conn waiterRoom r').
Proof.
  destruct (C5_promotion_fifo_into_lobby sampleEnv)
    as [Hfifo [Hinv [_ [Honly [Hwoken [Hqueue Hrestore]]]]]].
  assert (Rc : reachable sampleEnv crowdedRoom)
    by (exists crowdedRun; unfold crowdedRoom; reflexivity).
  assert (Rq : reachable sampleEnv (GameRoom.room queueInstance))
    by (exists queueRun; vm_compute; reflexivity).
  assert (Hq : let woken :=
                 fst (_ensureInitialized 25700
                        (Some (fst (_persistState (GameRoom.room queueInstance)
                                      queueSockets)))
                        (snd (_persistState (GameRoom.room queueInstance)
                                queueSockets))) in
               JsMap.keys (players woken)
               = List.filter
                   (fun k => JsMap.has k (players (GameRoom.room queueInstance)))
                   (JsMap.keys queueSockets)
               /\ JsMap.keys (waitingRoom woken)
                  = List.filter
                      (fun k => JsMap.has k
                                  (waitingRoom (GameRoom.room queueInstance)))
                      (JsMap.keys queueSockets)
               /\ roomInv woken).
  { apply Hrestore.
    - exact (Hinv _ Rq).
    - vm_compute. repeat constructor; cbn; intuition discriminate.
    - vm_compute. intuition discriminate.
    - intros tag att Hin _ _. vm_compute in Hin.
      repeat (destruct Hin as [Hin|Hin]; [inversion Hin; reflexivity|]).
      destruct Hin. }
  split; [apply Hfifo; exact (Hinv _ Rc)|].
  split.
  { apply (Honly waiterRoom (closeAt 25200 "1") "2").
    - exists roundWithWaiter. unfold waiterRoom. reflexivity.
    - vm_compute. left. reflexivity.
    - vm_compute. left. reflexivity. }
  split; [apply Hq|].
  split;
    [|apply Hqueue, Hinv; exists roundWithWaiter; unfold waiterRoom;
      reflexivity].
  intros i s.
  assert (Es : GameRoom.stored i
               = Some (fst (_persistState (GameRoom.room queueInstance)
                              queueSockets))
               /\ GameRoom.sockets i
                  = snd (_persistState (GameRoom.room queueInstance)
                           queueSockets))
    by (vm_compute; split; reflexivity).
  apply (Hwoken i s "7").
  - unfold GameRoom.ensureInitialized. cbn [GameRoom.memory i GameRoom.evict].
    destruct Es as [-> ->]. apply (inv_disjoint (proj2 (proj2 Hq))).
  - vm_compute. left. reflexivity.
  - vm_compute. left. reflexivity.
Defined.

(** In [queueInstance] connection "1" plays and "2" to "7" wait, in the
    order of their joins.  When "1" leaves, the waiters "2" to "6" are
    promoted and "7" stays queued.  When the instance is evicted first,
    the handler rebuilds the queue in the order of the sockets, "7" to
    "2": now "7" to "3" are promoted, and "2", who joined first, stays
    queued. *)
Example restore_promotes_in_socket_order :
  let inMemory :=
    GameRoom.room
      (fst (GameRoom.handle sampleEnv (closeAt 25700 "1") queueInstance)) in
  let woken :=
    fst (GameRoom.ensureInitialized 25700 (GameRoom.evict queueInstance)) in
  let afterEviction :=
    GameRoom.room
      (fst (GameRoom.handle sampleEnv (closeAt 25700 "1")
              (GameRoom.evict queueInstance))) in
  JsMap.keys (waitingRoom (GameRoom.room queueInstance))
  = ["2"; "3"; "4"; "5"; "6"; "7"]
  /\ JsMap.keys (players inMemory) = ["2"; "3"; "4"; "5"; "6"]
  /\ JsMap.keys (waitingRoom inMemory) = ["7"]
  /\ JsMap.keys (waitingRoom woken) = ["7"; "6"; "5"; "4"; "3"; "2"]
  /\ JsMap.keys (players afterEviction) = ["7"; "6"; "5"; "4"; "3"]
  /\ JsMap.keys (waitingRoom afterEviction) = ["2"].
Proof. vm_compute. repeat split. Qed.

Section Connections.

Variable E : Env.

Lemma keys_fold_serialize {V : Type} (F : string -> V -> Attachment)
    (m : JsMap.t V) : forall socks : Sockets,
  JsMap.keys
    (fold_left (fun acc e => serializeAttachment (fst e) (F (fst e) (snd e)) acc)
       m socks)
  = JsMap.keys socks.
Proof.
  induction m as [|e m IH]; intro socks; [reflexivity|].
  cbn [fold_left]. rewrite IH. apply JsMapFacts.keys_update.
Qed.

Lemma keys_save r (socks : Sockets) :
  JsMap.keys (_savePlayerAttachments r socks) = JsMap.keys socks.
Proof.
  unfold _savePlayerAttachments. cbv zeta. rewrite !keys_fold_serialize.
  reflexivity.
Qed.

Lemma length_save r (socks : Sockets) :
  List.length (_savePlayerAttachments r socks) = List.length socks.
Proof.
  rewrite <- (length_map fst (_savePlayerAttachments r socks)).
  fold (JsMap.keys (_savePlayerAttachments r socks)).
  rewrite keys_save. apply length_map.
Qed.

Lemma fetch_facts r (socks : Sockets) :
  (List.length socks <= 20)%nat ->
  let out := fetch E r socks in
  let r' := fst (fst (fst out)) in
  let socks' := snd (fst (fst out)) in
  (List.length socks' <= 20)%nat
  /\ (snd out = RoomFull ->
      List.length socks = 20%nat /\ r' = r /\ socks' = socks
      /\ snd (fst out) = None)
  /\ (forall id, snd out = Upgraded id ->
      id = Number_toString E (Num.Fin (Num.ofZ (nextPlayerId r)))
      /\ JsMap.keys socks' = JsMap.keys socks ++ [id]
      /\ nextPlayerId r' = (nextPlayerId r + 1)%Z
      /\ state r' = state r /\ players r' = players r
      /\ waitingRoom r' = waitingRoom r /\ coins r' = coins r
      /\ timeLeft r' = timeLeft r
      /\ snd (fst out) = Some (snapshotOf r')).
Proof.
  intro Hl. cbv zeta. unfold fetch.
  destruct (20 <=? List.length socks)%nat eqn:Ec.
  - apply Nat.leb_le in Ec. cbn [fst snd].
    split; [exact Hl|]. split; [|discriminate].
    intros _. repeat split. lia.
  - apply Nat.leb_gt in Ec. cbv zeta. unfold _persistState. cbn [fst snd].
    split; [|split; [discriminate|]].
    + rewrite length_save, length_app. cbn [List.length]. lia.
    + intros id Hid. injection Hid as <-. rewrite keys_save.
      unfold JsMap.keys at 1. rewrite map_app. repeat split.
Qed.

End Connections.

(** X19. [fetch] keeps the number of sockets at 20 or below: with 20
    sockets it answers 503 and changes nothing; otherwise it accepts one
    socket, tagged with the next player id, and changes nothing of the
    room but the id counter, which it steps by one and stores. *)
Theorem X19_fetch_socket_ceiling (E : Env) (r : Room) (socks : Sockets) :
  (List.length socks <= 20)%nat ->
  let out := fetch E r socks in
  let r' := fst (fst (fst out)) in
  let socks' := snd (fst (fst out)) in
  (List.length socks' <= 20)%nat
  /\ (snd out = RoomFull ->
      List.length socks = 20%nat /\ r' = r /\ socks' = socks
      /\ snd (fst out) = None)
  /\ (forall id, snd out = Upgraded id ->
      id = Number_toString E (Num.Fin (Num.ofZ (nextPlayerId r)))
      /\ JsMap.keys socks' = JsMap.keys socks ++ [id]
      /\ nextPlayerId r' = (nextPlayerId r + 1)%Z
      /\ state r' = state r /\ players r' = players r
      /\ waitingRoom r' = waitingRoom r /\ coins r' = coins r
      /\ timeLeft r' = timeLeft r
      /\ snd (fst out) = Some (snapshotOf r')).
Proof. apply fetch_facts. Qed.

Lemma X19_fetch_socket_ceiling_witness :
  let out := fetch sampleEnv sessionRoom sessionSockets in
  (List.length (snd (fst (fst out))) <= 20)%nat
  /\ JsMap.keys (snd (fst (fst out))) = ["2"; "1"; "3"; "4"; "0"].
Proof.
  intro out.
  destruct (@X19_fetch_socket_ceiling sampleEnv sessionRoom sessionSockets)
    as [H1 [_ H3]]; [cbn; lia|].
  split; [exact H1|].
  destruct (H3 "0" eq_refl) as [_ [H _]]. exact H.
Defined.

Section Broadcast.

Lemma get_Some_has {V : Type} k (m : JsMap.t V) v :
  JsMap.get k m = Some v -> JsMap.has k m = true.
Proof.
  intro H. apply JsMapFacts.has_In. exact (get_Some_In _ _ H).
Qed.

Lemma targets_saved r : forall socks : Sockets,
  strangersAreNew r socks -> allAttached socks ->
  broadcastAllTargets (List.map (savedEntry r) socks)
  = filter (joined r) (JsMap.keys socks).
Proof.
  unfold broadcastAllTargets, joined.
  induction socks as [|[k a] socks IH]; intros Hs Ha; [reflexivity|].
  inversion Ha as [|? ? Hk Ha']; subst.
  assert (Hs' : strangersAreNew r socks)
    by (intros tag att H; apply Hs; right; exact H).
  specialize (IH Hs' Ha').
  cbn [List.map JsMap.keys fst filter].
  destruct (JsMap.get k (players r)) as [p|] eqn:Ep.
  - assert (Hsv : savedEntry r (k, a) = (k, Some (playerAttachment k p)))
      by (unfold savedEntry; cbn [fst]; rewrite Ep; reflexivity).
    rewrite Hsv, (get_Some_has _ _ Ep).
    cbn [snd att_role playerAttachment orb JsMap.keys List.map fst].
    f_equal. exact IH.
  - rewrite (get_None_has _ _ Ep). cbn [orb].
    destruct (JsMap.get k (waitingRoom r)) as [w|] eqn:Ew.
    + assert (Hsv : savedEntry r (k, a) = (k, Some (waiterAttachment k w)))
        by (unfold savedEntry; cbn [fst]; rewrite Ep, Ew; reflexivity).
      rewrite Hsv, (get_Some_has _ _ Ew).
      cbn [snd att_role waiterAttachment JsMap.keys List.map fst].
      f_equal. exact IH.
    + assert (Hsv : savedEntry r (k, a) = (k, a))
        by (unfold savedEntry; cbn [fst]; rewrite Ep, Ew; reflexivity).
      rewrite Hsv, (get_None_has _ _ Ew). cbn [snd] in Hk |- *.
      destruct a as [att|]; [|destruct (Hk eq_refl)].
      rewrite (Hs k att (or_introl eq_refl)
                 (get_None_has _ _ Ep) (get_None_has _ _ Ew)).
      exact IH.
Qed.

End Broadcast.

(** X20. Once the attachments are saved, [_broadcastAll] sends to the
    sockets of the players and of the waiters and to no other socket: a
    connection that has not joined gets no lobby, countdown or game-over
    message. *)
Theorem X20_broadcast_reaches_joined (r : Room) (socks : Sockets) :
  roomInv r -> NoDup (JsMap.keys socks) ->
  strangersAreNew r socks -> allAttached socks ->
  broadcastAllTargets (_savePlayerAttachments r socks)
  = filter (joined r) (JsMap.keys socks).
Proof.
  intros Inv Hn Hs Ha. rewrite (@save_closed r socks Inv Hn).
  apply targets_saved; assumption.
Qed.

Lemma X20_broadcast_reaches_joined_witness :
  broadcastAllTargets
    (_savePlayerAttachments sessionRoom
       [("2", Some (newAttachment "2")); ("1", Some (newAttachment "1"));
        ("3", Some (newAttachment "3")); ("4", Some (newAttachment "4"))])
  = ["2"; "1"; "3"].
Proof.
  rewrite X20_broadcast_reaches_joined.
  - reflexivity.
  - apply (@reachable_inv sampleEnv). exists sessionRun.
    unfold sessionRoom. reflexivity.
  - cbn. repeat constructor; cbn; intuition discriminate.
  - intros tag att Hin _ _. cbn in Hin.
    destruct Hin as [H|[H|[H|[H|[]]]]]; inversion H; reflexivity.
  - repeat constructor; discriminate.
Defined.

(* ================================================================== *)
(** ** Further properties: the database helpers *)
(* ================================================================== *)

Lemma awardCoins_statements l :
  awardCoins l
  = if (0 <? List.length (awardStatements l))%nat
    then Some (awardStatements l) else None.
Proof. reflexivity. Qed.

Section Tables.

Import Db.

Lemma selectUser_Some userId db u :
  selectUser userId db = Some u -> In u (users db) /\ user_id u = userId.
Proof.
  unfold selectUser. intro H. apply find_some in H as [Hin He].
  apply String.eqb_eq in He. split; assumption.
Qed.

Lemma selectUser_None userId db :
  selectUser userId db = None ->
  ~ In userId (List.map user_id (users db)).
Proof.
  unfold selectUser. intros H Hin. apply in_map_iff in Hin as [u [Hu Hin]].
  pose proof (find_none _ _ H u Hin) as He. cbv beta in He.
  rewrite Hu, String.eqb_refl in He. discriminate.
Qed.

Lemma ownsHat_In userId hatId db :
  ownsHat userId hatId db = true <-> In (userId, hatId) (user_hats db).
Proof.
  unfold ownsHat. rewrite existsb_exists. split.
  - intros [[a b] [Hin He]]. cbn [fst snd] in He.
    apply andb_true_iff in He as [Ha Hb].
    apply String.eqb_eq in Ha, Hb. subst. exact Hin.
  - intro Hin. exists (userId, hatId). split; [exact Hin|].
    cbn [fst snd]. rewrite !String.eqb_refl. reflexivity.
Qed.

Lemma ownsHat_false userId hatId db :
  ownsHat userId hatId db = false -> ~ In (userId, hatId) (user_hats db).
Proof.
  intros H Hin. apply ownsHat_In in Hin. rewrite Hin in H. discriminate.
Qed.

Lemma hatsOf_In userId hatId db :
  In hatId (hatsOf userId db) <-> In (userId, hatId) (user_hats db).
Proof.
  unfold hatsOf. rewrite in_map_iff. split.
  - intros [[a b] [Hb Hin]]. apply filter_In in Hin as [Hin He].
    cbn [fst snd] in *. apply String.eqb_eq in He. subst. exact Hin.
  - intro Hin. exists (userId, hatId). split; [reflexivity|].
    apply filter_In. split; [exact Hin|]. cbn [fst]. apply String.eqb_refl.
Qed.

(** An UPDATE that keeps the key keeps the keys of the table; its rows
    are old rows or changed rows that pass the CHECK constraints. *)
Lemma updateUsers_rows matches change rows rows' n :
  (forall u, user_id (change u) = user_id u) ->
  updateUsers matches change rows = Some (rows', n) ->
  List.map user_id rows' = List.map user_id rows
  /\ n = List.length (filter matches rows)
  /\ rows' = List.map (fun u => if matches u then change u else u) rows
  /\ (forall u, In u rows -> matches u = true -> checksHold (change u) = true).
Proof.
  intros Hk. unfold updateUsers. cbv zeta.
  destruct (forallb _ rows) eqn:Ef; [|discriminate].
  intro H. injection H as <- <-. split; [|split; [reflexivity|split]].
  - rewrite map_map. apply map_ext. intro u.
    destruct (matches u); [apply Hk | reflexivity].
  - reflexivity.
  - intros u Hin Hm. rewrite forallb_forall in Ef. specialize (Ef u Hin).
    rewrite Hm in Ef. exact Ef.
Qed.

Lemma filter_length_zero {A : Type} (f : A -> bool) l :
  List.length (filter f l) = 0%nat -> forall x, In x l -> f x = false.
Proof.
  induction l as [|a l IH]; intros H x Hin; [destruct Hin|].
  cbn [filter] in H. destruct (f a) eqn:Ea; [discriminate H|].
  destruct Hin as [<-|Hin]; [exact Ea | exact (IH H x Hin)].
Qed.

Lemma catalog_entry proto hatId hat :
  lookupHat proto hatId = OwnHat hat ->
  JsMap.has hatId HAT_ENTRIES = true /\ (0 <= hat_cost hat)%Z.
Proof.
  unfold lookupHat. destruct (JsMap.get hatId HAT_ENTRIES) as [h|] eqn:Eg.
  - intro H. injection H as <-. split.
    + apply JsMapFacts.has_In. exact (get_Some_In _ _ Eg).
    + revert Eg. unfold HAT_ENTRIES. cbn [JsMap.get].
      repeat (destruct (String.eqb hatId _);
              [intro H; injection H as <-; cbn; lia|]).
      discriminate.
  - destruct (proto hatId); discriminate.
Qed.

(** *** The invariant of the tables *)

Lemma addHat_inv db userId hatId :
  dbInv db ->
  In userId (List.map user_id (users db)) ->
  JsMap.has hatId HAT_ENTRIES = true ->
  ~ In (userId, hatId) (user_hats db) ->
  dbInv (mkDatabase (users db) (user_hats db ++ [(userId, hatId)])).
Proof.
  intros [Hu Hh Hf Hc He Hk] Hin Hcat Hnew.
  constructor; cbn [users user_hats]; try assumption.
  - apply NoDup_app; [exact Hh | repeat constructor; tauto |].
    intros a Ha [<-|[]]. exact (Hnew Ha).
  - intros h Hh'. apply in_app_or in Hh' as [Hh'|[<-|[]]];
      [exact (Hf h Hh') | exact Hin].
  - intros u Hu'. apply in_or_app. left. exact (He u Hu').
  - intros h Hh'. apply in_app_or in Hh' as [Hh'|[<-|[]]];
      [exact (Hk h Hh') | exact Hcat].
Qed.

Lemma getOrCreateUser_inv userId db :
  dbInv db -> dbInv (fst (getOrCreateUser userId db)).
Proof.
  intro Inv. unfold getOrCreateUser.
  destruct (selectUser userId db) as [u|] eqn:Es; [exact Inv|].
  destruct (ownsHat userId "cap" db) eqn:Eo; [exact Inv|].
  cbv zeta.
  assert (Inv' : dbInv (mkDatabase (users db ++ [newUser userId])
                          (user_hats db ++ [(userId, "cap")]))).
  { apply selectUser_None in Es. apply ownsHat_false in Eo.
    destruct Inv as [Hu Hh Hf Hc He Hk].
    constructor; cbn [users user_hats].
    - rewrite map_app. cbn [List.map newUser user_id].
      apply NoDup_app; [exact Hu | repeat constructor; tauto |].
      intros a Ha [<-|[]]. exact (Es Ha).
    - apply NoDup_app; [exact Hh | repeat constructor; tauto |].
      intros a Ha [<-|[]]. exact (Eo Ha).
    - intros h Hh'. rewrite map_app. apply in_or_app.
      apply in_app_or in Hh' as [Hh'|[<-|[]]];
        [left; exact (Hf h Hh') | right; left; reflexivity].
    - intros u Hu'. apply in_app_or in Hu' as [Hu'|[<-|[]]];
        [exact (Hc u Hu') | cbn; lia].
    - intros u Hu'. apply in_or_app.
      apply in_app_or in Hu' as [Hu'|[<-|[]]];
        [left; exact (He u Hu') | right; left; reflexivity].
    - intros h Hh'. apply in_app_or in Hh' as [Hh'|[<-|[]]];
        [exact (Hk h Hh') | reflexivity]. }
  destruct (selectUser userId (mkDatabase _ _)); exact Inv'.
Qed.

Lemma update_inv db rows n matches change :
  dbInv db ->
  (forall u, user_id (change u) = user_id u) ->
  updateUsers matches change (users db) = Some (rows, n) ->
  (forall u, In u (users db) -> matches u = true ->
     (coins_balance (change u) <= coins_total (change u))%Z
     /\ In (user_id u, equipped_hat (change u)) (user_hats db)) ->
  dbInv (mkDatabase rows (user_hats db)).
Proof.
  intros [Hu Hh Hf Hc He Hk] Hid Hup Hch.
  destruct (@updateUsers_rows _ _ _ _ _ Hid Hup) as [Hids [_ [Hrows Hok]]].
  constructor; cbn [users user_hats]; try assumption.
  - rewrite Hids. exact Hu.
  - rewrite Hids. exact Hf.
  - intros u' Hin. rewrite Hrows in Hin.
    apply in_map_iff in Hin as [u [<- Hin]].
    destruct (matches u) eqn:Em; [|exact (Hc u Hin)].
    destruct (Hch u Hin Em) as [Hle _].
    specialize (Hok u Hin Em). unfold checksHold in Hok.
    apply andb_true_iff in Hok as [_ Hb]. apply Z.leb_le in Hb. lia.
  - intros u' Hin. rewrite Hrows in Hin.
    apply in_map_iff in Hin as [u [<- Hin]].
    destruct (matches u) eqn:Em; [|exact (He u Hin)].
    rewrite Hid. exact (proj2 (Hch u Hin Em)).
Qed.

Lemma buyHat_inv proto userId hatId db :
  dbInv db -> dbInv (fst (buyHat proto userId hatId db)).
Proof.
  intro Inv. unfold buyHat.
  destruct (lookupHat proto hatId) as [hat| |] eqn:El; try exact Inv.
  - destruct (selectUser userId db) as [user|] eqn:Es; [|exact Inv].
    destruct (ownsHat userId hatId db) eqn:Eo; [exact Inv|].
    destruct (negb (meetsAchievement hat user)); [exact Inv|].
    destruct (coins_balance user <? hat_cost hat)%Z; [exact Inv|].
    destruct (updateUsers _ _ (users db)) as [[rows n]|] eqn:Eu; [|exact Inv].
    destruct n as [|n]; [exact Inv|]. cbv zeta.
    destruct (@catalog_entry _ _ _ El) as [Hcat Hcost].
    assert (Inv1 : dbInv (mkDatabase rows (user_hats db))).
    { apply (fun Hid => @update_inv db rows _ _ _ Inv Hid Eu); [intro; reflexivity|].
      intros u Hin Hm. cbn [coins_balance coins_total equipped_hat].
      split; [|apply Inv; exact Hin].
      pose proof (inv_checks Inv u Hin). lia. }
    apply getOrCreateUser_inv.
    destruct (ownsHat userId hatId (mkDatabase rows (user_hats db))) eqn:Eo1;
      [exact Inv1|].
    apply (@addHat_inv (mkDatabase rows (user_hats db)) userId hatId Inv1);
      cbn [users user_hats].
    + destruct ((fun Hid => @updateUsers_rows _ _ _ _ _ Hid Eu) (fun u => eq_refl))
        as [Hids _].
      rewrite Hids. apply selectUser_Some in Es as [Hin <-].
      apply in_map. exact Hin.
    + exact Hcat.
    + apply ownsHat_false in Eo. exact Eo.
  - destruct (selectUser userId db); [|exact Inv].
    destruct (ownsHat userId hatId db); exact Inv.
Qed.

Lemma equipHat_inv proto userId hatId db :
  dbInv db -> dbInv (fst (equipHat proto userId hatId db)).
Proof.
  intro Inv. unfold equipHat.
  assert (Go : dbInv (fst
    match selectUser userId db with
    | Some _ =>
        if negb (ownsHat userId hatId db) then (db, Error 403 "Hat not owned")
        else
          match updateUsers (fun u => String.eqb (user_id u) userId)
                  (fun u => mkUserRow (user_id u) (display_name u)
                              (coins_total u) (coins_balance u) (wins u)
                              (games_played u) hatId)
                  (users db) with
          | Some (rows, _) =>
              getOrCreateUser userId (mkDatabase rows (user_hats db))
          | None => (db, Throws)
          end
    | None => (db, Error 404 "User not found")
    end)).
  { destruct (selectUser userId db) as [user|]; [|exact Inv].
    destruct (ownsHat userId hatId db) eqn:Eo; [|exact Inv]. cbn [negb].
    destruct (updateUsers _ _ (users db)) as [[rows n]|] eqn:Eu; [|exact Inv].
    apply getOrCreateUser_inv.
    apply (fun Hid => @update_inv db rows _ _ _ Inv Hid Eu); [intro; reflexivity|].
    intros u Hin Hm. cbn [coins_balance coins_total equipped_hat].
    split; [pose proof (inv_checks Inv u Hin); lia|].
    apply String.eqb_eq in Hm. rewrite Hm. apply ownsHat_In. exact Eo. }
  destruct (lookupHat proto hatId); [exact Go | exact Go | exact Inv].
Qed.

Lemma runAward_inv st db db' :
  dbInv db -> as_balance st = as_total st ->
  runAward st db = Some db' -> dbInv db'.
Proof.
  intros Inv Hb. unfold runAward.
  destruct (updateUsers _ _ (users db)) as [[rows n]|] eqn:Eu; [|discriminate].
  intro H. injection H as <-.
  apply (fun Hid => @update_inv db rows _ _ _ Inv Hid Eu); [intro; reflexivity|].
  intros u Hin Hm. cbn [coins_balance coins_total equipped_hat].
  split; [pose proof (inv_checks Inv u Hin); lia | apply Inv; exact Hin].
Qed.

Lemma batch_inv sts : forall db db',
  dbInv db -> Forall (fun st => as_balance st = as_total st) sts ->
  batch sts db = Some db' -> dbInv db'.
Proof.
  induction sts as [|st sts IH]; intros db db' Inv Hf.
  - intro H. injection H as <-. exact Inv.
  - inversion Hf as [|? ? Hst Hf']; subst. cbn [batch].
    destruct (runAward st db) as [db1|] eqn:Er; [|discriminate].
    apply IH; [exact (@runAward_inv st db db1 Inv Hst Er) | exact Hf'].
Qed.

Lemma awardStatements_even l :
  Forall (fun st => as_balance st = as_total st) (awardStatements l).
Proof.
  induction l as [|a l IH]; [constructor|].
  cbn [awardStatements].
  destruct (negb (isValidUUID (ca_userId a))); [exact IH|].
  constructor; [reflexivity | exact IH].
Qed.

Lemma awardCoins_inv l db : dbInv db -> dbInv (fst (Db.awardCoins l db)).
Proof.
  intro Inv. unfold Db.awardCoins. rewrite awardCoins_statements.
  destruct (0 <? List.length (awardStatements l))%nat; [|exact Inv].
  destruct (batch (awardStatements l) db) as [db'|] eqn:Eb; [|exact Inv].
  exact (@batch_inv _ _ _ Inv (awardStatements_even l) Eb).
Qed.

End Tables.

(** X21. Every helper of db.js keeps the tables consistent, whatever its
    arguments: one row per user, one row per user and hat, every hat row
    belongs to a user, the balance is between 0 and the total of coins
    earned, the equipped hat is owned, and every owned hat is an entry of
    the catalog. *)
Theorem X21_database_invariant (proto : string -> bool)
    (userId hatId : string) (coinsByUser : list CoinAward) (db : Db.Database) :
  dbInv db ->
  dbInv (fst (Db.getOrCreateUser userId db))
  /\ dbInv (fst (Db.buyHat proto userId hatId db))
  /\ dbInv (fst (Db.equipHat proto userId hatId db))
  /\ dbInv (fst (Db.awardCoins coinsByUser db)).
Proof.
  intro Inv. split; [|split; [|split]].
  - apply getOrCreateUser_inv. exact Inv.
  - apply buyHat_inv. exact Inv.
  - apply equipHat_inv. exact Inv.
  - apply awardCoins_inv. exact Inv.
Qed.

Lemma X21_database_invariant_witness :
  dbInv sampleDb
  /\ dbInv (fst (Db.buyHat sampleProto
                   "123e4567-e89b-12d3-a456-426614174000" "beret" sampleDb)).
Proof.
  assert (Inv : dbInv sampleDb).
  { constructor; unfold sampleDb; cbn [Db.users Db.user_hats List.map
                                        Db.user_id].
    - repeat constructor. intros [].
    - repeat constructor. intros [].
    - intros h [<-|[]]. left. reflexivity.
    - intros u [<-|[]]. cbn. lia.
    - intros u [<-|[]]. left. reflexivity.
    - intros h [<-|[]]. reflexivity. }
  split; [exact Inv|].
  apply (@X21_database_invariant sampleProto
           "123e4567-e89b-12d3-a456-426614174000" "beret" [] sampleDb Inv).
Defined.

Section Shop.

Import Db.

(** Reading a user from a table after an UPDATE that keeps the key. *)
Lemma find_changed (g : UserRow -> UserRow) v rows :
  (forall u, user_id (g u) = user_id u) ->
  find (fun u => String.eqb (user_id u) v) (List.map g rows)
  = option_map g (find (fun u => String.eqb (user_id u) v) rows).
Proof.
  intro Hg. induction rows as [|u rows IH]; [reflexivity|].
  cbn [List.map find]. rewrite Hg.
  destruct (String.eqb (user_id u) v); [reflexivity | exact IH].
Qed.

Lemma find_untouched (matches : UserRow -> bool) (change : UserRow -> UserRow)
    v rows :
  (forall u, user_id (change u) = user_id u) ->
  (forall u, user_id u = v -> matches u = false) ->
  find (fun u => String.eqb (user_id u) v)
    (List.map (fun u => if matches u then change u else u) rows)
  = find (fun u => String.eqb (user_id u) v) rows.
Proof.
  intros Hc Hm. rewrite find_changed.
  - destruct (find _ rows) as [u|] eqn:Ef; [|reflexivity].
    apply find_some in Ef as [_ He]. apply String.eqb_eq in He.
    cbn [option_map]. rewrite (Hm u He). reflexivity.
  - intro u. destruct (matches u); [apply Hc | reflexivity].
Qed.

Lemma getOrCreateUser_existing userId db user :
  selectUser userId db = Some user ->
  getOrCreateUser userId db = (db, Profile user (hatsOf userId db)).
Proof. unfold getOrCreateUser. intros ->. reflexivity. Qed.

Lemma buyHat_facts proto userId hatId db :
  let out := buyHat proto userId hatId db in
  match snd out with
  | Profile user hats =>
      exists hat old,
        lookupHat proto hatId = OwnHat hat
        /\ selectUser userId db = Some old
        /\ ownsHat userId hatId db = false
        /\ meetsAchievement hat old = true
        /\ (hat_cost hat <= coins_balance old)%Z
        /\ user = afterPurchase (hat_cost hat) old
        /\ user_hats (fst out) = user_hats db ++ [(userId, hatId)]
        /\ (forall v, v <> userId ->
              selectUser v (fst out) = selectUser v db)
        /\ In hatId hats
  | _ => fst out = db
  end.
Proof.
  cbv zeta. unfold buyHat.
  destruct (lookupHat proto hatId) as [hat| |] eqn:El; try reflexivity.
  - destruct (selectUser userId db) as [old|] eqn:Es; [|reflexivity].
    destruct (ownsHat userId hatId db) eqn:Eo; [reflexivity|].
    destruct (meetsAchievement hat old) eqn:Em; [|reflexivity]. cbn [negb].
    destruct (coins_balance old <? hat_cost hat)%Z eqn:Ec; [reflexivity|].
    apply Z.ltb_ge in Ec.
    destruct (updateUsers _ _ (users db)) as [[rows n]|] eqn:Eu;
      [|reflexivity].
    destruct ((fun Hid => @updateUsers_rows _ _ _ _ _ Hid Eu)
                (fun u => eq_refl)) as [_ [_ [Hrows _]]].
    destruct n as [|n]; [reflexivity|]. cbv zeta.
    assert (Eo1 : ownsHat userId hatId (mkDatabase rows (user_hats db)) = false)
      by exact Eo.
    rewrite Eo1.
    set (db2 := mkDatabase rows (user_hats db ++ [(userId, hatId)])).
    assert (Hsel : selectUser userId db2 = Some (afterPurchase (hat_cost hat) old)).
    { unfold selectUser, db2. cbn [users]. rewrite Hrows, find_changed.
      - unfold selectUser in Es. rewrite Es. cbn [option_map].
        destruct (selectUser_Some _ _ Es) as [_ Hid].
        apply String.eqb_eq in Hid. rewrite Hid.
        cbn [andb]. apply Z.leb_le in Ec. rewrite Ec. reflexivity.
      - intro u. destruct (_ && _); reflexivity. }
    rewrite (getOrCreateUser_existing _ _ Hsel). cbn [fst snd].
    exists hat, old. repeat split; try assumption.
    + intros v Hv. unfold selectUser, db2. cbn [users]. rewrite Hrows.
      apply find_untouched; [intro; reflexivity|].
      intros u Hu. apply andb_false_iff. left.
      apply String.eqb_neq. rewrite Hu. exact Hv.
    + apply hatsOf_In. unfold db2. cbn [user_hats].
      apply in_or_app. right. left. reflexivity.
  - destruct (selectUser userId db); [|reflexivity].
    destruct (ownsHat userId hatId db); reflexivity.
Qed.

Lemma equipHat_facts proto userId hatId db :
  let out := equipHat proto userId hatId db in
  match snd out with
  | Profile user hats =>
      exists old,
        lookupHat proto hatId <> Missing
        /\ selectUser userId db = Some old
        /\ ownsHat userId hatId db = true
        /\ user = wearing hatId old
        /\ user_hats (fst out) = user_hats db
        /\ hats = hatsOf userId db
        /\ (forall v, v <> userId ->
              selectUser v (fst out) = selectUser v db)
  | _ => fst out = db
  end.
Proof.
  cbv zeta. unfold equipHat.
  destruct (lookupHat proto hatId) eqn:El; [ | | reflexivity].
  all: destruct (selectUser userId db) as [old|] eqn:Es; [|reflexivity].
  all: destruct (ownsHat userId hatId db) eqn:Eo; [|reflexivity]; cbn [negb].
  all: destruct (updateUsers _ _ (users db)) as [[rows n]|] eqn:Eu;
    [|reflexivity].
  all: destruct ((fun Hid => @updateUsers_rows _ _ _ _ _ Hid Eu)
                   (fun u => eq_refl)) as [_ [_ [Hrows _]]].
  all: assert (Hsel : selectUser userId (mkDatabase rows (user_hats db))
                      = Some (wearing hatId old))
    by (unfold selectUser; cbn [users]; rewrite Hrows, find_changed;
        [ unfold selectUser in Es; rewrite Es; cbn [option_map];
          destruct (selectUser_Some _ _ Es) as [_ Hid];
          apply String.eqb_eq in Hid; rewrite Hid; reflexivity
        | intro u; destruct (String.eqb _ _); reflexivity ]).
  all: rewrite (getOrCreateUser_existing _ _ Hsel); cbn [fst snd].
  all: exists old; repeat split; try assumption; try discriminate.
  all: intros v Hv; unfold selectUser; cbn [users]; rewrite Hrows.
  all: apply find_untouched; [intro; reflexivity|].
  all: intros u Hu; apply String.eqb_neq; rewrite Hu; exact Hv.
Qed.

End Shop.

(** X22. [buyHat] either changes nothing and reports an error, or sells a
    hat of the catalog to an existing user who did not own it, meets its
    achievement and can pay: the balance goes down by exactly the cost,
    the total of coins earned stays, one row for the hat is added, the
    other users are untouched and the hat is in the list given back. *)
Theorem X22_buyHat_contract (proto : string -> bool) (userId hatId : string)
    (db : Db.Database) :
  let out := Db.buyHat proto userId hatId db in
  match snd out with
  | Db.Profile user hats =>
      exists hat old,
        Db.lookupHat proto hatId = Db.OwnHat hat
        /\ Db.selectUser userId db = Some old
        /\ Db.ownsHat userId hatId db = false
        /\ Db.meetsAchievement hat old = true
        /\ (Db.hat_cost hat <= Db.coins_balance old)%Z
        /\ user = afterPurchase (Db.hat_cost hat) old
        /\ Db.user_hats (fst out) = Db.user_hats db ++ [(userId, hatId)]
        /\ (forall v, v <> userId ->
              Db.selectUser v (fst out) = Db.selectUser v db)
        /\ In hatId hats
  | _ => fst out = db
  end.
Proof. apply buyHat_facts. Qed.

(** X23. [equipHat] either changes nothing and reports an error, or puts
    on a hat that the user owns: only the [equipped_hat] of that user
    changes, and the hats owned stay as they are. *)
Theorem X23_equipHat_contract (proto : string -> bool) (userId hatId : string)
    (db : Db.Database) :
  let out := Db.equipHat proto userId hatId db in
  match snd out with
  | Db.Profile user hats =>
      exists old,
        Db.lookupHat proto hatId <> Db.Missing
        /\ Db.selectUser userId db = Some old
        /\ Db.ownsHat userId hatId db = true
        /\ user = wearing hatId old
        /\ Db.user_hats (fst out) = Db.user_hats db
        /\ hats = Db.hatsOf userId db
        /\ (forall v, v <> userId ->
              Db.selectUser v (fst out) = Db.selectUser v db)
  | _ => fst out = db
  end.
Proof. apply equipHat_facts. Qed.

Example sample_purchase :
  snd (Db.buyHat sampleProto "123e4567-e89b-12d3-a456-426614174000" "beret"
         sampleDb)
  = Db.Profile
      (Db.mkUserRow "123e4567-e89b-12d3-a456-426614174000" "Ann" 400 100 1 7
         "cap")
      ["cap"; "beret"].
Proof. vm_compute. reflexivity. Qed.

Example sample_refusals :
  snd (Db.buyHat sampleProto "123e4567-e89b-12d3-a456-426614174000" "wizard"
         sampleDb) = Db.Error 403 "Not enough coins"
  /\ snd (Db.buyHat sampleProto "123e4567-e89b-12d3-a456-426614174000" "viking"
            sampleDb) = Db.Error 403 "Achievement required: Win 3 games"
  /\ snd (Db.equipHat sampleProto "123e4567-e89b-12d3-a456-426614174000"
            "beret" sampleDb) = Db.Error 403 "Hat not owned".
Proof. vm_compute. repeat split. Qed.

Section Booking.

Import Db.

Lemma credited_nil u : credited [] u = u.
Proof.
  destruct u. unfold credited. cbn. rewrite !Z.add_0_r. reflexivity.
Qed.

Lemma credited_skip a l u :
  bookedFor (user_id u) a = false -> credited (a :: l) u = credited l u.
Proof.
  intro H. unfold credited, coinsFor, winsFor, roundsFor.
  cbn [fold_right nameAfter]. rewrite H. reflexivity.
Qed.

(** The row that the UPDATE for [a] makes of [u]. *)
Lemma credited_step a l u :
  bookedFor (user_id u) a = true ->
  credited (a :: l) u
  = credited l
      (mkUserRow (user_id u)
         (match as_displayName (awardStatement a) with
          | Some n => n
          | None => display_name u
          end)
         (coins_total u + as_total (awardStatement a))%Z
         (coins_balance u + as_balance (awardStatement a))%Z
         (wins u + as_wins (awardStatement a))%Z
         (games_played u + 1)%Z (equipped_hat u)).
Proof.
  intro H. unfold credited, coinsFor, winsFor, roundsFor.
  cbn [fold_right nameAfter user_id display_name coins_total coins_balance
       wins games_played equipped_hat awardStatement as_displayName as_total
       as_balance as_wins].
  rewrite H. cbn [andb].
  destruct (Str.isEmpty (ca_name a)); destruct (ca_isWinner a); cbn [negb];
    f_equal; lia.
Qed.

Lemma coinsFor_nonneg userId l :
  Forall (fun a => (0 <= ca_coinsEarned a)%Z) l -> (0 <= coinsFor userId l)%Z.
Proof.
  induction 1 as [|a l Ha _ IH]; cbn [coinsFor fold_right]; [lia|].
  fold (coinsFor userId l). destruct (bookedFor userId a); lia.
Qed.

Lemma winsFor_nonneg userId l : (0 <= winsFor userId l)%Z.
Proof.
  induction l as [|a l IH]; cbn [winsFor fold_right]; [lia|].
  fold (winsFor userId l). destruct (_ && _); lia.
Qed.

Lemma batch_credited l : forall db,
  Forall (fun a => (0 <= ca_coinsEarned a)%Z) l ->
  (forall u, In u (users db) ->
     (0 <= coins_total u)%Z /\ (0 <= coins_balance u)%Z) ->
  batch (awardStatements l) db
  = Some (mkDatabase (List.map (credited l) (users db)) (user_hats db)).
Proof.
  induction l as [|a l IH]; intros db Hl Hdb.
  - cbn [awardStatements batch]. f_equal.
    rewrite (map_ext _ (fun u => u) credited_nil), map_id.
    destruct db; reflexivity.
  - inversion Hl as [|? ? Ha Hl']; subst. cbn [awardStatements].
    destruct (isValidUUID (ca_userId a)) eqn:Ev; cbn [negb].
    + cbn [batch]. unfold runAward, updateUsers. cbv zeta.
      cbn [as_userId awardStatement].
      match goal with
      | |- context [forallb ?f (users db)] =>
          assert (Hok : forallb f (users db) = true)
      end.
      { apply forallb_forall. intros u Hu. destruct (Hdb u Hu) as [H1 H2].
        destruct (String.eqb (user_id u) (ca_userId a)); [|reflexivity].
        cbn [negb orb]. unfold checksHold.
        cbn [coins_total coins_balance as_total as_balance awardStatement].
        apply andb_true_iff. split; apply Z.leb_le; lia. }
      rewrite Hok. rewrite IH; [|exact Hl'|].
      * cbn [users user_hats]. f_equal. f_equal. rewrite map_map.
        apply map_ext. intro u.
        destruct (String.eqb (user_id u) (ca_userId a)) eqn:Eu.
        -- symmetry. apply credited_step. unfold bookedFor.
           rewrite Ev, Eu. reflexivity.
        -- symmetry. apply credited_skip. unfold bookedFor.
           rewrite Ev, Eu. reflexivity.
      * cbn [users]. intros u' Hu'. apply in_map_iff in Hu' as [u [<- Hu]].
        destruct (Hdb u Hu) as [H1 H2].
        destruct (String.eqb (user_id u) (ca_userId a)); [|split; assumption].
        cbn [coins_total coins_balance as_total as_balance awardStatement].
        split; lia.
    + rewrite IH; [|exact Hl' | exact Hdb]. f_equal. f_equal.
      apply map_ext. intro u. symmetry. apply credited_skip.
      unfold bookedFor. rewrite Ev. reflexivity.
Qed.

Lemma awardCoins_credited l db :
  Forall (fun a => (0 <= ca_coinsEarned a)%Z) l ->
  (forall u, In u (users db) ->
     (0 <= coins_total u)%Z /\ (0 <= coins_balance u)%Z) ->
  Db.awardCoins l db
  = (mkDatabase (List.map (credited l) (users db)) (user_hats db), false).
Proof.
  intros Hl Hdb. unfold Db.awardCoins. rewrite awardCoins_statements.
  pose proof (batch_credited db Hl Hdb) as Hb.
  destruct (awardStatements l) as [|st sts] eqn:Es.
  - cbn [List.length Nat.ltb Nat.leb]. cbn [batch] in Hb.
    injection Hb as Hb. rewrite <- Hb. reflexivity.
  - cbn [List.length Nat.ltb Nat.leb]. rewrite Hb. reflexivity.
Qed.

Lemma credited_achievements l hat u :
  Forall (fun a => (0 <= ca_coinsEarned a)%Z) l ->
  meetsAchievement hat u = true -> meetsAchievement hat (credited l u) = true.
Proof.
  intros Hl. unfold meetsAchievement.
  destruct (hat_achievement hat) as [a|]; [|reflexivity].
  pose proof (coinsFor_nonneg (user_id u) Hl).
  pose proof (winsFor_nonneg (user_id u) l).
  destruct (ach_type a); cbn [credited wins coins_total]; intro Hm;
    [apply Z.leb_le; apply Z.leb_le in Hm; lia
    |apply Z.leb_le; apply Z.leb_le in Hm; lia
    |discriminate].
Qed.

End Booking.

(** X24. With awards that are not negative, no negative amount in the
    table, and every amount a safe integer before and after the batch,
    [awardCoins] does not fail and changes each row of [users] on its own:
    the balance and the total grow by the coins of the entries booked for
    that user, the wins by the number of winning entries, the games played
    by the number of entries, and the display name is the last one given.
    No row is added: an entry for a user without a row is lost.  No user
    loses an achievement.  The bound keeps the sums within the integers
    that JavaScript numbers and SQLite integers both hold exactly; beyond
    it the database rounds, which the integers of the model do not. *)
Theorem X24_awardCoins_books_rows (l : list CoinAward) (db : Db.Database) :
  Forall (fun a => (0 <= ca_coinsEarned a <= MAX_SAFE_INTEGER)%Z) l ->
  (forall u, In u (Db.users db) ->
     (0 <= Db.coins_total u)%Z /\ (0 <= Db.coins_balance u)%Z) ->
  (forall u, In u (Db.users db) -> amountsSafe u /\ amountsSafe (credited l u)) ->
  Db.awardCoins l db
  = (Db.mkDatabase (List.map (credited l) (Db.users db)) (Db.user_hats db),
     false)
  /\ (forall hat u, Db.meetsAchievement hat u = true ->
        Db.meetsAchievement hat (credited l u) = true).
Proof.
  intros Hl Hdb _.
  assert (Hl' : Forall (fun a => (0 <= ca_coinsEarned a)%Z) l).
  { apply (Forall_impl _ (P := fun a => (0 <= ca_coinsEarned a
                                         <= MAX_SAFE_INTEGER)%Z));
      [intros a Ha; lia | exact Hl]. }
  split; [exact (@awardCoins_credited l db Hl' Hdb)|].
  intros hat u. apply credited_achievements. exact Hl'.
Qed.

Lemma X24_awardCoins_books_rows_witness :
  Db.users (fst (Db.awardCoins sampleBatch sampleDb))
  = [ Db.mkUserRow "123e4567-e89b-12d3-a456-426614174000" "Annie" 540 440 2 9
        "cap" ].
Proof.
  destruct (@X24_awardCoins_books_rows sampleBatch sampleDb) as [H _].
  - repeat constructor; cbn; unfold MAX_SAFE_INTEGER; lia.
  - intros u [<-|[]]. cbn. lia.
  - intros u [<-|[]].
    unfold amountsSafe, safeInteger, MAX_SAFE_INTEGER. vm_compute.
    repeat split; discriminate.
  - rewrite H. reflexivity.
Defined.

(* ================================================================== *)
(** ** Further properties: the worker *)
(* ================================================================== *)

Section Gate.

Variable urlHost : string -> option string.
Variable proto : string -> bool.

(** What holds of an answer that leaves the tables alone and does not
    come from the room. *)
Lemma untouched_facts (P Q : Prop) db (resp : Response) :
  resp <> FromRoom ->
  (snd (db, resp) = FromRoom -> P)
  /\ (fst (db, resp) <> db -> Q)
  /\ (dbInv db -> dbInv (fst (db, resp))).
Proof.
  intro Hr. cbn [fst snd]. split; [|split].
  - intro H. destruct (Hr H).
  - intro H. destruct (H eq_refl).
  - auto.
Qed.

Lemma answer_facts out :
  fst (answer out) = fst out /\ snd (answer out) <> FromRoom.
Proof.
  unfold answer. destruct (snd out) as [user hats|status message|].
  - split; [reflexivity | discriminate].
  - destruct (Str.isEmpty message); split; try reflexivity; discriminate.
  - split; [reflexivity | discriminate].
Qed.

Lemma hatRoute_facts helper rq db :
  (forall u h, dbInv db -> dbInv (fst (helper u h db))) ->
  let out := hatRoute helper rq db in
  (snd out = FromRoom -> False)
  /\ (fst out <> db ->
      exists u h, rq_body rq = JsonFields (JString u) h
                  /\ isValidUUID u = true)
  /\ (dbInv db -> dbInv (fst out)).
Proof.
  intro Hh. cbv zeta. unfold hatRoute.
  destruct (rq_body rq) as [| |userId hatId];
    try (apply untouched_facts; discriminate).
  unfold isValidUUIDValue.
  destruct userId as [| | | |u|];
    try (apply untouched_facts; discriminate).
  destruct (isValidUUID u) eqn:Ev;
    [|apply untouched_facts; discriminate].
  destruct (hatIdValue hatId) as [h|];
    [|apply untouched_facts; discriminate].
  destruct (answer_facts (helper u h db)) as [Hf Hs]. rewrite Hf.
  split; [exact Hs|]. split.
  - intros _. exists u, hatId. split; [reflexivity | exact Ev].
  - apply Hh.
Qed.

Lemma handleAPI_facts rq db :
  let out := handleAPI proto rq db in
  (snd out = FromRoom -> False)
  /\ (fst out <> db ->
      exists u, namedUser rq = Some u /\ isValidUUID u = true)
  /\ (dbInv db -> dbInv (fst out)).
Proof.
  cbv zeta. unfold handleAPI, namedUser.
  destruct (String.eqb (rq_pathname rq) "/api/profile") eqn:E1; cbn [andb].
  - destruct (String.eqb (rq_method rq) "GET").
    + destruct (rq_userId rq) as [u|];
        [|apply untouched_facts; discriminate].
      destruct (isValidUUID u) eqn:Ev;
        [|apply untouched_facts; discriminate].
      destruct (answer_facts (Db.getOrCreateUser u db)) as [Hf Hs].
      rewrite Hf. split; [exact Hs|]. split.
      * intros _. exists u. split; [reflexivity | exact Ev].
      * apply getOrCreateUser_inv.
    + apply String.eqb_eq in E1. rewrite E1. cbn [String.eqb Ascii.eqb
        Bool.eqb andb]. apply untouched_facts. discriminate.
  - destruct (String.eqb (rq_pathname rq) "/api/hat/buy"
              && String.eqb (rq_method rq) "POST").
    + destruct (@hatRoute_facts (Db.buyHat proto) rq db) as [H1 [H2 H3]].
      * intros u h. apply buyHat_inv.
      * split; [exact H1|]. split; [|exact H3].
        intro H. destruct (H2 H) as [u [h [Hb Hv]]]. exists u.
        rewrite Hb. split; [reflexivity | exact Hv].
    + destruct (String.eqb (rq_pathname rq) "/api/hat/equip"
                && String.eqb (rq_method rq) "POST").
      * destruct (@hatRoute_facts (Db.equipHat proto) rq db) as [H1 [H2 H3]].
        -- intros u h. apply equipHat_inv.
        -- split; [exact H1|]. split; [|exact H3].
           intro H. destruct (H2 H) as [u [h [Hb Hv]]]. exists u.
           rewrite Hb. split; [reflexivity | exact Hv].
      * apply untouched_facts. discriminate.
Qed.

Lemma workerFetch_facts rq db :
  let out := workerFetch urlHost proto rq db in
  (snd out = FromRoom ->
   rq_pathname rq = "/ws" /\ rq_upgrade rq = Some "websocket"
   /\ ownOrigin urlHost rq)
  /\ (fst out <> db ->
      String.prefix "/api/" (rq_pathname rq) = true
      /\ exists u, namedUser rq = Some u /\ isValidUUID u = true)
  /\ (dbInv db -> dbInv (fst out)).
Proof.
  cbv zeta. unfold workerFetch, ownOrigin.
  destruct (String.eqb (rq_pathname rq) "/ws") eqn:Ew.
  - apply String.eqb_eq in Ew.
    destruct (rq_upgrade rq) as [up|]; cbn [negb];
      [|apply untouched_facts; discriminate].
    destruct (String.eqb up "websocket") eqn:Eu; cbn [negb];
      [|apply untouched_facts; discriminate].
    apply String.eqb_eq in Eu. subst up.
    destruct (rq_origin rq) as [origin|].
    + destruct (Str.isEmpty origin) eqn:Ee.
      * cbn [fst snd]. split; [|split; [intro H; destruct (H eq_refl) | auto]].
        intros _. split; [exact Ew|]. split; [reflexivity|]. left.
        destruct origin; [reflexivity | discriminate].
      * destruct (urlHost origin) as [originHost|] eqn:Eh;
          [|apply untouched_facts; discriminate].
        destruct (String.eqb originHost (rq_host rq)) eqn:Eo; cbn [negb];
          [|apply untouched_facts; discriminate].
        cbn [fst snd].
        split; [|split; [intro H; destruct (H eq_refl) | auto]].
        intros _. split; [exact Ew|]. split; [reflexivity|]. right.
        apply String.eqb_eq in Eo. rewrite Eo. reflexivity.
    + cbn [fst snd]. split; [|split; [intro H; destruct (H eq_refl) | auto]].
      intros _. split; [exact Ew|]. split; [reflexivity | exact I].
  - destruct (String.prefix "/api/" (rq_pathname rq)) eqn:Ep;
      [|apply untouched_facts; discriminate].
    destruct (handleAPI_facts rq db) as [H1 [H2 H3]].
    split; [intro H; destruct (H1 H)|]. split; [|exact H3].
    intro H. split; [reflexivity | exact (H2 H)].
Qed.

End Gate.

(** X25. The worker passes a request on to the game room only for the path
    /ws with the header Upgrade: websocket and an origin of the site itself
    (no Origin header, or one with the host of the URL).  The tables
    change only through a request under /api/ that names a user id which
    passes [isValidUUID]; and no request breaks the consistency of the
    tables. *)
Theorem X25_worker_gatekeeping (urlHost : string -> option string)
    (proto : string -> bool) (rq : Request) (db : Db.Database) :
  let out := workerFetch urlHost proto rq db in
  (snd out = FromRoom ->
   rq_pathname rq = "/ws" /\ rq_upgrade rq = Some "websocket"
   /\ ownOrigin urlHost rq)
  /\ (fst out <> db ->
      String.prefix "/api/" (rq_pathname rq) = true
      /\ exists u, namedUser rq = Some u /\ isValidUUID u = true)
  /\ (dbInv db -> dbInv (fst out)).
Proof. apply workerFetch_facts. Qed.

(* ================================================================== *)
(** ** Further properties: HTML escaping *)
(* ================================================================== *)

Section Escaping.

Lemma append_assoc (a b c : string) :
  (a ++ (b ++ c))%string = ((a ++ b) ++ c)%string.
Proof.
  induction a as [|e a IH]; [reflexivity|].
  cbn [append]. rewrite IH. reflexivity.
Qed.

Lemma replaceAll_app c by_ a b :
  replaceAll c by_ (a ++ b)%string
  = (replaceAll c by_ a ++ replaceAll c by_ b)%string.
Proof.
  induction a as [|d a IH]; [reflexivity|].
  cbn [append replaceAll]. rewrite IH.
  destruct (Ascii.eqb d c); [apply append_assoc | reflexivity].
Qed.

Lemma esc_app a b : esc (a ++ b)%string = (esc a ++ esc b)%string.
Proof. unfold esc. rewrite !replaceAll_app. reflexivity. Qed.

Lemma esc_char c : esc (String c EmptyString) = escChar c.
Proof.
  unfold esc, escChar. cbn [replaceAll].
  destruct (Ascii.eqb c "&"); [reflexivity|]. cbn [replaceAll].
  destruct (Ascii.eqb c "<"); [reflexivity|]. cbn [replaceAll].
  destruct (Ascii.eqb c ">"); [reflexivity|]. cbn [replaceAll].
  destruct (Ascii.eqb c QUOTE); reflexivity.
Qed.

(** The four replacements in a row act as one pass over the text. *)
Lemma esc_each str : esc str = escEach str.
Proof.
  induction str as [|c str IH]; [reflexivity|].
  change (String c str) with (String c EmptyString ++ str)%string.
  rewrite esc_app, esc_char, IH. reflexivity.
Qed.

Lemma allChars_app f a b :
  allChars f (a ++ b)%string = allChars f a && allChars f b.
Proof.
  induction a as [|c a IH]; [reflexivity|].
  cbn [append allChars]. rewrite IH. apply andb_assoc.
Qed.

Lemma escChar_inert c : allChars isInert (escChar c) = true.
Proof.
  unfold escChar.
  destruct (Ascii.eqb c "&"); [reflexivity|].
  destruct (Ascii.eqb c "<") eqn:E2; [reflexivity|].
  destruct (Ascii.eqb c ">") eqn:E3; [reflexivity|].
  destruct (Ascii.eqb c QUOTE) eqn:E4; [reflexivity|].
  cbn [allChars]. unfold isInert. rewrite E2, E3, E4. reflexivity.
Qed.

Lemma escEach_inert str : allChars isInert (escEach str) = true.
Proof.
  induction str as [|c str IH]; [reflexivity|].
  cbn [escEach]. rewrite allChars_app, escChar_inert, IH. reflexivity.
Qed.

(** Two characters with the same escape are the same; the escape of one
    character is never a proper beginning of the escape of another text. *)
Lemma escChar_split c d x y :
  (escChar c ++ x)%string = (escChar d ++ y)%string -> c = d /\ x = y.
Proof.
  unfold escChar.
  destruct (Ascii.eqb c "&") eqn:C1;
    [apply Ascii.eqb_eq in C1; subst c|];
    [|destruct (Ascii.eqb c "<") eqn:C2;
       [apply Ascii.eqb_eq in C2; subst c|];
       [|destruct (Ascii.eqb c ">") eqn:C3;
          [apply Ascii.eqb_eq in C3; subst c|];
          [|destruct (Ascii.eqb c QUOTE) eqn:C4;
             [apply Ascii.eqb_eq in C4; subst c|]]]];
    (destruct (Ascii.eqb d "&") eqn:D1;
       [apply Ascii.eqb_eq in D1; subst d|];
       [|destruct (Ascii.eqb d "<") eqn:D2;
          [apply Ascii.eqb_eq in D2; subst d|];
          [|destruct (Ascii.eqb d ">") eqn:D3;
             [apply Ascii.eqb_eq in D3; subst d|];
             [|destruct (Ascii.eqb d QUOTE) eqn:D4;
                [apply Ascii.eqb_eq in D4; subst d|]]]]);
    cbn [append]; intro H; try discriminate H;
    try (injection H as H; subst; split; reflexivity);
    try (injection H as Hc _; subst;
         rewrite ?Ascii.eqb_refl in *; discriminate).
Qed.

Lemma escEach_injective a : forall b, escEach a = escEach b -> a = b.
Proof.
  induction a as [|c a IH]; intros [|d b] H.
  - reflexivity.
  - exfalso. cbn [escEach] in H. unfold escChar in H.
    destruct (Ascii.eqb d "&"); [discriminate H|].
    destruct (Ascii.eqb d "<"); [discriminate H|].
    destruct (Ascii.eqb d ">"); [discriminate H|].
    destruct (Ascii.eqb d QUOTE); discriminate H.
  - exfalso. cbn [escEach] in H. unfold escChar in H.
    destruct (Ascii.eqb c "&"); [discriminate H|].
    destruct (Ascii.eqb c "<"); [discriminate H|].
    destruct (Ascii.eqb c ">"); [discriminate H|].
    destruct (Ascii.eqb c QUOTE); discriminate H.
  - cbn [escEach] in H. apply escChar_split in H as [-> H].
    f_equal. apply IH. exact H.
Qed.

End Escaping.

(** X26. [esc], four replacements in a row, acts as one pass that turns
    each of the characters &, <, > and the double quote into its entity
    and keeps every other character; so the result has no <, no > and no
    double quote, whatever the text, and two texts with the same escape
    are the same text. *)
Theorem X26_esc_neutralises_markup (str other : string) :
  esc str = escEach str
  /\ allChars isInert (esc str) = true
  /\ (esc str = esc other -> str = other).
Proof.
  split; [apply esc_each|]. split.
  - rewrite esc_each. apply escEach_inert.
  - rewrite !esc_each. apply escEach_injective.
Qed.

Lemma X26_esc_neutralises_markup_witness :
  allChars isInert (esc "<img src=x onerror=alert(1)>&") = true
  /\ "Ann" = "Ann".
Proof.
  destruct (X26_esc_neutralises_markup "<img src=x onerror=alert(1)>&" "")
    as [_ [H _]].
  split; [exact H|].
  destruct (X26_esc_neutralises_markup "Ann" "Ann") as [_ [_ H3]].
  apply H3. reflexivity.
Defined.

Lemma X22_buyHat_contract_witness :
  let userId := "123e4567-e89b-12d3-a456-426614174000" in
  let out := Db.buyHat sampleProto userId "beret" sampleDb in
  exists hat old,
    Db.lookupHat sampleProto "beret" = Db.OwnHat hat
    /\ Db.selectUser userId sampleDb = Some old
    /\ Db.ownsHat userId "beret" sampleDb = false
    /\ Db.meetsAchievement hat old = true
    /\ (Db.hat_cost hat <= Db.coins_balance old)%Z
    /\ Db.mkUserRow userId "Ann" 400 100 1 7 "cap"
       = afterPurchase (Db.hat_cost hat) old
    /\ Db.user_hats (fst out) = Db.user_hats sampleDb ++ [(userId, "beret")]
    /\ (forall v, v <> userId ->
          Db.selectUser v (fst out) = Db.selectUser v sampleDb)
    /\ In "beret" ["cap"; "beret"].
Proof.
  exact (@X22_buyHat_contract sampleProto
           "123e4567-e89b-12d3-a456-426614174000" "beret" sampleDb).
Defined.

Lemma X23_equipHat_contract_witness :
  let userId := "123e4567-e89b-12d3-a456-426614174000" in
  let db := fst (Db.buyHat sampleProto userId "beret" sampleDb) in
  let out := Db.equipHat sampleProto userId "beret" db in
  exists old,
    Db.lookupHat sampleProto "beret" <> Db.Missing
    /\ Db.selectUser userId db = Some old
    /\ Db.ownsHat userId "beret" db = true
    /\ Db.mkUserRow userId "Ann" 400 100 1 7 "beret" = wearing "beret" old
    /\ Db.user_hats (fst out) = Db.user_hats db
    /\ ["cap"; "beret"] = Db.hatsOf userId db
    /\ (forall v, v <> userId ->
          Db.selectUser v (fst out) = Db.selectUser v db).
Proof.
  exact (@X23_equipHat_contract sampleProto
           "123e4567-e89b-12d3-a456-426614174000" "beret"
           (fst (Db.buyHat sampleProto
                   "123e4567-e89b-12d3-a456-426614174000" "beret" sampleDb))).
Defined.

Lemma X25_worker_gatekeeping_witness :
  let out := workerFetch (fun _ => None) sampleProto sampleRequest sampleDb in
  String.prefix "/api/" (rq_pathname sampleRequest) = true
  /\ exists u, namedUser sampleRequest = Some u /\ isValidUUID u = true.
Proof.
  intro out.
  destruct (@X25_worker_gatekeeping (fun _ => None) sampleProto sampleRequest
              sampleDb) as [_ [H _]].
  apply H. vm_compute. discriminate.
Defined.

(* ================================================================== *)
(** ** Further properties: from the room to the tables, and into a round *)
(* ================================================================== *)

Section EndToEnd.

Variable E : Env.


Lemma lobby_alarm_counts now sendOk r :
  state r = LOBBY -> players r <> [] ->
  let r' := fst (alarm E now sendOk r) in
  state r' = COUNTDOWN /\ countdownSeconds r' = COUNTDOWN_SECONDS
  /\ players r' = players r /\ waitingRoom r' = waitingRoom r.
Proof.
  intros Hs Hp. cbv zeta. unfold alarm. rewrite Hs.
  destruct (players r) as [|e ps] eqn:Ep; [destruct (Hp eq_refl)|].
  cbn [JsMap.size List.length Nat.ltb Nat.leb fst _startCountdown state
       countdownSeconds players waitingRoom setCountdownSeconds setState].
  rewrite Ep. repeat split.
Qed.

End EndToEnd.



(** X28. From a lobby with at least one player, six alarms in a row with
    nothing in between start a round: the first starts the countdown at
    5, the next four announce 4, 3, 2, 1 and the sixth enters PLAYING
    with the full time, no coin, the same players and the same waiters. *)
Theorem X28_lobby_alarms_start_round (E : Env) (s : Stimulus)
    (ss : list Stimulus) (r : Room) :
  state r = LOBBY -> players r <> [] ->
  Forall (fun s => st_trigger s = OnAlarm) (s :: ss) ->
  List.length ss = 5%nat ->
  let out := run E (s :: ss) r in
  state (fst out) = PLAYING
  /\ timeLeft (fst out) = GAME_DURATION
  /\ coins (fst out) = []
  /\ JsMap.keys (players (fst out)) = JsMap.keys (players r)
  /\ waitingRoom (fst out) = waitingRoom r
  /\ countdownsOf (snd out) = [5; 4; 3; 2; 1]%Z.
Proof.
  intros Hs Hp Ha Hl. inversion Ha as [|? ? Hs1 Ha']; subst.
  cbv zeta. cbn [run]. unfold handle. rewrite Hs1.
  destruct (@lobby_alarm_counts E (st_now s) (st_sendOk s) r Hs Hp)
    as [H1 [H2 [H3 H4]]].
  assert (He : countdownsOf (snd (alarm E (st_now s) (st_sendOk s) r))
               = [5%Z]).
  { unfold alarm. rewrite Hs.
    destruct (players r) as [|e ps]; [destruct (Hp eq_refl)|]. reflexivity. }
  destruct (alarm E (st_now s) (st_sendOk s) r) as [r1 e1].
  cbn [fst snd] in *.
  pose proof (@countdown_run E ss r1 H1 Ha') as C.
  rewrite H2, Hl in C. specialize (C eq_refl ltac:(unfold COUNTDOWN_SECONDS; lia)).
  cbv zeta in C. destruct (run E ss r1) as [r2 e2]. cbn [fst snd] in *.
  destruct C as [C1 [C2 [C3 [C4 [C5 C6]]]]].
  rewrite H3 in C4. rewrite H4 in C5.
  repeat split; try assumption.
  unfold countdownsOf in *. rewrite flat_map_app, He, C6. reflexivity.
Qed.

Lemma X28_lobby_alarms_start_round_witness :
  let r := fst (run sampleEnv [joinAt 0 "1" "Ann"; joinAt 5 "2" "Bob"] newRoom) in
  let out := run sampleEnv
               (alarmAt 20000
                :: [alarmAt 21000; alarmAt 22000; alarmAt 23000;
                    alarmAt 24000; alarmAt 25000]) r in
  state (fst out) = PLAYING
  /\ timeLeft (fst out) = GAME_DURATION
  /\ coins (fst out) = []
  /\ JsMap.keys (players (fst out)) = JsMap.keys (players r)
  /\ waitingRoom (fst out) = waitingRoom r
  /\ countdownsOf (snd out) = [5; 4; 3; 2; 1]%Z.
Proof.
  intros r out.
  apply (@X28_lobby_alarms_start_round sampleEnv (alarmAt 20000)
           [alarmAt 21000; alarmAt 22000; alarmAt 23000; alarmAt 24000;
            alarmAt 25000] r).
  - reflexivity.
  - vm_compute. discriminate.
  - repeat constructor.
  - reflexivity.
Defined.
